(** * universal-excel-splitter: the merge engine, header registry, value
    normalizer, split filter and field operations, embedded from the
    TypeScript sources and checked against the written specification.

    Conventions of the embedding.
    - A JavaScript string is its sequence of UTF-16 code units, [list N].
    - A JavaScript number is [NaN], an infinity, or a finite decimal
      [Fin m e], which stands for the binary64 value nearest to
      [m * 10^e] ([binary64]); every binary64 value is itself such a
      decimal. The date decode works on these values: its comparisons
      are made on them, and its arithmetic ([fsub], [fmul]) rounds each
      result to binary64, ties to even. Elsewhere comparison ([ltb],
      [eqb]), [parseFloat], [ofZ] and [toString] work on the decimal:
      this is what the engine does on the decimals of at most 15
      significant digits, which binary64 values hold apart and print
      back, and on the integers below 2^53, which are binary64 values.
    - A JavaScript object used as a dictionary is a [gmap] over its own
      properties; names inherited from [Object.prototype] are outside the
      model, except in [MergeExn], where the merge is run on the mapping
      object as the mapper hands it over.
    - [String.prototype.toLowerCase] is a parameter of the split filter. *)

From Stdlib Require Import ZArith Ascii String Decimal DecimalN.
From stdpp Require Import gmap list.

Local Open Scope Z_scope.

(* ================================================================== *)
(** ** Strings *)
(* ================================================================== *)

Module JS.

Abbreviation jsstring := (list N).

(** An ASCII literal as a sequence of code units. *)
Definition str (s : string) : jsstring :=
  List.map N_of_ascii (list_ascii_of_string s).

(** WhiteSpace and LineTerminator code units: what [trim], [\s] and the
    numeric-string grammar skip. *)
Definition isWhiteSpace (c : N) : bool :=
  ((9 <=? c) && (c <=? 13) || (c =? 32) || (c =? 160) || (c =? 5760)
   || (8192 <=? c) && (c <=? 8202) || (c =? 8232) || (c =? 8233)
   || (c =? 8239) || (c =? 8287) || (c =? 12288) || (c =? 65279))%N.

Definition isDigit (c : N) : bool := ((48 <=? c) && (c <=? 57))%N.

Fixpoint trimStart (s : jsstring) : jsstring :=
  match s with
  | c :: s' => if isWhiteSpace c then trimStart s' else s
  | [] => []
  end.

Definition trimEnd (s : jsstring) : jsstring := rev (trimStart (rev s)).

(** [s.trim()] *)
Definition trim (s : jsstring) : jsstring := trimEnd (trimStart s).

(** [s.startsWith(p)] *)
Fixpoint startsWith (p s : jsstring) : bool :=
  match p, s with
  | [], _ => true
  | a :: p', b :: s' => (a =? b)%N && startsWith p' s'
  | _ :: _, [] => false
  end.


(** [s.includes(p)] *)
Fixpoint includes (p s : jsstring) : bool :=
  startsWith p s ||
  match s with
  | [] => false
  | _ :: s' => includes p s'
  end.

(** [s.split(sep)]: [cur] is the piece being read (reversed), [skip] the
    number of code units of a separator just recognised that are still to
    be passed over. *)
Fixpoint split_go (sep cur s : jsstring) (skip : nat) : list jsstring :=
  match s with
  | [] => [rev cur]
  | c :: s' =>
      match skip with
      | S k => split_go sep cur s' k
      | O =>
          if startsWith sep s
          then rev cur :: split_go sep [] s' (Nat.pred (length sep))
          else split_go sep (c :: cur) s' O
      end
  end.

Definition split (sep s : jsstring) : list jsstring :=
  match sep with
  | [] => List.map (fun c => [c]) s
  | _ => split_go sep [] s O
  end.

(** [parts.join(sep)] *)
Fixpoint join (sep : jsstring) (parts : list jsstring) : jsstring :=
  match parts with
  | [] => []
  | [p] => p
  | p :: rest => p ++ sep ++ join sep rest
  end.

(** Decimal digits of a natural number, most significant first. *)
Fixpoint uint_digits (d : Decimal.uint) : jsstring :=
  match d with
  | Nil => []
  | D0 d => 48%N :: uint_digits d
  | D1 d => 49%N :: uint_digits d
  | D2 d => 50%N :: uint_digits d
  | D3 d => 51%N :: uint_digits d
  | D4 d => 52%N :: uint_digits d
  | D5 d => 53%N :: uint_digits d
  | D6 d => 54%N :: uint_digits d
  | D7 d => 55%N :: uint_digits d
  | D8 d => 56%N :: uint_digits d
  | D9 d => 57%N :: uint_digits d
  end.

Definition digitsOfN (n : N) : jsstring := uint_digits (N.to_uint n).

(** The number written by a run of decimal digits. *)
Definition digitsValue (s : jsstring) : Z :=
  fold_left (fun acc c => 10 * acc + (Z.of_N c - 48)) s 0.

(** [n.padStart(w, "0")] on the digits of [n]. *)
Definition padDigits (w : nat) (n : N) : jsstring :=
  let d := digitsOfN n in
  repeat 48%N (w - length d) ++ d.

(* ================================================================== *)
(** ** Numbers *)
(* ================================================================== *)

(** [Fin m e] is the finite number [m * 10^e]. *)
Inductive number : Type :=
  | NaN
  | Infinity (negative : bool)
  | Fin (m e : Z).

(** Trailing zeros of the mantissa moved into the exponent; zero is
    [(0, 0)]. *)
Fixpoint canon_go (fuel : nat) (m e : Z) : Z * Z :=
  match fuel with
  | O => (m, e)
  | S f =>
      if m =? 0 then (0, 0)
      else if m mod 10 =? 0 then canon_go f (m / 10) (e + 1)
      else (m, e)
  end.

Definition canon (m e : Z) : Z * Z :=
  canon_go (S (Z.to_nat (Z.log2 (Z.abs m)))) m e.

Definition mkFin (m e : Z) : number :=
  let '(m', e') := canon m e in Fin m' e'.

Definition ofZ (z : Z) : number := mkFin z 0.

(** Both mantissas brought to the smaller exponent. *)
Definition aligned (m1 e1 m2 e2 : Z) : Z * Z :=
  let k := Z.min e1 e2 in (m1 * 10 ^ (e1 - k), m2 * 10 ^ (e2 - k)).

(** [a < b]; false as soon as an operand is [NaN]. *)
Definition ltb (a b : number) : bool :=
  match a, b with
  | NaN, _ | _, NaN => false
  | Infinity true, Infinity true => false
  | Infinity true, _ => true
  | _, Infinity true => false
  | Infinity false, _ => false
  | _, Infinity false => true
  | Fin m1 e1, Fin m2 e2 => let '(x, y) := aligned m1 e1 m2 e2 in x <? y
  end.

(** [a === b] on numbers. *)
Definition eqb (a b : number) : bool :=
  match a, b with
  | NaN, _ | _, NaN => false
  | Infinity s1, Infinity s2 => Bool.eqb s1 s2
  | Fin m1 e1, Fin m2 e2 => let '(x, y) := aligned m1 e1 m2 e2 in x =? y
  | _, _ => false
  end.

Definition gtb (a b : number) : bool := ltb b a.

Definition isNaN (a : number) : bool :=
  match a with NaN => true | _ => false end.

(** The exact difference and product of two numbers. *)
Definition sub (a b : number) : number :=
  match a, b with
  | Fin m1 e1, Fin m2 e2 =>
      let '(x, y) := aligned m1 e1 m2 e2 in Fin (x - y) (Z.min e1 e2)
  | Infinity s, Fin _ _ => Infinity s
  | Fin _ _, Infinity s => Infinity (negb s)
  | Infinity s1, Infinity s2 => if Bool.eqb s1 s2 then NaN else Infinity s1
  | _, _ => NaN
  end.

Definition isNegative (a : number) : bool :=
  match a with
  | Fin m _ => m <? 0
  | Infinity s => s
  | NaN => false
  end.

Definition isZero (a : number) : bool :=
  match a with Fin m _ => m =? 0 | _ => false end.

Definition mul (a b : number) : number :=
  match a, b with
  | Fin m1 e1, Fin m2 e2 => Fin (m1 * m2) (e1 + e2)
  | NaN, _ | _, NaN => NaN
  | _, _ =>
      if isZero a || isZero b then NaN
      else Infinity (xorb (isNegative a) (isNegative b))
  end.

(** [Math.round]: the nearest integer, halves going up; the result of
    a binary64 value is a binary64 value, so nothing is rounded off. *)
Definition round (a : number) : number :=
  match a with
  | Fin m e =>
      if 0 <=? e then Fin (m * 10 ^ e) 0
      else let p := 10 ^ (- e) in Fin ((2 * m + p) / (2 * p)) 0
  | _ => a
  end.

(** *** binary64 *)

(** The integer nearest to the fraction [num / den], a tie going to the
    even one ([0 <= num], [0 < den]). *)
Definition roundHalfEven (num den : Z) : Z :=
  let q := num / den in
  let r := num mod den in
  if 2 * r <? den then q
  else if den <? 2 * r then q + 1
  else if Z.even q then q else q + 1.

(** The fraction [num / den] divided by [2^E]. *)
Definition scale2 (num den E : Z) : Z * Z :=
  if 0 <=? E then (num, den * 2 ^ E) else (num * 2 ^ (- E), den).

(** The binary64 number nearest to the positive fraction [num / den], as
    a significand [q] and an exponent [E]: the number is [q * 2^E]. [lg]
    is the integer part of the binary logarithm of the fraction, so [q]
    has 53 bits, and fewer in the subnormal range, where [E] stays at
    [-1074]. *)
Definition nearest64 (num den : Z) : Z * Z :=
  let t := Z.log2 num - Z.log2 den in
  let '(n1, d1) := scale2 num den t in
  let lg := if n1 <? d1 then t - 1 else t in
  let E := Z.max (lg - 52) (-1074) in
  let '(n2, d2) := scale2 num den E in
  (roundHalfEven n2 d2, E).

(** The binary64 value a number stands for: the nearest one, ties to
    even, an infinity from [2^1024] on. The value [q * 2^E] is written
    as the decimal [q * 5^(-E) * 10^E] when [E] is negative. *)
Definition binary64 (a : number) : number :=
  match a with
  | Fin m e =>
      if m =? 0 then Fin 0 0 else
      let '(q, E) :=
        if 0 <=? e then nearest64 (Z.abs m * 10 ^ e) 1
        else nearest64 (Z.abs m) (10 ^ (- e)) in
      if (971 <? E) || (E =? 971) && (q =? 2 ^ 53) then Infinity (m <? 0)
      else if 0 <=? E then Fin (Z.sgn m * q * 2 ^ E) 0
      else Fin (Z.sgn m * q * 5 ^ (- E)) E
  | _ => a
  end.

(** [a - b] and [a * b] as the engine computes them: the exact result on
    the binary64 values of the operands, rounded to binary64. *)
Definition fsub (a b : number) : number :=
  binary64 (sub (binary64 a) (binary64 b)).

Definition fmul (a b : number) : number :=
  binary64 (mul (binary64 a) (binary64 b)).

(** [Math.abs] *)
Definition abs (a : number) : number :=
  match a with
  | Fin m e => Fin (Z.abs m) e
  | Infinity _ => Infinity false
  | NaN => NaN
  end.

(** ToIntegerOrInfinity on a finite number: the fraction is dropped. *)
Definition truncate (m e : Z) : Z :=
  if 0 <=? e then m * 10 ^ e else Z.quot m (10 ^ (- e)).

(** [Number::toString] (radix 10): [s] are the significant digits, [k]
    their count and [n] the position of the decimal point. *)
Definition toString (a : number) : jsstring :=
  match a with
  | NaN => str "NaN"
  | Infinity s => (if s then str "-" else []) ++ str "Infinity"
  | Fin m e =>
      let '(m', e') := canon m e in
      if m' =? 0 then str "0" else
      let sign := if m' <? 0 then str "-" else [] in
      let s := digitsOfN (Z.to_N (Z.abs m')) in
      let k := Z.of_nat (length s) in
      let n := e' + k in
      let expo (x : Z) :=
        (if x <? 0 then str "-" else str "+") ++ digitsOfN (Z.to_N (Z.abs x)) in
      sign ++
      (if (k <=? n) && (n <=? 21) then
         s ++ repeat 48%N (Z.to_nat (n - k))
       else if (0 <? n) && (n <=? 21) then
         take (Z.to_nat n) s ++ str "." ++ drop (Z.to_nat n) s
       else if (-6 <? n) && (n <=? 0) then
         str "0." ++ repeat 48%N (Z.to_nat (- n)) ++ s
       else if k =? 1 then
         s ++ str "e" ++ expo (n - 1)
       else
         take 1 s ++ str "." ++ drop 1 s ++ str "e" ++ expo (n - 1))
  end.

(** The longest run of decimal digits at the head of a string, and the
    rest. *)
Fixpoint spanDigits (s : jsstring) : jsstring * jsstring :=
  match s with
  | c :: s' =>
      if isDigit c then let '(d, r) := spanDigits s' in (c :: d, r)
      else ([], s)
  | [] => ([], [])
  end.

(** The exponent part [[eE][+-]?digits] at the head of a string, 0 when
    there is none. *)
Definition exponentPart (s : jsstring) : Z :=
  match s with
  | c :: s1 =>
      if ((c =? 101) || (c =? 69))%N then
        let '(neg, s2) :=
          match s1 with
          | d :: s2 =>
              if (d =? 45)%N then (true, s2)
              else if (d =? 43)%N then (false, s2)
              else (false, s1)
          | [] => (false, s1)
          end in
        let '(ds, _) := spanDigits s2 in
        match ds with
        | [] => 0
        | _ => if neg then - digitsValue ds else digitsValue ds
        end
      else 0
  | [] => 0
  end.

(** [parseFloat]: leading white space skipped, then the longest prefix
    that is a decimal literal; [NaN] when there is none. *)
Definition parseFloat (input : jsstring) : number :=
  let s0 := trimStart input in
  let '(neg, s1) :=
    match s0 with
    | c :: r =>
        if (c =? 45)%N then (true, r)
        else if (c =? 43)%N then (false, r)
        else (false, s0)
    | [] => (false, s0)
    end in
  if startsWith (str "Infinity") s1 then Infinity neg else
  let '(ip, s2) := spanDigits s1 in
  let '(fp, s3) :=
    match s2 with
    | c :: r => if (c =? 46)%N then spanDigits r else ([], s2)
    | [] => ([], s2)
    end in
  match ip, fp with
  | [], [] => NaN
  | _, _ =>
      let m := digitsValue (ip ++ fp) in
      let e := exponentPart s3 - Z.of_nat (length fp) in
      mkFin (if neg then - m else m) e
  end.

(* ================================================================== *)
(** ** Values *)
(* ================================================================== *)

(** What a spreadsheet cell or a merged property can hold. *)
Inductive value : Type :=
  | VUndefined
  | VNull
  | VBool (b : bool)
  | VNum (n : number)
  | VStr (s : jsstring).

(** [String(v)] *)
Definition String_ (v : value) : jsstring :=
  match v with
  | VUndefined => str "undefined"
  | VNull => str "null"
  | VBool true => str "true"
  | VBool false => str "false"
  | VNum n => toString n
  | VStr s => s
  end.

(** ToBoolean: what [if (v)] and [v || d] test. *)
Definition truthy (v : value) : bool :=
  match v with
  | VUndefined | VNull => false
  | VBool b => b
  | VNum n => negb (isNaN n || isZero n)
  | VStr s => match s with [] => false | _ => true end
  end.

(** [v !== undefined && v !== null] *)
Definition isPresent (v : value) : bool :=
  match v with
  | VUndefined | VNull => false
  | _ => true
  end.

(** [v === ''] *)
Definition isEmptyString (v : value) : bool :=
  match v with
  | VStr [] => true
  | _ => false
  end.

(** [obj[key]] on an object read through its own properties. *)
Definition get (obj : gmap jsstring value) (key : jsstring) : value :=
  default VUndefined (obj !! key).

(** [Object.prototype.hasOwnProperty.call(obj, key)] *)
Definition hasOwnProperty (obj : gmap jsstring value) (key : jsstring) : bool :=
  bool_decide (is_Some (obj !! key)).

(* ================================================================== *)
(** ** Regular expressions *)
(* ================================================================== *)

(** Patterns without captures or look-around; [test] on a pattern anchored
    at both ends asks whether the whole string is in its language. *)
Inductive regex : Type :=
  | Void
  | Eps
  | Class (p : N -> bool)
  | Seq (r1 r2 : regex)
  | Alt (r1 r2 : regex)
  | Star (r : regex).

Definition Opt (r : regex) : regex := Alt r Eps.
Definition Plus (r : regex) : regex := Seq r (Star r).

Fixpoint nullable (r : regex) : bool :=
  match r with
  | Void => false
  | Eps => true
  | Class _ => false
  | Seq r1 r2 => nullable r1 && nullable r2
  | Alt r1 r2 => nullable r1 || nullable r2
  | Star _ => true
  end.

Definition mkSeq (r1 r2 : regex) : regex :=
  match r1 with
  | Void => Void
  | Eps => r2
  | _ => Seq r1 r2
  end.

Definition mkAlt (r1 r2 : regex) : regex :=
  match r1, r2 with
  | Void, _ => r2
  | _, Void => r1
  | _, _ => Alt r1 r2
  end.

(** The residual of a pattern after one code unit. *)
Fixpoint deriv (c : N) (r : regex) : regex :=
  match r with
  | Void | Eps => Void
  | Class p => if p c then Eps else Void
  | Seq r1 r2 =>
      mkAlt (mkSeq (deriv c r1) r2) (if nullable r1 then deriv c r2 else Void)
  | Alt r1 r2 => mkAlt (deriv c r1) (deriv c r2)
  | Star r1 => mkSeq (deriv c r1) (Star r1)
  end.

(** [/^r$/.test(s)] *)
Fixpoint test (r : regex) (s : jsstring) : bool :=
  match s with
  | [] => nullable r
  | c :: s' => test (deriv c r) s'
  end.

(** The language of a pattern; [test] decides it (lemma [test_matches]). *)
Inductive matches : regex -> jsstring -> Prop :=
  | m_eps : matches Eps []
  | m_class p c : p c = true -> matches (Class p) [c]
  | m_seq r1 r2 s1 s2 :
      matches r1 s1 -> matches r2 s2 -> matches (Seq r1 r2) (s1 ++ s2)
  | m_alt_l r1 r2 s : matches r1 s -> matches (Alt r1 r2) s
  | m_alt_r r1 r2 s : matches r2 s -> matches (Alt r1 r2) s
  | m_star_nil r : matches (Star r) []
  | m_star_cons r s1 s2 :
      matches r s1 -> matches (Star r) s2 -> matches (Star r) (s1 ++ s2).

(* ================================================================== *)
(** ** Dates *)
(* ================================================================== *)

Definition msPerDay : Z := 86400000.

(** The proleptic Gregorian date of a day number counted from
    1970-01-01: year, month (1-12) and day of the month. *)
Definition civilFromDays (day : Z) : Z * Z * Z :=
  let z := day + 719468 in
  let era := z / 146097 in
  let doe := z - era * 146097 in
  let yoe := (doe - doe / 1460 + doe / 36524 - doe / 146096) / 365 in
  let doy := doe - (365 * yoe + yoe / 4 - yoe / 100) in
  let mp := (5 * doy + 2) / 153 in
  let d := doy - (153 * mp + 2) / 5 + 1 in
  let m := if mp <? 10 then mp + 3 else mp - 9 in
  let y := yoe + era * 400 + (if m <=? 2 then 1 else 0) in
  (y, m, d).

(** The [YYYY-MM-DD] part of the ISO format; years outside 0..9999 take
    the expanded form with a sign and six digits. *)
Definition isoDate (day : Z) : jsstring :=
  let '(y, m, d) := civilFromDays day in
  (if (0 <=? y) && (y <=? 9999) then padDigits 4 (Z.to_N y)
   else (if y <? 0 then str "-" else str "+") ++ padDigits 6 (Z.to_N (Z.abs y)))
  ++ str "-" ++ padDigits 2 (Z.to_N m) ++ str "-" ++ padDigits 2 (Z.to_N d).

(** The [HH:mm:ss.sss] part, from the milliseconds within the day. *)
Definition isoTime (ms : Z) : jsstring :=
  padDigits 2 (Z.to_N (ms / 3600000)) ++ str ":" ++
  padDigits 2 (Z.to_N (ms / 60000 mod 60)) ++ str ":" ++
  padDigits 2 (Z.to_N (ms / 1000 mod 60)) ++ str "." ++
  padDigits 3 (Z.to_N (ms mod 1000)).

(** TimeClip: the time value of [new Date(t)]; [None] is the invalid
    date of a [t] that is not finite or lies beyond 8.64e15. *)
Definition timeClip (t : number) : option Z :=
  match t with
  | Fin m e =>
      if ltb (ofZ 8640000000000000) (abs t) then None else Some (truncate m e)
  | _ => None
  end.

(** [new Date(t).toISOString()]; [None] is the RangeError raised on an
    invalid date. *)
Definition Date_toISOString (t : number) : option jsstring :=
  match timeClip t with
  | Some ms =>
      Some (isoDate (ms / msPerDay) ++ str "T" ++ isoTime (ms mod msPerDay)
            ++ str "Z")
  | None => None
  end.

End JS.

Import JS.

(* ================================================================== *)
(** ** types.ts *)
(* ================================================================== *)

Record SheetData : Type := {
  fileName : jsstring;
  sheetName : jsstring;
  headers : list jsstring;
  rows : list (gmap jsstring value)
}.

(** ['string' | 'number'] *)
Inductive ColumnType : Type := type_string | type_number.

Record FieldDefinition : Type := {
  key : jsstring;
  label : jsstring;
  type : ColumnType
}.

Inductive MergeMethod : Type := vertical | join_.
Inductive JoinType : Type := outer | inner | left.

Record MergeConfig : Type := {
  method : MergeMethod;
  joinKey : jsstring;
  joinType : JoinType;
  removeDuplicates : bool
}.

(* ================================================================== *)
(** ** utils/excelUtils.ts *)
(* ================================================================== *)

(** [a || d] on strings. *)
Definition orElse (a d : jsstring) : jsstring :=
  match a with [] => d | _ => a end.

(** [None] is the RangeError [toISOString] raises on an invalid date.
    The comparisons and the arithmetic are those of the engine, on the
    binary64 value of [serial]. *)
Definition excelDateToJSDate (serial : number) : option jsstring :=
  if ltb (binary64 serial) (ofZ 1) || gtb (binary64 serial) (ofZ 100000)
  then Some (String_ (VNum serial))
  else
    iso ← Date_toISOString
             (round (fmul (fmul (fsub serial (ofZ 25569)) (ofZ 86400)) (ofZ 1000)));
    head (split (str "T") iso).

(** [val > 20000 && val < 60000], on the binary64 value of [val]. *)
Definition isPotentialExcelDate (val : value) : bool :=
  match val with
  | VNum n => gtb (binary64 n) (ofZ 20000) && ltb (binary64 n) (ofZ 60000)
  | _ => false
  end.

(** The [map] callback runs left to right over the headers and threads
    the [counts] object through. *)
Fixpoint makeHeadersUnique_from (counts : gmap jsstring nat)
    (rawHeaders : list jsstring) : list jsstring :=
  match rawHeaders with
  | [] => []
  | h :: rest =>
      let original := trim (orElse h (str "Column")) in
      let cleanHeader := orElse original (str "Column") in
      match counts !! cleanHeader with
      | None =>
          cleanHeader :: makeHeadersUnique_from (<[cleanHeader := O]> counts) rest
      | Some n =>
          (cleanHeader ++ str "_" ++ toString (ofZ (Z.of_nat (S n))))
            :: makeHeadersUnique_from (<[cleanHeader := S n]> counts) rest
      end
  end.

Definition makeHeadersUnique (rawHeaders : list jsstring) : list jsstring :=
  makeHeadersUnique_from ∅ rawHeaders.

Definition isCurrencySymbol (c : N) : bool :=
  ((c =? 36) || (c =? 8364) || (c =? 163) || (c =? 165))%N.

(** [/^[$€£¥]?\s*-?[\d,]+(\.\d+)?%?$/] *)
Definition numericPattern : regex :=
  Seq (Opt (Class isCurrencySymbol))
   (Seq (Star (Class isWhiteSpace))
    (Seq (Opt (Class (N.eqb 45)))
     (Seq (Plus (Class (fun c => isDigit c || (c =? 44)%N)))
      (Seq (Opt (Seq (Class (N.eqb 46)) (Plus (Class isDigit))))
           (Opt (Class (N.eqb 37))))))).

(** [s.replace(/[^0-9.-]/g, '')] *)
Definition stripNonNumeric (s : jsstring) : jsstring :=
  List.filter (fun c => isDigit c || (c =? 46)%N || (c =? 45)%N) s.

(** The date branch is only entered on a number of the serial band, for
    which [excelDateToJSDate] returns (see [excelDateToJSDate_band]); the
    [None] case is never reached. *)
Definition cleanAndFormatValue (val : value) : value :=
  match val with
  | VUndefined | VNull | VStr [] => VStr []
  | VNum n =>
      if isPotentialExcelDate val
      then match excelDateToJSDate n with
           | Some s => VStr s
           | None => VStr []
           end
      else val
  | VStr s =>
      let trimmed := trim s in
      if test numericPattern trimmed then
        let cleanNum := parseFloat (stripNonNumeric trimmed) in
        if negb (isNaN cleanNum) then VNum cleanNum else VStr trimmed
      else VStr trimmed
  | VBool _ => val
  end.

Record MappingId : Type := {
  m_fileName : jsstring;
  m_sheetName : jsstring;
  m_header : jsstring
}.

Definition parseMappingId (mappingId : jsstring) : MappingId :=
  let parts := split (str "::") mappingId in
  if (length parts <? 3)%nat
  then {| m_fileName := []; m_sheetName := []; m_header := mappingId |}
  else {| m_fileName := nth 0 parts [];
          m_sheetName := nth 1 parts [];
          m_header := JS.join (str "::") (drop 2 parts) |}.

(** [fileName === sheet.fileName && sheetName === sheet.sheetName] *)
Definition namesSheet (p : MappingId) (sheet : SheetData) : bool :=
  bool_decide (m_fileName p = fileName sheet)
  && bool_decide (m_sheetName p = sheetName sheet).

(** The candidate loop of [stackData]: the first candidate that applies to
    the sheet and holds a defined, non-null, non-empty value gives the
    value; otherwise [val] keeps its initial ['']. *)
Fixpoint resolveValue (sheet : SheetData) (row : gmap jsstring value)
    (sourceMappingIds : list jsstring) : value :=
  match sourceMappingIds with
  | [] => VStr []
  | mId :: rest =>
      let p := parseMappingId mId in
      if namesSheet p sheet || negb (includes (str "::") mId) then
        let targetHeader := if includes (str "::") mId then m_header p else mId in
        if hasOwnProperty row targetHeader then
          let rawVal := get row targetHeader in
          if isPresent rawVal && negb (isEmptyString rawVal) then rawVal
          else resolveValue sheet row rest
        else resolveValue sheet row rest
      else resolveValue sheet row rest
  end.

(** One output row of [stackData]. The fields are written by a fold over
    the entries of [mappings]; distinct keys make the order of the writes
    immaterial to the resulting object. *)
Definition stackRow (sheet : SheetData) (mappings : gmap jsstring (list jsstring))
    (index : nat) (row : gmap jsstring value) : gmap jsstring value :=
  let newRow : gmap jsstring value :=
    {[ str "id" := VStr (fileName sheet ++ str "-" ++ sheetName sheet ++ str "-"
                           ++ toString (ofZ (Z.of_nat index))) ]} in
  let newRow :=
    map_fold (fun targetField sourceMappingIds (acc : gmap jsstring value) =>
                <[targetField := cleanAndFormatValue
                                   (resolveValue sheet row sourceMappingIds)]> acc)
             newRow mappings in
  <[str "_sourceSheet" := VStr (sheetName sheet)]>
    (<[str "_sourceFile" := VStr (fileName sheet)]> newRow).

Definition stackData (sheets : list SheetData)
    (mappings : gmap jsstring (list jsstring)) : list (gmap jsstring value) :=
  foldl (fun merged sheet => merged ++ imap (stackRow sheet mappings) (rows sheet))
        [] sheets.

(** The index [joinData] builds: [keyMap] from key to per-sheet-index
    slot, and [allKeySet] in insertion order. *)
Record JoinIndex : Type := {
  keyMap : gmap jsstring (gmap nat (gmap jsstring value));
  allKeySet : list jsstring
}.

(** [set.add(k)] on a set kept in insertion order. *)
Definition setAdd (l : list jsstring) (k : jsstring) : list jsstring :=
  if bool_decide (k ∈ l) then l else l ++ [k].

(** [Array.from(new Set(l))] *)
Definition setFromArray (l : list jsstring) : list jsstring :=
  foldl setAdd [] l.

(** The key loop of the index pass: [None] is [keyValue] left [null]. *)
Fixpoint deriveKey (keyMappingIds : list jsstring) (sheet : SheetData)
    (row : gmap jsstring value) : option jsstring :=
  match keyMappingIds with
  | [] => None
  | mId :: rest =>
      let p := parseMappingId mId in
      if namesSheet p sheet then
        let v := get row (m_header p) in
        if isPresent v && negb (bool_decide (trim (String_ v) = []))
        then Some (trim (String_ v))
        else deriveKey rest sheet row
      else deriveKey rest sheet row
  end.

(** [{ ...row, _srcFile: sheet.fileName, _srcSheet: sheet.sheetName }] *)
Definition slotOf (sheet : SheetData) (row : gmap jsstring value)
    : gmap jsstring value :=
  <[str "_srcSheet" := VStr (sheetName sheet)]>
    (<[str "_srcFile" := VStr (fileName sheet)]> row).

(** The body of [sheet.rows.forEach] in the index pass. *)
Definition indexRow (keyMappingIds : list jsstring) (sheet : SheetData)
    (sheetIndex : nat) (ix : JoinIndex) (row : gmap jsstring value) : JoinIndex :=
  match deriveKey keyMappingIds sheet row with
  | Some keyValue =>
      if truthy (VStr keyValue) then
        let ix1 :=
          match keyMap ix !! keyValue with
          | Some _ => ix
          | None => {| keyMap := <[keyValue := ∅]> (keyMap ix);
                       allKeySet := setAdd (allKeySet ix) keyValue |}
          end in
        let existing := default ∅ (keyMap ix1 !! keyValue) in
        match existing !! sheetIndex with
        | Some _ => ix1
        | None =>
            {| keyMap := <[keyValue := <[sheetIndex := slotOf sheet row]> existing]>
                           (keyMap ix1);
               allKeySet := allKeySet ix1 |}
        end
      else ix
  | None => ix
  end.

Definition indexSheet (keyMappingIds : list jsstring) (ix : JoinIndex)
    (entry : nat * SheetData) : JoinIndex :=
  foldl (indexRow keyMappingIds entry.2 entry.1) ix (rows entry.2).

(** [sheets.forEach((sheet, sheetIndex) => ...)] *)
Definition buildIndex (keyMappingIds : list jsstring) (sheets : list SheetData)
    : JoinIndex :=
  foldl (indexSheet keyMappingIds) {| keyMap := ∅; allKeySet := [] |}
        (imap pair sheets).

(** The candidate loop of the 'left' branch: the key pushed for a row of
    the first sheet, if any. *)
Fixpoint leftKey (keyMappingIds : list jsstring) (sheet0 : SheetData)
    (row : gmap jsstring value) : option jsstring :=
  match keyMappingIds with
  | [] => None
  | mId :: rest =>
      let p := parseMappingId mId in
      if namesSheet p sheet0 && truthy (get row (m_header p))
      then Some (trim (String_ (get row (m_header p))))
      else leftKey rest sheet0 row
  end.

(** [Object.keys(entry).length] *)
Definition slotCount (entry : gmap nat (gmap jsstring value)) : nat := size entry.

Definition finalKeys (sheets : list SheetData) (keyMappingIds : list jsstring)
    (jt : JoinType) (ix : JoinIndex) : list jsstring :=
  match jt with
  | outer => allKeySet ix
  | left =>
      match sheets with
      | [] => []
      | sheet0 :: _ =>
          setFromArray (omap (leftKey keyMappingIds sheet0) (rows sheet0))
      end
  | inner =>
      List.filter
        (fun k => match keyMap ix !! k with
                  | Some entry => bool_decide (slotCount entry = length sheets)
                  | None => false
                  end)
        (allKeySet ix)
  end.

(** The candidate loop run on one slot: the first candidate naming the
    slot's sheet with a defined, non-null, non-empty value. *)
Fixpoint slotValue (currentSheet : SheetData) (sheetRow : gmap jsstring value)
    (sourceMappingIds : list jsstring) : value :=
  match sourceMappingIds with
  | [] => VStr []
  | mId :: rest =>
      let p := parseMappingId mId in
      let v := get sheetRow (m_header p) in
      if namesSheet p currentSheet && isPresent v && negb (isEmptyString v)
      then v
      else slotValue currentSheet sheetRow rest
  end.

(** The loop over sheet indices: it stops at the first index whose slot
    gave a value other than ['']. *)
Fixpoint joinValue (entry : gmap nat (gmap jsstring value))
    (sourceMappingIds : list jsstring) (indexed : list (nat * SheetData)) : value :=
  match indexed with
  | [] => VStr []
  | (i, currentSheet) :: rest =>
      let val :=
        match entry !! i with
        | Some sheetRow => slotValue currentSheet sheetRow sourceMappingIds
        | None => VStr []
        end in
      if negb (isEmptyString val) then val
      else joinValue entry sourceMappingIds rest
  end.

(** [Object.values(o)[0]] on an object with integer keys: the value under
    the least key. *)
Definition firstValue {A : Type} (o : gmap nat A) : option A :=
  match map_to_list o with
  | [] => None
  | (k, _) :: l => o !! foldr (fun kv acc => Nat.min kv.1 acc) k l
  end.

(** One output row of [joinData]. *)
Definition joinRow (sheets : list SheetData)
    (mappings : gmap jsstring (list jsstring)) (ix : JoinIndex)
    (idx : nat) (k : jsstring) : gmap jsstring value :=
  let newRow : gmap jsstring value :=
    {[ str "id" := VStr (str "joined-" ++ k ++ str "-"
                           ++ toString (ofZ (Z.of_nat idx))) ]} in
  let entry := default ∅ (keyMap ix !! k) in
  let newRow :=
    map_fold (fun targetField sourceMappingIds (acc : gmap jsstring value) =>
                <[targetField := cleanAndFormatValue
                    (joinValue entry sourceMappingIds (imap pair sheets))]> acc)
             newRow mappings in
  let firstSource := firstValue entry in
  <[str "_sourceSheet" := match firstSource with
                          | Some src => get src (str "_srcSheet")
                          | None => VStr (str "Joined")
                          end]>
    (<[str "_sourceFile" := match firstSource with
                            | Some src => get src (str "_srcFile")
                            | None => VStr (str "Joined")
                            end]> newRow).

Definition joinData (sheets : list SheetData)
    (mappings : gmap jsstring (list jsstring)) (config : MergeConfig)
    : list (gmap jsstring value) :=
  let keyMappingIds := default [] (mappings !! joinKey config) in
  let ix := buildIndex keyMappingIds sheets in
  imap (joinRow sheets mappings ix)
       (finalKeys sheets keyMappingIds (joinType config) ix).

Definition mergeData (sheets : list SheetData)
    (mappings : gmap jsstring (list jsstring)) (config : option MergeConfig)
    : list (gmap jsstring value) :=
  match config with
  | Some c =>
      match method c with
      | join_ => joinData sheets mappings c
      | vertical => stackData sheets mappings
      end
  | None => stackData sheets mappings
  end.

(* ================================================================== *)
(** ** components/Toast.tsx *)
(* ================================================================== *)

Inductive ToastType : Type := success | error | info.

(** A call [onNotify(message, type)]. *)
Definition Toast : Type := (jsstring * ToastType)%type.

(* ================================================================== *)
(** ** The preview table: split and export *)
(* ================================================================== *)



Section Split.

(** [String.prototype.toLowerCase], whose Unicode case tables are not
    part of the repository. *)
Variable toLowerCase : jsstring -> jsstring.




(** The rows handed to the writer: one property per visible field, named
    by its label. *)
Definition exportRow (fs : list FieldDefinition) (row : gmap jsstring value)
    : gmap jsstring value :=
  foldl (fun (cleanRow : gmap jsstring value) f =>
           <[label f := get row (key f)]> cleanRow) ∅ fs.




End Split.

(** Lower-casing of the Basic Latin letters, an instance to run the split
    filter on. *)
Definition asciiLowerCase (s : jsstring) : jsstring :=
  List.map (fun c => if ((65 <=? c) && (c <=? 90))%N then (c + 32)%N else c) s.

(* ================================================================== *)
(** ** The column mapper: field handlers *)
(* ================================================================== *)

Module ColumnMapper.

(** The component state the field handlers read and write. An entry of
    [mapping] holds an array or [undefined] ([None]). [toasts] collects
    the calls of [onNotify], latest last. *)
Record State : Type := {
  fields : list FieldDefinition;
  mapping : gmap jsstring (option (list jsstring));
  joinKey : jsstring;
  newFieldName : jsstring;
  toasts : list Toast
}.

Definition handleAddField (st : State) : State :=
  match trim (newFieldName st) with
  | [] => st
  | _ =>
      let key_ := trim (newFieldName st) in
      if existsb (fun f => bool_decide (key f = key_)) (fields st) then
        {| fields := fields st; mapping := mapping st; joinKey := joinKey st;
           newFieldName := newFieldName st;
           toasts := toasts st ++
             [([35442; 27396; 20301; 21517; 31281; 24050; 23384; 22312]%N, error)] |}
      else
        {| fields := fields st ++
                       [{| key := key_; label := key_; type := type_string |}];
           mapping := <[key_ := Some []]> (mapping st);
           joinKey := joinKey st;
           newFieldName := [];
           toasts := toasts st |}
  end.

Definition handleRemoveField (key_ : jsstring) (st : State) : State :=
  {| fields := List.filter (fun f => negb (bool_decide (key f = key_))) (fields st);
     mapping := delete key_ (mapping st);
     joinKey := joinKey st;
     newFieldName := newFieldName st;
     toasts := toasts st |}.

Definition handleRenameField (oldKey newLabel : jsstring) (st : State) : State :=
  if negb (truthy (VStr (trim newLabel))) || bool_decide (newLabel = oldKey)
  then st
  else
    {| fields :=
         List.map (fun f => if bool_decide (key f = oldKey)
                            then {| key := newLabel; label := newLabel;
                                    type := type f |}
                            else f) (fields st);
       mapping :=
         (let data := mapping st !! oldKey ≫= id in
          <[newLabel := data]> (delete oldKey (mapping st)));
       joinKey := if bool_decide (joinKey st = oldKey) then newLabel
                  else joinKey st;
       newFieldName := newFieldName st;
       toasts := toasts st |}.

End ColumnMapper.

(* ================================================================== *)
(** ** Notions used to state the properties *)
(* ================================================================== *)

(** The millisecond count [excelDateToJSDate] hands to [Date]:
    [Math.round((serial - 25569) * 86400 * 1000)]. *)
Definition serialMillis (serial : number) : number :=
  round (fmul (fmul (fsub serial (ofZ 25569)) (ofZ 86400)) (ofZ 1000)).

(** [lo <= a <= hi] for a finite number [a] and integers [lo] and [hi],
    read at a power of ten [10^k] that both sides are multiples of. *)
Definition between (lo hi : Z) (a : number) : Prop :=
  exists m e k, a = Fin m e /\ k <= e /\ k <= 0 /\
    lo * 10 ^ (- k) <= m * 10 ^ (e - k) <= hi * 10 ^ (- k).

(** A string that the normalizer turns into a number of the date-serial
    band. *)
Definition parsesIntoDateBand (x : value) : bool :=
  match x with
  | VStr _ => isPotentialExcelDate (cleanAndFormatValue x)
  | _ => false
  end.

(** The name [makeHeadersUnique] works with: the header trimmed, with
    ["Column"] standing in for an empty one. *)
Definition cleanHeader (h : jsstring) : jsstring :=
  orElse (trim (orElse h (str "Column"))) (str "Column").

(** How many of the first [i] headers have the cleaned name [c]. *)
Definition earlierOccurrences (hs : list jsstring) (i : nat) (c : jsstring) : nat :=
  length (List.filter (fun h => bool_decide (cleanHeader h = c)) (take i hs)).

(** A cleaned name as it comes out on its [n]-th repeat. *)
Definition suffixedName (c : jsstring) (n : nat) : jsstring :=
  match n with
  | O => c
  | S _ => c ++ str "_" ++ toString (ofZ (Z.of_nat n))
  end.

(** The numeric pattern after a digit, and after a leading sign. *)
Definition afterDigit : regex := deriv 48%N numericPattern.
Definition afterSign : regex := deriv 45%N numericPattern.

(** *** Sample inputs *)

Definition sampleSheetA : SheetData :=
  {| fileName := str "A"; sheetName := str "S"; headers := [str "Name"];
     rows := [ {[ str "Name" := VStr (str "Ann") ]} ] |}.

Definition sampleSheetB : SheetData :=
  {| fileName := str "B"; sheetName := str "S"; headers := [str "Name"];
     rows := [ {[ str "Name" := VStr (str "Bob") ]} ] |}.

Definition sampleMapping : gmap jsstring (list jsstring) :=
  {[ str "Name" := [str "A::S::Name"] ]}.

(** A mapping whose only candidate has no ["::"]. *)
Definition bareMapping : gmap jsstring (list jsstring) :=
  {[ str "Name" := [str "Name"] ]}.

(** A mapping with a field named [id] and a field named [_sourceFile]. *)
Definition collidingMapping : gmap jsstring (list jsstring) :=
  {[ str "id" := []; str "_sourceFile" := [str "A::S::Name"] ]}.

(** *** Join notions *)

(** The join keys a sheet's rows yield, in row order. *)
Definition sheetKeys (keyMappingIds : list jsstring) (sheet : SheetData)
    : list jsstring :=
  omap (deriveKey keyMappingIds sheet) (rows sheet).

(** The first row of a sheet that yields a given key. *)
Definition firstRowWithKey (keyMappingIds : list jsstring) (sheet : SheetData)
    (k : jsstring) : option (gmap jsstring value) :=
  List.find (fun r => bool_decide (deriveKey keyMappingIds sheet r = Some k))
            (rows sheet).

(** The slot the index holds for a key and a sheet index. *)
Definition slot (ix : JoinIndex) (k : jsstring) (i : nat)
    : option (gmap jsstring value) :=
  keyMap ix !! k ≫= (fun entry => entry !! i).

(** Key set and key map of an index agree. *)
Definition inSync (ix : JoinIndex) : Prop :=
  NoDup (allKeySet ix) /\
  forall k, k ∈ allKeySet ix <-> is_Some (keyMap ix !! k).

(** The output keys of a join: [finalKeys] on the index built from the
    candidates of the join key. *)
Definition joinKeys (sheets : list SheetData)
    (mappings : gmap jsstring (list jsstring)) (jk : jsstring) (jt : JoinType)
    : list jsstring :=
  finalKeys sheets (default [] (mappings !! jk)) jt
            (buildIndex (default [] (mappings !! jk)) sheets).

(** The sheet index at which the loop over the sheet indices stops for
    a field, that is the slot the field takes its value from; [None]
    when no slot has a value to give. *)
Fixpoint valueSlot (entry : gmap nat (gmap jsstring value))
    (sourceMappingIds : list jsstring) (indexed : list (nat * SheetData))
    : option nat :=
  match indexed with
  | [] => None
  | (i, currentSheet) :: rest =>
      let val :=
        match entry !! i with
        | Some sheetRow => slotValue currentSheet sheetRow sourceMappingIds
        | None => VStr []
        end in
      if negb (isEmptyString val) then Some i
      else valueSlot entry sourceMappingIds rest
  end.

(** The slot of sheet [i] contributed a value to the row: some field
    took its value from it. *)
Definition contributes (sheets : list SheetData)
    (mappings : gmap jsstring (list jsstring))
    (entry : gmap nat (gmap jsstring value)) (i : nat) : Prop :=
  exists f ids, mappings !! f = Some ids /\
                valueSlot entry ids (imap pair sheets) = Some i.

(** The first slot, in sheet order, that contributed a value. *)
Definition firstContributor (sheets : list SheetData)
    (mappings : gmap jsstring (list jsstring))
    (entry : gmap nat (gmap jsstring value)) (i : nat) : Prop :=
  contributes sheets mappings entry i /\
  forall j, contributes sheets mappings entry j -> (i <= j)%nat.

(** A sheet that carries a file name and a sheet name, as a sheet read
    from a workbook file does. *)
Definition named (sheet : SheetData) : bool :=
  truthy (VStr (fileName sheet)) && truthy (VStr (sheetName sheet)).

(** The two sheets of the join scenario and their mapping. *)
Definition joinSheetA : SheetData :=
  {| fileName := str "A"; sheetName := str "S"; headers := [str "Key"; str "X"];
     rows := [ {[ str "Key" := VStr (str "1"); str "X" := VStr (str "a") ]} ] |}.

Definition joinSheetB : SheetData :=
  {| fileName := str "B"; sheetName := str "S"; headers := [str "Key"; str "Y"];
     rows := [ {[ str "Key" := VStr (str "1"); str "Y" := VStr (str "b") ]};
               {[ str "Key" := VStr (str "2"); str "Y" := VStr (str "c") ]} ] |}.

Definition joinMapping : gmap jsstring (list jsstring) :=
  {[ str "Key" := [str "A::S::Key"; str "B::S::Key"];
     str "X" := [str "A::S::X"];
     str "Y" := [str "B::S::Y"] ]}.

(** A sheet with an empty file name whose key column is called
    [_srcFile], the name of the annotation a slot carries. *)
Definition annotatedSheet : SheetData :=
  {| fileName := []; sheetName := str "S"; headers := [str "_srcFile"];
     rows := [ {[ str "_srcFile" := VStr (str "k") ]} ] |}.

Definition annotatedMapping : gmap jsstring (list jsstring) :=
  {[ str "K" := [str "::S::_srcFile"] ]}.

(** A first sheet whose key cell is blank, and one whose key cell is the
    number zero. *)
Definition blankKeySheet : SheetData :=
  {| fileName := str "A"; sheetName := str "S"; headers := [str "Key"];
     rows := [ {[ str "Key" := VStr (str "  ") ]} ] |}.

Definition zeroKeySheet : SheetData :=
  {| fileName := str "A"; sheetName := str "S"; headers := [str "Key"];
     rows := [ {[ str "Key" := VNum (ofZ 0) ]} ] |}.

Definition keyMapping : gmap jsstring (list jsstring) :=
  {[ str "K" := [str "A::S::Key"] ]}.

(** A key cell on which the truthiness test of the 'left' branch and the
    explicit test of the index pass agree. *)
Definition regularCell (v : value) : Prop :=
  truthy v = isPresent v && negb (bool_decide (trim (String_ v) = [])).

(** *** Sample states *)

Definition fieldA : FieldDefinition :=
  {| key := str "A"; label := str "A"; type := type_string |}.
Definition fieldB : FieldDefinition :=
  {| key := str "B"; label := str "B"; type := type_string |}.

(** Two fields [A] and [B], each with one candidate; [A] is the join key
    and the input box holds [" B "]. *)
Definition twoFields : ColumnMapper.State :=
  {| ColumnMapper.fields := [fieldA; fieldB];
     ColumnMapper.mapping :=
       {[ str "A" := Some [str "f::s::a"]; str "B" := Some [str "f::s::b"] ]};
     ColumnMapper.joinKey := str "A";
     ColumnMapper.newFieldName := str " B ";
     ColumnMapper.toasts := [] |}.


(* ================================================================== *)
(** ** The column mapper: column ids and candidate lists *)
(* ================================================================== *)

(** [`${sheet.fileName}::${sheet.sheetName}::${header}`] *)
Definition getHeaderId (sheet : SheetData) (header : jsstring) : jsstring :=
  fileName sheet ++ str "::" ++ sheetName sheet ++ str "::" ++ header.

Record HeaderId : Type := {
  h_fileName : jsstring;
  h_sheetName : jsstring;
  h_name : jsstring
}.

(** The mapper's own parser of column ids. *)
Definition parseHeaderId (id : jsstring) : HeaderId :=
  let parts := split (str "::") id in
  if (length parts <? 3)%nat
  then {| h_fileName := []; h_sheetName := []; h_name := id |}
  else {| h_fileName := nth 0 parts [];
          h_sheetName := nth 1 parts [];
          h_name := JS.join (str "::") (drop 2 parts) |}.

(** A file or sheet name that can stand in front of the delimiter: it
    holds no ["::"] and does not end in a colon. *)
Definition delimiterFree (name : jsstring) : Prop :=
  includes (str "::") (name ++ str ":") = false.

(** The test [s.fileName === fileName && s.sheetName === sheetName] on the
    names of a sheet [owner]. *)
Definition sameSheet (owner sheet : SheetData) : bool :=
  bool_decide (fileName owner = fileName sheet)
  && bool_decide (sheetName owner = sheetName sheet).

(** [l.findIndex(p)], and [l.indexOf(x)] with [p] the test for [x]: the
    first position, [-1] when there is none. *)
Fixpoint findIndex {A : Type} (p : A -> bool) (l : list A) : Z :=
  match l with
  | [] => -1
  | x :: l' =>
      if p x then 0
      else match findIndex p l' with
           | -1 => -1
           | i => i + 1
           end
  end.

(** The index of the first sheet with the file and sheet name of the
    id. *)
Definition getSheetPriorityById (orderedSheets : list SheetData)
    (headerId : jsstring) : Z :=
  let p := parseHeaderId headerId in
  findIndex (fun s => bool_decide (fileName s = h_fileName p)
                      && bool_decide (sheetName s = h_sheetName p))
            orderedSheets.

(** *** Auto-detection *)

(** The [Map<string, string[]>] of the auto-detection, in insertion
    order. *)
Definition HeadersMap : Type := list (jsstring * list jsstring).

(** [m.has(h)] *)
Definition mapHas (m : HeadersMap) (h : jsstring) : bool :=
  existsb (fun e => bool_decide (e.1 = h)) m.

(** [m.get(h)] *)
Fixpoint mapGet (m : HeadersMap) (h : jsstring) : option (list jsstring) :=
  match m with
  | [] => None
  | (k, ids) :: m' => if bool_decide (k = h) then Some ids else mapGet m' h
  end.

(** [m.set(h, v)]: a new key goes last, a known key keeps its place. *)
Fixpoint mapSet (m : HeadersMap) (h : jsstring) (v : list jsstring) : HeadersMap :=
  match m with
  | [] => [(h, v)]
  | (k, ids) :: m' =>
      if bool_decide (k = h) then (k, v) :: m' else (k, ids) :: mapSet m' h v
  end.

(** [if (!headersMap.has(h)) headersMap.set(h, []);
     headersMap.get(h).push(getHeaderId(sheet, h))] *)
Definition registerHeader (sheet : SheetData) (m : HeadersMap) (h : jsstring)
    : HeadersMap :=
  let m1 := if mapHas m h then m else mapSet m h [] in
  mapSet m1 h (default [] (mapGet m1 h) ++ [getHeaderId sheet h]).

Definition collectHeaders (orderedSheets : list SheetData) : HeadersMap :=
  foldl (fun m sheet => foldl (registerHeader sheet) m (headers sheet))
        [] orderedSheets.

Definition suggestedFields (orderedSheets : list SheetData) : list FieldDefinition :=
  List.map (fun h => {| key := h; label := h; type := type_string |})
           (List.map fst (collectHeaders orderedSheets)).

(** [initialMap] of the auto-detection. *)
Definition initialMap (orderedSheets : list SheetData)
    : gmap jsstring (list jsstring) :=
  let headersMap := collectHeaders orderedSheets in
  foldl (fun (acc : gmap jsstring (list jsstring)) label =>
           <[label := default [] (mapGet headersMap label)]> acc)
        ∅ (List.map fst headersMap).

Definition performAutoDetection (orderedSheets : list SheetData)
    (st : ColumnMapper.State) : ColumnMapper.State :=
  {| ColumnMapper.fields := suggestedFields orderedSheets;
     ColumnMapper.mapping := Some <$> initialMap orderedSheets;
     ColumnMapper.joinKey :=
       match suggestedFields orderedSheets with
       | f :: _ => key f
       | [] => ColumnMapper.joinKey st
       end;
     ColumnMapper.newFieldName := ColumnMapper.newFieldName st;
     ColumnMapper.toasts := ColumnMapper.toasts st |}.

(** The ids of the columns headed [h], sheet by sheet. *)
Definition headerIds (orderedSheets : list SheetData) (h : jsstring)
    : list jsstring :=
  concat (List.map
            (fun s => List.map (getHeaderId s)
                        (List.filter (fun x => bool_decide (x = h)) (headers s)))
            orderedSheets).

(** *** Re-sorting the candidates after a change of sheet order *)

(** [(p === -1 ? 999 : p)] on the priority of an id. *)
Definition sortRank (orderedSheets : list SheetData) (headerId : jsstring) : Z :=
  let p := getSheetPriorityById orderedSheets headerId in
  if p =? -1 then 999 else p.

(** [Array.prototype.sort] with the comparator [rank a - rank b]: the
    comparator is a consistent total preorder and the sort is stable, so
    the result is the one of a stable insertion sort. *)
Fixpoint insertSorted (rank : jsstring -> Z) (x : jsstring) (l : list jsstring)
    : list jsstring :=
  match l with
  | [] => [x]
  | y :: l' =>
      if rank x <=? rank y then x :: y :: l' else y :: insertSorted rank x l'
  end.

Definition sortIds (orderedSheets : list SheetData) (ids : list jsstring)
    : list jsstring :=
  foldr (insertSorted (sortRank orderedSheets)) [] ids.

(** The updater of the re-sort effect. Spreading an [undefined] entry
    throws ([None]). An entry equal to its sorted copy is kept, which
    leaves the same contents as writing the copy. *)
Definition resortMapping (orderedSheets : list SheetData)
    (prev : gmap jsstring (option (list jsstring)))
    : option (gmap jsstring (option (list jsstring))) :=
  map_fold (fun key_ original (acc : option (gmap jsstring (option (list jsstring)))) =>
              match acc, original with
              | Some next, Some ids =>
                  Some (<[key_ := Some (sortIds orderedSheets ids)]> next)
              | _, _ => None
              end)
           (Some prev) prev.

(** A list whose ranks never decrease. *)
Definition ranked (rank : jsstring -> Z) (l : list jsstring) : Prop :=
  forall i j a b,
    (i < j)%nat -> l !! i = Some a -> l !! j = Some b -> rank a <= rank b.

(* ================================================================== *)
(** ** The preview table: history and cleaning tools *)
(* ================================================================== *)

(** [a === b] *)
Definition strictEq (a b : value) : bool :=
  match a, b with
  | VUndefined, VUndefined => true
  | VNull, VNull => true
  | VBool x, VBool y => Bool.eqb x y
  | VNum x, VNum y => JS.eqb x y
  | VStr x, VStr y => bool_decide (x = y)
  | _, _ => false
  end.

(** [a || b] *)
Definition orValue (a b : value) : value := if truthy a then a else b.

(** [\w] without flags. *)
Definition isWordChar (c : N) : bool :=
  ((48 <=? c) && (c <=? 57) || (65 <=? c) && (c <=? 90)
   || (97 <=? c) && (c <=? 122) || (c =? 95))%N.

(** An element of an array as [Array.prototype.join] prints it. *)
Definition joinElement (v : value) : jsstring :=
  match v with
  | VUndefined | VNull => []
  | _ => String_ v
  end.

Module MasterTable.

Abbreviation Row := (gmap jsstring value).

Inductive TextOperation : Type :=
  | trim_ | removeAllSpaces | upper | lower | titleCase | removeSymbols
  | findReplace | regexReplace | prepend | append.

Inductive FormatOperation : Type :=
  | toNumber | toCurrency | round_ | floor | ceil | toFixed2 | toDate | padLeft
  | mathAdd | mathSub | mathMul | mathDiv.

Inductive RowOperation : Type := fillEmpty | removeDuplicates | removeEmptyRows.

(** The state of the table the history and the cleaning tools read and
    write, with the prop [fields]. A frame of [history] is [None] where
    the array has no element, and [hiddenKeys] is the set in insertion
    order. [updates] collects the calls of [onDataUpdate] and [toasts]
    those of [onNotify], latest last. A handler runs on the state of the
    render it was created in. *)
Record State : Type := {
  history : list (option (list Row));
  historyIndex : nat;
  fields : list FieldDefinition;
  hiddenKeys : list jsstring;
  targetCol : jsstring;
  selectedTextOp : TextOperation;
  selectedFormatOp : FormatOperation;
  selectedRowOp : RowOperation;
  findText : jsstring;
  replaceText : jsstring;
  textInput : jsstring;
  numInput : number;
  padLength : number;
  fillValue : jsstring;
  updates : list (option (list Row));
  toasts : list Toast
}.

(** The state on mount: [useState([data])], [useState(0)] and the
    initial values of the tool inputs. *)
Definition initial (data : list Row) (fields_ : list FieldDefinition) : State :=
  {| history := [Some data]; historyIndex := 0; fields := fields_;
     hiddenKeys := []; targetCol := []; selectedTextOp := trim_;
     selectedFormatOp := toNumber; selectedRowOp := fillEmpty;
     findText := []; replaceText := []; textInput := [];
     numInput := ofZ 0; padLength := ofZ 3; fillValue := [];
     updates := []; toasts := [] |}.

Definition setFrames (h : list (option (list Row))) (i : nat) (st : State) : State :=
  {| history := h; historyIndex := i; fields := fields st;
     hiddenKeys := hiddenKeys st; targetCol := targetCol st;
     selectedTextOp := selectedTextOp st; selectedFormatOp := selectedFormatOp st;
     selectedRowOp := selectedRowOp st; findText := findText st;
     replaceText := replaceText st; textInput := textInput st;
     numInput := numInput st; padLength := padLength st;
     fillValue := fillValue st; updates := updates st; toasts := toasts st |}.

(** [onDataUpdate(d)] *)
Definition onDataUpdate (d : option (list Row)) (st : State) : State :=
  {| history := history st; historyIndex := historyIndex st; fields := fields st;
     hiddenKeys := hiddenKeys st; targetCol := targetCol st;
     selectedTextOp := selectedTextOp st; selectedFormatOp := selectedFormatOp st;
     selectedRowOp := selectedRowOp st; findText := findText st;
     replaceText := replaceText st; textInput := textInput st;
     numInput := numInput st; padLength := padLength st;
     fillValue := fillValue st; updates := updates st ++ [d]; toasts := toasts st |}.

(** [onNotify(msg, type)] *)
Definition onNotify (msg : jsstring) (t : ToastType) (st : State) : State :=
  {| history := history st; historyIndex := historyIndex st; fields := fields st;
     hiddenKeys := hiddenKeys st; targetCol := targetCol st;
     selectedTextOp := selectedTextOp st; selectedFormatOp := selectedFormatOp st;
     selectedRowOp := selectedRowOp st; findText := findText st;
     replaceText := replaceText st; textInput := textInput st;
     numInput := numInput st; padLength := padLength st;
     fillValue := fillValue st; updates := updates st; toasts := toasts st ++ [(msg, t)] |}.

(** [a[i]]: [None] is [undefined], out of range or on a hole. *)
Definition frameAt (h : list (option (list Row))) (i : nat) : option (list Row) :=
  mjoin (h !! i).

(** [history[historyIndex] || []] *)
Definition currentData (st : State) : list Row :=
  default [] (frameAt (history st) (historyIndex st)).

(** [a[i] = v] on a copy: past the end the array grows, leaving holes. *)
Definition arraySet (h : list (option (list Row))) (i : nat) (v : list Row)
    : list (option (list Row)) :=
  if decide (i < length h)%nat then <[i := Some v]> h
  else h ++ replicate (i - length h) None ++ [Some v].

Definition pushToHistory (newData : list Row) (st : State) : State :=
  onDataUpdate (Some newData)
    (setFrames (take (historyIndex st + 1) (history st) ++ [Some newData])
               (historyIndex st + 1) st).

Definition undo (st : State) : State :=
  if decide (0 < historyIndex st)%nat then
    onNotify [24050; 36996; 21407; 19978; 19968; 27493]%N info
      (onDataUpdate (frameAt (history st) (historyIndex st - 1))
         (setFrames (history st) (historyIndex st - 1) st))
  else st.

Definition redo (st : State) : State :=
  if decide (historyIndex st + 1 < length (history st))%nat then
    onNotify [24050; 37325; 20570]%N info
      (onDataUpdate (frameAt (history st) (historyIndex st + 1))
         (setFrames (history st) (historyIndex st + 1) st))
  else st.

Definition handleCellChange (id field value_ : jsstring) (st : State) : State :=
  let newData :=
    List.map (fun row : Row =>
                if strictEq (get row (str "id")) (VStr id)
                then <[field := VStr value_]> row
                else row)
             (currentData st) in
  onDataUpdate (Some newData)
    (setFrames (arraySet (history st) (historyIndex st) newData)
               (historyIndex st) st).

Definition allAvailableFields (st : State) : list FieldDefinition :=
  fields st ++
  [ {| key := str "_sourceFile"; label := [20358; 28304; 27284; 26696]%N;
       type := type_string |};
    {| key := str "_sourceSheet"; label := [20358; 28304; 24037; 20316; 34920]%N;
       type := type_string |} ].

(** The body of [targetFieldDefs.forEach] run over the fields: the copy
    of the row after the writes, and [rowChanged]. *)
Definition cleanRow (targetFieldDefs : list FieldDefinition)
    (transform : value -> value) (row : Row) : Row * bool :=
  foldl (fun (acc : Row * bool) field =>
           let oldVal := get acc.1 (key field) in
           let newVal := transform oldVal in
           if negb (strictEq oldVal newVal)
           then (<[key field := newVal]> acc.1, true)
           else acc)
        (row, false) targetFieldDefs.

Definition targetFieldDefs (st : State) : list FieldDefinition :=
  if truthy (VStr (targetCol st))
  then List.filter (fun f => bool_decide (key f = targetCol st)) (allAvailableFields st)
  else fields st.

Definition applyCleaning (label_ : jsstring) (transform : value -> value)
    (st : State) : State :=
  let cleaned := List.map (cleanRow (targetFieldDefs st) transform) (currentData st) in
  let changedCount := length (List.filter snd cleaned) in
  let newData := List.map fst cleaned in
  if (0 <? changedCount)%nat then
    onNotify ([24050; 22871; 29992; 58; 32]%N ++ label_
              ++ [32; 40; 24433; 38911; 32]%N
              ++ toString (ofZ (Z.of_nat changedCount)) ++ [32; 21015; 41]%N)
             success
             (pushToHistory newData st)
  else onNotify [27794; 26377; 36039; 26009; 38656; 35201; 35722; 26356; 12290]%N
                info st.

(** [val.replace(/\w\S*/g, txt => txt.charAt(0).toUpperCase()
     + txt.substr(1).toLowerCase())]: [cur] is the match being read,
    reversed. *)
Fixpoint titleCase_go (capitalize : jsstring -> jsstring) (cur : option jsstring)
    (s : jsstring) : jsstring :=
  match s with
  | [] => match cur with
          | Some w => capitalize (rev w)
          | None => []
          end
  | c :: s' =>
      match cur with
      | Some w =>
          if isWhiteSpace c then capitalize (rev w) ++ c :: titleCase_go capitalize None s'
          else titleCase_go capitalize (Some (c :: w)) s'
      | None =>
          if isWordChar c then titleCase_go capitalize (Some [c]) s'
          else c :: titleCase_go capitalize None s'
      end
  end.

Section Tools.

(** The case conversions of the runtime, and [new RegExp(source, 'g')]
    followed by [String.prototype.replace], [None] where the constructor
    throws: neither is part of the repository. *)
Variable toUpperCase toLowerCase : jsstring -> jsstring.
Variable regExpReplace : jsstring -> option (jsstring -> jsstring -> jsstring).

(** The cell transforms of [executeFormatOp]. They rest on the number
    parsing and printing, on [toLocaleString], [Date.parse], [parseInt]
    and [padStart] and on the binary64 operations of the runtime:
    [formatCell op numInput padLength] stands for the function that
    operation [op] hands to [applyCleaning]. *)
Variable formatCell : FormatOperation -> number -> number -> value -> value.

(** The transform of a text operation on string cells. *)
Definition onString (f : jsstring -> jsstring) (val : value) : value :=
  match val with
  | VStr s => VStr (f s)
  | _ => val
  end.

Definition capitalizeWord (txt : jsstring) : jsstring :=
  toUpperCase (take 1 txt) ++ toLowerCase (drop 1 txt).

(** [/[^\w\s\u4e00-\u9fa5]/gi]: under the flag [i] no code unit outside
    the three ranges canonicalizes to one inside, so the class is the
    complement of the ranges. *)
Definition isSymbol (c : N) : bool :=
  negb (isWordChar c || isWhiteSpace c || (19968 <=? c) && (c <=? 40869))%N.

Definition executeTextOp (st : State) : State :=
  match selectedTextOp st with
  | trim_ =>
      applyCleaning [20462; 21098; 21069; 24460; 31354; 30333]%N (onString JS.trim) st
  | removeAllSpaces =>
      applyCleaning [21435; 38500; 25152; 26377; 31354; 30333]%N
        (onString (List.filter (fun c => negb (isWhiteSpace c)))) st
  | upper => applyCleaning [36681; 22823; 23531]%N (onString toUpperCase) st
  | lower => applyCleaning [36681; 23567; 23531]%N (onString toLowerCase) st
  | titleCase =>
      applyCleaning [39318; 23383; 27597; 22823; 23531]%N
        (onString (titleCase_go capitalizeWord None)) st
  | removeSymbols =>
      applyCleaning [31227; 38500; 29305; 27530; 31526; 34399]%N
        (onString (List.filter (fun c => negb (isSymbol c)))) st
  | findReplace =>
      if negb (truthy (VStr (findText st)))
      then onNotify [35531; 36664; 20837; 23563; 25214; 20839; 23481]%N error st
      else applyCleaning [23563; 25214; 33287; 21462; 20195]%N
             (fun val => VStr (JS.join (replaceText st)
                                 (split (findText st) (String_ (orValue val (VStr []))))))
             st
  | regexReplace =>
      if negb (truthy (VStr (findText st)))
      then onNotify [35531; 36664; 20837; 27491; 21063; 34920; 36948; 24335]%N error st
      else match regExpReplace (findText st) with
           | Some replace_ =>
               applyCleaning [27491; 21063; 21462; 20195]%N
                 (fun val => VStr (replace_ (replaceText st)
                                     (String_ (orValue val (VStr []))))) st
           | None =>
               onNotify [27491; 21063; 34920; 36948; 24335; 37679; 35492]%N error st
           end
  | prepend =>
      if negb (truthy (VStr (textInput st))) then st
      else applyCleaning [38283; 38957; 28155; 21152]%N
             (fun val => VStr (textInput st ++ String_ (orValue val (VStr [])))) st
  | append =>
      if negb (truthy (VStr (textInput st))) then st
      else applyCleaning [32080; 23614; 28155; 21152]%N
             (fun val => VStr (String_ (orValue val (VStr [])) ++ textInput st)) st
  end.

Definition formatLabel (op : FormatOperation) : jsstring :=
  match op with
  | toNumber => [32020; 25976; 20540; 21270]%N
  | toCurrency => [36681; 28858; 37329; 38989; 26684; 24335]%N
  | round_ => [22235; 25448; 20116; 20837]%N
  | floor => [28961; 26781; 20214; 25448; 21435]%N
  | ceil => [28961; 26781; 20214; 36914; 20301]%N
  | toFixed2 => [20445; 30041; 20841; 20301; 23567; 25976]%N
  | toDate => [26085; 26399; 27161; 28310; 21270]%N
  | padLeft => [21521; 24038; 35036; 38646]%N
  | mathAdd => [25976; 20540; 21152; 27861]%N
  | mathSub => [25976; 20540; 28187; 27861]%N
  | mathMul => [25976; 20540; 20056; 27861]%N
  | mathDiv => [25976; 20540; 38500; 27861]%N
  end.

(** Every operation hands its transform to [applyCleaning]; the
    division first refuses a divisor [numInput === 0]. *)
Definition executeFormatOp (st : State) : State :=
  match selectedFormatOp st with
  | mathDiv =>
      if JS.eqb (binary64 (numInput st)) (ofZ 0)
      then onNotify [38500; 25976; 19981; 33021; 28858; 48]%N error st
      else applyCleaning (formatLabel mathDiv)
             (formatCell mathDiv (numInput st) (padLength st)) st
  | op =>
      applyCleaning (formatLabel op) (formatCell op (numInput st) (padLength st)) st
  end.

End Tools.

(** [val === undefined || val === null || String(val).trim() === ''] *)
Definition isBlank (val : value) : bool :=
  negb (isPresent val) || bool_decide (JS.trim (String_ val) = []).

(** [targetCol ? [targetCol] : fields.map(f => f.key)] *)
Definition checkFields (st : State) : list jsstring :=
  if truthy (VStr (targetCol st)) then [targetCol st]
  else List.map key (fields st).

(** [checkFields.map(k => row[k]).join('|')] *)
Definition rowKey (checkFields_ : list jsstring) (row : Row) : jsstring :=
  JS.join (str "|") (List.map (fun k => joinElement (get row k)) checkFields_).

(** The filter of [removeDuplicates], with the set [seen]. *)
Fixpoint dedupe (checkFields_ : list jsstring) (seen : list jsstring)
    (rows_ : list Row) : list Row :=
  match rows_ with
  | [] => []
  | row :: rest =>
      let key_ := rowKey checkFields_ row in
      if bool_decide (key_ ∈ seen) then dedupe checkFields_ seen rest
      else row :: dedupe checkFields_ (setAdd seen key_) rest
  end.

Definition executeRowOp (st : State) : State :=
  match selectedRowOp st with
  | fillEmpty =>
      applyCleaning [22635; 20805; 31354; 20540]%N
        (fun val => if isBlank val then VStr (fillValue st) else val) st
  | op =>
      let initialCount := length (currentData st) in
      let newData :=
        match op with
        | removeDuplicates => dedupe (checkFields st) [] (currentData st)
        | _ =>
            List.filter
              (fun row : Row =>
                 existsb (fun k => negb (isBlank (get row k))) (checkFields st))
              (currentData st)
        end in
      if negb (length newData =? initialCount)%nat then
        onNotify ([24050; 31227; 38500; 32]%N
                  ++ toString (ofZ (Z.of_nat (initialCount - length newData)))
                  ++ [32; 21015; 36039; 26009]%N)
                 success (pushToHistory newData st)
      else onNotify [27794; 26377; 30332; 29694; 38656; 35201; 35722; 26356;
                     30340; 36039; 26009]%N info st
  end.

(** [allAvailableFields.filter(f => !hiddenKeys.has(f.key))] *)
Definition visibleFields (st : State) : list FieldDefinition :=
  List.filter (fun f => negb (bool_decide (key f ∈ hiddenKeys st)))
              (allAvailableFields st).

Definition setHiddenKeys (keys : list jsstring) (st : State) : State :=
  {| history := history st; historyIndex := historyIndex st; fields := fields st;
     hiddenKeys := keys; targetCol := targetCol st;
     selectedTextOp := selectedTextOp st; selectedFormatOp := selectedFormatOp st;
     selectedRowOp := selectedRowOp st;
     findText := findText st; replaceText := replaceText st;
     textInput := textInput st; numInput := numInput st;
     padLength := padLength st; fillValue := fillValue st;
     updates := updates st; toasts := toasts st |}.

(** [next.has(key) ? next.delete(key) : next.add(key)] *)
Definition toggleColumn (key_ : jsstring) (st : State) : State :=
  setHiddenKeys
    (if bool_decide (key_ ∈ hiddenKeys st)
     then List.filter (fun k => negb (bool_decide (k = key_))) (hiddenKeys st)
     else hiddenKeys st ++ [key_])
    st.

Definition toggleAllColumns (st : State) : State :=
  match hiddenKeys st with
  | _ :: _ => setHiddenKeys [] st
  | [] =>
      let allKeys := setFromArray (List.map key (allAvailableFields st)) in
      setHiddenKeys
        (match allAvailableFields st with
         | f :: _ => List.filter (fun k => negb (bool_decide (k = key f))) allKeys
         | [] => allKeys
         end)
        st
  end.

(** What [handleExportAll] does: the toast it raises, and the rows and
    file name it writes, if any. *)
Definition handleExportAll (st : State)
    : Toast * option (list (gmap jsstring value) * jsstring) :=
  match currentData st with
  | [] => (([27794; 26377; 36039; 26009; 21487; 20197; 21295; 20986]%N, error), None)
  | _ =>
      (([23436; 25972; 36039; 26009; 21295; 20986; 25104; 21151; 65281]%N, success),
       Some (List.map (exportRow (visibleFields st)) (currentData st),
             str "Merged_Master_Data"))
  end.

(** The setters of the tool inputs and the column toggles: they leave
    the history and what was sent to the parent as they are. *)
Definition sameFrames (st st' : State) : Prop :=
  history st' = history st /\ historyIndex st' = historyIndex st /\
  updates st' = updates st.

(** The index names a frame and no frame is a hole. *)
Definition wellFormed (st : State) : Prop :=
  (historyIndex st < length (history st))%nat /\ Forall is_Some (history st).

(** What the parent holds: the rows of the last [onDataUpdate], or the
    prop [data] before any call. *)
Definition parentData (data : list Row) (st : State) : option (list Row) :=
  default (Some data) (last (updates st)).

(** The invariant of the table: the index names a frame, no frame is a
    hole, and the parent holds the rows on display. *)
Definition tableInv (data : list Row) (st : State) : Prop :=
  wellFormed st /\ parentData data st = Some (currentData st).

(** One event of the table: a handler of the history or of the cleaning
    tools, or an event that leaves the frames alone (a change of the
    tool inputs, a column toggle, an export, a handler that throws
    before it sets anything). *)
Inductive tableStep (toUpperCase toLowerCase : jsstring -> jsstring)
    (regExpReplace : jsstring -> option (jsstring -> jsstring -> jsstring))
    (formatCell : FormatOperation -> number -> number -> value -> value)
    : State -> State -> Prop :=
  | step_undo st :
      tableStep toUpperCase toLowerCase regExpReplace formatCell st (undo st)
  | step_redo st :
      tableStep toUpperCase toLowerCase regExpReplace formatCell st (redo st)
  | step_cell id field value_ st :
      tableStep toUpperCase toLowerCase regExpReplace formatCell st
                (handleCellChange id field value_ st)
  | step_text st :
      tableStep toUpperCase toLowerCase regExpReplace formatCell st
                (executeTextOp toUpperCase toLowerCase regExpReplace st)
  | step_format st :
      tableStep toUpperCase toLowerCase regExpReplace formatCell st
                (executeFormatOp formatCell st)
  | step_row st :
      tableStep toUpperCase toLowerCase regExpReplace formatCell st (executeRowOp st)
  | step_inputs st st' :
      sameFrames st st' ->
      tableStep toUpperCase toLowerCase regExpReplace formatCell st st'.

End MasterTable.

(** *** Sample table states *)

Definition tableRow1 : MasterTable.Row :=
  {[ str "id" := VStr (str "r1"); str "Name" := VStr (str " Ann ") ]}.
Definition tableRow2 : MasterTable.Row :=
  {[ str "id" := VStr (str "r2"); str "Name" := VStr (str "Bob") ]}.

Definition nameField : FieldDefinition :=
  {| key := str "Name"; label := str "Name"; type := type_string |}.

(** The mounted table on two rows with the field [Name]. *)
Definition sampleTable : MasterTable.State :=
  MasterTable.initial [tableRow1; tableRow2] [nameField].

(** A cell a transform leaves as it is, as the cleaning loop tests it. *)
Definition settled (transform : value -> value) (row : gmap jsstring value)
    (f : jsstring) : Prop :=
  strictEq (get row f) (transform (get row f)) = true.

(** The mounted table on given rows, with a row operation and a text
    operation selected and the inputs of the find-and-replace tool
    set. *)
Definition tableOn (rows_ : list (gmap jsstring value))
    (rowOp : MasterTable.RowOperation) (textOp : MasterTable.TextOperation)
    (find_ replace_ : jsstring) : MasterTable.State :=
  {| MasterTable.history := [Some rows_]; MasterTable.historyIndex := 0;
     MasterTable.fields := [nameField]; MasterTable.hiddenKeys := [];
     MasterTable.targetCol := [];
     MasterTable.selectedTextOp := textOp;
     MasterTable.selectedFormatOp := MasterTable.toNumber;
     MasterTable.selectedRowOp := rowOp;
     MasterTable.findText := find_; MasterTable.replaceText := replace_;
     MasterTable.textInput := []; MasterTable.numInput := ofZ 0;
     MasterTable.padLength := ofZ 3; MasterTable.fillValue := str "-";
     MasterTable.updates := []; MasterTable.toasts := [] |}.

(* ================================================================== *)
(** ** The column mapper: confirming, and the merge that follows *)
(* ================================================================== *)

(** What [handleConfirm] does: it raises a toast, or it calls
    [onConfirmMapping] with the mapping, the fields, the merge
    configuration and the ordered sheets. *)
Inductive ConfirmOutcome : Type :=
  | Refused (t : Toast)
  | Confirmed (mapping_ : gmap jsstring (option (list jsstring)))
              (fields_ : list FieldDefinition) (config : MergeConfig)
              (orderedSheets : list SheetData).

Definition handleConfirm (mergeMethod : MergeMethod) (joinType_ : JoinType)
    (removeDuplicates_ : bool) (orderedSheets : list SheetData)
    (st : ColumnMapper.State) : ConfirmOutcome :=
  if match mergeMethod with join_ => true | vertical => false end
     && negb (truthy (VStr (ColumnMapper.joinKey st)))
  then Refused ([35531; 36984; 25799; 19968; 20491; 21512; 20341; 37749;
                 32; 40; 75; 101; 121; 41]%N, error)
  else Confirmed (ColumnMapper.mapping st) (ColumnMapper.fields st)
         {| method := mergeMethod; joinKey := ColumnMapper.joinKey st;
            joinType := joinType_; removeDuplicates := removeDuplicates_ |}
         orderedSheets.

(* ================================================================== *)
(** ** The merge on the mapping the mapper hands over, with its exceptions *)
(* ================================================================== *)

(** The names every object inherits from [Object.prototype]. *)
Definition objectPrototypeNames : list jsstring :=
  [ str "constructor"; str "hasOwnProperty"; str "isPrototypeOf";
    str "propertyIsEnumerable"; str "toLocaleString"; str "toString";
    str "valueOf"; str "__proto__"; str "__defineGetter__";
    str "__defineSetter__"; str "__lookupGetter__"; str "__lookupSetter__" ].

(** [sheet.rows.forEach] has nothing to visit. *)
Definition noRows (sheet : SheetData) : bool :=
  match rows sheet with [] => true | _ => false end.

(** The merge as it runs on the object the mapper holds, an object
    with the prototype of an object literal, as the updaters of the
    mapper build it ([{...prev}]): an entry of [mappings] is an array or
    [undefined] ([None]), and a name that is no entry may still be a
    member inherited from [Object.prototype]. A loop
    [for (const mId of x)] throws a TypeError when [x] is [undefined] or
    such a member; as the result of a function [None] is that
    exception. On arrays the functions are those of the merge above
    (lemmas [stackData_arrays] and [joinData_arrays]). *)
Module MergeExn.

(** [mappings[joinKey] || []]: the entry when it is an array; [[]] for
    an entry that is [undefined], and for a name that is neither an
    entry nor inherited; under an inherited name that is no entry the
    member itself, which is truthy and not iterable ([None]). *)
Definition keyCandidates (mappings : gmap jsstring (option (list jsstring)))
    (joinKey_ : jsstring) : option (list jsstring) :=
  match mappings !! joinKey_ with
  | Some (Some ids) => Some ids
  | Some None => Some []
  | None => if bool_decide (joinKey_ ∈ objectPrototypeNames) then None else Some []
  end.

(** One output row of [stackData]: the loop over the candidates of a
    field throws on an entry that is [undefined]. *)
Definition stackRow (sheet : SheetData)
    (mappings : gmap jsstring (option (list jsstring)))
    (index : nat) (row : gmap jsstring value) : option (gmap jsstring value) :=
  let newRow : gmap jsstring value :=
    {[ str "id" := VStr (fileName sheet ++ str "-" ++ sheetName sheet ++ str "-"
                           ++ toString (ofZ (Z.of_nat index))) ]} in
  newRow ←
    map_fold (fun targetField sourceMappingIds (acc : option (gmap jsstring value)) =>
                newRow ← acc;
                ids ← sourceMappingIds;
                Some (<[targetField := cleanAndFormatValue (resolveValue sheet row ids)]>
                        newRow))
             (Some newRow) mappings;
  Some (<[str "_sourceSheet" := VStr (sheetName sheet)]>
          (<[str "_sourceFile" := VStr (fileName sheet)]> newRow)).

Definition stackData (sheets : list SheetData)
    (mappings : gmap jsstring (option (list jsstring)))
    : option (list (gmap jsstring value)) :=
  foldl (fun merged sheet =>
           merged ← merged;
           sheetRows ← mapM (fun e : nat * gmap jsstring value =>
                               stackRow sheet mappings e.1 e.2)
                            (imap pair (rows sheet));
           Some (merged ++ sheetRows))
        (Some []) sheets.

(** The index pass. The loop over [keyMappingIds] is entered once per
    row: when they are not iterable it throws on the first row there
    is, and without any row the index stays empty. *)
Definition buildIndex (keyMappingIds : option (list jsstring))
    (sheets : list SheetData) : option JoinIndex :=
  match keyMappingIds with
  | Some ids => Some (buildIndex ids sheets)
  | None =>
      if forallb noRows sheets then Some {| keyMap := ∅; allKeySet := [] |}
      else None
  end.

(** The output keys. Only the 'left' branch reads [keyMappingIds], once
    per row of the first sheet. *)
Definition finalKeys (sheets : list SheetData)
    (keyMappingIds : option (list jsstring)) (jt : JoinType) (ix : JoinIndex)
    : option (list jsstring) :=
  match keyMappingIds with
  | Some ids => Some (finalKeys sheets ids jt ix)
  | None =>
      match jt, sheets with
      | left, sheet0 :: _ => if noRows sheet0 then Some [] else None
      | _, _ => Some (finalKeys sheets [] jt ix)
      end
  end.

(** The loop over the sheet indices: the candidates are iterated at the
    first index that holds a slot. *)
Fixpoint joinValue (entry : gmap nat (gmap jsstring value))
    (sourceMappingIds : option (list jsstring)) (indexed : list (nat * SheetData))
    : option value :=
  match indexed with
  | [] => Some (VStr [])
  | (i, currentSheet) :: rest =>
      match entry !! i with
      | Some sheetRow =>
          ids ← sourceMappingIds;
          let val := slotValue currentSheet sheetRow ids in
          if negb (isEmptyString val) then Some val
          else joinValue entry sourceMappingIds rest
      | None => joinValue entry sourceMappingIds rest
      end
  end.

(** One output row of [joinData]. *)
Definition joinRow (sheets : list SheetData)
    (mappings : gmap jsstring (option (list jsstring))) (ix : JoinIndex)
    (idx : nat) (k : jsstring) : option (gmap jsstring value) :=
  let newRow : gmap jsstring value :=
    {[ str "id" := VStr (str "joined-" ++ k ++ str "-"
                           ++ toString (ofZ (Z.of_nat idx))) ]} in
  let entry := default ∅ (keyMap ix !! k) in
  newRow ←
    map_fold (fun targetField sourceMappingIds (acc : option (gmap jsstring value)) =>
                newRow ← acc;
                val ← joinValue entry sourceMappingIds (imap pair sheets);
                Some (<[targetField := cleanAndFormatValue val]> newRow))
             (Some newRow) mappings;
  let firstSource := firstValue entry in
  Some (<[str "_sourceSheet" := match firstSource with
                                | Some src => get src (str "_srcSheet")
                                | None => VStr (str "Joined")
                                end]>
          (<[str "_sourceFile" := match firstSource with
                                  | Some src => get src (str "_srcFile")
                                  | None => VStr (str "Joined")
                                  end]> newRow)).

Definition joinData (sheets : list SheetData)
    (mappings : gmap jsstring (option (list jsstring))) (config : MergeConfig)
    : option (list (gmap jsstring value)) :=
  let keyMappingIds := keyCandidates mappings (joinKey config) in
  ix ← buildIndex keyMappingIds sheets;
  keys ← finalKeys sheets keyMappingIds (joinType config) ix;
  mapM (fun e : nat * jsstring => joinRow sheets mappings ix e.1 e.2)
       (imap pair keys).

Definition mergeData (sheets : list SheetData)
    (mappings : gmap jsstring (option (list jsstring)))
    (config : option MergeConfig) : option (list (gmap jsstring value)) :=
  match config with
  | Some c =>
      match method c with
      | join_ => joinData sheets mappings c
      | vertical => stackData sheets mappings
      end
  | None => stackData sheets mappings
  end.

End MergeExn.

(** What [App.handleConfirmMapping] does when its timer fires: the rows
    it stores as the merged data, if the merge returns, and the toast
    of the [try] or of the [catch] branch. *)
Definition handleConfirmMapping
    (newMapping : gmap jsstring (option (list jsstring)))
    (newMergeConfig : MergeConfig) (orderedSheets : list SheetData)
    : option (list (gmap jsstring value)) * Toast :=
  match MergeExn.mergeData orderedSheets newMapping (Some newMergeConfig) with
  | Some data =>
      (Some data, ([36039; 26009; 21512; 20341; 25104; 21151; 65281]%N, success))
  | None =>
      (None, ([21512; 20341; 36039; 26009; 26178; 30332; 29983; 37679; 35492]%N,
              error))
  end.

(* ================================================================== *)
(** ** utils/excelUtils.ts: reading and exporting sheets *)
(* ================================================================== *)

(** The arrays [sheet_to_json] returns with [header: 1] are read as the
    runtime holds them: a cell may be of any type, and an array has a
    hole ([None]) where the worksheet has no cell. [map] and [forEach]
    do not call their callback on a hole, and [map] leaves the hole in
    place; read by its index a hole gives [undefined]. *)

(** [String(h || 'Column')] *)
Definition headerText (h : value) : jsstring :=
  String_ (orValue h (VStr (str "Column"))).

(** [makeHeadersUnique] on the first row of a worksheet. [counts] is an
    object literal: an entry holds a count, or [NaN] ([None]) once the
    inherited member of that name was incremented. Under a name that is
    no entry, [counts[cleanHeader]] is [undefined] unless the name is
    inherited from [Object.prototype]: an inherited method incremented
    is [NaN], which the assignment stores as an entry; under
    [__proto__] the read gives the prototype, printed
    ["[object Object]"], and the write of [NaN] is ignored. On strings
    that are no inherited names, without a hole, the function is the one
    of the same name above (lemma [makeHeadersUnique_sparse_names]). *)
Fixpoint makeHeadersUnique_sparse (counts : gmap jsstring (option nat))
    (rawHeaders : list (option value)) : list (option jsstring) :=
  match rawHeaders with
  | [] => []
  | None :: rest => None :: makeHeadersUnique_sparse counts rest
  | Some h :: rest =>
      let original := trim (headerText h) in
      let cleanHeader := orElse original (str "Column") in
      match counts !! cleanHeader with
      | Some (Some n) =>
          Some (cleanHeader ++ str "_" ++ toString (ofZ (Z.of_nat (S n))))
            :: makeHeadersUnique_sparse (<[cleanHeader := Some (S n)]> counts) rest
      | Some None =>
          Some (cleanHeader ++ str "_NaN") :: makeHeadersUnique_sparse counts rest
      | None =>
          if bool_decide (cleanHeader = str "__proto__") then
            Some (cleanHeader ++ str "_[object Object]")
              :: makeHeadersUnique_sparse counts rest
          else if bool_decide (cleanHeader ∈ objectPrototypeNames) then
            Some (cleanHeader ++ str "_NaN")
              :: makeHeadersUnique_sparse (<[cleanHeader := None]> counts) rest
          else
            Some cleanHeader
              :: makeHeadersUnique_sparse (<[cleanHeader := Some O]> counts) rest
      end
  end.

(** [rowArray[index]] *)
Definition cellAt (rowArray : list (option value)) (index : nat) : value :=
  default VUndefined (mjoin (rowArray !! index)).

(** The callback of [jsonData.slice(1).map]: the row object built from
    the array of cells of one row. *)
Definition buildRow (uniqueHeaders : list (option jsstring))
    (rowArray : list (option value)) : gmap jsstring value :=
  foldl (fun (rowObject : gmap jsstring value) (e : nat * option jsstring) =>
           match e.2 with
           | Some header =>
               let val := cellAt rowArray e.1 in
               if isPresent val then <[header := val]> rowObject else rowObject
           | None => rowObject
           end)
        ∅ (imap pair uniqueHeaders).

(** A sheet as [readExcelFiles] pushes it: its [headers] are the array
    [uniqueHeaders], holes included. *)
Record SheetRead : Type := {
  read_fileName : jsstring;
  read_sheetName : jsstring;
  read_headers : list (option jsstring);
  read_rows : list (gmap jsstring value)
}.

(** The sheet the merge and the cleaner work on, for a sheet read
    without a hole in its headers. *)
Definition toSheetData (s : SheetRead) : option SheetData :=
  hs ← mapM id (read_headers s);
  Some {| fileName := read_fileName s; sheetName := read_sheetName s;
          headers := hs; rows := read_rows s |}.

(** The body of [workbook.SheetNames.forEach], from the array of arrays
    that [sheet_to_json] returns: [None] when nothing is pushed. *)
Definition readSheet (fileName_ sheetName_ : jsstring)
    (jsonData : list (list (option value))) : option SheetRead :=
  match jsonData with
  | [] => None
  | rawHeaders :: body =>
      let uniqueHeaders := makeHeadersUnique_sparse ∅ rawHeaders in
      Some {| read_fileName := fileName_; read_sheetName := sheetName_;
              read_headers := uniqueHeaders;
              read_rows := List.map (buildRow uniqueHeaders) body |}
  end.

(** [readExcelFiles] on the workbooks the library parsed: per file its
    name and, per sheet name, the array of arrays of the sheet. *)
Definition readExcelFiles
    (files : list (jsstring * list (jsstring * list (list (option value)))))
    : list SheetRead :=
  foldl (fun results file =>
           foldl (fun results sheet =>
                    match readSheet file.1 sheet.1 sheet.2 with
                    | Some s => results ++ [s]
                    | None => results
                    end)
                 results file.2)
        [] files.

(** [getCleanSheetData] *)
Definition getCleanSheetData (sheet : SheetData) : list (gmap jsstring value) :=
  List.map (fun row =>
              foldl (fun (cleanRow : gmap jsstring value) header =>
                       <[header := get row header]> cleanRow)
                    ∅ (headers sheet))
           (rows sheet).

(** [/[:\\/?*[\]]/]: the characters a sheet name must not hold. *)
Definition isForbiddenInSheetName (c : N) : bool :=
  ((c =? 58) || (c =? 92) || (c =? 47) || (c =? 63) || (c =? 42)
   || (c =? 91) || (c =? 93))%N.

(** The names [exportWorkbook] appends its sheets under. [names] are the
    names appended so far and [random i] is the value of
    [Math.floor(Math.random() * 99)] drawn for the sheet at position
    [i]. What the library does with a name it refuses is not part of the
    repository. *)
Fixpoint workbookSheetNames (random : nat -> nat) (i : nat) (names : list jsstring)
    (sheets : list SheetData) : list jsstring :=
  match sheets with
  | [] => names
  | sheet :: rest =>
      let safeName :=
        List.filter (fun c => negb (isForbiddenInSheetName c))
                    (take 31 (sheetName sheet)) in
      let safeName :=
        if bool_decide (safeName ∈ names)
        then take 28 safeName ++ str "_" ++ toString (ofZ (Z.of_nat (random i)))
        else safeName in
      workbookSheetNames random (S i) (names ++ [safeName]) rest
  end.

(** The file names [exportMultipleFilesAsZip] writes its sheets under. *)
Definition zipFileNames (sheets : list SheetData) : list jsstring :=
  List.map (fun sheet =>
              List.map (fun c => if isForbiddenInSheetName c then 95%N else c)
                       (sheetName sheet)
              ++ str ".xlsx")
           sheets.

(** A name a sheet may be appended under: at most 31 code units, none
    of them forbidden. *)
Definition safeSheetName (n : jsstring) : Prop :=
  (length n <= 31)%nat /\ Forall (fun c => isForbiddenInSheetName c = false) n.

(* ================================================================== *)
(** ** The data cleaner: history, columns and rows *)
(* ================================================================== *)

Module DataCleaner.

Inductive RowOperation : Type :=
  | fillEmpty | removeDuplicates | removeEmptyRows
  | deleteSelectedCols | keepSelectedCols.

(** The state the column and row tools read and write. A frame of
    [history] is [None] where the array has no element; [selectedCols]
    is the set in insertion order; [toasts] collects the calls of
    [onNotify], latest last. *)
Record State : Type := {
  history : list (option (list SheetData));
  historyIndex : Z;
  activeSheetName : jsstring;
  selectedCols : list jsstring;
  selectedRowOp : RowOperation;
  fillValue : jsstring;
  toasts : list Toast
}.

(** The state on mount. *)
Definition initial : State :=
  {| history := []; historyIndex := -1; activeSheetName := [];
     selectedCols := []; selectedRowOp := fillEmpty; fillValue := [];
     toasts := [] |}.

(** [a[i]] for an integer [i]: [undefined] below zero, past the end and
    on a hole. *)
Definition frameAt (h : list (option (list SheetData))) (i : Z)
    : option (list SheetData) :=
  if i <? 0 then None else mjoin (h !! Z.to_nat i).

(** [history[historyIndex] || []] *)
Definition sheets (st : State) : list SheetData :=
  default [] (frameAt (history st) (historyIndex st)).

(** [sheets.find(s => s.sheetName === activeSheetName)] *)
Definition activeSheet (st : State) : option SheetData :=
  List.find (fun s => bool_decide (sheetName s = activeSheetName st)) (sheets st).

(** [a.slice(0, e)] *)
Definition sliceTo {A : Type} (l : list A) (e : Z) : list A :=
  if e <? 0 then take (Z.to_nat (Z.max (Z.of_nat (length l) + e) 0)) l
  else take (Z.to_nat e) l.

Definition onNotify (msg : jsstring) (t : ToastType) (st : State) : State :=
  {| history := history st; historyIndex := historyIndex st;
     activeSheetName := activeSheetName st; selectedCols := selectedCols st;
     selectedRowOp := selectedRowOp st; fillValue := fillValue st;
     toasts := toasts st ++ [(msg, t)] |}.

Definition setSelectedCols (cols : list jsstring) (st : State) : State :=
  {| history := history st; historyIndex := historyIndex st;
     activeSheetName := activeSheetName st; selectedCols := cols;
     selectedRowOp := selectedRowOp st; fillValue := fillValue st;
     toasts := toasts st |}.

Definition pushToHistory (newSheets : list SheetData) (st : State) : State :=
  let newHistory := sliceTo (history st) (historyIndex st + 1) ++ [Some newSheets] in
  {| history := newHistory; historyIndex := Z.of_nat (length newHistory) - 1;
     activeSheetName := activeSheetName st; selectedCols := selectedCols st;
     selectedRowOp := selectedRowOp st; fillValue := fillValue st;
     toasts := toasts st |}.

Definition setHistoryIndex (i : Z) (st : State) : State :=
  {| history := history st; historyIndex := i;
     activeSheetName := activeSheetName st; selectedCols := selectedCols st;
     selectedRowOp := selectedRowOp st; fillValue := fillValue st;
     toasts := toasts st |}.

Definition undo (st : State) : State :=
  if 0 <? historyIndex st
  then onNotify [24050; 36996; 21407; 19978; 19968; 27493]%N info
         (setHistoryIndex (historyIndex st - 1) st)
  else st.

Definition redo (st : State) : State :=
  if historyIndex st <? Z.of_nat (length (history st)) - 1
  then onNotify [24050; 37325; 20570]%N info
         (setHistoryIndex (historyIndex st + 1) st)
  else st.

(** [next.has(header) ? next.delete(header) : next.add(header)] *)
Definition toggleColumnSelection (header : jsstring) (st : State) : State :=
  setSelectedCols
    (if bool_decide (header ∈ selectedCols st)
     then List.filter (fun h => negb (bool_decide (h = header))) (selectedCols st)
     else selectedCols st ++ [header])
    st.

(** The headers of a sheet after [handleSwapColumns]: [indexOf] gives
    the first position, [-1] when there is none. *)
Definition swapHeaders (colA colB : jsstring) (hs : list jsstring) : list jsstring :=
  let idxA := findIndex (fun h => bool_decide (h = colA)) hs in
  let idxB := findIndex (fun h => bool_decide (h = colB)) hs in
  if negb (idxA =? -1) && negb (idxB =? -1)
  then <[Z.to_nat idxB := colA]> (<[Z.to_nat idxA := colB]> hs)
  else hs.

Definition withHeaders (hs : list jsstring) (sheet : SheetData) : SheetData :=
  {| fileName := fileName sheet; sheetName := sheetName sheet;
     headers := hs; rows := rows sheet |}.

Definition withRows (rs : list (gmap jsstring value)) (sheet : SheetData) : SheetData :=
  {| fileName := fileName sheet; sheetName := sheetName sheet;
     headers := headers sheet; rows := rs |}.

Definition handleSwapColumns (st : State) : State :=
  match selectedCols st with
  | [colA; colB] =>
      let newSheets :=
        List.map (fun sheet =>
                    if bool_decide (sheetName sheet = activeSheetName st)
                    then withHeaders (swapHeaders colA colB (headers sheet)) sheet
                    else sheet)
                 (sheets st) in
      onNotify [27396; 20301; 20301; 32622; 24050; 20132; 25563]%N success
        (setSelectedCols [] (pushToHistory newSheets st))
  | _ => st
  end.

(** The row loop of [applyCleaning]. *)
Definition cleanRow (targetHeaders : list jsstring) (transform : value -> value)
    (row : gmap jsstring value) : gmap jsstring value * bool :=
  foldl (fun (acc : gmap jsstring value * bool) header =>
           let oldVal := get acc.1 header in
           let newVal := transform oldVal in
           if negb (strictEq oldVal newVal)
           then (<[header := newVal]> acc.1, true)
           else acc)
        (row, false) targetHeaders.

(** [selectedCols.size > 0 ? Array.from(selectedCols) : activeSheet.headers] *)
Definition targetHeaders (st : State) (active : SheetData) : list jsstring :=
  match selectedCols st with
  | [] => headers active
  | cols => cols
  end.

(** [sheets.map(s => s.sheetName === activeSheetName ? {...s, rows} : s)] *)
Definition withActiveRows (newRows : list (gmap jsstring value)) (st : State)
    : list SheetData :=
  List.map (fun s => if bool_decide (sheetName s = activeSheetName st)
                     then withRows newRows s else s)
           (sheets st).

Definition applyCleaning (label_ : jsstring) (transform : value -> value)
    (st : State) : State :=
  match activeSheet st with
  | None => st
  | Some active =>
      let cleaned := List.map (cleanRow (targetHeaders st active) transform)
                              (rows active) in
      let changedCount := length (List.filter snd cleaned) in
      let newRows := List.map fst cleaned in
      if (0 <? changedCount)%nat then
        onNotify ([24050; 22871; 29992; 58; 32]%N ++ label_
                  ++ [32; 40; 24433; 38911; 32]%N
                  ++ toString (ofZ (Z.of_nat changedCount)) ++ [32; 21015; 41]%N)
                 success (pushToHistory (withActiveRows newRows st) st)
      else onNotify [27794; 26377; 36039; 26009; 38656; 35201; 35722; 26356; 12290]%N
                    info st
  end.

(** The filter of [removeDuplicates], with the set [seen]. *)
Fixpoint dedupe (targetHeaders_ : list jsstring) (seen : list jsstring)
    (rows_ : list (gmap jsstring value)) : list (gmap jsstring value) :=
  match rows_ with
  | [] => []
  | row :: rest =>
      let key_ := JS.join (str "|")
                    (List.map (fun h => joinElement (get row h)) targetHeaders_) in
      if bool_decide (key_ ∈ seen) then dedupe targetHeaders_ seen rest
      else row :: dedupe targetHeaders_ (setAdd seen key_) rest
  end.

(** The end of [executeRowOp] after a change of the headers. *)
Definition commitHeaders (newHeaders : list jsstring) (st : State) : State :=
  let newSheets :=
    List.map (fun sheet =>
                if bool_decide (sheetName sheet = activeSheetName st)
                then withHeaders newHeaders sheet else sheet)
             (sheets st) in
  onNotify [27396; 20301; 32080; 27083; 24050; 35722; 26356]%N success
    (setSelectedCols [] (pushToHistory newSheets st)).

(** The end of [executeRowOp] after a filter of the rows. *)
Definition commitRows (active : SheetData) (newRows : list (gmap jsstring value))
    (st : State) : State :=
  let initialCount := length (rows active) in
  if negb (length newRows =? initialCount)%nat then
    onNotify ([24050; 31227; 38500; 32]%N
              ++ toString (ofZ (Z.of_nat (initialCount - length newRows)))
              ++ [32; 21015; 36039; 26009]%N)
             success (pushToHistory (withActiveRows newRows st) st)
  else onNotify [27794; 26377; 30332; 29694; 38656; 35201; 35722; 26356;
                 30340; 36039; 26009]%N info st.

Definition executeRowOp (st : State) : State :=
  match activeSheet st with
  | None => st
  | Some active =>
      match selectedRowOp st with
      | fillEmpty =>
          applyCleaning [22635; 20805; 31354; 20540]%N
            (fun val => if negb (isPresent val)
                           || bool_decide (JS.trim (String_ val) = [])
                        then VStr (fillValue st) else val) st
      | removeDuplicates =>
          commitRows active (dedupe (targetHeaders st active) [] (rows active)) st
      | removeEmptyRows =>
          commitRows active
            (List.filter
               (fun row =>
                  existsb (fun h => isPresent (get row h)
                                    && negb (bool_decide
                                               (JS.trim (String_ (get row h)) = [])))
                          (targetHeaders st active))
               (rows active)) st
      | deleteSelectedCols =>
          match selectedCols st with
          | [] => onNotify [35531; 20808; 36984; 25799; 35201; 21034; 38500;
                            30340; 27396; 20301]%N error st
          | _ => commitHeaders
                   (List.filter (fun h => negb (bool_decide (h ∈ selectedCols st)))
                                (headers active)) st
          end
      | keepSelectedCols =>
          match selectedCols st with
          | [] => onNotify [35531; 20808; 36984; 25799; 35201; 20445; 30041;
                            30340; 27396; 20301]%N error st
          | _ => commitHeaders
                   (List.filter (fun h => bool_decide (h ∈ selectedCols st))
                                (headers active)) st
          end
      end
  end.

End DataCleaner.

(** The cleaner on one frame holding the sample sheet, its column [Name]
    selected. *)
Definition cleanerSample (op : DataCleaner.RowOperation) : DataCleaner.State :=
  {| DataCleaner.history := [Some [sampleSheetA]]; DataCleaner.historyIndex := 0;
     DataCleaner.activeSheetName := str "S"; DataCleaner.selectedCols := [str "Name"];
     DataCleaner.selectedRowOp := op; DataCleaner.fillValue := [];
     DataCleaner.toasts := [] |}.

(* ================================================================== *)
(** ** The column mapper: the order of the sheets *)
(* ================================================================== *)

(** [handleSheetDrop]: the new order and the toast, when the order is
    set. [None] is the drop that is ignored. Both indices are positions
    of rendered sheets; on a dragged index past the end [splice] would
    remove nothing and insert [undefined], which no order of sheets
    stands for, so the order is then left out as well. *)
Definition handleSheetDrop (draggedSheetIndex : option nat) (targetIndex : nat)
    (orderedSheets : list SheetData) : option (list SheetData * Toast) :=
  match draggedSheetIndex with
  | None => None
  | Some d =>
      if bool_decide (d = targetIndex) then None
      else
        match orderedSheets !! d with
        | None => None
        | Some item =>
            let newOrdered := delete d orderedSheets in
            Some (take targetIndex newOrdered ++ item :: drop targetIndex newOrdered,
                  ([25991; 20214; 20778; 20808; 38918; 24207; 24050; 35519; 25972;
                    65292; 27396; 20301; 23565; 25033; 21363; 26178; 26356;
                    26032]%N, info))
        end
  end.

(* ================================================================== *)
(** ** The column mapper: moving a candidate between fields *)
(* ================================================================== *)

(** [onDropOnField] with the id and the source field read from the drag
    data. *)
Definition onDropOnField (hId fK targetKey : jsstring) (st : ColumnMapper.State)
    : ColumnMapper.State :=
  if negb (truthy (VStr hId)) || negb (truthy (VStr fK)) || bool_decide (fK = targetKey)
  then st
  else
    let next : gmap jsstring (option (list jsstring)) :=
      <[fK := Some (List.filter (fun id_ => negb (bool_decide (id_ = hId)))
                      (default [] (ColumnMapper.mapping st !! fK ≫= id)))]>
        (ColumnMapper.mapping st) in
    let currentTarget := default [] (next !! targetKey ≫= id) in
    let next :=
      if bool_decide (hId ∈ currentTarget) then next
      else <[targetKey := Some (currentTarget ++ [hId])]> next in
    {| ColumnMapper.fields := ColumnMapper.fields st;
       ColumnMapper.mapping := next;
       ColumnMapper.joinKey := ColumnMapper.joinKey st;
       ColumnMapper.newFieldName := ColumnMapper.newFieldName st;
       ColumnMapper.toasts := ColumnMapper.toasts st |}.

(** The candidates of a field: none where the entry is missing or
    [undefined]. *)
Definition candidates (st : ColumnMapper.State) (f : jsstring) : list jsstring :=
  default [] (ColumnMapper.mapping st !! f ≫= id).

(* ================================================================== *)
(** * Properties *)
(* ================================================================== *)

(** ** Strings *)

Lemma trimStart_fixed (s : jsstring) :
  match s with c :: _ => isWhiteSpace c = false | [] => True end ->
  trimStart s = s.
Proof. destruct s as [|c s]; simpl; [done|]. by intros ->. Qed.

Lemma trimStart_head (s : jsstring) :
  match trimStart s with c :: _ => isWhiteSpace c = false | [] => True end.
Proof.
  induction s as [|c s IH]; simpl; [done|].
  destruct (isWhiteSpace c) eqn:E; [done|]. exact E.
Qed.

Lemma trimStart_suffix (s : jsstring) : exists ws, s = ws ++ trimStart s.
Proof.
  induction s as [|c s [ws IH]]; simpl.
  - by exists [].
  - destruct (isWhiteSpace c).
    + exists (c :: ws). simpl. by f_equal.
    + by exists [].
Qed.

Lemma trimEnd_head (s : jsstring) :
  match s with c :: _ => isWhiteSpace c = false | [] => True end ->
  match trimEnd s with c :: _ => isWhiteSpace c = false | [] => True end.
Proof.
  intros Hs. unfold trimEnd.
  destruct (trimStart_suffix (rev s)) as [ws Hws].
  assert (Hrev : s = rev (trimStart (rev s)) ++ rev ws).
  { rewrite <- rev_app_distr, <- Hws. symmetry. apply rev_involutive. }
  destruct (rev (trimStart (rev s))) as [|c u]; [done|].
  rewrite Hrev in Hs. exact Hs.
Qed.

Lemma trim_idempotent (s : jsstring) : trim (trim s) = trim s.
Proof.
  unfold trim.
  rewrite (trimStart_fixed (trimEnd (trimStart s))).
  - unfold trimEnd at 1. rewrite (trimStart_fixed (rev _)); [apply rev_involutive|].
    unfold trimEnd. rewrite rev_involutive. apply trimStart_head.
  - apply trimEnd_head, trimStart_head.
Qed.

Lemma split_go_head (c : N) (a b cur : jsstring) :
  c ∉ a ->
  head (split_go [c] cur (a ++ c :: b) O) = Some (rev cur ++ a).
Proof.
  revert cur. induction a as [|x a IH]; intros cur Hc; simpl.
  - rewrite N.eqb_refl. simpl. by rewrite app_nil_r.
  - apply not_elem_of_cons in Hc as [Hx Ha].
    destruct (N.eqb_spec c x) as [->|_]; [done|]. simpl.
    rewrite IH by done. simpl. by rewrite <- app_assoc.
Qed.

Lemma split_T_head (a b : jsstring) :
  84%N ∉ a -> head (split (str "T") (a ++ str "T" ++ b)) = Some a.
Proof. intros H. exact (split_go_head 84%N a b [] H). Qed.

(** ** Numbers *)

Lemma pow10_pos (k : Z) : 0 <= k -> 0 < 10 ^ k.
Proof. intros. by apply Z.pow_pos_nonneg. Qed.

Lemma ltb_Fin (m1 e1 m2 e2 k : Z) :
  k <= e1 -> k <= e2 ->
  ltb (Fin m1 e1) (Fin m2 e2) = true <-> m1 * 10 ^ (e1 - k) < m2 * 10 ^ (e2 - k).
Proof.
  intros H1 H2. unfold ltb, aligned.
  set (k0 := Z.min e1 e2).
  assert (Hk : k <= k0) by (unfold k0; lia).
  rewrite Z.ltb_lt.
  replace (e1 - k) with ((e1 - k0) + (k0 - k)) by lia.
  replace (e2 - k) with ((e2 - k0) + (k0 - k)) by lia.
  rewrite !Z.pow_add_r by (unfold k0; lia).
  pose proof (pow10_pos (k0 - k) ltac:(lia)) as Hp.
  rewrite !Z.mul_assoc. split; intros H.
  - apply Z.mul_lt_mono_pos_r; done.
  - eapply Z.mul_lt_mono_pos_r; done.
Qed.

(** ** Regular expressions: [test] decides the language *)

Lemma matches_Void (s : jsstring) : ~ matches Void s.
Proof. intros H. inversion H. Qed.

Ltac inv_matches H := inversion H; subst; clear H.

Ltac absurd_Void :=
  match goal with
  | H : matches Void _ |- _ => exfalso; exact (matches_Void _ H)
  end.

Lemma matches_mkSeq (r1 r2 : regex) (s : jsstring) :
  matches (mkSeq r1 r2) s <-> matches (Seq r1 r2) s.
Proof.
  destruct r1; simpl; try tauto.
  - split; intros H; [absurd_Void|]. inv_matches H. absurd_Void.
  - split; intros H.
    + apply (m_seq Eps r2 [] s); [constructor|done].
    + inv_matches H.
      match goal with H : matches Eps _ |- _ => inv_matches H end. done.
Qed.

Lemma matches_mkAlt (r1 r2 : regex) (s : jsstring) :
  matches (mkAlt r1 r2) s <-> matches (Alt r1 r2) s.
Proof.
  assert (Hl : forall r, matches r s <-> matches (Alt Void r) s).
  { intros r. split; intros H; [by apply m_alt_r|].
    inv_matches H; [absurd_Void|done]. }
  assert (Hr : forall r, matches r s <-> matches (Alt r Void) s).
  { intros r. split; intros H; [by apply m_alt_l|].
    inv_matches H; [done|absurd_Void]. }
  destruct r1, r2; simpl; try tauto; first [apply Hl | apply Hr].
Qed.

Lemma matches_seq_inv (r1 r2 : regex) (s : jsstring) :
  matches (Seq r1 r2) s ->
  exists s1 s2, s = s1 ++ s2 /\ matches r1 s1 /\ matches r2 s2.
Proof. intros H. inv_matches H. eauto. Qed.

Lemma nullable_matches (r : regex) : nullable r = true <-> matches r [].
Proof.
  induction r as [| |p|r1 IH1 r2 IH2|r1 IH1 r2 IH2|r IH]; simpl.
  - split; [done|]. intros H. absurd_Void.
  - split; [constructor|done].
  - split; [done|]. intros H. inversion H.
  - rewrite andb_true_iff, IH1, IH2. split.
    + intros [H1 H2]. apply (m_seq r1 r2 [] []); done.
    + intros H. apply matches_seq_inv in H as (s1 & s2 & E & H1 & H2).
      symmetry in E. apply app_eq_nil in E as [-> ->]. done.
  - rewrite orb_true_iff, IH1, IH2. split.
    + intros [H|H]; [by apply m_alt_l|by apply m_alt_r].
    + intros H. inv_matches H; auto.
  - split; [constructor|done].
Qed.

Lemma matches_star_cons (r : regex) (c : N) (s : jsstring) :
  matches (Star r) (c :: s) ->
  exists s1 s2, s = s1 ++ s2 /\ matches r (c :: s1) /\ matches (Star r) s2.
Proof.
  intros H. remember (Star r) as r' eqn:Er. remember (c :: s) as s' eqn:Es.
  revert s Es.
  induction H as [| | | | | |r0 s1 s2 H1 _ H2 IH2]; intros t Es; try done.
  injection Er as ->. destruct s1 as [|c1 s1].
  - simpl in Es. by apply IH2.
  - injection Es as -> <-. eauto.
Qed.

Lemma deriv_matches (r : regex) (c : N) (s : jsstring) :
  matches (deriv c r) s <-> matches r (c :: s).
Proof.
  revert s. induction r as [| |p|r1 IH1 r2 IH2|r1 IH1 r2 IH2|r IH]; intros s; simpl.
  - split; intros H; [absurd_Void|inversion H].
  - split; intros H; [absurd_Void|inversion H].
  - destruct (p c) eqn:Hp; split; intros H.
    + inv_matches H. by constructor.
    + inv_matches H. constructor.
    + absurd_Void.
    + inv_matches H. congruence.
  - rewrite matches_mkAlt. split.
    + intros H. inv_matches H.
      * match goal with H : matches (mkSeq _ _) _ |- _ =>
          apply matches_mkSeq, matches_seq_inv in H as (s1 & s2 & -> & Ha & Hb) end.
        apply IH1 in Ha. apply (m_seq r1 r2 (c :: s1) s2); done.
      * destruct (nullable r1) eqn:Hn; [|absurd_Void].
        apply nullable_matches in Hn.
        match goal with H : matches (deriv c r2) _ |- _ => apply IH2 in H end.
        apply (m_seq r1 r2 [] (c :: s)); done.
    + intros H. apply matches_seq_inv in H as (s1 & s2 & E & Ha & Hb).
      destruct s1 as [|c1 s1].
      * simpl in E. subst. apply m_alt_r.
        apply nullable_matches in Ha. rewrite Ha. by apply IH2.
      * injection E as <- ->. apply m_alt_l, matches_mkSeq.
        apply m_seq; [by apply IH1|done].
  - rewrite matches_mkAlt. split.
    + intros H. inv_matches H; [apply m_alt_l, IH1|apply m_alt_r, IH2]; done.
    + intros H. inv_matches H; [apply m_alt_l, IH1|apply m_alt_r, IH2]; done.
  - rewrite matches_mkSeq. split.
    + intros H. apply matches_seq_inv in H as (s1 & s2 & -> & Ha & Hb).
      apply IH in Ha. apply (m_star_cons r (c :: s1) s2); done.
    + intros H. apply matches_star_cons in H as (s1 & s2 & -> & Ha & Hb).
      apply m_seq; [by apply IH|done].
Qed.

(** [test] answers whether the whole string is in the language of the
    pattern. *)
Lemma test_matches (r : regex) (s : jsstring) :
  test r s = true <-> matches r s.
Proof.
  revert r. induction s as [|c s IH]; intros r; simpl.
  - apply nullable_matches.
  - rewrite IH. apply deriv_matches.
Qed.
Lemma timeClip_integer (ms : Z) :
  Z.abs ms <= 8640000000000000 -> timeClip (Fin ms 0) = Some ms.
Proof.
  intros H. unfold timeClip, abs, truncate.
  change (ofZ 8640000000000000) with (Fin 864 13).
  change (0 <=? 0) with true. cbv iota.
  rewrite Z.pow_0_r, Z.mul_1_r.
  destruct (ltb (Fin 864 13) (Fin (Z.abs ms) 0)) eqn:E; [|done].
  apply (ltb_Fin 864 13 (Z.abs ms) 0 0) in E; [|lia..].
  rewrite !Z.sub_0_r, Z.pow_0_r in E.
  change (864 * 10 ^ 13) with 8640000000000000 in E. lia.
Qed.

(** *** Rounding to binary64 keeps a number between integer bounds *)

Lemma roundHalfEven_bounds (N den A B : Z) :
  0 < den -> A * den <= N <= B * den ->
  A <= roundHalfEven N den <= B.
Proof.
  intros Hden [HA HB]. unfold roundHalfEven.
  pose proof (Z.div_mod N den ltac:(lia)) as Hdm.
  pose proof (Z.mod_pos_bound N den Hden) as Hr.
  set (q := N / den) in *. set (r := N mod den) in *.
  assert (HAq : A <= q) by nia.
  assert (HqB : q <= B) by nia.
  destruct (Z.ltb_spec (2 * r) den) as [H1|H1]; [lia|].
  assert (Hq1 : q + 1 <= B) by nia.
  destruct (Z.ltb_spec den (2 * r)); [lia|].
  destruct (Z.even q); lia.
Qed.

Lemma pow2_pos (k : Z) : 0 <= k -> 0 < 2 ^ k.
Proof. intros. by apply Z.pow_pos_nonneg. Qed.

(** A fraction below [2^53] takes an exponent that is not positive. *)
Lemma nearest64_exponent (num den H : Z) :
  0 < num -> 0 < den -> num <= H * den -> H < 2 ^ 53 ->
  (nearest64 num den).2 <= 0.
Proof.
  intros Hnum Hden HH H53. unfold nearest64.
  pose proof (Z.log2_spec num Hnum) as [Ha _].
  pose proof (Z.log2_spec den Hden) as [_ Hb].
  pose proof (Z.log2_nonneg num) as Ha0.
  pose proof (Z.log2_nonneg den) as Hb0.
  set (a := Z.log2 num) in *. set (b := Z.log2 den) in *.
  set (t := a - b).
  destruct (scale2 num den t) as [n1 d1] eqn:E1.
  set (lg := if n1 <? d1 then t - 1 else t).
  assert (Hlg : lg <= 52).
  { destruct (Z.le_gt_cases lg 52) as [|Hc]; [done|]. exfalso.
    assert (Hnum53 : num < 2 ^ 53 * den) by nia.
    unfold lg in Hc. unfold scale2 in E1.
    destruct (Z.ltb_spec n1 d1) as [Hlt|Hge].
    - (* lg = t - 1 *)
      assert (Ht : 54 <= t) by lia.
      assert (E : 2 ^ a = 2 ^ b * 2 ^ t).
      { rewrite <- Z.pow_add_r by lia. f_equal. unfold t. lia. }
      assert (E' : 2 ^ t = 2 ^ 54 * 2 ^ (t - 54)).
      { rewrite <- Z.pow_add_r by lia. f_equal. lia. }
      pose proof (pow2_pos (t - 54) ltac:(lia)) as Hp.
      pose proof (pow2_pos b ltac:(lia)) as Hpb.
      rewrite Z.pow_succ_r in Hb by lia.
      change (2 ^ 54) with (2 * 2 ^ 53) in E'.
      assert (2 ^ 53 * den < 2 ^ b * 2 ^ t); [|lia].
      rewrite E'. 
      assert (2 ^ 53 * den < 2 ^ 53 * (2 * 2 ^ b)) by (apply Z.mul_lt_mono_pos_l; lia).
      assert (2 ^ 53 * (2 * 2 ^ b) <= 2 ^ b * (2 * 2 ^ 53 * 2 ^ (t - 54))); [|lia].
      replace (2 ^ b * (2 * 2 ^ 53 * 2 ^ (t - 54)))
        with (2 ^ 53 * (2 * 2 ^ b) * 2 ^ (t - 54)) by ring.
      assert (0 < 2 ^ 53 * (2 * 2 ^ b)) by lia. nia.
    - (* lg = t *)
      assert (Ht : 53 <= t) by lia.
      destruct (Z.leb_spec 0 t); [|lia].
      injection E1 as <- <-.
      assert (E' : 2 ^ t = 2 ^ 53 * 2 ^ (t - 53)).
      { rewrite <- Z.pow_add_r by lia. f_equal. lia. }
      pose proof (pow2_pos (t - 53) ltac:(lia)) as Hp.
      rewrite E' in Hge. nia. }
  destruct (scale2 num den (Z.max (lg - 52) (-1074))) as [n2 d2]. simpl. lia.
Qed.

Lemma nearest64_bounds (num den L H : Z) :
  0 < num -> 0 < den -> L * den <= num <= H * den -> H < 2 ^ 53 ->
  (nearest64 num den).2 <= 0 /\
  L * 2 ^ (- (nearest64 num den).2) <= (nearest64 num den).1
    <= H * 2 ^ (- (nearest64 num den).2).
Proof.
  intros Hnum Hden [HL HH] H53.
  pose proof (nearest64_exponent num den H Hnum Hden HH H53) as HE.
  split; [done|]. revert HE. unfold nearest64.
  destruct (scale2 num den (Z.log2 num - Z.log2 den)) as [n1 d1].
  generalize (Z.max ((if n1 <? d1 then Z.log2 num - Z.log2 den - 1
                      else Z.log2 num - Z.log2 den) - 52) (-1074)).
  intros E. unfold scale2.
  destruct (Z.leb_spec 0 E) as [H0|H0]; cbn [fst snd]; intros HE.
  - assert (E = 0) as -> by lia. change (- 0) with 0. change (2 ^ 0) with 1.
    rewrite !Z.mul_1_r.
    apply roundHalfEven_bounds; [done|]. lia.
  - pose proof (pow2_pos (- E) ltac:(lia)) as Hp.
    apply roundHalfEven_bounds; [done|]. nia.
Qed.

(** [between] read on the fraction [binary64] and [round] work with. *)
Lemma between_fraction (lo hi m e : Z) :
  between lo hi (Fin m e) ->
  if 0 <=? e then lo <= m * 10 ^ e <= hi
  else lo * 10 ^ (- e) <= m <= hi * 10 ^ (- e).
Proof.
  intros (m' & e' & k & [= <- <-] & Hke & Hk0 & Hlo & Hhi).
  destruct (Z.leb_spec 0 e) as [He|He].
  - pose proof (pow10_pos (- k) ltac:(lia)) as Hp.
    replace (e - k) with (e + - k) in Hlo, Hhi by lia.
    rewrite Z.pow_add_r in Hlo, Hhi by lia.
    rewrite Z.mul_assoc in Hlo, Hhi. split.
    + eapply Z.mul_le_mono_pos_r; [exact Hp|exact Hlo].
    + eapply Z.mul_le_mono_pos_r; [exact Hp|exact Hhi].
  - pose proof (pow10_pos (e - k) ltac:(lia)) as Hp.
    replace (- k) with (- e + (e - k)) in Hlo, Hhi by lia.
    rewrite Z.pow_add_r in Hlo, Hhi by lia.
    rewrite Z.mul_assoc in Hlo, Hhi. split.
    + eapply Z.mul_le_mono_pos_r; [exact Hp|exact Hlo].
    + eapply Z.mul_le_mono_pos_r; [exact Hp|exact Hhi].
Qed.

Lemma between_integer (z : Z) : between z z (Fin z 0).
Proof.
  exists z, 0, 0. split; [done|]. do 2 (split; [lia|]).
  change (- 0) with 0. rewrite Z.sub_0_r. change (10 ^ 0) with 1. lia.
Qed.

Lemma between_weaken (lo hi lo' hi' : Z) (a : number) :
  lo' <= lo -> hi <= hi' -> between lo hi a -> between lo' hi' a.
Proof.
  intros H1 H2 (m & e & k & -> & Hke & Hk0 & Hlo & Hhi).
  exists m, e, k. split; [done|]. do 2 (split; [done|]).
  pose proof (pow10_pos (- k) ltac:(lia)) as Hp. nia.
Qed.

Lemma between_binary64 (lo hi : Z) (a : number) :
  - 2 ^ 53 < lo -> hi < 2 ^ 53 ->
  between lo hi a -> between lo hi (binary64 a).
Proof.
  intros Hlo Hhi Hb. pose proof Hb as (m & e & k & -> & _).
  apply between_fraction in Hb. unfold binary64.
  destruct (Z.eqb_spec m 0) as [->|Hm].
  { exists 0, 0, 0. split; [done|]. do 2 (split; [lia|]).
    change (- 0) with 0. rewrite Z.sub_diag. change (10 ^ 0) with 1.
    destruct (Z.leb_spec 0 e).
    - rewrite Z.mul_0_l in Hb. lia.
    - pose proof (pow10_pos (- e) ltac:(lia)). nia. }
  set (num := if 0 <=? e then Z.abs m * 10 ^ e else Z.abs m).
  set (den := if 0 <=? e then 1 else 10 ^ (- e)).
  assert (Hq : (if 0 <=? e then nearest64 (Z.abs m * 10 ^ e) 1
                else nearest64 (Z.abs m) (10 ^ (- e))) = nearest64 num den)
    by (unfold num, den; by destruct (0 <=? e)).
  rewrite Hq. clear Hq.
  assert (Hden : 0 < den).
  { unfold den. destruct (Z.leb_spec 0 e); [lia|]. apply pow10_pos. lia. }
  assert (Hnum : 0 < num).
  { unfold num. destruct (Z.leb_spec 0 e); [|lia].
    pose proof (pow10_pos e ltac:(lia)). nia. }
  assert (Hval : lo * den <= Z.sgn m * num <= hi * den).
  { assert (Hsa : Z.sgn m * Z.abs m = m) by lia.
    unfold num, den. destruct (0 <=? e).
    - rewrite Z.mul_assoc, Hsa. lia.
    - rewrite Hsa. lia. }
  assert (Hres : exists q E, nearest64 num den = (q, E) /\ E <= 0 /\
                   lo * 2 ^ (- E) <= Z.sgn m * q <= hi * 2 ^ (- E)).
  { destruct (nearest64 num den) as [q E] eqn:HqE. exists q, E. split; [done|].
    destruct (Z.sgn_spec m) as [[Hs ->]|[[Hs _]|[Hs ->]]]; [|done|].
    - destruct (nearest64_bounds num den lo hi Hnum Hden ltac:(lia) Hhi) as [HE Hb'].
      rewrite HqE in HE, Hb'. simpl in HE, Hb'. split; [done|]. lia.
    - destruct (nearest64_bounds num den (- hi) (- lo) Hnum Hden ltac:(lia) ltac:(lia))
        as [HE Hb'].
      rewrite HqE in HE, Hb'. simpl in HE, Hb'. split; [done|]. lia. }
  destruct Hres as (q & E & -> & HE & Hqb).
  destruct (Z.ltb_spec 971 E); [lia|]. destruct (Z.eqb_spec E 971); [lia|].
  cbn [orb andb].
  destruct (Z.leb_spec 0 E).
  - assert (E = 0) as -> by lia. change (2 ^ 0) with 1 in *. simpl in Hqb.
    exists (Z.sgn m * q * 1), 0, 0. split; [done|]. do 2 (split; [lia|]).
    simpl. lia.
  - exists (Z.sgn m * q * 5 ^ (- E)), E, E. split; [done|]. do 2 (split; [lia|]).
    rewrite Z.sub_diag. change (10 ^ 0) with 1.
    change 10 with (2 * 5). rewrite Z.pow_mul_l.
    pose proof (Z.pow_pos_nonneg 5 (- E) ltac:(lia) ltac:(lia)). nia.
Qed.

(** A number also lies between its bounds at every finer power of ten. *)
Lemma between_scale (lo hi m e k k' : Z) :
  k' <= k -> k <= 0 ->
  lo * 10 ^ (- k) <= m * 10 ^ (e - k) <= hi * 10 ^ (- k) ->
  k <= e ->
  lo * 10 ^ (- k') <= m * 10 ^ (e - k') <= hi * 10 ^ (- k').
Proof.
  intros Hk Hk0 [Hlo Hhi] Hke.
  pose proof (pow10_pos (k - k') ltac:(lia)) as Hp.
  replace (- k') with (- k + (k - k')) by lia.
  replace (e - k') with (e - k + (k - k')) by lia.
  rewrite !Z.pow_add_r by lia. rewrite !Z.mul_assoc.
  split; apply Z.mul_le_mono_nonneg_r; lia.
Qed.

Lemma between_sub (lo1 hi1 lo2 hi2 : Z) (a b : number) :
  between lo1 hi1 a -> between lo2 hi2 b ->
  between (lo1 - hi2) (hi1 - lo2) (sub a b).
Proof.
  intros (m1 & e1 & k1 & -> & Hke1 & Hk1 & Hb1) (m2 & e2 & k2 & -> & Hke2 & Hk2 & Hb2).
  unfold sub, aligned. set (kk := Z.min e1 e2). set (k := Z.min k1 k2).
  exists (m1 * 10 ^ (e1 - kk) - m2 * 10 ^ (e2 - kk)), kk, k.
  split; [done|]. split; [unfold kk, k; lia|]. split; [unfold k; lia|].
  apply (between_scale _ _ _ _ k1 k) in Hb1; [|unfold k; lia|lia..].
  apply (between_scale _ _ _ _ k2 k) in Hb2; [|unfold k; lia|lia..].
  assert (E1 : m1 * 10 ^ (e1 - kk) * 10 ^ (kk - k) = m1 * 10 ^ (e1 - k)).
  { rewrite <- Z.mul_assoc, <- Z.pow_add_r by (unfold kk, k; lia).
    do 2 f_equal. lia. }
  assert (E2 : m2 * 10 ^ (e2 - kk) * 10 ^ (kk - k) = m2 * 10 ^ (e2 - k)).
  { rewrite <- Z.mul_assoc, <- Z.pow_add_r by (unfold kk, k; lia).
    do 2 f_equal. lia. }
  replace ((m1 * 10 ^ (e1 - kk) - m2 * 10 ^ (e2 - kk)) * 10 ^ (kk - k))
    with (m1 * 10 ^ (e1 - k) - m2 * 10 ^ (e2 - k))
    by (rewrite <- E1, <- E2; ring).
  lia.
Qed.

(** The product with a positive integer constant. *)
Lemma between_mul (lo hi c : Z) (a b : number) :
  0 <= c -> between lo hi a -> between c c b ->
  between (lo * c) (hi * c) (mul a b).
Proof.
  intros Hc (m1 & e1 & k1 & -> & Hke1 & Hk1 & Hb1) (m2 & e2 & k2 & -> & Hke2 & Hk2 & Hb2).
  unfold mul. exists (m1 * m2), (e1 + e2), (k1 + k2).
  split; [done|]. do 2 (split; [lia|]).
  replace (e1 + e2 - (k1 + k2)) with ((e1 - k1) + (e2 - k2)) by lia.
  replace (- (k1 + k2)) with (- k1 + - k2) by lia.
  rewrite !Z.pow_add_r by lia.
  pose proof (pow10_pos (- k1) ltac:(lia)). pose proof (pow10_pos (- k2) ltac:(lia)).
  assert (E : m2 * 10 ^ (e2 - k2) = c * 10 ^ (- k2)) by lia.
  replace (m1 * m2 * (10 ^ (e1 - k1) * 10 ^ (e2 - k2)))
    with (m1 * 10 ^ (e1 - k1) * (m2 * 10 ^ (e2 - k2))) by ring.
  rewrite E. nia.
Qed.

Lemma between_fsub (lo1 hi1 lo2 hi2 : Z) (a b : number) :
  - 2 ^ 53 < lo1 - hi2 -> hi1 - lo2 < 2 ^ 53 ->
  between lo1 hi1 (binary64 a) -> between lo2 hi2 (binary64 b) ->
  between (lo1 - hi2) (hi1 - lo2) (fsub a b).
Proof.
  intros. unfold fsub. apply between_binary64; [done..|].
  by apply between_sub.
Qed.

Lemma between_fmul (lo hi c : Z) (a b : number) :
  0 <= c -> - 2 ^ 53 < lo * c -> hi * c < 2 ^ 53 ->
  between lo hi (binary64 a) -> between c c (binary64 b) ->
  between (lo * c) (hi * c) (fmul a b).
Proof.
  intros. unfold fmul. apply between_binary64; [done..|].
  by apply between_mul.
Qed.

(** *** Comparison with a constant *)

Lemma between_ltb (lo hi c ec : Z) (a : number) :
  0 <= ec -> between lo hi a ->
  (hi < c * 10 ^ ec -> ltb a (Fin c ec) = true) /\
  (c * 10 ^ ec <= lo -> ltb a (Fin c ec) = false) /\
  (c * 10 ^ ec < lo -> ltb (Fin c ec) a = true) /\
  (hi <= c * 10 ^ ec -> ltb (Fin c ec) a = false).
Proof.
  intros Hec (m & e & k & -> & Hke & Hk0 & Hlo & Hhi).
  pose proof (pow10_pos (- k) ltac:(lia)) as Hp.
  assert (E : c * 10 ^ (ec - k) = c * 10 ^ ec * 10 ^ (- k)).
  { rewrite <- Z.mul_assoc, <- Z.pow_add_r by lia. f_equal. }
  pose proof (ltb_Fin m e c ec k Hke ltac:(lia)) as H1.
  pose proof (ltb_Fin c ec m e k ltac:(lia) Hke) as H2.
  rewrite E in H1, H2.
  repeat split.
  - intros H. apply H1. nia.
  - intros H. apply not_true_is_false. intros Hc. apply H1 in Hc. nia.
  - intros H. apply H2. nia.
  - intros H. apply not_true_is_false. intros Hc. apply H2 in Hc. nia.
Qed.

Lemma between_round (lo hi : Z) (a : number) :
  between lo hi a -> exists ms, round a = Fin ms 0 /\ lo <= ms <= hi.
Proof.
  intros Hb. pose proof Hb as (m & e & k & -> & _).
  apply between_fraction in Hb. unfold round.
  destruct (Z.leb_spec 0 e) as [He|He].
  - by eexists.
  - eexists. split; [done|].
    pose proof (pow10_pos (- e) ltac:(lia)) as Hp.
    split.
    + apply Z.div_le_lower_bound; [lia|]. nia.
    + apply Z.lt_succ_r, Z.div_lt_upper_bound; [lia|]. nia.
Qed.

(** The millisecond count of a serial between two integers lies between
    their millisecond counts: every rounding keeps the order and is
    exact on the integers met. *)
Lemma serialMillis_between (lo hi : Z) (n : number) :
  20000 <= lo -> hi <= 60000 -> between lo hi (binary64 n) ->
  exists ms, serialMillis n = Fin ms 0 /\
    (lo - 25569) * msPerDay <= ms <= (hi - 25569) * msPerDay.
Proof.
  intros Hlo Hhi Hb. unfold serialMillis, msPerDay.
  assert (Hc : forall c a, - 2 ^ 53 < c < 2 ^ 53 -> between c c a ->
                           between c c (binary64 a)).
  { intros c a Hc Ha. apply between_binary64; [lia..|done]. }
  change (2 ^ 53) with 9007199254740992 in *.
  assert (H1 : between (lo - 25569) (hi - 25569) (fsub n (ofZ 25569))).
  { apply between_fsub; [change (2 ^ 53) with 9007199254740992; lia..|done|].
    apply Hc; [lia|]. apply between_integer. }
  assert (H2 : between ((lo - 25569) * 86400) ((hi - 25569) * 86400)
                 (fmul (fsub n (ofZ 25569)) (ofZ 86400))).
  { apply between_fmul; [change (2 ^ 53) with 9007199254740992; lia..| |].
    - apply between_binary64; [change (2 ^ 53) with 9007199254740992; lia..|done].
    - apply Hc; [lia|]. change (ofZ 86400) with (Fin 864 2). exists 864, 2, 0.
      split; [done|]. do 2 (split; [lia|]). simpl. lia. }
  assert (H3 : between ((lo - 25569) * 86400 * 1000) ((hi - 25569) * 86400 * 1000)
                 (fmul (fmul (fsub n (ofZ 25569)) (ofZ 86400)) (ofZ 1000))).
  { apply between_fmul; [change (2 ^ 53) with 9007199254740992; lia..| |].
    - apply between_binary64; [change (2 ^ 53) with 9007199254740992; lia..|done].
    - apply Hc; [lia|]. change (ofZ 1000) with (Fin 1 3). exists 1, 3, 0.
      split; [done|]. do 2 (split; [lia|]). simpl. lia. }
  apply between_round in H3 as (ms & Hms & Hb3). exists ms. split; [done|]. lia.
Qed.

(** The band test is made on the binary64 value. *)
Lemma band_between (n : number) :
  isPotentialExcelDate (VNum n) = true -> between 20000 60000 (binary64 n).
Proof.
  unfold isPotentialExcelDate, gtb.
  change (ofZ 20000) with (Fin 2 4). change (ofZ 60000) with (Fin 6 4).
  intros [H1 H2]%andb_true_iff.
  destruct (binary64 n) as [|s|m e]; [done| by destruct s |].
  exists m, e, (Z.min e 0). split; [done|]. do 2 (split; [lia|]).
  apply (ltb_Fin 2 4 m e (Z.min e 0)) in H1; [|lia..].
  apply (ltb_Fin m e 6 4 (Z.min e 0)) in H2; [|lia..].
  replace (4 - Z.min e 0) with (4 + - Z.min e 0) in H1, H2 by lia.
  rewrite Z.pow_add_r in H1, H2 by lia. change (10 ^ 4) with 10000 in *. lia.
Qed.

Lemma between_band (lo hi : Z) (n : number) :
  20000 < lo -> hi < 60000 -> between lo hi (binary64 n) ->
  isPotentialExcelDate (VNum n) = true.
Proof.
  intros Hlo Hhi Hb. unfold isPotentialExcelDate, gtb.
  change (ofZ 20000) with (Fin 2 4). change (ofZ 60000) with (Fin 6 4).
  destruct (between_ltb lo hi 2 4 _ ltac:(lia) Hb) as (_ & _ & H1 & _).
  destruct (between_ltb lo hi 6 4 _ ltac:(lia) Hb) as (H2 & _).
  rewrite H1, H2 by (change (10 ^ 4) with 10000; lia). done.
Qed.

Lemma band_millis (n : number) :
  isPotentialExcelDate (VNum n) = true ->
  exists ms, serialMillis n = Fin ms 0 /\ -5569 <= ms / msPerDay <= 34431.
Proof.
  intros H. apply band_between in H.
  destruct (serialMillis_between 20000 60000 n ltac:(lia) ltac:(lia) H)
    as (ms & Hms & Hb).
  exists ms. split; [done|]. unfold msPerDay in *.
  split.
  - apply Z.div_le_lower_bound; lia.
  - apply Z.div_le_upper_bound; lia.
Qed.

(** *** The shape of a date string of the band *)

Lemma isDigit_cases (c : N) :
  isDigit c = true ->
  (c = 48 \/ c = 49 \/ c = 50 \/ c = 51 \/ c = 52 \/ c = 53 \/
   c = 54 \/ c = 55 \/ c = 56 \/ c = 57)%N.
Proof.
  unfold isDigit. rewrite andb_true_iff, !N.leb_le. lia.
Qed.

Lemma uint_digits_digits (d : Decimal.uint) : Forall (fun c => isDigit c = true) (uint_digits d).
Proof. induction d; simpl; constructor; done. Qed.

Lemma padDigits_digits (w : nat) (n : N) :
  Forall (fun c => isDigit c = true) (padDigits w n).
Proof.
  unfold padDigits. apply Forall_app. split.
  - apply Forall_forall. intros c Hc. apply list_elem_of_In, repeat_spec in Hc.
    by subst.
  - apply uint_digits_digits.
Qed.

Lemma civilFromDays_band_year (d : Z) :
  -5569 <= d <= 34431 -> 0 <= (civilFromDays d).1.1 <= 9999.
Proof.
  intros Hd. unfold civilFromDays. simpl.
  destruct (_ <=? 2); Z.to_euclidean_division_equations; lia.
Qed.

Lemma isoDate_band_shape (d : Z) :
  -5569 <= d <= 34431 ->
  exists ys ms ds, isoDate d = ys ++ 45%N :: ms ++ 45%N :: ds /\
    Forall (fun c => isDigit c = true) ys /\
    Forall (fun c => isDigit c = true) ms /\
    Forall (fun c => isDigit c = true) ds.
Proof.
  intros Hd. pose proof (civilFromDays_band_year d Hd) as Hy.
  unfold isoDate. destruct (civilFromDays d) as [[y m] dd]. simpl in Hy.
  replace ((0 <=? y) && (y <=? 9999)) with true
    by (symmetry; apply andb_true_iff; split; apply Z.leb_le; lia).
  exists (padDigits 4 (Z.to_N y)), (padDigits 2 (Z.to_N m)), (padDigits 2 (Z.to_N dd)).
  split; [|auto using padDigits_digits].
  reflexivity.
Qed.

Lemma isDigit_not_space (c : N) : isDigit c = true -> isWhiteSpace c = false.
Proof.
  intros H. apply isDigit_cases in H.
  repeat (destruct H as [->|H]; [reflexivity|]). by subst.
Qed.

Lemma trim_fixed (s : jsstring) :
  Forall (fun c => isWhiteSpace c = false) s -> trim s = s.
Proof.
  intros Hs. unfold trim, trimEnd.
  rewrite (trimStart_fixed s) by (destruct Hs; done).
  rewrite (trimStart_fixed (rev s)); [apply rev_involutive|].
  apply Forall_rev in Hs. destruct Hs; done.
Qed.

(** *** The numeric pattern on a date string *)


Lemma test_Void (s : jsstring) : test Void s = false.
Proof. induction s; simpl; done. Qed.

Lemma deriv_digit (c : N) (r : regex) :
  isDigit c = true ->
  r = numericPattern \/ r = afterDigit \/ r = afterSign ->
  deriv c r = afterDigit.
Proof.
  intros Hc Hr. apply isDigit_cases in Hc.
  repeat (destruct Hc as [->|Hc];
          [destruct Hr as [->|[->| ->]]; vm_compute; reflexivity|]).
  subst. destruct Hr as [->|[->| ->]]; vm_compute; reflexivity.
Qed.

Lemma test_digits (r : regex) (ds rest : jsstring) :
  Forall (fun c => isDigit c = true) ds ->
  r = numericPattern \/ r = afterDigit \/ r = afterSign ->
  test r (ds ++ rest) = test (match ds with [] => r | _ => afterDigit end) rest.
Proof.
  intros Hds. revert r. induction Hds as [|c ds Hc Hds IH]; intros r Hr; [done|].
  simpl. rewrite (deriv_digit c r Hc Hr), IH by auto. by destruct ds.
Qed.

Lemma test_date_shape (ys ms ds : jsstring) :
  Forall (fun c => isDigit c = true) ys ->
  Forall (fun c => isDigit c = true) ms ->
  test numericPattern (ys ++ 45%N :: ms ++ 45%N :: ds) = false.
Proof.
  intros Hys Hms. rewrite test_digits by auto.
  destruct ys; simpl test at 1.
  - change (deriv 45%N numericPattern) with afterSign.
    rewrite test_digits by auto.
    destruct ms; simpl test at 1.
    + replace (deriv 45%N afterSign) with Void by (vm_compute; reflexivity).
      apply test_Void.
    + replace (deriv 45%N afterDigit) with Void by (vm_compute; reflexivity).
      apply test_Void.
  - replace (deriv 45%N afterDigit) with Void by (vm_compute; reflexivity).
    apply test_Void.
Qed.

(** A date string of the band is left alone by the normalizer's string
    branch: nothing to trim, and the numeric pattern rejects it. *)
Lemma isoDate_band_plain (d : Z) :
  -5569 <= d <= 34431 ->
  (84%N ∉ isoDate d) /\ trim (isoDate d) = isoDate d /\
  test numericPattern (isoDate d) = false /\ isoDate d <> [].
Proof.
  intros Hd. destruct (isoDate_band_shape d Hd) as (ys & ms & ds & -> & Hy & Hm & Hdd).
  assert (Hall : Forall (fun c => isDigit c = true \/ c = 45%N)
                        (ys ++ 45%N :: ms ++ 45%N :: ds)).
  { repeat first [apply Forall_app; split | apply Forall_cons; split];
      try (by right); eapply Forall_impl; eauto; by left. }
  repeat split.
  - intros HT. eapply Forall_forall in Hall; [|exact HT].
    destruct Hall as [H|H]; [|done]. apply isDigit_cases in H.
    repeat (destruct H as [H|H]; [done|]). done.
  - apply trim_fixed. eapply Forall_impl; [exact Hall|].
    intros c [H| ->]; [by apply isDigit_not_space|reflexivity].
  - by apply test_date_shape.
  - by destruct ys.
Qed.

(** ** The value normalizer *)

(** On a serial of the band [excelDateToJSDate] returns, and returns the
    calendar date of the day the rounded millisecond count falls on. *)
Lemma excelDateToJSDate_band (n : number) :
  isPotentialExcelDate (VNum n) = true ->
  exists ms, serialMillis n = Fin ms 0 /\ -5569 <= ms / msPerDay <= 34431 /\
             excelDateToJSDate n = Some (isoDate (ms / msPerDay)).
Proof.
  intros H. destruct (band_millis n H) as (ms & Hms & Hday).
  exists ms. do 2 (split; [done|]).
  apply band_between in H.
  unfold excelDateToJSDate.
  assert (Hguard : ltb (binary64 n) (ofZ 1) || gtb (binary64 n) (ofZ 100000) = false).
  { change (ofZ 1) with (Fin 1 0). change (ofZ 100000) with (Fin 1 5). unfold gtb.
    destruct (between_ltb 20000 60000 1 0 _ ltac:(lia) H) as (_ & -> & _);
      [|change (10 ^ 0) with 1; lia].
    destruct (between_ltb 20000 60000 1 5 _ ltac:(lia) H) as (_ & _ & _ & ->);
      [done|change (10 ^ 5) with 100000; lia]. }
  rewrite Hguard. fold (serialMillis n). rewrite Hms.
  unfold Date_toISOString. rewrite timeClip_integer.
  2:{ unfold msPerDay in Hday. Z.to_euclidean_division_equations. lia. }
  cbn [mbind option_bind]. apply split_T_head.
  apply isoDate_band_plain. done.
Qed.


Lemma canon_go_value (fuel : nat) (m e : Z) :
  m <> 0 ->
  e <= (canon_go fuel m e).2 /\
  (canon_go fuel m e).1 * 10 ^ ((canon_go fuel m e).2 - e) = m.
Proof.
  revert m e. induction fuel as [|f IH]; intros m e Hm; simpl.
  - rewrite Z.sub_diag. lia.
  - destruct (Z.eqb_spec m 0) as [|_]; [done|].
    destruct (Z.eqb_spec (m mod 10) 0) as [Hmod|_]; simpl.
    + assert (Hdiv : m = 10 * (m / 10)) by (Z.to_euclidean_division_equations; lia).
      destruct (IH (m / 10) (e + 1) ltac:(lia)) as [He Hv].
      split; [lia|].
      replace ((canon_go f (m / 10) (e + 1)).2 - e)
        with (1 + ((canon_go f (m / 10) (e + 1)).2 - (e + 1))) by lia.
      rewrite Z.pow_add_r by lia. change (10 ^ 1) with 10.
      transitivity (10 * (m / 10)); [|lia].
      set (r := canon_go f (m / 10) (e + 1)) in *. rewrite <- Hv. ring.
    + rewrite Z.sub_diag. lia.
Qed.

Lemma ofZ_value (z : Z) :
  z <> 0 -> exists m e, ofZ z = Fin m e /\ 0 <= e /\ m * 10 ^ e = z.
Proof.
  intros Hz. unfold ofZ, mkFin, canon.
  destruct (canon_go_value (S (Z.to_nat (Z.log2 (Z.abs z)))) z 0 Hz) as [He Hv].
  destruct (canon_go _ z 0) as [m e]. simpl in *.
  exists m, e. rewrite Z.sub_0_r in Hv. done.
Qed.

Lemma cleanAndFormatValue_string (s : jsstring) :
  cleanAndFormatValue (VStr s) =
  if test numericPattern (trim s) then
    if negb (isNaN (parseFloat (stripNonNumeric (trim s))))
    then VNum (parseFloat (stripNonNumeric (trim s)))
    else VStr (trim s)
  else VStr (trim s).
Proof. destruct s; reflexivity. Qed.

Lemma cleanAndFormatValue_band (n : number) :
  isPotentialExcelDate (VNum n) = true ->
  exists ms, serialMillis n = Fin ms 0 /\ -5569 <= ms / msPerDay <= 34431 /\
             cleanAndFormatValue (VNum n) = VStr (isoDate (ms / msPerDay)).
Proof.
  intros H. destruct (excelDateToJSDate_band n H) as (ms & Hms & Hd & Hx).
  exists ms. do 2 (split; [done|]).
  unfold cleanAndFormatValue. by rewrite H, Hx.
Qed.

Lemma between_ofZ (z : Z) : z <> 0 -> between z z (ofZ z).
Proof.
  intros Hz. destruct (ofZ_value z Hz) as (m & e & -> & He & Hv).
  exists m, e, 0. split; [done|]. do 2 (split; [lia|]).
  change (- 0) with 0. rewrite Z.sub_0_r. change (10 ^ 0) with 1.
  rewrite Hv, Z.mul_1_r. split; apply Z.le_refl.
Qed.

Lemma cleanAndFormatValue_between (n : number) (z : Z) :
  20000 < z < 60000 -> between z z n ->
  isPotentialExcelDate (VNum n) = true /\
  cleanAndFormatValue (VNum n) = VStr (isoDate (z - 25569)).
Proof.
  intros Hz Hb.
  assert (Hb' : between z z (binary64 n)).
  { apply between_binary64; [change (2 ^ 53) with 9007199254740992; lia..|done]. }
  assert (Hband : isPotentialExcelDate (VNum n) = true)
    by (apply (between_band z z); [lia..|done]).
  split; [done|].
  destruct (cleanAndFormatValue_band _ Hband) as (ms & Hms & _ & ->).
  do 2 f_equal.
  destruct (serialMillis_between z z n ltac:(lia) ltac:(lia) Hb') as (ms' & Hms' & Hv).
  rewrite Hms in Hms'. injection Hms' as <-.
  assert (ms = (z - 25569) * msPerDay) as -> by lia.
  apply Z.div_mul. done.
Qed.

(** The date of a serial between two consecutive integers is the date
    of the lower one, or of the upper one when the rounded instant is
    the midnight that day begins with. *)
Lemma cleanAndFormatValue_fractional (n : number) (z : Z) :
  20000 <= z < 60000 ->
  isPotentialExcelDate (VNum n) = true ->
  between z (z + 1) n ->
  cleanAndFormatValue (VNum n) = VStr (isoDate (z - 25569)) \/
  (serialMillis n = Fin ((z + 1 - 25569) * msPerDay) 0 /\
   cleanAndFormatValue (VNum n) = VStr (isoDate (z + 1 - 25569))).
Proof.
  intros Hz Hband Hb.
  assert (Hb' : between z (z + 1) (binary64 n)).
  { apply between_binary64; [change (2 ^ 53) with 9007199254740992; lia..|done]. }
  destruct (cleanAndFormatValue_band _ Hband) as (ms & Hms & _ & ->).
  destruct (serialMillis_between z (z + 1) n ltac:(lia) ltac:(lia) Hb')
    as (ms' & Hms' & Hv).
  rewrite Hms in Hms'. injection Hms' as <-.
  unfold msPerDay in *.
  destruct (Z.eq_dec ms ((z + 1 - 25569) * 86400000)) as [->|Hne].
  - right. split; [done|]. by rewrite Z.div_mul.
  - left. do 2 f_equal.
    symmetry. apply (Z.div_unique _ _ _ (ms - (z - 25569) * 86400000)); lia.
Qed.

(** Claim C7, as the code has it. A number strictly between 20000 and 60000
    normalizes to the UTC calendar date [YYYY-MM-DD] of the instant
    [Math.round((serial - 25569) * 86400 * 1000)] milliseconds after the
    Unix epoch, the difference and the products being rounded to
    binary64 as the engine rounds them. For an integral serial that is
    the date of day [serial - 25569]; for a serial between two
    consecutive integers it is the date of the day of the lower one, or
    of the next day when the rounded instant is that day's midnight, as
    for [51020.99999999421]. [45292] gives ["2024-01-01"]. The value
    [5], outside the band, is passed through as the number [5], and the
    string ["5"] is parsed to that same number; neither is the string
    ["5"]. *)
Theorem date_serial_decoded :
  (forall n : number,
     isPotentialExcelDate (VNum n) = true ->
     exists ms, serialMillis n = Fin ms 0 /\
       cleanAndFormatValue (VNum n) = VStr (isoDate (ms / msPerDay))) /\
  (forall z : Z,
     20000 < z < 60000 ->
     isPotentialExcelDate (VNum (ofZ z)) = true /\
     cleanAndFormatValue (VNum (ofZ z)) = VStr (isoDate (z - 25569))) /\
  (forall (n : number) (z : Z),
     20000 <= z < 60000 ->
     isPotentialExcelDate (VNum n) = true ->
     between z (z + 1) n ->
     cleanAndFormatValue (VNum n) = VStr (isoDate (z - 25569)) \/
     (serialMillis n = Fin ((z + 1 - 25569) * msPerDay) 0 /\
      cleanAndFormatValue (VNum n) = VStr (isoDate (z + 1 - 25569)))) /\
  serialMillis (Fin 5102099999999421 (-11)) = Fin 2199052800000 0 /\
  cleanAndFormatValue (VNum (Fin 5102099999999421 (-11))) = VStr (str "2039-09-08") /\
  isoDate 0 = str "1970-01-01" /\
  cleanAndFormatValue (VNum (ofZ 45292)) = VStr (str "2024-01-01") /\
  isPotentialExcelDate (VNum (ofZ 5)) = false /\
  cleanAndFormatValue (VNum (ofZ 5)) = VNum (ofZ 5) /\
  cleanAndFormatValue (VStr (str "5")) = VNum (ofZ 5).
Proof.
  split; [|split; [|split; [|repeat split; vm_compute; reflexivity]]].
  - intros n H. destruct (cleanAndFormatValue_band n H) as (ms & ? & _ & ?).
    by exists ms.
  - intros z Hz. apply cleanAndFormatValue_between; [done|].
    apply between_ofZ. lia.
  - apply cleanAndFormatValue_fractional.
Qed.

(** An instance: the serial 45292, and the serial 45292.5 at noon of
    the same day. *)
Lemma date_serial_decoded_witness :
  isPotentialExcelDate (VNum (ofZ 45292)) = true /\
  (20000 < 45292 < 60000) /\
  (exists ms, serialMillis (ofZ 45292) = Fin ms 0 /\
     cleanAndFormatValue (VNum (ofZ 45292)) = VStr (isoDate (ms / msPerDay))) /\
  cleanAndFormatValue (VNum (ofZ 45292)) = VStr (isoDate (45292 - 25569)) /\
  (cleanAndFormatValue (VNum (Fin 452925 (-1))) = VStr (isoDate (45292 - 25569)) \/
   (serialMillis (Fin 452925 (-1)) = Fin ((45292 + 1 - 25569) * msPerDay) 0 /\
    cleanAndFormatValue (VNum (Fin 452925 (-1)))
      = VStr (isoDate (45292 + 1 - 25569)))).
Proof.
  split; [vm_compute; reflexivity|]. split; [lia|]. split; [|split].
  - apply (proj1 date_serial_decoded). vm_compute. reflexivity.
  - apply (proj1 (proj2 date_serial_decoded) 45292). lia.
  - apply (proj1 (proj2 (proj2 date_serial_decoded)) (Fin 452925 (-1)) 45292).
    + lia.
    + vm_compute. reflexivity.
    + exists 452925, (-1), (-1). split; [reflexivity|]. vm_compute.
      repeat split; discriminate.
Defined.

(** Claim C7 as the specification words it fails: the value [5] does not come
    out as the string ["5"], whether it went in as a number or as a
    string. *)
Lemma five_is_not_a_string :
  cleanAndFormatValue (VNum (ofZ 5)) <> VStr (str "5") /\
  cleanAndFormatValue (VStr (str "5")) <> VStr (str "5").
Proof. split; vm_compute; discriminate. Qed.

(** Claim C1 as the specification words it fails: the string ["45292"] is
    parsed to the number 45292, which a second pass decodes as a date. *)
Lemma normalize_twice_differs :
  cleanAndFormatValue (VStr (str "45292")) = VNum (ofZ 45292) /\
  cleanAndFormatValue (cleanAndFormatValue (VStr (str "45292")))
    = VStr (str "2024-01-01") /\
  cleanAndFormatValue (cleanAndFormatValue (VStr (str "45292")))
    <> cleanAndFormatValue (VStr (str "45292")).
Proof. repeat split; vm_compute; [reflexivity..|discriminate]. Qed.

(** Claim C1, as the code has it. Normalizing twice is normalizing once for
    every raw value except a string that the numeric pattern parses to a
    number strictly between 20000 and 60000. *)
Theorem normalize_idempotent (x : value) :
  parsesIntoDateBand x = false ->
  cleanAndFormatValue (cleanAndFormatValue x) = cleanAndFormatValue x.
Proof.
  intros Hx. destruct x as [| |b|n|s]; try reflexivity.
  - destruct (isPotentialExcelDate (VNum n)) eqn:Hband.
    + destruct (cleanAndFormatValue_band n Hband) as (ms & _ & Hd & ->).
      destruct (isoDate_band_plain _ Hd) as (_ & Htrim & Htest & _).
      by rewrite cleanAndFormatValue_string, Htrim, Htest.
    + assert (Hn : cleanAndFormatValue (VNum n) = VNum n)
        by (unfold cleanAndFormatValue; by rewrite Hband).
      by rewrite !Hn.
  - unfold parsesIntoDateBand in Hx.
    pose proof (cleanAndFormatValue_string s) as E.
    pose proof (cleanAndFormatValue_string (trim s)) as E'.
    rewrite trim_idempotent in E'.
    destruct (test numericPattern (trim s)).
    + destruct (isNaN (parseFloat (stripNonNumeric (trim s)))); cbn [negb] in E, E'.
      * by rewrite E, E'.
      * rewrite E in Hx |- *. unfold cleanAndFormatValue. by rewrite Hx.
    + by rewrite E, E'.
Qed.

(** An instance: the currency string ["$1,250.50"]. *)
Lemma normalize_idempotent_witness :
  parsesIntoDateBand (VStr (str "$1,250.50")) = false /\
  cleanAndFormatValue (cleanAndFormatValue (VStr (str "$1,250.50")))
    = cleanAndFormatValue (VStr (str "$1,250.50")).
Proof.
  split; [reflexivity|]. apply (normalize_idempotent (VStr (str "$1,250.50"))).
  reflexivity.
Defined.

(** ** The header registry *)

Lemma makeHeadersUnique_from_length (counts : gmap jsstring nat) (hs : list jsstring) :
  length (makeHeadersUnique_from counts hs) = length hs.
Proof.
  revert counts. induction hs as [|h hs IH]; intros counts; simpl; [done|].
  destruct (counts !! _); simpl; by rewrite IH.
Qed.

Lemma orElse_nonempty (a d : jsstring) : d <> [] -> orElse a d <> [].
Proof. by destruct a. Qed.

Lemma makeHeadersUnique_from_nonempty (counts : gmap jsstring nat) (hs : list jsstring) :
  Forall (fun h => h <> []) (makeHeadersUnique_from counts hs).
Proof.
  revert counts. induction hs as [|h hs IH]; intros counts; simpl; [done|].
  assert (Hc : orElse (trim (orElse h (str "Column"))) (str "Column") <> [])
    by (by apply orElse_nonempty).
  destruct (counts !! _); constructor; try apply IH; try done.
  intros Happ. by apply app_eq_nil in Happ as [? _].
Qed.

(** The name given to the header at position [i]: its cleaned name,
    suffixed by the number of earlier headers with the same cleaned name
    when there are any. [counts] holds, for a name already met, the
    number of its repeats so far. *)
Lemma makeHeadersUnique_from_lookup (counts : gmap jsstring nat)
    (hs : list jsstring) (i : nat) (h : jsstring) :
  hs !! i = Some h ->
  makeHeadersUnique_from counts hs !! i
  = Some (suffixedName (cleanHeader h)
            (match counts !! cleanHeader h with None => O | Some n => S n end
             + earlierOccurrences hs i (cleanHeader h))).
Proof.
  revert counts i. induction hs as [|h0 hs IH]; intros counts i Hi; [done|].
  destruct i as [|i].
  - injection Hi as ->. unfold earlierOccurrences. cbn [take List.filter length].
    rewrite Nat.add_0_r. cbn [makeHeadersUnique_from]. fold (cleanHeader h).
    by destruct (counts !! cleanHeader h).
  - cbn [lookup list_lookup] in Hi. cbn [makeHeadersUnique_from].
    fold (cleanHeader h0). unfold earlierOccurrences. cbn [take List.filter].
    fold (earlierOccurrences hs i (cleanHeader h)).
    destruct (counts !! cleanHeader h0) as [n|] eqn:E0;
      cbn [lookup list_lookup]; rewrite (IH _ i Hi); do 2 f_equal;
      case_bool_decide as Hc.
    + rewrite Hc in E0 |- *. rewrite lookup_insert_eq, E0.
      unfold earlierOccurrences. cbn [length]. lia.
    + by rewrite lookup_insert_ne.
    + rewrite Hc in E0 |- *. rewrite lookup_insert_eq, E0.
      unfold earlierOccurrences. cbn [length]. lia.
    + by rewrite lookup_insert_ne.
Qed.

(** The parts of claim C5 the code keeps: the result has the length of
    the input and no empty name; the first header with a given cleaned
    name keeps it, and each repeat takes the suffix [_N], [N] counting
    the repeats from 1. *)
Lemma makeHeadersUnique_names (hs : list jsstring) :
  length (makeHeadersUnique hs) = length hs /\
  Forall (fun h => h <> []) (makeHeadersUnique hs) /\
  forall i h, hs !! i = Some h ->
    makeHeadersUnique hs !! i
    = Some (suffixedName (cleanHeader h) (earlierOccurrences hs i (cleanHeader h))).
Proof.
  split; [apply makeHeadersUnique_from_length|].
  split; [apply makeHeadersUnique_from_nonempty|].
  intros i h Hi. unfold makeHeadersUnique.
  rewrite (makeHeadersUnique_from_lookup _ _ _ _ Hi). by rewrite lookup_empty.
Qed.

(** Claim C5 on the headers [A, A, A_1]: the repeat of [A] is renamed [A_1],
    and the header already called [A_1] is then met for the first time
    and kept, so the result holds [A_1] twice. *)
Theorem makeHeadersUnique_repeats_a_name :
  makeHeadersUnique [str "A"; str "A"; str "A_1"]
    = [str "A"; str "A_1"; str "A_1"] /\
  ~ NoDup (makeHeadersUnique [str "A"; str "A"; str "A_1"]).
Proof.
  assert (E : makeHeadersUnique [str "A"; str "A"; str "A_1"]
              = [str "A"; str "A_1"; str "A_1"]) by (vm_compute; reflexivity).
  split; [exact E|]. rewrite E. intros H.
  apply NoDup_cons in H as [_ H]. apply NoDup_cons in H as [H _].
  apply H. left.
Qed.

(** ** Stack merge *)

(** What the fold over the entries of [mappings] leaves under a property
    name: the field's value if the name is a field, else what was there. *)
Lemma fold_fields_lookup (g : list jsstring -> value)
    (init : gmap jsstring value) (mappings : gmap jsstring (list jsstring))
    (f : jsstring) :
  map_fold (fun targetField ids (acc : gmap jsstring value) =>
              <[targetField := g ids]> acc) init mappings !! f
  = match mappings !! f with
    | Some ids => Some (g ids)
    | None => init !! f
    end.
Proof.
  apply (map_fold_weak_ind
           (fun (r : gmap jsstring value) (m : gmap jsstring (list jsstring)) =>
              r !! f = match m !! f with
                       | Some ids => Some (g ids)
                       | None => init !! f
                       end)).
  - by rewrite lookup_empty.
  - intros k ids m r Hk IH.
    destruct (decide (k = f)) as [->|Hne].
    + by rewrite !lookup_insert_eq.
    + by rewrite !lookup_insert_ne.
Qed.

Lemma stackData_concat (sheets : list SheetData)
    (mappings : gmap jsstring (list jsstring)) :
  stackData sheets mappings
  = concat (List.map (fun sheet => imap (stackRow sheet mappings) (rows sheet)) sheets).
Proof.
  unfold stackData.
  assert (H : forall acc,
            foldl (fun merged sheet =>
                     merged ++ imap (stackRow sheet mappings) (rows sheet)) acc sheets
            = acc ++ concat (List.map (fun sheet =>
                               imap (stackRow sheet mappings) (rows sheet)) sheets)).
  { induction sheets as [|s sheets IH]; intros acc; simpl.
    - by rewrite app_nil_r.
    - by rewrite IH, app_assoc. }
  apply H.
Qed.

Lemma stackRow_sourceFile (sheet : SheetData)
    (mappings : gmap jsstring (list jsstring)) (index : nat)
    (row : gmap jsstring value) :
  stackRow sheet mappings index row !! str "_sourceFile" = Some (VStr (fileName sheet)).
Proof.
  unfold stackRow. rewrite lookup_insert_ne by (vm_compute; discriminate).
  apply lookup_insert_eq.
Qed.

Lemma stackRow_sourceSheet (sheet : SheetData)
    (mappings : gmap jsstring (list jsstring)) (index : nat)
    (row : gmap jsstring value) :
  stackRow sheet mappings index row !! str "_sourceSheet" = Some (VStr (sheetName sheet)).
Proof. unfold stackRow. apply lookup_insert_eq. Qed.

Lemma stackRow_field (sheet : SheetData)
    (mappings : gmap jsstring (list jsstring)) (index : nat)
    (row : gmap jsstring value) (f : jsstring) (ids : list jsstring) :
  mappings !! f = Some ids ->
  f <> str "_sourceFile" -> f <> str "_sourceSheet" ->
  stackRow sheet mappings index row !! f
  = Some (cleanAndFormatValue (resolveValue sheet row ids)).
Proof.
  intros Hf H1 H2. unfold stackRow.
  rewrite !lookup_insert_ne by done.
  rewrite (fold_fields_lookup
             (fun ids => cleanAndFormatValue (resolveValue sheet row ids))).
  by rewrite Hf.
Qed.

Lemma stackRow_id (sheet : SheetData)
    (mappings : gmap jsstring (list jsstring)) (index : nat)
    (row : gmap jsstring value) :
  mappings !! str "id" = None ->
  stackRow sheet mappings index row !! str "id"
  = Some (VStr (fileName sheet ++ str "-" ++ sheetName sheet ++ str "-"
                  ++ toString (ofZ (Z.of_nat index)))).
Proof.
  intros Hid. unfold stackRow.
  rewrite !lookup_insert_ne by (vm_compute; discriminate).
  rewrite (fold_fields_lookup
             (fun ids => cleanAndFormatValue (resolveValue sheet row ids))).
  rewrite Hid. apply lookup_singleton_eq.
Qed.

(** Claim C6, as the code has it. The stack merge is the concatenation, in
    sheet order, of the per-sheet row transformations, so it has as many
    rows as the sheets together, whatever [removeDuplicates] says. Every
    output row carries its sheet's identity in [_sourceFile] and
    [_sourceSheet]; every field named neither [id] nor like one of these
    two holds the normalized resolved value; and when no field is named
    [id], [id] is [fileName-sheetName-index]. *)
Theorem stack_merge_rows (sheets : list SheetData)
    (mappings : gmap jsstring (list jsstring)) :
  stackData sheets mappings
    = concat (List.map (fun sheet => imap (stackRow sheet mappings) (rows sheet)) sheets) /\
  length (stackData sheets mappings)
    = sum_list (List.map (fun sheet => length (rows sheet)) sheets) /\
  mergeData sheets mappings None = stackData sheets mappings /\
  (forall jk jt rd,
     mergeData sheets mappings
       (Some {| method := vertical; joinKey := jk; joinType := jt;
                removeDuplicates := rd |})
     = stackData sheets mappings) /\
  (forall (sheet : SheetData) (index : nat) (row : gmap jsstring value),
     stackRow sheet mappings index row !! str "_sourceFile"
       = Some (VStr (fileName sheet)) /\
     stackRow sheet mappings index row !! str "_sourceSheet"
       = Some (VStr (sheetName sheet)) /\
     (forall f ids,
        mappings !! f = Some ids ->
        f <> str "id" -> f <> str "_sourceFile" -> f <> str "_sourceSheet" ->
        stackRow sheet mappings index row !! f
          = Some (cleanAndFormatValue (resolveValue sheet row ids))) /\
     (mappings !! str "id" = None ->
      stackRow sheet mappings index row !! str "id"
        = Some (VStr (fileName sheet ++ str "-" ++ sheetName sheet ++ str "-"
                        ++ toString (ofZ (Z.of_nat index)))))).
Proof.
  split; [apply stackData_concat|].
  split.
  { rewrite stackData_concat. induction sheets as [|s sheets IH]; simpl; [done|].
    by rewrite length_app, length_imap, IH. }
  split; [done|]. split; [done|].
  intros sheet index row.
  split; [apply stackRow_sourceFile|].
  split; [apply stackRow_sourceSheet|].
  split; [intros f ids Hf _; by apply stackRow_field|apply stackRow_id].
Qed.

(** An instance: one sheet, one field [Name] with one candidate. *)
Lemma stack_merge_rows_witness :
  sampleMapping !! str "Name" = Some [str "A::S::Name"] /\
  stackRow sampleSheetA sampleMapping 0 {[ str "Name" := VStr (str " Ann ") ]}
    !! str "Name" = Some (VStr (str "Ann")) /\
  stackRow sampleSheetA sampleMapping 0 {[ str "Name" := VStr (str " Ann ") ]}
    !! str "id" = Some (VStr (str "A-S-0")).
Proof.
  pose proof (stack_merge_rows [sampleSheetA] sampleMapping) as (_ & _ & _ & _ & H).
  destruct (H sampleSheetA 0%nat {[ str "Name" := VStr (str " Ann ") ]})
    as (_ & _ & Hfield & Hid).
  split; [vm_compute; reflexivity|]. split.
  - apply (Hfield (str "Name") [str "A::S::Name"]);
      [vm_compute; reflexivity | vm_compute; discriminate..].
  - apply Hid. vm_compute. reflexivity.
Defined.

(** Claim C6 as the specification words it fails on a mapping with a field
    named [id] and a field named [_sourceFile]: the first overwrites the
    row's [id], the second is overwritten by the sheet's file name. *)
Lemma stack_reserved_names_collide :
  stackData [sampleSheetA] collidingMapping
    = [stackRow sampleSheetA collidingMapping 0 {[ str "Name" := VStr (str "Ann") ]}] /\
  stackRow sampleSheetA collidingMapping 0 {[ str "Name" := VStr (str "Ann") ]}
    !! str "id" = Some (VStr []) /\
  stackRow sampleSheetA collidingMapping 0 {[ str "Name" := VStr (str "Ann") ]}
    !! str "id" <> Some (VStr (str "A-S-0")) /\
  collidingMapping !! str "_sourceFile" = Some [str "A::S::Name"] /\
  stackRow sampleSheetA collidingMapping 0 {[ str "Name" := VStr (str "Ann") ]}
    !! str "_sourceFile" = Some (VStr (str "A")) /\
  stackRow sampleSheetA collidingMapping 0 {[ str "Name" := VStr (str "Ann") ]}
    !! str "_sourceFile"
    <> Some (cleanAndFormatValue
               (resolveValue sampleSheetA {[ str "Name" := VStr (str "Ann") ]}
                             [str "A::S::Name"])).
Proof.
  assert (Hid : stackRow sampleSheetA collidingMapping 0
                  {[ str "Name" := VStr (str "Ann") ]} !! str "id"
                = Some (VStr [])).
  { rewrite (stackRow_field _ _ _ _ (str "id") []);
      [reflexivity | vm_compute; reflexivity | vm_compute; discriminate
      | vm_compute; discriminate]. }
  split; [reflexivity|]. split; [exact Hid|]. split.
  { rewrite Hid. vm_compute. discriminate. }
  split; [vm_compute; reflexivity|].
  rewrite stackRow_sourceFile. split; [reflexivity|].
  vm_compute. discriminate.
Qed.

Lemma resolveValue_cons (sheet : SheetData) (row : gmap jsstring value)
    (mId : jsstring) (rest : list jsstring) :
  resolveValue sheet row (mId :: rest)
  = if namesSheet (parseMappingId mId) sheet || negb (includes (str "::") mId)
    then
      if hasOwnProperty row
           (if includes (str "::") mId then m_header (parseMappingId mId) else mId)
      then
        if isPresent (get row (if includes (str "::") mId
                               then m_header (parseMappingId mId) else mId))
           && negb (isEmptyString
                      (get row (if includes (str "::") mId
                                then m_header (parseMappingId mId) else mId)))
        then get row (if includes (str "::") mId
                      then m_header (parseMappingId mId) else mId)
        else resolveValue sheet row rest
      else resolveValue sheet row rest
    else resolveValue sheet row rest.
Proof. reflexivity. Qed.

Lemma resolveValue_bare (sheet : SheetData) (row : gmap jsstring value)
    (mId : jsstring) (rest : list jsstring) :
  includes (str "::") mId = false ->
  resolveValue sheet row (mId :: rest)
  = if hasOwnProperty row mId && isPresent (get row mId)
       && negb (isEmptyString (get row mId))
    then get row mId
    else resolveValue sheet row rest.
Proof.
  intros H. rewrite resolveValue_cons, H, orb_true_r. cbn [negb].
  destruct (hasOwnProperty row mId); [|done]. cbn [andb].
  by destruct (isPresent _ && _).
Qed.

Lemma resolveValue_qualified (sheet : SheetData) (row : gmap jsstring value)
    (mId : jsstring) (rest : list jsstring) :
  includes (str "::") mId = true ->
  resolveValue sheet row (mId :: rest)
  = if namesSheet (parseMappingId mId) sheet
       && hasOwnProperty row (m_header (parseMappingId mId))
       && isPresent (get row (m_header (parseMappingId mId)))
       && negb (isEmptyString (get row (m_header (parseMappingId mId))))
    then get row (m_header (parseMappingId mId))
    else resolveValue sheet row rest.
Proof.
  intros H. rewrite resolveValue_cons, H, orb_false_r. cbn [negb].
  destruct (namesSheet _ sheet); [|done].
  destruct (hasOwnProperty row _); [|done]. cbn [andb].
  by destruct (isPresent _ && _).
Qed.

(** Claim C10. In the stack merge a candidate id without ["::"] is read as a
    header name and looked up in the rows of every sheet, while an id
    with ["::"] is looked up only in the rows of the sheet it names; so a
    mapping with a delimiter-free candidate gives rows of every sheet
    their value. *)
Theorem bare_candidate_serves_every_sheet :
  (forall (sheet : SheetData) (row : gmap jsstring value) (mId : jsstring)
          (rest : list jsstring),
     includes (str "::") mId = false ->
     resolveValue sheet row (mId :: rest)
     = if hasOwnProperty row mId && isPresent (get row mId)
          && negb (isEmptyString (get row mId))
       then get row mId
       else resolveValue sheet row rest) /\
  (forall (sheet : SheetData) (row : gmap jsstring value) (mId : jsstring)
          (rest : list jsstring),
     includes (str "::") mId = true ->
     resolveValue sheet row (mId :: rest)
     = if namesSheet (parseMappingId mId) sheet
          && hasOwnProperty row (m_header (parseMappingId mId))
          && isPresent (get row (m_header (parseMappingId mId)))
          && negb (isEmptyString (get row (m_header (parseMappingId mId))))
       then get row (m_header (parseMappingId mId))
       else resolveValue sheet row rest) /\
  (exists (mappings : gmap jsstring (list jsstring)) (f mId : jsstring),
     includes (str "::") mId = false /\
     mappings !! f = Some [mId] /\
     forall (sheet : SheetData) (index : nat) (row : gmap jsstring value)
            (v : value),
       row !! mId = Some v -> isPresent v = true -> isEmptyString v = false ->
       stackRow sheet mappings index row !! f = Some (cleanAndFormatValue v)).
Proof.
  split; [exact resolveValue_bare|]. split; [exact resolveValue_qualified|].
  exists bareMapping, (str "Name"), (str "Name").
  split; [reflexivity|]. split; [reflexivity|].
  intros sheet index row v Hv Hp He.
  rewrite (stackRow_field sheet bareMapping index row (str "Name") [str "Name"]);
    [|reflexivity|vm_compute; discriminate|vm_compute; discriminate].
  rewrite resolveValue_bare by reflexivity.
  assert (Hown : hasOwnProperty row (str "Name") = true)
    by (unfold hasOwnProperty; rewrite Hv; apply bool_decide_eq_true_2; eauto).
  assert (Hget : get row (str "Name") = v) by (unfold get; by rewrite Hv).
  by rewrite Hown, Hget, Hp, He.
Qed.

(** An instance: a row of sheet [B] read through the bare candidate
    [Name], and through the candidate of sheet [A]. *)
Lemma bare_candidate_serves_every_sheet_witness :
  includes (str "::") (str "Name") = false /\
  includes (str "::") (str "A::S::Name") = true /\
  resolveValue sampleSheetB {[ str "Name" := VStr (str "Bob") ]}
               [str "Name"] = VStr (str "Bob") /\
  resolveValue sampleSheetB {[ str "Name" := VStr (str "Bob") ]}
               [str "A::S::Name"] = VStr [] /\
  resolveValue sampleSheetA {[ str "Name" := VStr (str "Bob") ]}
               [str "A::S::Name"] = VStr (str "Bob").
Proof.
  destruct bare_candidate_serves_every_sheet as (Hbare & Hqual & _).
  split; [reflexivity|]. split; [reflexivity|]. split; [|split].
  - rewrite Hbare by reflexivity. reflexivity.
  - rewrite Hqual by reflexivity. reflexivity.
  - rewrite Hqual by reflexivity. reflexivity.
Defined.

(** ** Join merge: the index *)

Lemma elem_of_setAdd (l : list jsstring) (k x : jsstring) :
  x ∈ setAdd l k <-> x ∈ l \/ x = k.
Proof.
  unfold setAdd. case_bool_decide as Hk.
  - split; [auto|]. intros [?| ->]; done.
  - rewrite elem_of_app, list_elem_of_singleton. done.
Qed.

Lemma NoDup_setAdd (l : list jsstring) (k : jsstring) :
  NoDup l -> NoDup (setAdd l k).
Proof.
  unfold setAdd. case_bool_decide as Hk; [done|]. intros Hl.
  apply NoDup_app. split; [done|]. split; [|apply NoDup_singleton].
  intros x Hx ->%list_elem_of_singleton. done.
Qed.

Lemma setAdd_elem (l : list jsstring) (k : jsstring) : k ∈ l -> setAdd l k = l.
Proof. intros H. unfold setAdd. by rewrite bool_decide_eq_true_2. Qed.

Lemma elem_of_foldl_setAdd (l acc : list jsstring) (x : jsstring) :
  x ∈ foldl setAdd acc l <-> x ∈ acc \/ x ∈ l.
Proof.
  revert acc. induction l as [|k l IH]; intros acc; simpl.
  - rewrite elem_of_nil. tauto.
  - rewrite IH, elem_of_setAdd, elem_of_cons. tauto.
Qed.

Lemma NoDup_foldl_setAdd (l acc : list jsstring) :
  NoDup acc -> NoDup (foldl setAdd acc l).
Proof.
  revert acc. induction l as [|k l IH]; intros acc Hacc; simpl; [done|].
  by apply IH, NoDup_setAdd.
Qed.

Lemma elem_of_setFromArray (l : list jsstring) (x : jsstring) :
  x ∈ setFromArray l <-> x ∈ l.
Proof.
  unfold setFromArray. rewrite elem_of_foldl_setAdd, elem_of_nil. tauto.
Qed.

Lemma NoDup_setFromArray (l : list jsstring) : NoDup (setFromArray l).
Proof. apply NoDup_foldl_setAdd, NoDup_nil_2. Qed.

Lemma isPresent_trim_nonempty (v : value) :
  isPresent v && negb (bool_decide (trim (String_ v) = [])) = true ->
  isPresent v = true /\ isEmptyString v = false /\ trim (String_ v) <> [].
Proof.
  intros [Hp Ht]%andb_true_iff. apply negb_true_iff, bool_decide_eq_false in Ht.
  repeat split; [done| |done].
  destruct v as [| | | |[|c s]]; try done.
Qed.

Lemma deriveKey_nonempty (ids : list jsstring) (sheet : SheetData)
    (row : gmap jsstring value) (k : jsstring) :
  deriveKey ids sheet row = Some k -> k <> [].
Proof.
  induction ids as [|mId ids IH]; simpl; [done|].
  destruct (namesSheet _ sheet); [|done].
  destruct (isPresent _ && _) eqn:E; [|done].
  intros [= <-]. by apply isPresent_trim_nonempty in E as (_ & _ & ?).
Qed.

(** The value under the least key of an object with integer keys. *)
Lemma firstValue_Some {A : Type} (o : gmap nat A) (v : A) :
  firstValue o = Some v ->
  exists i, o !! i = Some v /\ forall j, (j < i)%nat -> o !! j = None.
Proof.
  unfold firstValue. destruct (map_to_list o) as [|[k a] l] eqn:E; [done|].
  set (m := foldr (fun (kv : nat * A) acc => Nat.min kv.1 acc) k l).
  assert (Hmin : forall j b, (j, b) ∈ (k, a) :: l -> (m <= j)%nat).
  { intros j b Hj. unfold m. clear E. apply elem_of_cons in Hj as [[= -> ->]|Hj].
    - clear. induction l as [|[k' a'] l IH]; simpl; lia.
    - induction l as [|[k' a'] l IH]; [by apply elem_of_nil in Hj|].
      apply elem_of_cons in Hj as [[= -> ->]|Hj]; simpl; [lia|].
      specialize (IH Hj). lia. }
  intros Hv. exists m. split; [done|].
  intros j Hj. destruct (o !! j) as [b|] eqn:Hb; [|done].
  apply elem_of_map_to_list in Hb. rewrite E in Hb.
  apply Hmin in Hb. lia.
Qed.

Lemma firstValue_None {A : Type} (o : gmap nat A) :
  firstValue o = None -> o = ∅.
Proof.
  unfold firstValue. destruct (map_to_list o) as [|[k a] l] eqn:E.
  - intros _. by apply map_to_list_empty_iff.
  - set (m := foldr (fun (kv : nat * A) acc => Nat.min kv.1 acc) k l).
    assert (Hin : exists b, (m, b) ∈ (k, a) :: l).
    { unfold m. clear E. induction l as [|[k' a'] l [b IH]]; simpl.
      - exists a. left.
      - destruct (Nat.min_spec k' (foldr (fun (kv : nat * A) acc => Nat.min kv.1 acc) k l))
          as [[_ ->]|[_ ->]].
        + exists a'. right. left.
        + exists b. apply elem_of_cons in IH as [IH|IH].
          * rewrite IH. left.
          * right. right. done. }
    destruct Hin as [b Hb]. rewrite <- E in Hb.
    apply elem_of_map_to_list in Hb. by rewrite Hb.
Qed.

(** Effect of indexing one row. *)
Lemma indexRow_spec (ids : list jsstring) (sheet : SheetData) (i : nat)
    (ix : JoinIndex) (row : gmap jsstring value) :
  inSync ix ->
  inSync (indexRow ids sheet i ix row) /\
  allKeySet (indexRow ids sheet i ix row)
    = match deriveKey ids sheet row with
      | Some k => setAdd (allKeySet ix) k
      | None => allKeySet ix
      end /\
  forall k j,
    slot (indexRow ids sheet i ix row) k j
    = match slot ix k j with
      | Some s => Some s
      | None => if decide (deriveKey ids sheet row = Some k /\ j = i)
                then Some (slotOf sheet row) else None
      end.
Proof.
  intros [Hnd Hsync]. unfold indexRow.
  destruct (deriveKey ids sheet row) as [kv|] eqn:Hkey.
  2:{ split; [done|]. split; [done|]. intros k j.
      destruct (slot ix k j); [done|]. case_decide as H; [by destruct H|done]. }
  assert (Hne : truthy (VStr kv) = true).
  { apply deriveKey_nonempty in Hkey. by destruct kv. }
  rewrite Hne.
  destruct (keyMap ix !! kv) as [e|] eqn:Hkv.
  - (* the key is known *)
    assert (Hin : kv ∈ allKeySet ix) by (apply Hsync; eauto).
    rewrite Hkv. cbn [default from_option id].
    destruct (e !! i) as [s|] eqn:Hei.
    + split; [done|]. split; [by rewrite setAdd_elem|].
      intros k j. unfold slot.
      destruct (keyMap ix !! k ≫= _) eqn:Hs; [done|].
      case_decide as H; [|done]. destruct H as [[= <-] ->].
      rewrite Hkv in Hs. simpl in Hs. congruence.
    + cbn [keyMap allKeySet]. split.
      { split; [done|]. intros k. cbn [keyMap allKeySet]. rewrite Hsync.
        destruct (decide (k = kv)) as [->|Hk].
        - rewrite lookup_insert_eq, Hkv. split; eauto.
        - by rewrite lookup_insert_ne. }
      split; [by rewrite setAdd_elem|].
      intros k j. unfold slot. cbn [keyMap].
      destruct (decide (k = kv)) as [->|Hk].
      * rewrite lookup_insert_eq, Hkv. simpl.
        destruct (decide (j = i)) as [->|Hj].
        -- rewrite lookup_insert_eq, Hei. by rewrite decide_True.
        -- rewrite lookup_insert_ne by done.
           destruct (e !! j); [done|]. rewrite decide_False; [done|]. tauto.
      * rewrite lookup_insert_ne by done.
        destruct (keyMap ix !! k ≫= _); [done|].
        rewrite decide_False; [done|]. intros [[= ->] _]. done.
  - (* a new key *)
    assert (Hnin : kv ∉ allKeySet ix).
    { rewrite Hsync, Hkv. by intros [? ?]. }
    cbn [keyMap allKeySet]. rewrite lookup_insert_eq. cbn [default from_option id].
    rewrite lookup_empty. cbn [keyMap allKeySet].
    split.
    { split; [by apply NoDup_setAdd|]. intros k. cbn [keyMap allKeySet].
      rewrite elem_of_setAdd, Hsync.
      destruct (decide (k = kv)) as [->|Hk].
      - rewrite lookup_insert_eq. split; eauto.
      - rewrite !lookup_insert_ne by done. split; [|auto]. intros [?|?]; done. }
    split; [done|].
    intros k j. unfold slot. cbn [keyMap].
    destruct (decide (k = kv)) as [->|Hk].
    + rewrite lookup_insert_eq, Hkv. simpl.
      destruct (decide (j = i)) as [->|Hj].
      * rewrite lookup_insert_eq. by rewrite decide_True.
      * rewrite lookup_insert_ne, lookup_empty by done.
        rewrite decide_False; [done|]. tauto.
    + rewrite !lookup_insert_ne by done.
      destruct (keyMap ix !! k ≫= _); [done|].
      rewrite decide_False; [done|]. intros [[= ->] _]. done.
Qed.

(** Effect of indexing the rows of one sheet. *)
Lemma indexRows_spec (ids : list jsstring) (sheet : SheetData) (i : nat)
    (rs : list (gmap jsstring value)) (ix : JoinIndex) :
  inSync ix ->
  inSync (foldl (indexRow ids sheet i) ix rs) /\
  allKeySet (foldl (indexRow ids sheet i) ix rs)
    = foldl setAdd (allKeySet ix) (omap (deriveKey ids sheet) rs) /\
  forall k j,
    slot (foldl (indexRow ids sheet i) ix rs) k j
    = match slot ix k j with
      | Some s => Some s
      | None =>
          if decide (j = i)
          then slotOf sheet <$>
                 List.find (fun r => bool_decide (deriveKey ids sheet r = Some k)) rs
          else None
      end.
Proof.
  revert ix. induction rs as [|r rs IH]; intros ix Hix; simpl.
  - split; [done|]. split; [done|]. intros k j.
    destruct (slot ix k j); [done|]. by case_decide.
  - destruct (indexRow_spec ids sheet i ix r Hix) as (Hix1 & Hk1 & Hs1).
    destruct (IH _ Hix1) as (Hix' & Hk' & Hs').
    split; [done|]. split.
    { rewrite Hk', Hk1. by destruct (deriveKey ids sheet r). }
    intros k j. rewrite Hs', Hs1.
    destruct (slot ix k j); [done|].
    case_bool_decide as Hr.
    + destruct (decide (j = i)) as [->|Hj].
      * by rewrite decide_True.
      * rewrite decide_False; [done|]. tauto.
    + rewrite decide_False; [done|]. tauto.
Qed.

(** Effect of indexing sheets numbered from [o] on. *)
Lemma indexSheets_spec (ids : list jsstring) (sheets : list SheetData) (o : nat)
    (ix : JoinIndex) :
  inSync ix ->
  inSync (foldl (indexSheet ids) ix (imap (fun i s => ((o + i)%nat, s)) sheets)) /\
  allKeySet (foldl (indexSheet ids) ix (imap (fun i s => ((o + i)%nat, s)) sheets))
    = foldl setAdd (allKeySet ix) (concat (List.map (sheetKeys ids) sheets)) /\
  forall k j,
    slot (foldl (indexSheet ids) ix (imap (fun i s => ((o + i)%nat, s)) sheets)) k j
    = match slot ix k j with
      | Some s => Some s
      | None =>
          if decide (o <= j)%nat
          then sheets !! (j - o)%nat ≫=
                 (fun sheet => slotOf sheet <$> firstRowWithKey ids sheet k)
          else None
      end.
Proof.
  revert o ix. induction sheets as [|s sheets IH]; intros o ix Hix.
  - simpl. split; [done|]. split; [done|]. intros k j.
    destruct (slot ix k j); [done|]. by case_decide.
  - assert (Hstep :
      foldl (indexSheet ids) ix (imap (fun i s => ((o + i)%nat, s)) (s :: sheets))
      = foldl (indexSheet ids) (foldl (indexRow ids s o) ix (rows s))
              (imap (fun i s => ((S o + i)%nat, s)) sheets)).
    { cbn [imap foldl].
      rewrite (imap_ext _ (fun i s => ((S o + i)%nat, s)))
        by (intros; simpl; f_equal; lia).
      f_equal. unfold indexSheet. cbn [fst snd]. by rewrite Nat.add_0_r. }
    rewrite Hstep. clear Hstep.
    destruct (indexRows_spec ids s o (rows s) ix Hix) as (Hix1 & Hk1 & Hs1).
    destruct (IH (S o) _ Hix1) as (Hix' & Hk' & Hs').
    split; [done|]. split.
    { rewrite Hk', Hk1. cbn [List.map concat]. by rewrite foldl_app. }
    intros k j. rewrite Hs', Hs1.
    destruct (slot ix k j); [done|].
    destruct (decide (j = o)) as [->|Hj].
    + destruct (decide (o <= o)%nat) as [_|?]; [|lia].
      replace (o - o)%nat with 0%nat by lia.
      cbn [lookup list_lookup mbind option_bind]. unfold firstRowWithKey.
      destruct (List.find _ (rows s)); [done|].
      destruct (decide (S o <= o)%nat); [lia|done].
    + destruct (decide (S o <= j)%nat) as [Hle|Hle];
        destruct (decide (o <= j)%nat) as [Hle'|Hle']; try lia; [|done].
      replace (j - o)%nat with (S (j - S o)) by lia. done.
Qed.

(** What the index holds once every sheet has been read: the keys in
    order of first appearance, and under each key and sheet index the
    first row of that sheet with that key. *)
Lemma buildIndex_spec (ids : list jsstring) (sheets : list SheetData) :
  inSync (buildIndex ids sheets) /\
  allKeySet (buildIndex ids sheets)
    = setFromArray (concat (List.map (sheetKeys ids) sheets)) /\
  forall k j,
    slot (buildIndex ids sheets) k j
    = sheets !! j ≫= (fun sheet => slotOf sheet <$> firstRowWithKey ids sheet k).
Proof.
  unfold buildIndex.
  rewrite (imap_ext _ (fun i s => ((0 + i)%nat, s))) by done.
  set (ix0 := {| keyMap := ∅; allKeySet := [] |}).
  assert (Hix0 : inSync ix0).
  { split; [apply NoDup_nil_2|]. intros k. simpl. rewrite lookup_empty, elem_of_nil.
    split; [done|]. by intros [? ?]. }
  destruct (indexSheets_spec ids sheets 0 ix0 Hix0) as (H1 & H2 & H3).
  split; [done|]. split; [done|].
  intros k j. rewrite H3.
  assert (Hs0 : slot ix0 k j = None)
    by (unfold slot, ix0; cbn [keyMap]; by rewrite lookup_empty).
  rewrite Hs0. destruct (decide (0 <= j)%nat); [|lia]. by rewrite Nat.sub_0_r.
Qed.

Lemma elem_of_sheetKeys (ids : list jsstring) (sheet : SheetData) (k : jsstring) :
  k ∈ sheetKeys ids sheet <->
  exists row, row ∈ rows sheet /\ deriveKey ids sheet row = Some k.
Proof. unfold sheetKeys. apply list_elem_of_omap. Qed.

Lemma firstRowWithKey_is_Some (ids : list jsstring) (sheet : SheetData) (k : jsstring) :
  is_Some (firstRowWithKey ids sheet k) <-> k ∈ sheetKeys ids sheet.
Proof.
  rewrite elem_of_sheetKeys. unfold firstRowWithKey. split.
  - intros [r Hr]. apply find_some in Hr as [Hin Hk].
    exists r. split; [by apply list_elem_of_In|]. by apply bool_decide_eq_true in Hk.
  - intros (r & Hin & Hk).
    destruct (List.find _ (rows sheet)) eqn:E; [eauto|].
    eapply find_none in E; [|by apply list_elem_of_In].
    apply bool_decide_eq_false in E. done.
Qed.

Lemma firstRowWithKey_Some (ids : list jsstring) (sheet : SheetData) (k : jsstring)
    (r : gmap jsstring value) :
  firstRowWithKey ids sheet k = Some r ->
  r ∈ rows sheet /\ deriveKey ids sheet r = Some k.
Proof.
  unfold firstRowWithKey. intros Hr. apply find_some in Hr as [Hin Hk].
  split; [by apply list_elem_of_In|]. by apply bool_decide_eq_true in Hk.
Qed.

(** The entry [joinRow] reads for a key, slot by slot. *)
Lemma entry_lookup (ids : list jsstring) (sheets : list SheetData) (k : jsstring)
    (i : nat) :
  default ∅ (keyMap (buildIndex ids sheets) !! k) !! i
  = sheets !! i ≫= (fun sheet => slotOf sheet <$> firstRowWithKey ids sheet k).
Proof.
  destruct (buildIndex_spec ids sheets) as (_ & _ & Hslot).
  rewrite <- Hslot. unfold slot.
  destruct (keyMap (buildIndex ids sheets) !! k); [done|]. apply lookup_empty.
Qed.

Lemma entry_is_Some (ids : list jsstring) (sheets : list SheetData) (k : jsstring)
    (i : nat) :
  is_Some (default ∅ (keyMap (buildIndex ids sheets) !! k) !! i) <->
  exists sheet, sheets !! i = Some sheet /\ k ∈ sheetKeys ids sheet.
Proof.
  rewrite entry_lookup. split.
  - intros [s Hs]. destruct (sheets !! i) as [sheet|]; [|done].
    exists sheet. split; [done|]. apply firstRowWithKey_is_Some.
    simpl in Hs. destruct (firstRowWithKey ids sheet k); [eauto|done].
  - intros (sheet & -> & Hk). apply firstRowWithKey_is_Some in Hk as [r Hr].
    simpl. rewrite Hr. simpl. eauto.
Qed.

Lemma elem_of_allKeySet (ids : list jsstring) (sheets : list SheetData) (k : jsstring) :
  k ∈ allKeySet (buildIndex ids sheets) <->
  exists sheet, sheet ∈ sheets /\ k ∈ sheetKeys ids sheet.
Proof.
  destruct (buildIndex_spec ids sheets) as (_ & -> & _).
  rewrite elem_of_setFromArray, list_elem_of_In, in_concat. split.
  - intros (l & Hl & Hk). apply in_map_iff in Hl as (sheet & <- & Hs).
    exists sheet. by rewrite !list_elem_of_In.
  - intros (sheet & Hs & Hk). exists (sheetKeys ids sheet).
    split; [|by apply list_elem_of_In]. apply in_map, list_elem_of_In. done.
Qed.

(** An entry has as many slots as there are sheets exactly when every
    sheet yields the key. *)
Lemma slotCount_full (ids : list jsstring) (sheets : list SheetData) (k : jsstring)
    (entry : gmap nat (gmap jsstring value)) :
  keyMap (buildIndex ids sheets) !! k = Some entry ->
  slotCount entry = length sheets <->
  forall sheet, sheet ∈ sheets -> k ∈ sheetKeys ids sheet.
Proof.
  intros Hk.
  assert (Hentry : forall i, is_Some (entry !! i) <->
            exists sheet, sheets !! i = Some sheet /\ k ∈ sheetKeys ids sheet).
  { intros i. rewrite <- entry_is_Some, Hk. done. }
  assert (Hsub : dom entry ⊆ (set_seq 0 (length sheets) : gset nat)).
  { intros i Hi. apply elem_of_dom, Hentry in Hi as (sheet & Hs & _).
    apply elem_of_set_seq. apply lookup_lt_Some in Hs. lia. }
  unfold slotCount. rewrite <- (size_dom (D := gset nat)). split.
  - intros Hsize sheet Hs.
    apply list_elem_of_lookup in Hs as [i Hi].
    assert (Heq : dom entry = (set_seq 0 (length sheets) : gset nat)).
    { apply set_subseteq_size_eq; [done|]. rewrite size_set_seq. lia. }
    assert (Hin : i ∈ dom entry).
    { rewrite Heq. apply elem_of_set_seq. apply lookup_lt_Some in Hi. lia. }
    apply elem_of_dom, Hentry in Hin as (sheet' & Hs' & Hk').
    congruence.
  - intros Hall.
    assert (Heq : dom entry = (set_seq 0 (length sheets) : gset nat)).
    { apply set_eq. intros i. split; [apply Hsub|].
      intros Hi%elem_of_set_seq.
      destruct (lookup_lt_is_Some_2 sheets i ltac:(lia)) as [sheet Hs].
      apply elem_of_dom, Hentry. exists sheet. split; [done|].
      apply Hall. by eapply list_elem_of_lookup_2. }
    rewrite Heq. apply size_set_seq.
Qed.

(** Claim C3. The keys of the outer join are the keys seen in some sheet; the
    keys of the inner join are those whose entry has as many slots as
    there are sheets, which are the keys every sheet yields. So the inner
    keys are among the outer keys, and there are at most as many of them
    as any one sheet has distinct keys. *)
Theorem join_outer_inner_keys (sheets : list SheetData)
    (mappings : gmap jsstring (list jsstring)) (jk : jsstring) :
  let ids := default [] (mappings !! jk) in
  let ix := buildIndex ids sheets in
  (forall rd,
     joinData sheets mappings
       {| method := join_; joinKey := jk; joinType := outer; removeDuplicates := rd |}
     = imap (joinRow sheets mappings ix) (joinKeys sheets mappings jk outer)) /\
  (forall rd,
     joinData sheets mappings
       {| method := join_; joinKey := jk; joinType := inner; removeDuplicates := rd |}
     = imap (joinRow sheets mappings ix) (joinKeys sheets mappings jk inner)) /\
  (forall k,
     k ∈ joinKeys sheets mappings jk outer <->
     exists sheet row,
       sheet ∈ sheets /\ row ∈ rows sheet /\ deriveKey ids sheet row = Some k) /\
  (forall k,
     k ∈ joinKeys sheets mappings jk inner <->
     exists entry, keyMap ix !! k = Some entry /\ slotCount entry = length sheets) /\
  (forall k,
     k ∈ joinKeys sheets mappings jk inner <->
     k ∈ joinKeys sheets mappings jk outer /\
     forall sheet, sheet ∈ sheets ->
       exists row, row ∈ rows sheet /\ deriveKey ids sheet row = Some k) /\
  NoDup (joinKeys sheets mappings jk outer) /\
  NoDup (joinKeys sheets mappings jk inner) /\
  (forall k, k ∈ joinKeys sheets mappings jk inner ->
             k ∈ joinKeys sheets mappings jk outer) /\
  (forall sheet,
     sheet ∈ sheets ->
     (length (joinKeys sheets mappings jk inner)
      <= length (setFromArray (sheetKeys ids sheet)))%nat).
Proof.
  intros ids ix.
  destruct (buildIndex_spec ids sheets) as ([Hnd Hsync] & _ & _).
  fold ix in Hnd, Hsync.
  assert (Hinner : forall k,
    k ∈ joinKeys sheets mappings jk inner <->
    exists entry, keyMap ix !! k = Some entry /\ slotCount entry = length sheets).
  { intros k. unfold joinKeys, finalKeys. fold ids ix.
    rewrite list_elem_of_In, filter_In, <- list_elem_of_In. split.
    - intros [_ H]. destruct (keyMap ix !! k) as [entry|]; [|done].
      exists entry. split; [done|]. by apply bool_decide_eq_true in H.
    - intros (entry & Hk & Hn). split; [apply Hsync; eauto|].
      rewrite Hk. by apply bool_decide_eq_true. }
  assert (Hinner' : forall k,
    k ∈ joinKeys sheets mappings jk inner <->
    k ∈ joinKeys sheets mappings jk outer /\
    forall sheet, sheet ∈ sheets -> k ∈ sheetKeys ids sheet).
  { intros k. rewrite Hinner. unfold joinKeys at 1, finalKeys. fold ids ix. split.
    - intros (entry & Hk & Hn). split; [apply Hsync; eauto|].
      by apply (slotCount_full ids sheets k entry).
    - intros [Hout Hall]. apply Hsync in Hout as [entry Hk].
      exists entry. split; [done|]. by apply (slotCount_full ids sheets k entry). }
  split; [done|]. split; [done|]. split.
  { intros k. unfold joinKeys, finalKeys. fold ids.
    rewrite elem_of_allKeySet. split.
    - intros (sheet & Hs & Hk). apply elem_of_sheetKeys in Hk as (row & ? & ?). eauto.
    - intros (sheet & row & ? & ? & ?). exists sheet. split; [done|].
      apply elem_of_sheetKeys. eauto. }
  split; [exact Hinner|]. split.
  { intros k. rewrite Hinner'. setoid_rewrite elem_of_sheetKeys. done. }
  split; [exact Hnd|]. split.
  { unfold joinKeys, finalKeys. fold ids ix.
    by apply NoDup_ListNoDup, List.NoDup_filter, NoDup_ListNoDup. }
  split; [intros k Hk; by apply Hinner' in Hk as [? _]|].
  intros sheet Hs. apply submseteq_length, NoDup_submseteq.
  - unfold joinKeys, finalKeys. fold ids ix.
    by apply NoDup_ListNoDup, List.NoDup_filter, NoDup_ListNoDup.
  - intros k Hk. apply elem_of_setFromArray. apply Hinner' in Hk as [_ Hall]. auto.
Qed.

(** An instance on the two sheets of the join scenario: key ["1"] is in
    both sheets. *)
Lemma join_outer_inner_keys_witness :
  str "1" ∈ joinKeys [joinSheetA; joinSheetB] joinMapping (str "Key") inner /\
  str "1" ∈ joinKeys [joinSheetA; joinSheetB] joinMapping (str "Key") outer /\
  (length (joinKeys [joinSheetA; joinSheetB] joinMapping (str "Key") inner)
   <= length (setFromArray
                (sheetKeys (default [] (joinMapping !! str "Key")) joinSheetA)))%nat.
Proof.
  pose proof (join_outer_inner_keys [joinSheetA; joinSheetB] joinMapping (str "Key"))
    as (_ & _ & _ & _ & _ & _ & _ & Hsub & Hlen).
  assert (Hin : str "1" ∈ joinKeys [joinSheetA; joinSheetB] joinMapping
                             (str "Key") inner).
  { replace (joinKeys [joinSheetA; joinSheetB] joinMapping (str "Key") inner)
      with [str "1"] by (vm_compute; reflexivity).
    apply list_elem_of_singleton. reflexivity. }
  split; [exact Hin|]. split; [exact (Hsub _ Hin)|].
  apply Hlen. apply elem_of_cons. left. reflexivity.
Defined.

(** ** Join merge: provenance *)

Lemma get_slotOf_srcFile (sheet : SheetData) (row : gmap jsstring value) :
  get (slotOf sheet row) (str "_srcFile") = VStr (fileName sheet).
Proof.
  unfold get, slotOf.
  rewrite lookup_insert_ne by (vm_compute; discriminate).
  by rewrite lookup_insert_eq.
Qed.

Lemma get_slotOf_srcSheet (sheet : SheetData) (row : gmap jsstring value) :
  get (slotOf sheet row) (str "_srcSheet") = VStr (sheetName sheet).
Proof. unfold get, slotOf. by rewrite lookup_insert_eq. Qed.

Lemma get_slotOf_other (sheet : SheetData) (row : gmap jsstring value) (h : jsstring) :
  h <> str "_srcFile" -> h <> str "_srcSheet" ->
  get (slotOf sheet row) h = get row h.
Proof. intros H1 H2. unfold get, slotOf. by rewrite !lookup_insert_ne. Qed.

Lemma joinRow_sourceFile (sheets : list SheetData)
    (mappings : gmap jsstring (list jsstring)) (ix : JoinIndex) (idx : nat)
    (k : jsstring) :
  joinRow sheets mappings ix idx k !! str "_sourceFile"
  = Some match firstValue (default ∅ (keyMap ix !! k)) with
         | Some src => get src (str "_srcFile")
         | None => VStr (str "Joined")
         end.
Proof.
  unfold joinRow. rewrite lookup_insert_ne by (vm_compute; discriminate).
  apply lookup_insert_eq.
Qed.

Lemma joinRow_sourceSheet (sheets : list SheetData)
    (mappings : gmap jsstring (list jsstring)) (ix : JoinIndex) (idx : nat)
    (k : jsstring) :
  joinRow sheets mappings ix idx k !! str "_sourceSheet"
  = Some match firstValue (default ∅ (keyMap ix !! k)) with
         | Some src => get src (str "_srcSheet")
         | None => VStr (str "Joined")
         end.
Proof. unfold joinRow. apply lookup_insert_eq. Qed.

Lemma joinRow_field (sheets : list SheetData)
    (mappings : gmap jsstring (list jsstring)) (ix : JoinIndex) (idx : nat)
    (k f : jsstring) (ids : list jsstring) :
  mappings !! f = Some ids ->
  f <> str "_sourceFile" -> f <> str "_sourceSheet" ->
  joinRow sheets mappings ix idx k !! f
  = Some (cleanAndFormatValue
            (joinValue (default ∅ (keyMap ix !! k)) ids (imap pair sheets))).
Proof.
  intros Hf H1 H2. unfold joinRow.
  rewrite !lookup_insert_ne by done.
  rewrite (fold_fields_lookup
             (fun ids => cleanAndFormatValue
                (joinValue (default ∅ (keyMap ix !! k)) ids (imap pair sheets)))).
  by rewrite Hf.
Qed.


(** The slots of an entry, looked at from the lowest sheet index. *)
Lemma entry_first_slot (ids : list jsstring) (sheets : list SheetData) (k : jsstring)
    (src : gmap jsstring value) :
  firstValue (default ∅ (keyMap (buildIndex ids sheets) !! k)) = Some src ->
  exists i sheet r,
    sheets !! i = Some sheet /\ firstRowWithKey ids sheet k = Some r /\
    src = slotOf sheet r /\
    default ∅ (keyMap (buildIndex ids sheets) !! k) !! i = Some src /\
    forall j, (j < i)%nat ->
      default ∅ (keyMap (buildIndex ids sheets) !! k) !! j = None.
Proof.
  intros H. apply firstValue_Some in H as (i & Hi & Hlow).
  pose proof Hi as Hi'. rewrite entry_lookup in Hi'.
  destruct (sheets !! i) as [sheet|] eqn:Hs; [|done]. simpl in Hi'.
  destruct (firstRowWithKey ids sheet k) as [r|] eqn:Hr; [|done].
  injection Hi' as <-. exists i, sheet, r. done.
Qed.

(** The provenance of an output row is the identity of the sheet of
    lowest index that holds a slot for the row's key, and the sentinel
    when the key has no slot. *)
Lemma joinRow_provenance (sheets : list SheetData)
    (mappings : gmap jsstring (list jsstring)) (ids : list jsstring)
    (idx : nat) (k : jsstring) :
  let ix := buildIndex ids sheets in
  let entry := default ∅ (keyMap ix !! k) in
  let row := joinRow sheets mappings ix idx k in
  (exists i sheet r,
     sheets !! i = Some sheet /\ firstRowWithKey ids sheet k = Some r /\
     entry !! i = Some (slotOf sheet r) /\
     (forall j, (j < i)%nat -> entry !! j = None) /\
     row !! str "_sourceFile" = Some (VStr (fileName sheet)) /\
     row !! str "_sourceSheet" = Some (VStr (sheetName sheet)))
  \/
  (entry = ∅ /\
   row !! str "_sourceFile" = Some (VStr (str "Joined")) /\
   row !! str "_sourceSheet" = Some (VStr (str "Joined"))).
Proof.
  intros ix entry row.
  unfold row. rewrite joinRow_sourceFile, joinRow_sourceSheet. fold entry.
  destruct (firstValue entry) as [src|] eqn:Hfirst.
  - left. apply entry_first_slot in Hfirst as (i & sheet & r & Hs & Hr & -> & Hi & Hlow).
    exists i, sheet, r.
    by rewrite get_slotOf_srcFile, get_slotOf_srcSheet.
  - right. by apply firstValue_None in Hfirst.
Qed.

(** The slot [valueSlot] names is the one the value is read from. *)
Lemma valueSlot_spec (entry : gmap nat (gmap jsstring value))
    (ids : list jsstring) (sheets : list SheetData) (o : nat) :
  match valueSlot entry ids (imap (fun j s => ((o + j)%nat, s)) sheets) with
  | Some i =>
      exists j sheet src,
        i = (o + j)%nat /\ sheets !! j = Some sheet /\ entry !! i = Some src /\
        isEmptyString (slotValue sheet src ids) = false /\
        joinValue entry ids (imap (fun j s => ((o + j)%nat, s)) sheets)
          = slotValue sheet src ids
  | None =>
      joinValue entry ids (imap (fun j s => ((o + j)%nat, s)) sheets) = VStr []
  end.
Proof.
  revert o. induction sheets as [|s sheets IH]; intros o; [done|].
  cbn [imap valueSlot joinValue].
  replace (o + 0)%nat with o by lia.
  destruct (entry !! o) as [src|] eqn:He.
  - destruct (isEmptyString (slotValue s src ids)) eqn:Hv; cbn [negb].
    + specialize (IH (S o)).
      rewrite (imap_ext _ (fun j s => ((S o + j)%nat, s)))
        by (intros; simpl; f_equal; lia).
      destruct (valueSlot entry ids _) as [i|]; [|done].
      destruct IH as (j & sheet & src' & -> & Hs & Hi & Hne & Hval).
      exists (S j), sheet, src'. split; [lia|]. done.
    + exists 0%nat, s, src. replace (o + 0)%nat with o by lia. done.
  - cbn [isEmptyString negb].
    specialize (IH (S o)).
    rewrite (imap_ext _ (fun j s => ((S o + j)%nat, s)))
      by (intros; simpl; f_equal; lia).
    destruct (valueSlot entry ids _) as [i|]; [|done].
    destruct IH as (j & sheet & src' & -> & Hs & Hi & Hne & Hval).
    exists (S j), sheet, src'. split; [lia|]. done.
Qed.

(** The loop stops at the lowest slot when that slot has a value. *)
Lemma valueSlot_first_slot (entry : gmap nat (gmap jsstring value))
    (ids : list jsstring) (sheets : list SheetData) (o i : nat)
    (sheet : SheetData) (src : gmap jsstring value) :
  sheets !! i = Some sheet ->
  entry !! (o + i)%nat = Some src ->
  (forall j, (j < i)%nat -> entry !! (o + j)%nat = None) ->
  isEmptyString (slotValue sheet src ids) = false ->
  valueSlot entry ids (imap (fun j s => ((o + j)%nat, s)) sheets) = Some (o + i)%nat.
Proof.
  revert o i. induction sheets as [|s sheets IH]; intros o i Hs He Hlow Hv; [done|].
  cbn [imap valueSlot]. destruct i as [|i].
  - simpl in Hs. injection Hs as ->. by rewrite He, Hv.
  - rewrite (Hlow 0%nat) by lia. cbn [isEmptyString negb].
    rewrite (imap_ext _ (fun j s => ((S o + j)%nat, s)))
      by (intros; simpl; f_equal; lia).
    replace (o + S i)%nat with (S o + i)%nat by lia.
    apply (IH (S o) i).
    + done.
    + by replace (S o + i)%nat with (o + S i)%nat by lia.
    + intros j Hj. replace (S o + j)%nat with (o + S j)%nat by lia. apply Hlow. lia.
    + done.
Qed.

(** What a slot holds under a header: the annotation where the header
    is one of the two annotation names, the cell of the row
    otherwise. *)
Lemma get_slotOf (sheet : SheetData) (row : gmap jsstring value) (h : jsstring) :
  get (slotOf sheet row) h
  = if bool_decide (h = str "_srcSheet") then VStr (sheetName sheet)
    else if bool_decide (h = str "_srcFile") then VStr (fileName sheet)
    else get row h.
Proof.
  destruct (bool_decide_reflect (h = str "_srcSheet")) as [->|H1];
    [apply get_slotOf_srcSheet|].
  destruct (bool_decide_reflect (h = str "_srcFile")) as [->|H2];
    [apply get_slotOf_srcFile|].
  by apply get_slotOf_other.
Qed.

(** On a sheet with a file name and a sheet name the stored slot of a
    row supplies the join-key field: the candidate that gave the key
    still finds a value, the cell or the annotation written over it. *)
Lemma slotValue_of_key_row_named (ids : list jsstring) (sheet : SheetData)
    (row : gmap jsstring value) (k : jsstring) :
  named sheet = true ->
  deriveKey ids sheet row = Some k ->
  isEmptyString (slotValue sheet (slotOf sheet row) ids) = false.
Proof.
  intros [Hf Hs]%andb_true_iff Hk. induction ids as [|mId ids IH]; [done|].
  cbn [deriveKey slotValue] in *.
  set (p := parseMappingId mId) in *.
  destruct (namesSheet p sheet); [|by apply IH].
  cbn [andb].
  assert (Hslot : isPresent (get row (m_header p))
                  && negb (bool_decide (trim (String_ (get row (m_header p))) = []))
                  = true ->
                  isPresent (get (slotOf sheet row) (m_header p))
                  && negb (isEmptyString (get (slotOf sheet row) (m_header p)))
                  = true).
  { intros E. apply isPresent_trim_nonempty in E as (Hp & He & _).
    rewrite get_slotOf.
    destruct (bool_decide (m_header p = str "_srcSheet")).
    { simpl in Hs |- *. by destruct (sheetName sheet). }
    destruct (bool_decide (m_header p = str "_srcFile")).
    { simpl in Hf |- *. by destruct (fileName sheet). }
    by rewrite Hp, He. }
  destruct (isPresent (get (slotOf sheet row) (m_header p))
            && negb (isEmptyString (get (slotOf sheet row) (m_header p)))) eqn:E'.
  - by apply andb_true_iff in E' as [_ ->%negb_true_iff].
  - destruct (isPresent (get row (m_header p))
              && negb (bool_decide (trim (String_ (get row (m_header p))) = [])))
      eqn:E; [by specialize (Hslot eq_refl)|].
    by apply IH.
Qed.

(** Claim C4. In every output row of a join over sheets that carry a
    file name and a sheet name, [_sourceFile] and [_sourceSheet] are the
    identity of the first sheet slot, in sheet order, that gave a value
    to a field of the row; when no slot gave a value to any field both
    are the sentinel ["Joined"]. A slot gives a value to a field when
    the loop over the sheet indices stops at it ([valueSlot]): the
    field then holds the value read from that slot. One of the two
    cases always applies. *)
Theorem join_provenance_of_first_value (sheets : list SheetData)
    (mappings : gmap jsstring (list jsstring)) (jk : jsstring) (jt : JoinType)
    (rd : bool) (idx : nat) (k : jsstring) :
  let ids := default [] (mappings !! jk) in
  let ix := buildIndex ids sheets in
  let entry := default ∅ (keyMap ix !! k) in
  let row := joinRow sheets mappings ix idx k in
  forallb named sheets = true ->
  joinKeys sheets mappings jk jt !! idx = Some k ->
  joinData sheets mappings
    {| method := join_; joinKey := jk; joinType := jt; removeDuplicates := rd |}
    !! idx = Some row /\
  (forall f fids,
     mappings !! f = Some fids ->
     match valueSlot entry fids (imap pair sheets) with
     | Some i =>
         exists sheet src,
           sheets !! i = Some sheet /\ entry !! i = Some src /\
           isEmptyString (slotValue sheet src fids) = false /\
           joinValue entry fids (imap pair sheets) = slotValue sheet src fids
     | None => joinValue entry fids (imap pair sheets) = VStr []
     end) /\
  (forall i,
     firstContributor sheets mappings entry i ->
     exists sheet,
       sheets !! i = Some sheet /\
       row !! str "_sourceFile" = Some (VStr (fileName sheet)) /\
       row !! str "_sourceSheet" = Some (VStr (sheetName sheet))) /\
  ((forall i, ~ contributes sheets mappings entry i) ->
   row !! str "_sourceFile" = Some (VStr (str "Joined")) /\
   row !! str "_sourceSheet" = Some (VStr (str "Joined"))) /\
  ((exists i, firstContributor sheets mappings entry i) \/
   (forall i, ~ contributes sheets mappings entry i)).
Proof.
  intros ids ix entry row Hnamed Hk. split.
  { unfold joinData. cbn [joinKey joinType]. fold ids ix.
    rewrite list_lookup_imap. unfold joinKeys in Hk. fold ids ix in Hk.
    by rewrite Hk. }
  assert (Hspec : forall fids,
            match valueSlot entry fids (imap pair sheets) with
            | Some i =>
                exists sheet src,
                  sheets !! i = Some sheet /\ entry !! i = Some src /\
                  isEmptyString (slotValue sheet src fids) = false /\
                  joinValue entry fids (imap pair sheets) = slotValue sheet src fids
            | None => joinValue entry fids (imap pair sheets) = VStr []
            end).
  { intros fids. pose proof (valueSlot_spec entry fids sheets 0) as H.
    rewrite (imap_ext _ pair) in H by done.
    destruct (valueSlot entry fids (imap pair sheets)) as [i|]; [|done].
    destruct H as (j & sheet & src & -> & Hs & Hi & Hne & Hv).
    by exists sheet, src. }
  split; [intros f fids _; apply Hspec|].
  assert (Hslot : forall i, contributes sheets mappings entry i -> is_Some (entry !! i)).
  { intros i (f & fids & _ & Hv). specialize (Hspec fids). rewrite Hv in Hspec.
    destruct Hspec as (sheet & src & _ & Hi & _). by rewrite Hi. }
  pose proof (joinRow_provenance sheets mappings ids idx k) as Hp.
  cbv zeta in Hp. fold ix in Hp. fold entry in Hp. fold row in Hp.
  destruct Hp as [(i0 & sheet & r & Hs & Hr & Hi & Hlow & HF & HS)|(Hempty & HF & HS)].
  - assert (Hc0 : contributes sheets mappings entry i0).
    { apply firstRowWithKey_Some in Hr as [_ Hkey].
      assert (Hm : mappings !! jk = Some ids).
      { unfold ids in *. destruct (mappings !! jk); [done|]. by destruct sheet. }
      exists jk, ids. split; [done|].
      assert (Hn : named sheet = true).
      { rewrite forallb_forall in Hnamed. apply Hnamed.
        apply list_elem_of_In. by eapply list_elem_of_lookup_2. }
      pose proof (slotValue_of_key_row_named ids sheet r k Hn Hkey) as Hv.
      rewrite (imap_ext _ (fun j s => ((0 + j)%nat, s))) by done.
      by apply (valueSlot_first_slot entry ids sheets 0 i0 sheet (slotOf sheet r)). }
    assert (Hleast : forall j, contributes sheets mappings entry j -> (i0 <= j)%nat).
    { intros j Hj. apply Hslot in Hj as [x Hx].
      destruct (Nat.le_gt_cases i0 j) as [|Hlt]; [done|].
      rewrite (Hlow j Hlt) in Hx. done. }
    split; [|split].
    + intros i [Hc Hmin]. specialize (Hmin i0 Hc0). specialize (Hleast i Hc).
      assert (i = i0) as -> by lia. by exists sheet.
    + intros Hnone. by destruct (Hnone i0).
    + left. by exists i0.
  - assert (Hnone : forall i, ~ contributes sheets mappings entry i).
    { intros i Hc. apply Hslot in Hc as [x Hx]. by rewrite Hempty in Hx. }
    split; [|split].
    + intros i [Hc _]. by destruct (Hnone i).
    + done.
    + by right.
Qed.

(** An instance on the two sheets of the join scenario: key ["2"] has
    its only slot in sheet [B]. *)
Lemma join_provenance_of_first_value_witness :
  forallb named [joinSheetA; joinSheetB] = true /\
  joinKeys [joinSheetA; joinSheetB] joinMapping (str "Key") outer !! 1%nat
    = Some (str "2") /\
  joinData [joinSheetA; joinSheetB] joinMapping
    {| method := join_; joinKey := str "Key"; joinType := outer;
       removeDuplicates := true |} !! 1%nat
    = Some (joinRow [joinSheetA; joinSheetB] joinMapping
              (buildIndex (default [] (joinMapping !! str "Key"))
                          [joinSheetA; joinSheetB]) 1 (str "2")) /\
  joinRow [joinSheetA; joinSheetB] joinMapping
          (buildIndex (default [] (joinMapping !! str "Key"))
                      [joinSheetA; joinSheetB]) 1 (str "2")
    !! str "_sourceFile" = Some (VStr (str "B")).
Proof.
  assert (Hn : forallb named [joinSheetA; joinSheetB] = true) by reflexivity.
  assert (Hk : joinKeys [joinSheetA; joinSheetB] joinMapping (str "Key") outer
                 !! 1%nat = Some (str "2")) by (vm_compute; reflexivity).
  split; [exact Hn|]. split; [exact Hk|]. split.
  - exact (proj1 (join_provenance_of_first_value [joinSheetA; joinSheetB] joinMapping
                    (str "Key") outer true 1 (str "2") Hn Hk)).
  - vm_compute. reflexivity.
Defined.

(** A sheet without a file name is outside the property: when its key
    column is named like the annotation [_srcFile], the only slot of a
    key gives no value to any field, yet the row takes that slot's
    identity, not the sentinel. *)
Lemma join_provenance_without_value :
  joinKeys [annotatedSheet] annotatedMapping (str "K") outer = [str "k"] /\
  annotatedMapping = {[ str "K" := [str "::S::_srcFile"] ]} /\
  slotValue annotatedSheet
            (slotOf annotatedSheet {[ str "_srcFile" := VStr (str "k") ]})
            [str "::S::_srcFile"] = VStr [] /\
  (exists row,
     joinData [annotatedSheet] annotatedMapping
       {| method := join_; joinKey := str "K"; joinType := outer;
          removeDuplicates := true |} = [row] /\
     row !! str "K" = Some (VStr []) /\
     row !! str "_sourceFile" = Some (VStr []) /\
     row !! str "_sourceSheet" = Some (VStr (str "S")) /\
     row !! str "_sourceFile" <> Some (VStr (str "Joined")) /\
     row !! str "_sourceSheet" <> Some (VStr (str "Joined"))).
Proof.
  split; [vm_compute; reflexivity|]. split; [reflexivity|].
  split; [vm_compute; reflexivity|].
  exists (joinRow [annotatedSheet] annotatedMapping
            (buildIndex (default [] (annotatedMapping !! str "K")) [annotatedSheet])
            0 (str "k")).
  split; [vm_compute; reflexivity|].
  assert (HK : joinRow [annotatedSheet] annotatedMapping
            (buildIndex (default [] (annotatedMapping !! str "K")) [annotatedSheet])
            0 (str "k") !! str "K" = Some (VStr [])) by (vm_compute; reflexivity).
  assert (HF : joinRow [annotatedSheet] annotatedMapping
            (buildIndex (default [] (annotatedMapping !! str "K")) [annotatedSheet])
            0 (str "k") !! str "_sourceFile" = Some (VStr []))
    by (vm_compute; reflexivity).
  assert (HS : joinRow [annotatedSheet] annotatedMapping
            (buildIndex (default [] (annotatedMapping !! str "K")) [annotatedSheet])
            0 (str "k") !! str "_sourceSheet" = Some (VStr (str "S")))
    by (vm_compute; reflexivity).
  rewrite HK, HF, HS. repeat split; vm_compute; discriminate.
Qed.

(** ** Join merge: the 'left' keys *)

Lemma leftKey_deriveKey (ids : list jsstring) (sheet : SheetData)
    (row : gmap jsstring value) :
  Forall (fun mId => namesSheet (parseMappingId mId) sheet = true ->
                     regularCell (get row (m_header (parseMappingId mId)))) ids ->
  leftKey ids sheet row = deriveKey ids sheet row.
Proof.
  intros H. induction H as [|mId ids Hreg _ IH]; [done|].
  cbn [leftKey deriveKey].
  destruct (namesSheet (parseMappingId mId) sheet); [|done].
  cbn [andb]. rewrite (Hreg eq_refl).
  destruct (isPresent _ && _); [done|exact IH].
Qed.

(** The part of claim C2 the code keeps. The 'left' keys are read off the
    first sheet alone; when the key cells of the first sheet are regular
    (absent, empty, a non-blank string, a non-zero number or [true]) they
    are its rows' join keys, in row order, without repeats. *)
Lemma left_keys_of_regular_cells (sheet0 : SheetData) (others : list SheetData)
    (mappings : gmap jsstring (list jsstring)) (jk : jsstring) :
  joinKeys (sheet0 :: others) mappings jk left
    = joinKeys [sheet0] mappings jk left /\
  (Forall (fun row =>
     Forall (fun mId => namesSheet (parseMappingId mId) sheet0 = true ->
                        regularCell (get row (m_header (parseMappingId mId))))
            (default [] (mappings !! jk))) (rows sheet0) ->
   joinKeys (sheet0 :: others) mappings jk left
     = setFromArray (sheetKeys (default [] (mappings !! jk)) sheet0)).
Proof.
  split; [reflexivity|]. intros H. unfold joinKeys, finalKeys, sheetKeys.
  f_equal. induction H as [|row rs Hrow _ IH]; [done|].
  cbn [omap list_omap]. rewrite (leftKey_deriveKey _ _ _ Hrow).
  destruct (deriveKey _ sheet0 row); by rewrite IH.
Qed.

(** Claim C2 on a first sheet whose key cell is blank, and on one whose key
    cell is the number zero. The blank cell yields no join key and the
    index is empty, yet the 'left' branch takes the cell for a key, the
    empty string, and the join has a row for it. The zero yields the key
    ["0"], which the outer join has, yet the 'left' branch passes the cell
    over and the join has no row. *)
Theorem left_join_key_test_differs :
  deriveKey [str "A::S::Key"] blankKeySheet {[ str "Key" := VStr (str "  ") ]}
    = None /\
  joinKeys [blankKeySheet] keyMapping (str "K") outer = [] /\
  joinKeys [blankKeySheet] keyMapping (str "K") left = [ [] ] /\
  length (joinData [blankKeySheet] keyMapping
            {| method := join_; joinKey := str "K"; joinType := left;
               removeDuplicates := true |}) = 1%nat /\
  (joinData [blankKeySheet] keyMapping
     {| method := join_; joinKey := str "K"; joinType := left;
        removeDuplicates := true |} !! 0%nat) ≫= (fun row => row !! str "id")
    = Some (VStr (str "joined--0")) /\
  deriveKey [str "A::S::Key"] zeroKeySheet {[ str "Key" := VNum (ofZ 0) ]}
    = Some (str "0") /\
  joinKeys [zeroKeySheet] keyMapping (str "K") outer = [str "0"] /\
  joinKeys [zeroKeySheet] keyMapping (str "K") left = [] /\
  joinData [zeroKeySheet] keyMapping
    {| method := join_; joinKey := str "K"; joinType := left;
       removeDuplicates := true |} = [].
Proof. repeat split; vm_compute; reflexivity. Qed.

(* ================================================================== *)
(** * Further properties of the code *)
(* ================================================================== *)

(** ** [split] and [join] *)

Lemma startsWith_true (p s : jsstring) :
  startsWith p s = true -> exists s', s = p ++ s'.
Proof.
  revert s. induction p as [|a p IH]; intros s H; [by exists s|].
  destruct s as [|b s]; [done|]. simpl in H.
  apply andb_true_iff in H as [Hab Hp]. apply N.eqb_eq in Hab as ->.
  destruct (IH s Hp) as [s' ->]. by exists s'.
Qed.

Lemma startsWith_app (p s : jsstring) : startsWith p (p ++ s) = true.
Proof. induction p as [|a p IH]; simpl; [done|]. by rewrite N.eqb_refl. Qed.

Lemma split_go_skip (sep cur pre s : jsstring) :
  split_go sep cur (pre ++ s) (length pre) = split_go sep cur s 0.
Proof. induction pre as [|x pre IH]; simpl; [by destruct s|done]. Qed.

Lemma split_go_at (sep cur : jsstring) (c : N) (s : jsstring) :
  startsWith sep (c :: s) = true ->
  split_go sep cur (c :: s) 0
  = rev cur :: split_go sep [] s (Nat.pred (length sep)).
Proof. intros H. cbn [split_go]. by rewrite H. Qed.

Lemma split_go_not_at (sep cur : jsstring) (c : N) (s : jsstring) :
  startsWith sep (c :: s) = false ->
  split_go sep cur (c :: s) 0 = split_go sep (c :: cur) s 0.
Proof. intros H. cbn [split_go]. by rewrite H. Qed.

Lemma split_go_at_sep (c : N) (sep' cur s : jsstring) :
  split_go (c :: sep') cur ((c :: sep') ++ s) 0
  = rev cur :: split_go (c :: sep') [] s 0.
Proof.
  rewrite <- (split_go_skip (c :: sep') [] sep' s).
  apply (split_go_at (c :: sep') cur c (sep' ++ s)).
  apply (startsWith_app (c :: sep') s).
Qed.

Lemma split_go_nonempty (sep cur s : jsstring) (k : nat) :
  split_go sep cur s k <> [].
Proof.
  revert cur k. induction s as [|c s IH]; intros cur k; simpl; [done|].
  destruct k; [|apply IH]. destruct (startsWith sep (c :: s)); [done|apply IH].
Qed.

Lemma join_cons (sep p : jsstring) (rest : list jsstring) :
  rest <> [] -> JS.join sep (p :: rest) = p ++ sep ++ JS.join sep rest.
Proof. by destruct rest. Qed.

Lemma join_split_go (c : N) (sep' : jsstring) (n : nat) :
  forall s cur, (length s <= n)%nat ->
    JS.join (c :: sep') (split_go (c :: sep') cur s 0) = rev cur ++ s.
Proof.
  induction n as [|n IH]; intros s cur Hn.
  - destruct s; [|simpl in Hn; lia]. simpl. by rewrite app_nil_r.
  - destruct s as [|x s]; [simpl; by rewrite app_nil_r|].
    destruct (startsWith (c :: sep') (x :: s)) eqn:Hp.
    + apply startsWith_true in Hp as [s' Hs']. rewrite Hs', split_go_at_sep.
      rewrite join_cons by apply split_go_nonempty.
      rewrite IH; [done|].
      apply (f_equal length) in Hs'. rewrite length_app in Hs'. simpl in *. lia.
    + rewrite split_go_not_at by done. rewrite IH by (simpl in Hn; lia).
      simpl. by rewrite <- app_assoc.
Qed.

(** Splitting at a separator and joining with it gives the string back. *)
Lemma join_split (sep s : jsstring) : sep <> [] -> JS.join sep (split sep s) = s.
Proof.
  destruct sep as [|c sep']; [done|]. intros _. unfold split.
  by rewrite (join_split_go c sep' (length s)).
Qed.

Lemma includes_startsWith (p s : jsstring) :
  startsWith p s = true -> includes p s = true.
Proof. intros H. destruct s; simpl in *; by rewrite H. Qed.

Lemma includes_app_sep (p a b : jsstring) : includes p (a ++ p ++ b) = true.
Proof.
  induction a as [|x a IH].
  - apply includes_startsWith, (startsWith_app p b).
  - cbn [app includes]. rewrite IH. apply orb_true_r.
Qed.

Lemma includes_cons (p : jsstring) (c : N) (s : jsstring) :
  includes p (c :: s) = startsWith p (c :: s) || includes p s.
Proof. reflexivity. Qed.

(** A delimiter-free name in front of ["::"] is the first piece. *)
Lemma split_go_name (name rest cur : jsstring) :
  delimiterFree name ->
  split_go (str "::") cur (name ++ str "::" ++ rest) 0
  = (rev cur ++ name) :: split_go (str "::") [] rest 0.
Proof.
  unfold delimiterFree. revert cur.
  induction name as [|c name IH]; intros cur H.
  - rewrite app_nil_r. apply (split_go_at_sep 58%N [58%N] cur rest).
  - cbn [app] in H. rewrite includes_cons in H.
    apply orb_false_iff in H as [Hhere Hrest].
    assert (Hp : startsWith (str "::") ((c :: name) ++ str "::" ++ rest) = false).
    { revert Hhere. destruct name as [|d name]; simpl; by destruct (58 =? c)%N. }
    cbn [app] in *. rewrite split_go_not_at by done. rewrite IH by done.
    simpl. by rewrite <- app_assoc.
Qed.

Lemma split_header_id (sheet : SheetData) (header : jsstring) :
  delimiterFree (fileName sheet) -> delimiterFree (sheetName sheet) ->
  split (str "::") (getHeaderId sheet header)
  = fileName sheet :: sheetName sheet :: split (str "::") header.
Proof.
  intros Hf Hs. unfold getHeaderId.
  change (split (str "::")) with (fun s => split_go (str "::") [] s 0).
  cbv beta. rewrite split_go_name by done.
  rewrite split_go_name by done. done.
Qed.

(** ** Column ids *)

(** Property X1.
    A column id built by the mapper is read back by the merge engine and
    by the mapper itself as the file name, sheet name and header it was
    built from, whatever the header holds, as long as the file name and
    the sheet name hold no ["::"] and do not end in a colon. *)
Theorem header_id_round_trip (sheet : SheetData) (header : jsstring) :
  delimiterFree (fileName sheet) -> delimiterFree (sheetName sheet) ->
  parseMappingId (getHeaderId sheet header)
    = {| m_fileName := fileName sheet; m_sheetName := sheetName sheet;
         m_header := header |} /\
  parseHeaderId (getHeaderId sheet header)
    = {| h_fileName := fileName sheet; h_sheetName := sheetName sheet;
         h_name := header |}.
Proof.
  intros Hf Hs. unfold parseMappingId, parseHeaderId.
  rewrite split_header_id by done.
  assert (Hlen : (length (fileName sheet :: sheetName sheet
                            :: split (str "::") header) <? 3)%nat = false).
  { apply Nat.ltb_ge. pose proof (split_go_nonempty (str "::") [] header 0) as Hne.
    change (split_go (str "::") [] header 0) with (split (str "::") header) in Hne.
    destruct (split (str "::") header); [done|simpl; lia]. }
  rewrite Hlen. cbn [nth drop]. rewrite drop_0, join_split by done. done.
Qed.

(** An instance: a header that itself holds the delimiter. *)
Lemma header_id_round_trip_witness :
  delimiterFree (fileName sampleSheetA) /\ delimiterFree (sheetName sampleSheetA) /\
  parseMappingId (getHeaderId sampleSheetA (str "a::b"))
    = {| m_fileName := str "A"; m_sheetName := str "S"; m_header := str "a::b" |}.
Proof.
  split; [reflexivity|]. split; [reflexivity|].
  apply (header_id_round_trip sampleSheetA (str "a::b")); reflexivity.
Defined.

(** ** Generated candidates in the merges *)

Lemma includes_getHeaderId (sheet : SheetData) (header : jsstring) :
  includes (str "::") (getHeaderId sheet header) = true.
Proof. apply includes_app_sep. Qed.

Lemma parseMappingId_getHeaderId (sheet : SheetData) (header : jsstring) :
  delimiterFree (fileName sheet) -> delimiterFree (sheetName sheet) ->
  parseMappingId (getHeaderId sheet header)
  = {| m_fileName := fileName sheet; m_sheetName := sheetName sheet;
       m_header := header |}.
Proof.
  intros Hf Hs. unfold parseMappingId. rewrite split_header_id by done.
  pose proof (split_go_nonempty (str "::") [] header 0) as Hne.
  change (split_go (str "::") [] header 0) with (split (str "::") header) in Hne.
  assert (Hlen : (length (fileName sheet :: sheetName sheet
                            :: split (str "::") header) <? 3)%nat = false).
  { apply Nat.ltb_ge. destruct (split (str "::") header); [done|simpl; lia]. }
  rewrite Hlen. cbn [nth drop]. by rewrite drop_0, join_split.
Qed.

Lemma namesSheet_getHeaderId (owner sheet : SheetData) (header : jsstring) :
  delimiterFree (fileName owner) -> delimiterFree (sheetName owner) ->
  namesSheet (parseMappingId (getHeaderId owner header)) sheet = sameSheet owner sheet.
Proof. intros Hf Hs. by rewrite parseMappingId_getHeaderId. Qed.

Lemma resolveValue_generated (owner sheet : SheetData) (header : jsstring)
    (row : gmap jsstring value) (rest : list jsstring) :
  delimiterFree (fileName owner) -> delimiterFree (sheetName owner) ->
  resolveValue sheet row (getHeaderId owner header :: rest)
  = if sameSheet owner sheet && hasOwnProperty row header
       && isPresent (get row header) && negb (isEmptyString (get row header))
    then get row header
    else resolveValue sheet row rest.
Proof.
  intros Hf Hs. rewrite resolveValue_qualified by apply includes_getHeaderId.
  rewrite namesSheet_getHeaderId by done.
  by rewrite parseMappingId_getHeaderId.
Qed.

Lemma deriveKey_generated (owner sheet : SheetData) (header : jsstring)
    (row : gmap jsstring value) (rest : list jsstring) :
  delimiterFree (fileName owner) -> delimiterFree (sheetName owner) ->
  deriveKey (getHeaderId owner header :: rest) sheet row
  = if sameSheet owner sheet && isPresent (get row header)
       && negb (bool_decide (trim (String_ (get row header)) = []))
    then Some (trim (String_ (get row header)))
    else deriveKey rest sheet row.
Proof.
  intros Hf Hs. cbn [deriveKey]. rewrite namesSheet_getHeaderId by done.
  rewrite parseMappingId_getHeaderId by done. cbn [m_header].
  by destruct (sameSheet owner sheet).
Qed.

Lemma slotValue_generated (owner sheet : SheetData) (header : jsstring)
    (row : gmap jsstring value) (rest : list jsstring) :
  delimiterFree (fileName owner) -> delimiterFree (sheetName owner) ->
  slotValue sheet row (getHeaderId owner header :: rest)
  = if sameSheet owner sheet && isPresent (get row header)
       && negb (isEmptyString (get row header))
    then get row header
    else slotValue sheet row rest.
Proof.
  intros Hf Hs. cbn [slotValue]. rewrite namesSheet_getHeaderId by done.
  by rewrite parseMappingId_getHeaderId.
Qed.

(** Property X2.
    A candidate id the mapper generated for a column of a sheet is
    skipped on the rows of every other sheet and reads exactly that
    column on the rows of its own sheet: in the stack merge, in the key
    pass of the join and in the value pass of the join. The file name
    and the sheet name must hold no ["::"] and not end in a colon. *)
Theorem generated_candidate_reads_its_column (owner sheet : SheetData)
    (header : jsstring) (row : gmap jsstring value) (rest : list jsstring) :
  delimiterFree (fileName owner) -> delimiterFree (sheetName owner) ->
  resolveValue sheet row (getHeaderId owner header :: rest)
    = (if sameSheet owner sheet && hasOwnProperty row header
          && isPresent (get row header) && negb (isEmptyString (get row header))
       then get row header
       else resolveValue sheet row rest) /\
  deriveKey (getHeaderId owner header :: rest) sheet row
    = (if sameSheet owner sheet && isPresent (get row header)
          && negb (bool_decide (trim (String_ (get row header)) = []))
       then Some (trim (String_ (get row header)))
       else deriveKey rest sheet row) /\
  slotValue sheet row (getHeaderId owner header :: rest)
    = (if sameSheet owner sheet && isPresent (get row header)
          && negb (isEmptyString (get row header))
       then get row header
       else slotValue sheet row rest).
Proof.
  intros Hf Hs. split; [|split].
  - by apply resolveValue_generated.
  - by apply deriveKey_generated.
  - by apply slotValue_generated.
Qed.

(** An instance: the id of column [N] of sheet [A/S] on a row of that
    sheet and on a row of sheet [B/S]. *)
Lemma generated_candidate_reads_its_column_witness :
  resolveValue sampleSheetA {[ str "N" := VStr (str "x") ]}
    [getHeaderId sampleSheetA (str "N")] = VStr (str "x") /\
  resolveValue sampleSheetB {[ str "N" := VStr (str "x") ]}
    [getHeaderId sampleSheetA (str "N")] = VStr [].
Proof.
  split.
  - rewrite (proj1 (generated_candidate_reads_its_column sampleSheetA sampleSheetA
               (str "N") {[ str "N" := VStr (str "x") ]} []
               ltac:(reflexivity) ltac:(reflexivity))).
    vm_compute. reflexivity.
  - rewrite (proj1 (generated_candidate_reads_its_column sampleSheetA sampleSheetB
               (str "N") {[ str "N" := VStr (str "x") ]} []
               ltac:(reflexivity) ltac:(reflexivity))).
    vm_compute. reflexivity.
Defined.

(** ** The join without key candidates *)

Lemma deriveKey_nil (sheet : SheetData) (row : gmap jsstring value) :
  deriveKey [] sheet row = None.
Proof. reflexivity. Qed.

Lemma sheetKeys_nil (sheet : SheetData) : sheetKeys [] sheet = [].
Proof. unfold sheetKeys. induction (rows sheet); simpl; done. Qed.

Lemma allKeySet_no_candidates (sheets : list SheetData) :
  allKeySet (buildIndex [] sheets) = [].
Proof.
  destruct (buildIndex_spec [] sheets) as (_ & -> & _).
  assert (E : concat (List.map (sheetKeys []) sheets) = []).
  { induction sheets as [|s l IH]; simpl; [done|]. by rewrite sheetKeys_nil, IH. }
  by rewrite E.
Qed.

Lemma finalKeys_no_candidates (sheets : list SheetData) (jt : JoinType) :
  finalKeys sheets [] jt (buildIndex [] sheets) = [].
Proof.
  destruct jt; unfold finalKeys.
  - apply allKeySet_no_candidates.
  - by rewrite allKeySet_no_candidates.
  - destruct sheets as [|sheet0 l]; [done|].
    assert (E : omap (leftKey [] sheet0) (rows sheet0) = []).
    { induction (rows sheet0); simpl; done. }
    by rewrite E.
Qed.

Lemma joinData_no_candidates (sheets : list SheetData)
    (mappings : gmap jsstring (list jsstring)) (config : MergeConfig) :
  default [] (mappings !! joinKey config) = [] ->
  joinData sheets mappings config = [].
Proof.
  intros Hids. unfold joinData. rewrite Hids.
  by rewrite finalKeys_no_candidates.
Qed.

(** ** Auto-detection of fields *)

Lemma mapSet_keys (m : HeadersMap) (h : jsstring) (v : list jsstring) :
  List.map fst (mapSet m h v) = setAdd (List.map fst m) h.
Proof.
  induction m as [|[k ids] m IH]; [done|]. cbn [mapSet List.map fst].
  unfold setAdd in *. destruct (bool_decide (k = h)) eqn:E.
  - apply bool_decide_eq_true in E as ->. cbn [List.map fst].
    rewrite bool_decide_eq_true_2; [done|left].
  - apply bool_decide_eq_false in E. cbn [List.map fst]. rewrite IH.
    destruct (bool_decide (h ∈ List.map fst m)) eqn:E'.
    + apply bool_decide_eq_true in E'.
      rewrite bool_decide_eq_true_2; [done|by right].
    + apply bool_decide_eq_false in E'.
      rewrite bool_decide_eq_false_2; [done|].
      intros [?|?]%elem_of_cons; [by subst|done].
Qed.

Lemma mapGet_mapSet (m : HeadersMap) (h h' : jsstring) (v : list jsstring) :
  mapGet (mapSet m h v) h' = if bool_decide (h' = h) then Some v else mapGet m h'.
Proof.
  induction m as [|[k ids] m IH]; cbn [mapSet mapGet].
  - destruct (bool_decide (h = h')) eqn:E.
    + apply bool_decide_eq_true in E as ->. by rewrite bool_decide_eq_true_2.
    + apply bool_decide_eq_false in E. by rewrite bool_decide_eq_false_2.
  - destruct (bool_decide (k = h)) eqn:E; cbn [mapGet].
    + apply bool_decide_eq_true in E as ->.
      destruct (bool_decide (h = h')) eqn:E'.
      * apply bool_decide_eq_true in E' as ->. by rewrite bool_decide_eq_true_2.
      * apply bool_decide_eq_false in E'. by rewrite bool_decide_eq_false_2.
    + apply bool_decide_eq_false in E. rewrite IH.
      destruct (bool_decide (k = h')) eqn:E'; [|done].
      apply bool_decide_eq_true in E' as ->. by rewrite bool_decide_eq_false_2.
Qed.

Lemma mapGet_is_Some (m : HeadersMap) (h : jsstring) :
  is_Some (mapGet m h) <-> h ∈ List.map fst m.
Proof.
  induction m as [|[k ids] m IH]; cbn [mapGet List.map fst].
  - split; [by intros [? ?]|by intros ?%elem_of_nil].
  - destruct (bool_decide (k = h)) eqn:E.
    + apply bool_decide_eq_true in E as ->. split; [left|by eexists].
    + apply bool_decide_eq_false in E. rewrite IH. split; [by right|].
      intros [?|?]%elem_of_cons; [by subst|done].
Qed.

Lemma mapHas_mapGet (m : HeadersMap) (h : jsstring) :
  mapHas m h = true -> is_Some (mapGet m h).
Proof.
  unfold mapHas. intros Hh. apply existsb_exists in Hh as ([k ids] & Hin & Hk).
  apply bool_decide_eq_true in Hk. simpl in Hk. subst k.
  apply mapGet_is_Some, list_elem_of_In, in_map_iff. by exists (h, ids).
Qed.

Lemma setAdd_idem (l : list jsstring) (k : jsstring) :
  setAdd (setAdd l k) k = setAdd l k.
Proof. apply setAdd_elem, elem_of_setAdd. by right. Qed.

Lemma registerHeader_keys (sheet : SheetData) (m : HeadersMap) (h : jsstring) :
  List.map fst (registerHeader sheet m h) = setAdd (List.map fst m) h.
Proof.
  unfold registerHeader. rewrite mapSet_keys.
  destruct (mapHas m h); [done|]. by rewrite mapSet_keys, setAdd_idem.
Qed.

Lemma registerHeader_get (sheet : SheetData) (m : HeadersMap) (h h' : jsstring) :
  default [] (mapGet (registerHeader sheet m h) h')
  = default [] (mapGet m h')
    ++ (if bool_decide (h = h') then [getHeaderId sheet h] else []).
Proof.
  unfold registerHeader. rewrite mapGet_mapSet.
  destruct (bool_decide (h' = h)) eqn:E.
  - apply bool_decide_eq_true in E as ->. rewrite bool_decide_eq_true_2 by done.
    destruct (mapHas m h) eqn:Hh; [done|].
    rewrite mapGet_mapSet, bool_decide_eq_true_2 by done. cbn [default from_option].
    destruct (mapGet m h) as [ids|] eqn:Hg; [|done].
    assert (Hin : h ∈ List.map fst m) by (apply mapGet_is_Some; by eexists).
    apply list_elem_of_In, in_map_iff in Hin as ([k ids'] & Hk & Hin).
    simpl in Hk. subst k.
    assert (mapHas m h = true); [|congruence].
    apply existsb_exists. exists (h, ids'). split; [done|].
    by apply bool_decide_eq_true.
  - apply bool_decide_eq_false in E.
    rewrite bool_decide_eq_false_2 by (intros ->; done). rewrite app_nil_r.
    destruct (mapHas m h); [done|].
    by rewrite mapGet_mapSet, bool_decide_eq_false_2.
Qed.

Lemma registerHeaders_spec (sheet : SheetData) (hs : list jsstring) (m : HeadersMap) :
  List.map fst (foldl (registerHeader sheet) m hs) = foldl setAdd (List.map fst m) hs /\
  forall h,
    default [] (mapGet (foldl (registerHeader sheet) m hs) h)
    = default [] (mapGet m h)
      ++ List.map (getHeaderId sheet) (List.filter (fun x => bool_decide (x = h)) hs).
Proof.
  revert m. induction hs as [|x hs IH]; intros m; cbn [foldl List.filter].
  - split; [done|]. intros h. by rewrite app_nil_r.
  - destruct (IH (registerHeader sheet m x)) as [Hk Hg]. split.
    + by rewrite Hk, registerHeader_keys.
    + intros h. rewrite Hg, registerHeader_get, <- app_assoc.
      destruct (bool_decide (x = h)) eqn:E; [|done].
      apply bool_decide_eq_true in E as ->. done.
Qed.

Lemma collectHeaders_spec (sheets : list SheetData) (m : HeadersMap) :
  List.map fst (foldl (fun m sheet => foldl (registerHeader sheet) m (headers sheet))
                      m sheets)
    = foldl setAdd (List.map fst m) (concat (List.map headers sheets)) /\
  forall h,
    default [] (mapGet (foldl (fun m sheet =>
                                 foldl (registerHeader sheet) m (headers sheet))
                              m sheets) h)
    = default [] (mapGet m h) ++ headerIds sheets h.
Proof.
  revert m. induction sheets as [|s sheets IH]; intros m;
    cbn [foldl List.map concat].
  - split; [done|]. intros h. unfold headerIds. simpl. by rewrite app_nil_r.
  - destruct (IH (foldl (registerHeader s) m (headers s))) as [Hk Hg].
    destruct (registerHeaders_spec s (headers s) m) as [Hk' Hg']. split.
    + by rewrite Hk, Hk', foldl_app.
    + intros h. rewrite Hg, Hg', <- app_assoc. done.
Qed.

Lemma initialMap_lookup (sheets : list SheetData) (h : jsstring) :
  initialMap sheets !! h
  = if bool_decide (h ∈ concat (List.map headers sheets))
    then Some (headerIds sheets h) else None.
Proof.
  unfold initialMap. destruct (collectHeaders_spec sheets []) as [Hk Hg].
  fold (collectHeaders sheets) in Hk, Hg.
  assert (Hfold : forall (g : jsstring -> list jsstring) (l : list jsstring)
                         (acc : gmap jsstring (list jsstring)),
    foldl (fun (acc : gmap jsstring (list jsstring)) label => <[label := g label]> acc)
          acc l !! h
    = if bool_decide (h ∈ l) then Some (g h) else acc !! h).
  { intros g l. induction l as [|x l IH]; intros acc; cbn [foldl].
    - rewrite bool_decide_eq_false_2; [done|apply not_elem_of_nil].
    - rewrite IH. destruct (bool_decide (h ∈ l)) eqn:E.
      + apply bool_decide_eq_true in E.
        rewrite bool_decide_eq_true_2; [done|by right].
      + apply bool_decide_eq_false in E. destruct (decide (x = h)) as [->|Hne].
        * rewrite bool_decide_eq_true_2 by left. apply lookup_insert_eq.
        * rewrite lookup_insert_ne by done.
          rewrite bool_decide_eq_false_2; [done|].
          intros [?|?]%elem_of_cons; [by subst|done]. }
  rewrite (Hfold (fun label => default [] (mapGet (collectHeaders sheets) label))).
  rewrite Hk, Hg. cbn [List.map mapGet default from_option app].
  rewrite lookup_empty.
  change (foldl setAdd [] (concat (List.map headers sheets)))
    with (setFromArray (concat (List.map headers sheets))).
  destruct (decide (h ∈ concat (List.map headers sheets))) as [Hin|Hin].
  - rewrite !bool_decide_eq_true_2; [done|done|by apply elem_of_setFromArray].
  - rewrite !bool_decide_eq_false_2; [done|done|].
    intros H. apply Hin. by apply elem_of_setFromArray.
Qed.

(** Property X4.
    The auto-detection proposes one field per distinct header, in the
    order the headers first appear across the sheets, each keyed and
    labelled by the header; so the proposed keys are pairwise distinct.
    The candidates of a field are the ids of the columns with that
    header, in sheet order, and no other key is mapped. The first field,
    if any, becomes the join key. *)
Theorem auto_detection_fields (orderedSheets : list SheetData)
    (st : ColumnMapper.State) :
  let st' := performAutoDetection orderedSheets st in
  List.map key (ColumnMapper.fields st')
    = setFromArray (concat (List.map headers orderedSheets)) /\
  List.map label (ColumnMapper.fields st') = List.map key (ColumnMapper.fields st') /\
  NoDup (List.map key (ColumnMapper.fields st')) /\
  (forall h,
     h ∈ concat (List.map headers orderedSheets) ->
     ColumnMapper.mapping st' !! h = Some (Some (headerIds orderedSheets h))) /\
  (forall h,
     h ∉ concat (List.map headers orderedSheets) ->
     ColumnMapper.mapping st' !! h = None) /\
  ColumnMapper.joinKey st'
    = match concat (List.map headers orderedSheets) with
      | h :: _ => h
      | [] => ColumnMapper.joinKey st
      end.
Proof.
  intros st'.
  destruct (collectHeaders_spec orderedSheets []) as [Hk _].
  fold (collectHeaders orderedSheets) in Hk. cbn [List.map] in Hk.
  fold (setFromArray (concat (List.map headers orderedSheets))) in Hk.
  assert (Hkeys : List.map key (suggestedFields orderedSheets)
                  = setFromArray (concat (List.map headers orderedSheets))).
  { unfold suggestedFields. rewrite List.map_map. cbn [key]. by rewrite List.map_id. }
  split; [exact Hkeys|]. split.
  { cbn. unfold suggestedFields. by rewrite !List.map_map. }
  split; [cbn; rewrite Hkeys; apply NoDup_setFromArray|].
  split; [|split].
  - intros h Hh. cbn. rewrite lookup_fmap, initialMap_lookup.
    by rewrite bool_decide_eq_true_2.
  - intros h Hh. cbn. rewrite lookup_fmap, initialMap_lookup.
    by rewrite bool_decide_eq_false_2.
  - cbn [st' performAutoDetection ColumnMapper.joinKey].
    destruct (concat (List.map headers orderedSheets)) as [|h l] eqn:E.
    + destruct (suggestedFields orderedSheets) as [|f fs]; [done|].
      by cbn in Hkeys.
    + assert (Hhd : exists rest, setFromArray (h :: l) = h :: rest).
      { unfold setFromArray. cbn [foldl]. change (setAdd [] h) with [h].
        clear. generalize (@nil jsstring) as pre. induction l as [|x l IH]; intros pre.
        - by exists pre.
        - cbn [foldl]. unfold setAdd at 2.
          destruct (bool_decide (x ∈ h :: pre)); [apply IH|].
          change ((h :: pre) ++ [x]) with (h :: (pre ++ [x])). apply IH. }
      destruct Hhd as [rest Hrest]. rewrite Hrest in Hkeys.
      destruct (suggestedFields orderedSheets) as [|f fs]; [done|].
      cbn in Hkeys. by injection Hkeys as -> _.
Qed.

(** An instance: the two sample sheets share the header [Name]. *)
Lemma auto_detection_fields_witness :
  ColumnMapper.mapping (performAutoDetection [sampleSheetA; sampleSheetB] twoFields)
    !! str "Name"
  = Some (Some (headerIds [sampleSheetA; sampleSheetB] (str "Name"))).
Proof.
  apply (auto_detection_fields [sampleSheetA; sampleSheetB] twoFields).
  left.
Defined.

(** ** Auto-detected mapping in the merges *)

(** Sheets whose file and sheet names can stand in a column id. *)
Lemma resolveValue_header_ids (sheet : SheetData) (row : gmap jsstring value)
    (h : jsstring) (sheets : list SheetData) :
  Forall (fun s => delimiterFree (fileName s) /\ delimiterFree (sheetName s)) sheets ->
  resolveValue sheet row (headerIds sheets h)
  = if existsb (fun s => sameSheet s sheet && bool_decide (h ∈ headers s)) sheets
       && hasOwnProperty row h && isPresent (get row h)
       && negb (isEmptyString (get row h))
    then get row h
    else VStr [].
Proof.
  intros Hall. induction Hall as [|s sheets [Hf Hs] _ IH]; [done|].
  unfold headerIds in *. cbn [List.map concat existsb].
  assert (Hin : forall (hs : list jsstring) (rest : list jsstring),
    resolveValue sheet row
      (List.map (getHeaderId s) (List.filter (fun x => bool_decide (x = h)) hs) ++ rest)
    = if sameSheet s sheet && bool_decide (h ∈ hs)
         && hasOwnProperty row h && isPresent (get row h)
         && negb (isEmptyString (get row h))
      then get row h
      else resolveValue sheet row rest).
  { intros hs rest. induction hs as [|x hs IHhs]; cbn [List.filter List.map app].
    - rewrite bool_decide_eq_false_2 by apply not_elem_of_nil.
      by rewrite andb_false_r.
    - destruct (bool_decide (x = h)) eqn:E.
      + apply bool_decide_eq_true in E as ->. cbn [List.map app].
        rewrite resolveValue_generated by done.
        rewrite (bool_decide_eq_true_2 (h ∈ h :: hs)) by left.
        rewrite andb_true_r. rewrite IHhs.
        destruct (sameSheet s sheet), (hasOwnProperty row h),
          (isPresent (get row h)), (isEmptyString (get row h)),
          (bool_decide (h ∈ hs)); done.
      + apply bool_decide_eq_false in E. rewrite IHhs.
        destruct (decide (h ∈ hs)) as [Hh|Hh].
        * rewrite !bool_decide_eq_true_2; [done|by right|done].
        * rewrite !bool_decide_eq_false_2; [done| |done].
          intros [?|?]%elem_of_cons; [by subst|done]. }
  rewrite Hin, IH.
  destruct (sameSheet s sheet), (bool_decide (h ∈ headers s)),
    (existsb (fun s0 => sameSheet s0 sheet && bool_decide (h ∈ headers s0)) sheets),
    (hasOwnProperty row h), (isPresent (get row h)), (isEmptyString (get row h));
    done.
Qed.

Lemma existsb_own_header (sheets : list SheetData) (sheet : SheetData) (h : jsstring) :
  sheet ∈ sheets -> h ∈ headers sheet ->
  existsb (fun s => sameSheet s sheet && bool_decide (h ∈ headers s)) sheets = true.
Proof.
  intros Hs Hh. apply existsb_exists. exists sheet. split; [by apply list_elem_of_In|].
  unfold sameSheet. by rewrite !bool_decide_eq_true_2.
Qed.

Lemma cleanAndFormatValue_cell (row : gmap jsstring value) (h : jsstring) :
  cleanAndFormatValue
    (if hasOwnProperty row h && isPresent (get row h)
        && negb (isEmptyString (get row h))
     then get row h else VStr [])
  = cleanAndFormatValue (get row h).
Proof.
  unfold hasOwnProperty, get. destruct (row !! h) as [v|] eqn:E.
  - rewrite bool_decide_eq_true_2 by by eexists. cbn [default from_option andb].
    destruct v as [| |b|n|[|c s]]; done.
  - rewrite bool_decide_eq_false_2; [done|]. by intros [? ?].
Qed.

(** Property X5.
    With the mapping the auto-detection builds, the stack merge gives
    every row, under each header of the row's sheet, the normalized cell
    of that header: no other sheet's column and no other column is read.
    The headers [_sourceFile] and [_sourceSheet] are overwritten by the
    provenance. File and sheet names must hold no ["::"] and not end in
    a colon. *)
Theorem auto_detected_stack_reads_own_cell (sheets : list SheetData)
    (sheet : SheetData) (h : jsstring) (index : nat) (row : gmap jsstring value) :
  Forall (fun s => delimiterFree (fileName s) /\ delimiterFree (sheetName s)) sheets ->
  sheet ∈ sheets -> h ∈ headers sheet ->
  h <> str "_sourceFile" -> h <> str "_sourceSheet" ->
  stackRow sheet (initialMap sheets) index row !! h
  = Some (cleanAndFormatValue (get row h)).
Proof.
  intros Hall Hs Hh Hf Hsh.
  assert (Hmap : initialMap sheets !! h = Some (headerIds sheets h)).
  { rewrite initialMap_lookup, bool_decide_eq_true_2; [done|].
    apply list_elem_of_In, in_concat. exists (headers sheet).
    split; [|by apply list_elem_of_In].
    apply in_map, list_elem_of_In, Hs. }
  rewrite (stackRow_field sheet (initialMap sheets) index row h _ Hmap Hf Hsh).
  rewrite resolveValue_header_ids by done.
  rewrite existsb_own_header by done. cbn [andb].
  by rewrite cleanAndFormatValue_cell.
Qed.

(** An instance: the two sample sheets. *)
Lemma auto_detected_stack_reads_own_cell_witness :
  stackRow sampleSheetA (initialMap [sampleSheetA; sampleSheetB]) 0
           {[ str "Name" := VStr (str " x ") ]} !! str "Name"
  = Some (cleanAndFormatValue (get {[ str "Name" := VStr (str " x ") ]} (str "Name"))).
Proof.
  apply (auto_detected_stack_reads_own_cell [sampleSheetA; sampleSheetB]
           sampleSheetA (str "Name") 0 {[ str "Name" := VStr (str " x ") ]}).
  - repeat constructor.
  - left.
  - left.
  - vm_compute. discriminate.
  - vm_compute. discriminate.
Defined.

(** ** Re-sorting the candidates *)

Section StableSort.

Variable rank : jsstring -> Z.

Lemma insertSorted_Permutation (x : jsstring) (l : list jsstring) :
  insertSorted rank x l ≡ₚ x :: l.
Proof.
  induction l as [|y l IH]; cbn [insertSorted]; [done|].
  destruct (rank x <=? rank y); [done|]. rewrite IH. apply Permutation_swap.
Qed.

Lemma foldr_insertSorted_Permutation (l : list jsstring) :
  foldr (insertSorted rank) [] l ≡ₚ l.
Proof.
  induction l as [|x l IH]; cbn [foldr]; [done|].
  by rewrite insertSorted_Permutation, IH.
Qed.

Lemma ranked_cons (x : jsstring) (l : list jsstring) :
  ranked rank (x :: l) <-> (forall b, b ∈ l -> rank x <= rank b) /\ ranked rank l.
Proof.
  split.
  - intros H. split.
    + intros b [j Hj]%list_elem_of_lookup. by apply (H 0%nat (S j) x b); [lia|..].
    + intros i j a b Hij Ha Hb. by apply (H (S i) (S j) a b); [lia|..].
  - intros [Hx Hl] i j a b Hij Ha Hb. destruct j as [|j]; [lia|].
    cbn in Hb. destruct i as [|i].
    + cbn in Ha. injection Ha as <-. apply Hx. by eapply list_elem_of_lookup_2.
    + cbn in Ha. by apply (Hl i j a b); [lia|..].
Qed.

Lemma insertSorted_ranked (x : jsstring) (l : list jsstring) :
  ranked rank l -> ranked rank (insertSorted rank x l).
Proof.
  induction l as [|y l IH]; cbn [insertSorted]; intros Hl.
  - apply ranked_cons. split; [by intros b ?%elem_of_nil|done].
  - destruct (rank x <=? rank y) eqn:E.
    + apply Z.leb_le in E. apply ranked_cons. split; [|done].
      apply ranked_cons in Hl as [Hy _].
      intros b [->|Hb]%elem_of_cons; [done|]. specialize (Hy b Hb). lia.
    + apply Z.leb_gt in E. apply ranked_cons in Hl as [Hy Hl].
      apply ranked_cons. split; [|by apply IH].
      intros b Hb. rewrite insertSorted_Permutation in Hb.
      apply elem_of_cons in Hb as [->|Hb]; [lia|by apply Hy].
Qed.

Lemma foldr_insertSorted_ranked (l : list jsstring) :
  ranked rank (foldr (insertSorted rank) [] l).
Proof.
  induction l as [|x l IH]; cbn [foldr].
  - intros i j a b _ Ha. by rewrite lookup_nil in Ha.
  - by apply insertSorted_ranked.
Qed.

(** Elements of one rank keep their relative order. *)
Lemma filter_insertSorted (P : jsstring -> bool) (x : jsstring) (l : list jsstring) :
  (forall a b, P a = true -> P b = true -> rank a = rank b) ->
  List.filter P (insertSorted rank x l) = List.filter P (x :: l).
Proof.
  intros HP. induction l as [|y l IH]; cbn [insertSorted]; [done|].
  destruct (rank x <=? rank y) eqn:E; [done|]. apply Z.leb_gt in E.
  cbn [List.filter] in *. rewrite IH.
  destruct (P x) eqn:Hx, (P y) eqn:Hy; try done.
  specialize (HP x y Hx Hy). lia.
Qed.

Lemma filter_foldr_insertSorted (P : jsstring -> bool) (l : list jsstring) :
  (forall a b, P a = true -> P b = true -> rank a = rank b) ->
  List.filter P (foldr (insertSorted rank) [] l) = List.filter P l.
Proof.
  intros HP. induction l as [|x l IH]; cbn [foldr]; [done|].
  rewrite filter_insertSorted by done. cbn [List.filter]. by rewrite IH.
Qed.

End StableSort.

Lemma parseHeaderId_names (id : jsstring) :
  h_fileName (parseHeaderId id) = m_fileName (parseMappingId id) /\
  h_sheetName (parseHeaderId id) = m_sheetName (parseMappingId id).
Proof.
  unfold parseHeaderId, parseMappingId.
  by destruct (length (split (str "::") id) <? 3)%nat.
Qed.

(** Ids naming one sheet have one rank. *)
Lemma sortRank_namesSheet (orderedSheets : list SheetData) (sheet : SheetData)
    (a b : jsstring) :
  namesSheet (parseMappingId a) sheet = true ->
  namesSheet (parseMappingId b) sheet = true ->
  sortRank orderedSheets a = sortRank orderedSheets b.
Proof.
  unfold namesSheet. intros [Ha1 Ha2]%andb_true_iff [Hb1 Hb2]%andb_true_iff.
  apply bool_decide_eq_true in Ha1, Ha2, Hb1, Hb2.
  unfold sortRank, getSheetPriorityById.
  destruct (parseHeaderId_names a) as [-> ->].
  destruct (parseHeaderId_names b) as [-> ->].
  by rewrite Ha1, Ha2, Hb1, Hb2.
Qed.

Lemma filter_sortIds (orderedSheets : list SheetData) (sheet : SheetData)
    (ids : list jsstring) :
  List.filter (fun id => namesSheet (parseMappingId id) sheet)
              (sortIds orderedSheets ids)
  = List.filter (fun id => namesSheet (parseMappingId id) sheet) ids.
Proof.
  apply filter_foldr_insertSorted. intros a b. apply sortRank_namesSheet.
Qed.

Lemma resortMapping_defined (orderedSheets : list SheetData)
    (m : gmap jsstring (list jsstring)) :
  resortMapping orderedSheets (Some <$> m)
  = Some (Some <$> (sortIds orderedSheets <$> m)).
Proof.
  unfold resortMapping.
  assert (H : forall b0 : gmap jsstring (option (list jsstring)),
    map_fold (fun key_ original (acc : option (gmap jsstring (option (list jsstring)))) =>
                match acc, original with
                | Some next, Some ids =>
                    Some (<[key_ := Some (sortIds orderedSheets ids)]> next)
                | _, _ => None
                end) (Some b0) (Some <$> m)
    = Some ((Some <$> (sortIds orderedSheets <$> m)) ∪ b0)).
  { intros b0. rewrite map_fold_fmap.
    apply (map_fold_weak_ind
             (fun (r : option (gmap jsstring (option (list jsstring))))
                  (m' : gmap jsstring (list jsstring)) =>
                r = Some ((Some <$> (sortIds orderedSheets <$> m')) ∪ b0))).
    - by rewrite !fmap_empty, (left_id_L ∅ (∪)).
    - intros k ids m' r Hk ->. unfold compose. cbn beta iota. f_equal.
      by rewrite !fmap_insert, insert_union_l. }
  rewrite H. f_equal. apply map_eq. intros k.
  rewrite lookup_union, !lookup_fmap.
  by destruct (m !! k).
Qed.

(** Property X6.
    The re-sort of the candidates is a stable sort by sheet priority:
    on a mapping whose entries are all arrays, every candidate list is
    replaced by a permutation of itself whose ranks never decrease, in
    which the candidates naming any one sheet keep their order; the keys
    of the mapping stay as they are. An entry that is [undefined] makes
    the effect throw. *)
Theorem resort_is_stable_sort (orderedSheets : list SheetData)
    (m : gmap jsstring (list jsstring)) :
  resortMapping orderedSheets (Some <$> m)
    = Some (Some <$> (sortIds orderedSheets <$> m)) /\
  (forall ids,
     sortIds orderedSheets ids ≡ₚ ids /\
     (forall i j a b,
        (i < j)%nat ->
        sortIds orderedSheets ids !! i = Some a ->
        sortIds orderedSheets ids !! j = Some b ->
        sortRank orderedSheets a <= sortRank orderedSheets b) /\
     (forall sheet,
        List.filter (fun id => namesSheet (parseMappingId id) sheet)
                    (sortIds orderedSheets ids)
        = List.filter (fun id => namesSheet (parseMappingId id) sheet) ids)) /\
  (forall (prev : gmap jsstring (option (list jsstring))) f,
     prev !! f = Some None -> resortMapping orderedSheets prev = None).
Proof.
  split; [apply resortMapping_defined|]. split.
  - intros ids. split; [apply foldr_insertSorted_Permutation|]. split.
    + apply foldr_insertSorted_ranked.
    + intros sheet. apply filter_sortIds.
  - intros prev f Hf. unfold resortMapping. generalize (Some prev) as b0.
    intros b0. revert Hf.
    apply (map_fold_weak_ind
             (fun (r : option (gmap jsstring (option (list jsstring))))
                  (m' : gmap jsstring (option (list jsstring))) =>
                m' !! f = Some None -> r = None)).
    + by rewrite lookup_empty.
    + intros k e m' r Hk IH Hl. destruct (decide (k = f)) as [->|Hne].
      * rewrite lookup_insert_eq in Hl. injection Hl as ->. by destruct r.
      * rewrite lookup_insert_ne in Hl by done. by rewrite (IH Hl).
Qed.

(** An instance: an entry left [undefined] by a rename. *)
Lemma resort_is_stable_sort_witness :
  resortMapping [sampleSheetA] {[ str "A" := None ]} = None.
Proof.
  apply (proj2 (proj2 (resort_is_stable_sort [sampleSheetA] ∅))
           {[ str "A" := None ]} (str "A")).
  apply lookup_singleton_eq.
Defined.

(** ** The merges after a re-sort *)

Lemma slotValue_filter (sheet : SheetData) (row : gmap jsstring value)
    (ids : list jsstring) :
  slotValue sheet row ids
  = slotValue sheet row
      (List.filter (fun id => namesSheet (parseMappingId id) sheet) ids).
Proof.
  induction ids as [|mId ids IH]; [done|]. cbn [List.filter slotValue].
  destruct (namesSheet (parseMappingId mId) sheet) eqn:E.
  - cbn [slotValue]. rewrite E, IH. done.
  - cbn [andb]. exact IH.
Qed.

Lemma deriveKey_filter (sheet : SheetData) (row : gmap jsstring value)
    (ids : list jsstring) :
  deriveKey ids sheet row
  = deriveKey (List.filter (fun id => namesSheet (parseMappingId id) sheet) ids)
              sheet row.
Proof.
  induction ids as [|mId ids IH]; [done|]. cbn [List.filter deriveKey].
  destruct (namesSheet (parseMappingId mId) sheet) eqn:E.
  - cbn [deriveKey]. rewrite E, IH. done.
  - exact IH.
Qed.

Lemma leftKey_filter (sheet : SheetData) (row : gmap jsstring value)
    (ids : list jsstring) :
  leftKey ids sheet row
  = leftKey (List.filter (fun id => namesSheet (parseMappingId id) sheet) ids)
            sheet row.
Proof.
  induction ids as [|mId ids IH]; [done|]. cbn [List.filter leftKey].
  destruct (namesSheet (parseMappingId mId) sheet) eqn:E.
  - cbn [leftKey]. rewrite E, IH. done.
  - cbn [andb]. exact IH.
Qed.

Lemma resolveValue_filter (sheet : SheetData) (row : gmap jsstring value)
    (ids : list jsstring) :
  Forall (fun id => includes (str "::") id = true) ids ->
  resolveValue sheet row ids
  = resolveValue sheet row
      (List.filter (fun id => namesSheet (parseMappingId id) sheet) ids).
Proof.
  induction 1 as [|mId ids Hq _ IH]; [done|]. cbn [List.filter].
  rewrite resolveValue_qualified by done.
  destruct (namesSheet (parseMappingId mId) sheet) eqn:E.
  - rewrite resolveValue_qualified by done. rewrite E, IH. done.
  - cbn [andb]. exact IH.
Qed.

Lemma slotValue_sortIds (os : list SheetData) (sheet : SheetData)
    (row : gmap jsstring value) (ids : list jsstring) :
  slotValue sheet row (sortIds os ids) = slotValue sheet row ids.
Proof.
  by rewrite slotValue_filter, filter_sortIds, <- slotValue_filter.
Qed.

Lemma deriveKey_sortIds (os : list SheetData) (sheet : SheetData)
    (row : gmap jsstring value) (ids : list jsstring) :
  deriveKey (sortIds os ids) sheet row = deriveKey ids sheet row.
Proof.
  by rewrite deriveKey_filter, filter_sortIds, <- deriveKey_filter.
Qed.

Lemma leftKey_sortIds (os : list SheetData) (sheet : SheetData)
    (row : gmap jsstring value) (ids : list jsstring) :
  leftKey (sortIds os ids) sheet row = leftKey ids sheet row.
Proof.
  by rewrite leftKey_filter, filter_sortIds, <- leftKey_filter.
Qed.

Lemma sortIds_qualified (os : list SheetData) (ids : list jsstring) :
  Forall (fun id => includes (str "::") id = true) ids ->
  Forall (fun id => includes (str "::") id = true) (sortIds os ids).
Proof.
  intros H. unfold sortIds.
  by rewrite (foldr_insertSorted_Permutation (sortRank os) ids).
Qed.

Lemma resolveValue_sortIds (os : list SheetData) (sheet : SheetData)
    (row : gmap jsstring value) (ids : list jsstring) :
  Forall (fun id => includes (str "::") id = true) ids ->
  resolveValue sheet row (sortIds os ids) = resolveValue sheet row ids.
Proof.
  intros H. rewrite resolveValue_filter by by apply sortIds_qualified.
  by rewrite filter_sortIds, <- resolveValue_filter.
Qed.

Lemma joinValue_sortIds (os : list SheetData)
    (entry : gmap nat (gmap jsstring value)) (ids : list jsstring)
    (indexed : list (nat * SheetData)) :
  joinValue entry (sortIds os ids) indexed = joinValue entry ids indexed.
Proof.
  induction indexed as [|[i sheet] indexed IH]; [done|]. cbn [joinValue].
  rewrite IH. destruct (entry !! i); [|done]. by rewrite slotValue_sortIds.
Qed.

Lemma foldl_pointwise {A B : Type} (f g : A -> B -> A) (l : list B) (a : A) :
  (forall a b, f a b = g a b) -> foldl f a l = foldl g a l.
Proof.
  intros H. revert a. induction l as [|b l IH]; intros a; cbn [foldl]; [done|].
  by rewrite H, IH.
Qed.

Lemma buildIndex_sortIds (os sheets : list SheetData) (ids : list jsstring) :
  buildIndex (sortIds os ids) sheets = buildIndex ids sheets.
Proof.
  unfold buildIndex. apply foldl_pointwise. intros ix [i sheet].
  unfold indexSheet. apply foldl_pointwise. intros ix' row.
  unfold indexRow. by rewrite deriveKey_sortIds.
Qed.

Lemma finalKeys_sortIds (os sheets : list SheetData) (ids : list jsstring)
    (jt : JoinType) (ix : JoinIndex) :
  finalKeys sheets (sortIds os ids) jt ix = finalKeys sheets ids jt ix.
Proof.
  destruct jt; [done|done|]. unfold finalKeys.
  destruct sheets as [|sheet0 l]; [done|]. f_equal.
  induction (rows sheet0) as [|row rs IH]; [done|]. cbn [omap list_omap].
  change (list_omap ?f ?l) with (omap f l). by rewrite leftKey_sortIds, IH.
Qed.

Lemma fold_fields_fmap (g : list jsstring -> value) (srt : list jsstring -> list jsstring)
    (init : gmap jsstring value) (mappings : gmap jsstring (list jsstring)) :
  (forall ids, g (srt ids) = g ids) ->
  map_fold (fun targetField ids (acc : gmap jsstring value) =>
              <[targetField := g ids]> acc) init (srt <$> mappings)
  = map_fold (fun targetField ids (acc : gmap jsstring value) =>
                <[targetField := g ids]> acc) init mappings.
Proof.
  intros Hg. apply map_eq. intros f.
  rewrite !(fold_fields_lookup g), lookup_fmap.
  destruct (mappings !! f) as [ids|]; [|done]. cbn. by rewrite Hg.
Qed.

(** Property X7.
    The re-sort of the candidates never changes the outcome of a join:
    whatever sheet order the candidates are sorted by, the join of the
    sorted mapping is the join of the mapping. The same holds for the
    stack merge when every candidate holds the delimiter ["::"], as the
    ids the mapper generates do. *)
Theorem resort_keeps_merge (os sheets : list SheetData)
    (mappings : gmap jsstring (list jsstring)) :
  (forall config,
     joinData sheets (sortIds os <$> mappings) config
     = joinData sheets mappings config) /\
  (map_Forall (fun _ ids => Forall (fun id => includes (str "::") id = true) ids)
              mappings ->
   stackData sheets (sortIds os <$> mappings) = stackData sheets mappings).
Proof.
  split.
  - intros config. unfold joinData. rewrite lookup_fmap.
    assert (Hids : default [] (sortIds os <$> mappings !! joinKey config)
                   = sortIds os (default [] (mappings !! joinKey config))).
    { by destruct (mappings !! joinKey config). }
    rewrite Hids, buildIndex_sortIds, finalKeys_sortIds.
    apply imap_ext. intros idx k _. unfold joinRow.
    rewrite (fold_fields_fmap
               (fun ids => cleanAndFormatValue
                  (joinValue (default ∅ (keyMap (buildIndex
                     (default [] (mappings !! joinKey config)) sheets) !! k))
                     ids (imap pair sheets)))); [done|].
    intros ids. by rewrite joinValue_sortIds.
  - intros Hq. rewrite !stackData_concat. f_equal.
    apply List.map_ext. intros sheet. apply imap_ext. intros idx row _.
    apply map_eq. intros f. unfold stackRow.
    destruct (decide (f = str "_sourceSheet")) as [->|Hs];
      [by rewrite !lookup_insert_eq|rewrite !(lookup_insert_ne _ (str "_sourceSheet")) by done].
    destruct (decide (f = str "_sourceFile")) as [->|Hf];
      [by rewrite !lookup_insert_eq|rewrite !(lookup_insert_ne _ (str "_sourceFile")) by done].
    rewrite !(fold_fields_lookup
                (fun ids => cleanAndFormatValue (resolveValue sheet row ids))).
    rewrite lookup_fmap. destruct (mappings !! f) as [ids|] eqn:E; [|done].
    cbn. rewrite resolveValue_sortIds; [done|]. by apply (Hq f).
Qed.

(** An instance: the join mapping, whose candidates all hold ["::"]. *)
Lemma resort_keeps_merge_witness :
  stackData [joinSheetB; joinSheetA] (sortIds [joinSheetB; joinSheetA] <$> joinMapping)
  = stackData [joinSheetB; joinSheetA] joinMapping.
Proof.
  apply (resort_keeps_merge [joinSheetB; joinSheetA] [joinSheetB; joinSheetA]
           joinMapping).
  unfold joinMapping.
  repeat apply map_Forall_insert_2; [..|apply map_Forall_empty];
    repeat constructor.
Defined.

(** ** The preview table: history *)

Section MasterTableHistory.

Import MasterTable.

Variable toUpperCase toLowerCase : jsstring -> jsstring.
Variable regExpReplace : jsstring -> option (jsstring -> jsstring -> jsstring).
Variable formatCell : FormatOperation -> number -> number -> value -> value.

Lemma frameAt_wellFormed (st : State) :
  wellFormed st -> frameAt (history st) (historyIndex st) = Some (currentData st).
Proof.
  intros [Hi Hh]. unfold currentData, frameAt.
  destruct (lookup_lt_is_Some_2 _ _ Hi) as [fr Hfr]. rewrite Hfr.
  rewrite Forall_lookup in Hh. by destruct (Hh _ _ Hfr) as [d ->].
Qed.

Lemma frameAt_defined (h : list (option (list Row))) (i : nat) :
  Forall is_Some h -> (i < length h)%nat ->
  frameAt h i = Some (default [] (frameAt h i)).
Proof.
  intros Hh Hi. unfold frameAt.
  destruct (lookup_lt_is_Some_2 _ _ Hi) as [fr Hfr]. rewrite Hfr.
  rewrite Forall_lookup in Hh. by destruct (Hh _ _ Hfr) as [d ->].
Qed.

Lemma parentData_update (data : list Row) (d : option (list Row)) (st : State) :
  parentData data (onDataUpdate d st) = d.
Proof. unfold parentData. cbn. by rewrite last_snoc. Qed.

Lemma tableInv_onNotify (data : list Row) (msg : jsstring) (t : ToastType)
    (st : State) :
  tableInv data st -> tableInv data (onNotify msg t st).
Proof. done. Qed.

Lemma pushToHistory_frames (newData : list Row) (st : State) :
  wellFormed st ->
  wellFormed (pushToHistory newData st) /\
  currentData (pushToHistory newData st) = newData /\
  length (history (pushToHistory newData st)) = (historyIndex st + 2)%nat.
Proof.
  intros [Hi Hh]. unfold wellFormed, currentData, frameAt. cbn.
  assert (Hlen : length (take (historyIndex st + 1) (history st))
                 = (historyIndex st + 1)%nat) by (rewrite length_take; lia).
  rewrite length_app, Hlen. cbn. split; [split; [lia|]|split; [|lia]].
  - apply Forall_app. split; [by apply Forall_take|]. repeat constructor. by eexists.
  - rewrite lookup_app_r by lia. rewrite Hlen, Nat.sub_diag. done.
Qed.

Lemma tableInv_pushToHistory (data newData : list Row) (st : State) :
  tableInv data st -> tableInv data (pushToHistory newData st).
Proof.
  intros [Hwf _]. destruct (pushToHistory_frames newData st Hwf) as (Hwf' & Hc & _).
  split; [done|]. rewrite Hc. apply parentData_update.
Qed.

Lemma tableInv_undo (data : list Row) (st : State) :
  tableInv data st -> tableInv data (undo st).
Proof.
  intros [[Hi Hh] Hp]. unfold undo.
  destruct (decide (0 < historyIndex st)%nat) as [Hpos|]; [|done].
  split; [split; [cbn; lia|done]|].
  unfold parentData, currentData. cbn. rewrite last_snoc. cbn.
  apply frameAt_defined; [done|lia].
Qed.

Lemma tableInv_redo (data : list Row) (st : State) :
  tableInv data st -> tableInv data (redo st).
Proof.
  intros [[Hi Hh] Hp]. unfold redo.
  destruct (decide (historyIndex st + 1 < length (history st))%nat) as [Hlt|]; [|done].
  split; [split; [done|done]|].
  unfold parentData, currentData. cbn. rewrite last_snoc. cbn.
  by apply frameAt_defined.
Qed.

Lemma arraySet_in_range (h : list (option (list Row))) (i : nat) (v : list Row) :
  (i < length h)%nat -> arraySet h i v = <[i := Some v]> h.
Proof. intros Hi. unfold arraySet. by destruct (decide (i < length h)%nat). Qed.

Lemma tableInv_handleCellChange (data : list Row) (id field value_ : jsstring)
    (st : State) :
  tableInv data st -> tableInv data (handleCellChange id field value_ st).
Proof.
  intros [[Hi Hh] Hp]. unfold handleCellChange.
  split; [split|].
  - cbn. rewrite arraySet_in_range by done. by rewrite length_insert.
  - cbn. rewrite arraySet_in_range by done. apply Forall_insert; [done|by eexists].
  - rewrite parentData_update. f_equal. unfold currentData at 2, frameAt. cbn.
    rewrite arraySet_in_range by done. by rewrite list_lookup_insert_eq.
Qed.

Lemma tableInv_applyCleaning (data : list Row) (label_ : jsstring)
    (transform : value -> value) (st : State) :
  tableInv data st -> tableInv data (applyCleaning label_ transform st).
Proof.
  intros H. unfold applyCleaning.
  destruct (0 <? _)%nat.
  - by apply tableInv_onNotify, tableInv_pushToHistory.
  - by apply tableInv_onNotify.
Qed.

Lemma tableInv_executeTextOp (data : list Row) (st : State) :
  tableInv data st ->
  tableInv data (executeTextOp toUpperCase toLowerCase regExpReplace st).
Proof.
  intros H. unfold executeTextOp.
  destruct (selectedTextOp st); try by apply tableInv_applyCleaning.
  - destruct (negb _); [by apply tableInv_onNotify|by apply tableInv_applyCleaning].
  - destruct (negb _); [by apply tableInv_onNotify|].
    destruct (regExpReplace _);
      [by apply tableInv_applyCleaning|by apply tableInv_onNotify].
  - destruct (negb _); [done|by apply tableInv_applyCleaning].
  - destruct (negb _); [done|by apply tableInv_applyCleaning].
Qed.

Lemma tableInv_executeFormatOp (data : list Row) (st : State) :
  tableInv data st -> tableInv data (executeFormatOp formatCell st).
Proof.
  intros H. unfold executeFormatOp.
  destruct (selectedFormatOp st); try by apply tableInv_applyCleaning.
  destruct (JS.eqb _ _); [by apply tableInv_onNotify|by apply tableInv_applyCleaning].
Qed.

Lemma tableInv_executeRowOp (data : list Row) (st : State) :
  tableInv data st -> tableInv data (executeRowOp st).
Proof.
  intros H. unfold executeRowOp.
  destruct (selectedRowOp st); [by apply tableInv_applyCleaning|..];
    (destruct (negb _);
      [by apply tableInv_onNotify, tableInv_pushToHistory|by apply tableInv_onNotify]).
Qed.

Lemma tableInv_sameFrames (data : list Row) (st st' : State) :
  sameFrames st st' -> tableInv data st -> tableInv data st'.
Proof.
  intros (Hh & Hi & Hu) [[Hlt Hall] Hp].
  unfold tableInv, wellFormed, parentData, currentData in *.
  by rewrite Hh, Hi, Hu.
Qed.

(** Property X8.
    From the mounted table on, whatever handlers run (undo, redo, a
    cell edit, a text, format or row operation, or an event that leaves
    the frames alone), the history index names a frame of the history,
    the history has no hole, every call of [onDataUpdate] passed an
    array, and the parent holds exactly the rows on display. This holds
    whatever the cell transforms of the format operations compute. *)
Theorem table_history_invariant (data : list Row) (fields_ : list FieldDefinition)
    (st : State) :
  rtc (tableStep toUpperCase toLowerCase regExpReplace formatCell)
      (initial data fields_) st ->
  (historyIndex st < length (history st))%nat /\
  Forall is_Some (history st) /\
  frameAt (history st) (historyIndex st) = Some (currentData st) /\
  parentData data st = Some (currentData st).
Proof.
  intros Hr.
  assert (Hinv : tableInv data st).
  { revert st Hr. apply (rtc_ind_r (tableInv data)).
    - split; [split; [cbn; lia|repeat constructor; by eexists]|done].
    - intros st1 st2 _ Hstep IH. destruct Hstep.
      + by apply tableInv_undo.
      + by apply tableInv_redo.
      + by apply tableInv_handleCellChange.
      + by apply tableInv_executeTextOp.
      + by apply tableInv_executeFormatOp.
      + by apply tableInv_executeRowOp.
      + by eapply tableInv_sameFrames. }
  destruct Hinv as [[Hi Hh] Hp]. repeat split; try done.
  by apply frameAt_wellFormed.
Qed.

Lemma undo_first (st : State) : historyIndex st = 0%nat -> undo st = st.
Proof. intros H0. unfold undo. destruct (decide _); [lia|done]. Qed.

Lemma redo_last (st : State) :
  (historyIndex st + 1 = length (history st))%nat -> redo st = st.
Proof. intros Hl. unfold redo. destruct (decide _); [lia|done]. Qed.

Lemma redo_undo (st : State) :
  (historyIndex st < length (history st))%nat -> (0 < historyIndex st)%nat ->
  historyIndex (redo (undo st)) = historyIndex st /\
  currentData (redo (undo st)) = currentData st.
Proof.
  intros Hi Hpos. unfold undo, redo, currentData.
  destruct (decide (0 < historyIndex st)%nat); [|lia]. cbn.
  destruct (decide (historyIndex st - 1 + 1 < length (history st))%nat); [|lia].
  cbn. by replace (historyIndex st - 1 + 1)%nat with (historyIndex st) by lia.
Qed.

Lemma undo_redo (st : State) :
  (historyIndex st + 1 < length (history st))%nat ->
  historyIndex (undo (redo st)) = historyIndex st /\
  currentData (undo (redo st)) = currentData st.
Proof.
  intros Hlt. unfold undo, redo, currentData.
  destruct (decide (historyIndex st + 1 < length (history st))%nat); [|lia]. cbn.
  destruct (decide (0 < historyIndex st + 1)%nat); [|lia].
  cbn. by replace (historyIndex st + 1 - 1)%nat with (historyIndex st) by lia.
Qed.

(** Property X9.
    Undo and redo walk the frames without changing them: after an undo
    that moved, redo brings back the index and the rows on display, and
    after a redo that moved, undo does. Undo on the first frame and redo
    on the last do nothing at all. *)
Theorem undo_redo_round_trip (st : State) :
  wellFormed st ->
  history (undo st) = history st /\ history (redo st) = history st /\
  ((0 < historyIndex st)%nat ->
     historyIndex (redo (undo st)) = historyIndex st /\
     currentData (redo (undo st)) = currentData st) /\
  ((historyIndex st + 1 < length (history st))%nat ->
     historyIndex (undo (redo st)) = historyIndex st /\
     currentData (undo (redo st)) = currentData st) /\
  (historyIndex st = 0%nat -> undo st = st) /\
  ((historyIndex st + 1 = length (history st))%nat -> redo st = st).
Proof.
  intros [Hi Hh].
  split; [unfold undo; by destruct (decide _)|].
  split; [unfold redo; by destruct (decide _)|].
  split; [by apply redo_undo|]. split; [apply undo_redo|].
  split; [apply undo_first|apply redo_last].
Qed.

(** Property X10.
    A change of the rows is stored after the frame on display, and the
    frames that an earlier undo had left ahead are dropped: the history
    ends with the new rows, the earlier frames are kept, redo has
    nothing to bring back, and undo displays the rows there were before
    the change. *)
Theorem push_discards_redo_frames (newData : list Row) (st : State) :
  wellFormed st ->
  history (pushToHistory newData st)
    = take (historyIndex st + 1) (history st) ++ [Some newData] /\
  length (history (pushToHistory newData st)) = (historyIndex st + 2)%nat /\
  (forall i, (i <= historyIndex st)%nat ->
     history (pushToHistory newData st) !! i = history st !! i) /\
  currentData (pushToHistory newData st) = newData /\
  redo (pushToHistory newData st) = pushToHistory newData st /\
  currentData (undo (pushToHistory newData st)) = currentData st /\
  currentData (redo (undo (pushToHistory newData st))) = newData.
Proof.
  intros Hwf. destruct (pushToHistory_frames newData st Hwf) as (Hwf' & Hc & Hlen).
  destruct Hwf as [Hi Hh].
  assert (Hold : forall i, (i <= historyIndex st)%nat ->
            history (pushToHistory newData st) !! i = history st !! i).
  { intros i Hle. cbn. rewrite lookup_app_l by (rewrite length_take; lia).
    apply lookup_take_lt. lia. }
  split; [done|]. split; [done|]. split; [done|]. split; [done|].
  split; [apply redo_last; rewrite Hlen; cbn; lia|]. split.
  - unfold undo. cbn [historyIndex pushToHistory onDataUpdate setFrames].
    destruct (decide (0 < historyIndex st + 1)%nat); [|lia].
    unfold currentData, frameAt. cbn.
    replace (historyIndex st + 1 - 1)%nat with (historyIndex st) by lia.
    rewrite lookup_app_l by (rewrite length_take; lia).
    by rewrite lookup_take_lt by lia.
  - destruct (redo_undo (pushToHistory newData st)) as [_ ->];
      [apply Hwf'|cbn; lia|done].
Qed.

End MasterTableHistory.

(** An instance: the mounted sample table after a cell edit, a run of
    the selected text operation and a run of the selected format
    operation, with a transform that empties every cell. *)
Lemma table_history_invariant_witness :
  (MasterTable.historyIndex
     (MasterTable.executeFormatOp (fun _ _ _ _ => VStr [])
        (MasterTable.executeTextOp asciiLowerCase asciiLowerCase (fun _ => None)
           (MasterTable.handleCellChange (str "r2") (str "Name") (str " x")
              sampleTable)))
   < length (MasterTable.history
       (MasterTable.executeFormatOp (fun _ _ _ _ => VStr [])
          (MasterTable.executeTextOp asciiLowerCase asciiLowerCase (fun _ => None)
             (MasterTable.handleCellChange (str "r2") (str "Name") (str " x")
                sampleTable)))))%nat.
Proof.
  apply (table_history_invariant asciiLowerCase asciiLowerCase (fun _ => None)
           (fun _ _ _ _ => VStr []) [tableRow1; tableRow2] [nameField]).
  eapply rtc_l; [apply MasterTable.step_cell|].
  eapply rtc_l; [apply MasterTable.step_text|].
  eapply rtc_l; [apply MasterTable.step_format|]. apply rtc_refl.
Defined.

(** An instance: the mounted sample table. *)
Lemma undo_redo_round_trip_witness :
  MasterTable.undo sampleTable = sampleTable /\
  MasterTable.redo sampleTable = sampleTable.
Proof.
  assert (Hwf : MasterTable.wellFormed sampleTable).
  { split; [cbn; lia|repeat constructor; by eexists]. }
  destruct (undo_redo_round_trip sampleTable Hwf) as (_ & _ & _ & _ & Hu & Hr).
  split; [by apply Hu|by apply Hr].
Defined.

(** An instance: a change of the sample table. *)
Lemma push_discards_redo_frames_witness :
  MasterTable.currentData
    (MasterTable.undo (MasterTable.pushToHistory [tableRow2] sampleTable))
  = MasterTable.currentData sampleTable.
Proof.
  apply (push_discards_redo_frames [tableRow2] sampleTable).
  split; [cbn; lia|repeat constructor; by eexists].
Defined.

(** ** The preview table: cell edits *)

Lemma lookup_map {A B : Type} (f : A -> B) (l : list A) (k : nat) :
  List.map f l !! k = f <$> (l !! k).
Proof. revert k. induction l as [|x l IH]; intros [|k]; cbn; done. Qed.

Lemma handleCellChange_current (id field value_ : jsstring) (st : MasterTable.State) :
  MasterTable.wellFormed st ->
  MasterTable.currentData (MasterTable.handleCellChange id field value_ st)
  = List.map (fun row : MasterTable.Row =>
                if strictEq (get row (str "id")) (VStr id)
                then <[field := VStr value_]> row else row)
             (MasterTable.currentData st).
Proof.
  intros [Hi Hh]. unfold MasterTable.currentData at 1, MasterTable.frameAt. cbn.
  rewrite arraySet_in_range by done. by rewrite list_lookup_insert_eq.
Qed.

(** Property X11.
    A cell edit rewrites the frame on display instead of adding one: the
    history keeps its length and index and all its other frames, so the
    rows as they were before the edit are no longer in the history. The
    edit sets the field in every row whose [id] is the given one and
    leaves the other rows as they are. An undo right after the edit goes
    to the frame before, as it would have without the edit, and the
    redo that follows displays the edited rows; on the first frame undo
    leaves the edit in place. *)
Theorem cell_edit_rewrites_frame (id field value_ : jsstring)
    (st : MasterTable.State) :
  MasterTable.wellFormed st ->
  let st' := MasterTable.handleCellChange id field value_ st in
  MasterTable.history st'
    = <[MasterTable.historyIndex st := Some (MasterTable.currentData st')]>
        (MasterTable.history st) /\
  MasterTable.historyIndex st' = MasterTable.historyIndex st /\
  length (MasterTable.currentData st') = length (MasterTable.currentData st) /\
  (forall k row,
     MasterTable.currentData st !! k = Some row ->
     MasterTable.currentData st' !! k
     = Some (if strictEq (get row (str "id")) (VStr id)
             then <[field := VStr value_]> row else row)) /\
  ((0 < MasterTable.historyIndex st)%nat ->
     MasterTable.currentData (MasterTable.undo st')
       = MasterTable.currentData (MasterTable.undo st) /\
     MasterTable.currentData (MasterTable.redo (MasterTable.undo st'))
       = MasterTable.currentData st') /\
  (MasterTable.historyIndex st = 0%nat -> MasterTable.undo st' = st').
Proof.
  intros Hwf st'. pose proof (handleCellChange_current id field value_ st Hwf) as Hc.
  fold st' in Hc. destruct Hwf as [Hi Hh].
  assert (Hhist : MasterTable.history st'
            = <[MasterTable.historyIndex st := Some (MasterTable.currentData st')]>
                (MasterTable.history st)).
  { rewrite Hc. cbn. by rewrite arraySet_in_range. }
  split; [exact Hhist|]. split; [done|].
  split; [by rewrite Hc, length_map|]. split.
  - intros k row Hk. rewrite Hc, lookup_map. exact (f_equal (fmap _) Hk).
  - split.
    + intros Hpos. split.
      * unfold MasterTable.undo.
        change (MasterTable.historyIndex st') with (MasterTable.historyIndex st).
        destruct (decide (0 < MasterTable.historyIndex st)%nat); [|lia].
        unfold MasterTable.currentData, MasterTable.frameAt. cbn.
        rewrite arraySet_in_range by done.
        by rewrite list_lookup_insert_ne by lia.
      * apply redo_undo; [|done].
        rewrite Hhist, length_insert. done.
    + intros H0. by apply undo_first.
Qed.

(** An instance: an edit of the second row of the mounted sample table. *)
Lemma cell_edit_rewrites_frame_witness :
  MasterTable.undo (MasterTable.handleCellChange (str "r2") (str "Name") (str "x")
                      sampleTable)
  = MasterTable.handleCellChange (str "r2") (str "Name") (str "x") sampleTable.
Proof.
  apply (cell_edit_rewrites_frame (str "r2") (str "Name") (str "x") sampleTable).
  - split; [cbn; lia|repeat constructor; by eexists].
  - reflexivity.
Defined.

(** ** The preview table: cleaning *)

Lemma eqb_refl (n : number) : isNaN n = false -> JS.eqb n n = true.
Proof.
  destruct n as [|s|m e]; [done|by destruct s|]. intros _. unfold JS.eqb, aligned.
  apply Z.eqb_refl.
Qed.

Lemma strictEq_refl (v : value) : v <> VNum NaN -> strictEq v v = true.
Proof.
  destruct v as [| |b|n|s]; cbn; intros H; try done.
  - by destruct b.
  - apply eqb_refl. by destruct n.
  - by apply bool_decide_eq_true.
Qed.

Section CleanRow.

Variable transform : value -> value.

Let cleanStep (acc : MasterTable.Row * bool) (field : FieldDefinition)
    : MasterTable.Row * bool :=
  let oldVal := get acc.1 (key field) in
  let newVal := transform oldVal in
  if negb (strictEq oldVal newVal)
  then (<[key field := newVal]> acc.1, true)
  else acc.

Lemma cleanRow_fold (l : list FieldDefinition) (row : MasterTable.Row) :
  MasterTable.cleanRow l transform row = foldl cleanStep (row, false) l.
Proof. reflexivity. Qed.

Lemma get_insert_ne (row : gmap jsstring value) (k f : jsstring) (v : value) :
  k <> f -> get (<[k := v]> row) f = get row f.
Proof. intros H. unfold get. by rewrite lookup_insert_ne. Qed.

Lemma get_insert_eq (row : gmap jsstring value) (k : jsstring) (v : value) :
  get (<[k := v]> row) k = v.
Proof. unfold get. by rewrite lookup_insert_eq. Qed.

Lemma cleanStep_other (acc : MasterTable.Row * bool) (field : FieldDefinition)
    (f : jsstring) :
  f <> key field -> (cleanStep acc field).1 !! f = acc.1 !! f.
Proof.
  intros Hf. unfold cleanStep. destruct (negb _); [|done]. cbn [fst].
  by rewrite lookup_insert_ne.
Qed.

Lemma cleanFold_other (l : list FieldDefinition) (acc : MasterTable.Row * bool)
    (f : jsstring) :
  f ∉ List.map key l -> (foldl cleanStep acc l).1 !! f = acc.1 !! f.
Proof.
  revert acc. induction l as [|x l IH]; intros acc Hf; [done|]. cbn [foldl].
  cbn [List.map] in Hf. apply not_elem_of_cons in Hf as [Hx Hl].
  rewrite IH by done. by apply cleanStep_other.
Qed.

Lemma cleanStep_settled (acc : MasterTable.Row * bool) (field : FieldDefinition) :
  settled transform acc.1 (key field) -> cleanStep acc field = acc.
Proof. unfold settled, cleanStep. by intros ->. Qed.

Lemma cleanFold_settled (l : list FieldDefinition) (acc : MasterTable.Row * bool) :
  (forall f, f ∈ List.map key l -> settled transform acc.1 f) ->
  foldl cleanStep acc l = acc.
Proof.
  induction l as [|x l IH]; intros H; [done|]. cbn [foldl].
  rewrite cleanStep_settled by (apply H; left). apply IH.
  intros f Hf. apply H. by right.
Qed.

Lemma cleanFold_flag (l : list FieldDefinition) (acc : MasterTable.Row * bool) :
  acc.2 = true -> (foldl cleanStep acc l).2 = true.
Proof.
  revert acc. induction l as [|x l IH]; intros acc H; [done|]. cbn [foldl].
  apply IH. unfold cleanStep. by destruct (negb _).
Qed.

Lemma cleanFold_unchanged (l : list FieldDefinition) (acc : MasterTable.Row * bool) :
  (foldl cleanStep acc l).2 = false ->
  foldl cleanStep acc l = acc /\
  forall f, f ∈ List.map key l -> settled transform acc.1 f.
Proof.
  revert acc. induction l as [|x l IH]; intros acc H.
  - split; [done|]. by intros f ?%elem_of_nil.
  - cbn [foldl] in *. destruct (strictEq (get acc.1 (key x)) (transform (get acc.1 (key x))))
      eqn:E.
    + assert (Hst : cleanStep acc x = acc) by by apply cleanStep_settled.
      rewrite Hst in *. destruct (IH acc H) as [Heq Hs]. split; [done|].
      intros f [->|Hf]%elem_of_cons; [exact E|by apply Hs].
    + assert (Hfl : (foldl cleanStep (cleanStep acc x) l).2 = true).
      { apply cleanFold_flag. unfold cleanStep. by rewrite E. }
      congruence.
Qed.

Lemma cleanStep_keeps_settled (acc : MasterTable.Row * bool) (field : FieldDefinition)
    (f : jsstring) :
  settled transform acc.1 f -> settled transform (cleanStep acc field).1 f.
Proof.
  intros Hf. destruct (decide (key field = f)) as [<-|Hne].
  - by rewrite cleanStep_settled.
  - unfold cleanStep. destruct (negb _); [|done]. unfold settled in *. cbn [fst].
    by rewrite get_insert_ne.
Qed.

Lemma cleanFold_keeps_settled (l : list FieldDefinition)
    (acc : MasterTable.Row * bool) (f : jsstring) :
  settled transform acc.1 f -> settled transform (foldl cleanStep acc l).1 f.
Proof.
  revert acc. induction l as [|x l IH]; intros acc H; [done|]. cbn [foldl].
  by apply IH, cleanStep_keeps_settled.
Qed.

(** A cell is as it was in [row], or it is the transform of that. *)
Let visited (row : MasterTable.Row) (acc : MasterTable.Row * bool) : Prop :=
  forall f, acc.1 !! f = row !! f \/ acc.1 !! f = Some (transform (get row f)).

Lemma cleanFold_cells (row : MasterTable.Row) (l : list FieldDefinition)
    (acc : MasterTable.Row * bool) :
  (forall f, f ∈ List.map key l ->
     strictEq (transform (get row f)) (transform (transform (get row f))) = true) ->
  visited row acc ->
  visited row (foldl cleanStep acc l) /\
  forall f, f ∈ List.map key l -> settled transform (foldl cleanStep acc l).1 f.
Proof.
  revert acc. induction l as [|x l IH]; intros acc Hs Hv.
  - split; [done|]. by intros f ?%elem_of_nil.
  - cbn [foldl].
    assert (Hx : visited row (cleanStep acc x) /\
                 settled transform (cleanStep acc x).1 (key x)).
    { unfold cleanStep, settled.
      destruct (strictEq (get acc.1 (key x)) (transform (get acc.1 (key x)))) eqn:E.
      - cbn [negb]. done.
      - cbn [negb fst]. destruct (Hv (key x)) as [Hk|Hk].
        + assert (Hg : get acc.1 (key x) = get row (key x))
            by (unfold get; by rewrite Hk).
          rewrite Hg in *. split.
          * intros f. cbn [fst]. destruct (decide (f = key x)) as [->|Hne].
            -- right. by rewrite lookup_insert_eq.
            -- rewrite lookup_insert_ne by done. apply Hv.
          * cbn [fst]. rewrite get_insert_eq. apply Hs. left.
        + assert (Hg : get acc.1 (key x) = transform (get row (key x)))
            by (unfold get; by rewrite Hk).
          rewrite Hg in E. rewrite Hs in E by left. done. }
    destruct Hx as [Hv' Hsx].
    destruct (IH (cleanStep acc x)) as [Hv'' Hs''];
      [intros f Hf; apply Hs; by right|done|].
    split; [done|].
    intros f [->|Hf]%elem_of_cons; [by apply cleanFold_keeps_settled|by apply Hs''].
Qed.

End CleanRow.

Lemma cleanRow_other (l : list FieldDefinition) (transform : value -> value)
    (row : gmap jsstring value) (f : jsstring) :
  f ∉ List.map key l -> (MasterTable.cleanRow l transform row).1 !! f = row !! f.
Proof. intros Hf. rewrite cleanRow_fold. by apply cleanFold_other. Qed.

Lemma cleaned_none_changed (targets : list FieldDefinition)
    (transform : value -> value) (rows_ : list (gmap jsstring value)) :
  (forall row f, row ∈ rows_ -> f ∈ List.map key targets -> settled transform row f) ->
  List.filter snd (List.map (MasterTable.cleanRow targets transform) rows_) = [].
Proof.
  induction rows_ as [|row rows_ IH]; intros Hs; [done|].
  cbn [List.map List.filter]. rewrite cleanRow_fold.
  rewrite cleanFold_settled by (intros f Hf; apply Hs; [left|done]).
  cbn [snd]. apply IH. intros r f Hr Hf. apply Hs; [by right|done].
Qed.

Lemma cleaned_rows_settled (targets : list FieldDefinition)
    (transform : value -> value) (rows_ : list (gmap jsstring value)) :
  (forall row f, row ∈ rows_ -> f ∈ List.map key targets ->
     strictEq (transform (get row f)) (transform (transform (get row f))) = true) ->
  forall row' f,
    row' ∈ List.map (fun row => (MasterTable.cleanRow targets transform row).1) rows_ ->
    f ∈ List.map key targets -> settled transform row' f.
Proof.
  intros Hs row' f Hr Hf.
  apply list_elem_of_In, in_map_iff in Hr as (row & <- & Hr).
  apply list_elem_of_In in Hr.
  destruct (cleanFold_cells transform row targets (row, false)) as [_ Hset].
  - intros g Hg. by apply Hs.
  - intros g. by left.
  - rewrite cleanRow_fold. by apply Hset.
Qed.

Lemma applyCleaning_current (label_ : jsstring) (transform : value -> value)
    (st : MasterTable.State) :
  MasterTable.wellFormed st ->
  MasterTable.currentData (MasterTable.applyCleaning label_ transform st)
  = List.map (fun row => (MasterTable.cleanRow (MasterTable.targetFieldDefs st)
                            transform row).1)
             (MasterTable.currentData st).
Proof.
  intros Hwf. unfold MasterTable.applyCleaning.
  destruct (0 <? _)%nat eqn:E.
  - change (MasterTable.currentData (MasterTable.onNotify ?m ?t ?s))
      with (MasterTable.currentData s).
    destruct (pushToHistory_frames
                (List.map fst (List.map (MasterTable.cleanRow
                   (MasterTable.targetFieldDefs st) transform)
                   (MasterTable.currentData st))) st Hwf) as (_ & -> & _).
    by rewrite List.map_map.
  - change (MasterTable.currentData (MasterTable.onNotify ?m ?t ?s))
      with (MasterTable.currentData s).
    apply Nat.ltb_ge in E.
    induction (MasterTable.currentData st) as [|row rows IH]; [done|].
    cbn [List.map List.filter] in *.
    destruct (MasterTable.cleanRow (MasterTable.targetFieldDefs st) transform row).2
      eqn:Hfl; [cbn in E; lia|].
    rewrite cleanRow_fold in Hfl |- *.
    destruct (cleanFold_unchanged transform _ _ Hfl) as [-> _]. cbn [fst].
    f_equal. by apply IH.
Qed.

(** Property X12.
    A cleaning operation keeps the number of rows, and in every row it
    leaves the cells outside the target columns exactly as they are.
    When the transform leaves every target cell of every row as it is,
    nothing is stored and nothing is sent to the parent: only the toast
    that there was nothing to change is raised. *)
Theorem cleaning_touches_only_targets (label_ : jsstring)
    (transform : value -> value) (st : MasterTable.State) :
  MasterTable.wellFormed st ->
  let st' := MasterTable.applyCleaning label_ transform st in
  length (MasterTable.currentData st') = length (MasterTable.currentData st) /\
  (forall k row,
     MasterTable.currentData st !! k = Some row ->
     exists row',
       MasterTable.currentData st' !! k = Some row' /\
       forall f, f ∉ List.map key (MasterTable.targetFieldDefs st) ->
                 row' !! f = row !! f) /\
  ((forall row f,
      row ∈ MasterTable.currentData st ->
      f ∈ List.map key (MasterTable.targetFieldDefs st) ->
      settled transform row f) ->
   st' = MasterTable.onNotify
           [27794; 26377; 36039; 26009; 38656; 35201; 35722; 26356; 12290]%N
           info st).
Proof.
  intros Hwf st'. pose proof (applyCleaning_current label_ transform st Hwf) as Hc.
  fold st' in Hc. split; [by rewrite Hc, length_map|]. split.
  - intros k row Hk. eexists. split.
    + rewrite Hc, lookup_map. exact (f_equal (fmap _) Hk).
    + intros f Hf. by apply cleanRow_other.
  - intros Hs. unfold st', MasterTable.applyCleaning.
    by rewrite cleaned_none_changed.
Qed.

(** An instance: trimming the mounted sample table. *)
Lemma cleaning_touches_only_targets_witness :
  length (MasterTable.currentData
            (MasterTable.applyCleaning (str "t") (MasterTable.onString trim)
               sampleTable))
  = length (MasterTable.currentData sampleTable).
Proof.
  apply (cleaning_touches_only_targets (str "t") (MasterTable.onString trim)
           sampleTable).
  split; [cbn; lia|repeat constructor; by eexists].
Defined.

(** Property X13.
    Running a cleaning operation a second time changes nothing, as long
    as the transform maps each target cell to a value it leaves as it
    is: the second run stores no frame and sends nothing to the parent,
    it only raises the toast that there was nothing to change. *)
Theorem cleaning_twice_changes_nothing (label1 label2 : jsstring)
    (transform : value -> value) (st : MasterTable.State) :
  MasterTable.wellFormed st ->
  (forall row f,
     row ∈ MasterTable.currentData st ->
     f ∈ List.map key (MasterTable.targetFieldDefs st) ->
     strictEq (transform (get row f)) (transform (transform (get row f))) = true) ->
  MasterTable.applyCleaning label2 transform
    (MasterTable.applyCleaning label1 transform st)
  = MasterTable.onNotify
      [27794; 26377; 36039; 26009; 38656; 35201; 35722; 26356; 12290]%N info
      (MasterTable.applyCleaning label1 transform st).
Proof.
  intros Hwf Hs.
  pose proof (applyCleaning_current label1 transform st Hwf) as Hc.
  assert (Ht : MasterTable.targetFieldDefs (MasterTable.applyCleaning label1 transform st)
               = MasterTable.targetFieldDefs st).
  { unfold MasterTable.applyCleaning. by destruct (0 <? _)%nat. }
  unfold MasterTable.applyCleaning at 1. rewrite Ht, Hc.
  rewrite cleaned_none_changed; [done|].
  by apply cleaned_rows_settled.
Qed.

(** An instance: trimming the sample table twice. *)
Lemma cleaning_twice_changes_nothing_witness :
  MasterTable.applyCleaning (str "t") (MasterTable.onString trim)
    (MasterTable.applyCleaning (str "t") (MasterTable.onString trim) sampleTable)
  = MasterTable.onNotify
      [27794; 26377; 36039; 26009; 38656; 35201; 35722; 26356; 12290]%N info
      (MasterTable.applyCleaning (str "t") (MasterTable.onString trim) sampleTable).
Proof.
  apply (cleaning_twice_changes_nothing (str "t") (str "t")
           (MasterTable.onString trim) sampleTable).
  - split; [cbn; lia|repeat constructor; by eexists].
  - intros row f Hr Hf.
    apply list_elem_of_singleton in Hf. subst f.
    apply elem_of_cons in Hr as [->|Hr];
      [|apply list_elem_of_singleton in Hr; subst row]; vm_compute; reflexivity.
Defined.

(** ** The preview table: row operations *)

Section Dedupe.

Variable checkFields_ : list jsstring.

Let keyOf (row : gmap jsstring value) : jsstring :=
  MasterTable.rowKey checkFields_ row.

Lemma dedupe_sublist (seen : list jsstring) (rows_ : list (gmap jsstring value)) :
  sublist (MasterTable.dedupe checkFields_ seen rows_) rows_.
Proof.
  revert seen. induction rows_ as [|row rows_ IH]; intros seen; cbn; [done|].
  destruct (bool_decide _); [apply sublist_cons|apply sublist_skip]; apply IH.
Qed.

Lemma dedupe_keys (seen : list jsstring) (rows_ : list (gmap jsstring value)) :
  NoDup (List.map keyOf (MasterTable.dedupe checkFields_ seen rows_)) /\
  forall k, k ∈ List.map keyOf (MasterTable.dedupe checkFields_ seen rows_) ->
            k ∉ seen.
Proof.
  revert seen. induction rows_ as [|row rows_ IH]; intros seen;
    cbn [MasterTable.dedupe].
  - split; [constructor|]. by intros k ?%elem_of_nil.
  - destruct (bool_decide (MasterTable.rowKey checkFields_ row ∈ seen)) eqn:E.
    + apply IH.
    + apply bool_decide_eq_false in E.
      destruct (IH (setAdd seen (MasterTable.rowKey checkFields_ row))) as [Hnd Hdis].
      cbn [List.map]. split.
      * apply NoDup_cons. split; [|done]. intros Hin.
        apply (Hdis _ Hin), elem_of_setAdd. by right.
      * intros k [->|Hk]%elem_of_cons; [done|].
        intros Hs. apply (Hdis _ Hk), elem_of_setAdd. by left.
Qed.

Lemma dedupe_covers (seen : list jsstring) (rows_ : list (gmap jsstring value))
    (row : gmap jsstring value) :
  row ∈ rows_ ->
  keyOf row ∈ seen \/
  exists kept, kept ∈ MasterTable.dedupe checkFields_ seen rows_ /\
               keyOf kept = keyOf row.
Proof.
  revert seen. induction rows_ as [|r rows_ IH]; intros seen Hin;
    [by apply elem_of_nil in Hin|]. cbn [MasterTable.dedupe].
  destruct (bool_decide (MasterTable.rowKey checkFields_ r ∈ seen)) eqn:E.
  - apply bool_decide_eq_true in E.
    apply elem_of_cons in Hin as [->|Hin]; [by left|by apply IH].
  - apply elem_of_cons in Hin as [->|Hin].
    + right. exists r. split; [left|done].
    + destruct (IH (setAdd seen (MasterTable.rowKey checkFields_ r)) Hin)
        as [Hs|(kept & Hk & He)].
      * apply elem_of_setAdd in Hs as [Hs|Hs]; [by left|].
        right. exists r. split; [left|done].
      * right. exists kept. split; [by right|done].
Qed.

Lemma dedupe_first (seen : list jsstring) (rows_ : list (gmap jsstring value))
    (i : nat) (row : gmap jsstring value) :
  rows_ !! i = Some row -> keyOf row ∉ seen ->
  (forall j r, (j < i)%nat -> rows_ !! j = Some r -> keyOf r <> keyOf row) ->
  row ∈ MasterTable.dedupe checkFields_ seen rows_.
Proof.
  revert seen i. induction rows_ as [|r rows_ IH]; intros seen i Hi Hs Hfirst;
    [by rewrite lookup_nil in Hi|]. cbn [MasterTable.dedupe].
  destruct i as [|i].
  - cbn in Hi. injection Hi as ->.
    rewrite bool_decide_eq_false_2 by done. left.
  - cbn in Hi.
    assert (Hr : keyOf r <> keyOf row) by (apply (Hfirst 0%nat); [lia|done]).
    assert (IH' : forall seen', keyOf row ∉ seen' ->
                    row ∈ MasterTable.dedupe checkFields_ seen' rows_).
    { intros seen' Hs'. apply (IH seen' i); [done|done|].
      intros j r' Hj Hr'. apply (Hfirst (S j)); [lia|done]. }
    destruct (bool_decide _); [by apply IH'|].
    right. apply IH'. intros [?|?]%elem_of_setAdd; [done|]. by apply Hr.
Qed.

Lemma dedupe_distinct (seen : list jsstring) (rows_ : list (gmap jsstring value)) :
  NoDup (List.map keyOf rows_) ->
  (forall k, k ∈ List.map keyOf rows_ -> k ∉ seen) ->
  MasterTable.dedupe checkFields_ seen rows_ = rows_.
Proof.
  revert seen. induction rows_ as [|r rows_ IH]; intros seen Hnd Hdis; [done|].
  cbn [MasterTable.dedupe List.map] in *. apply NoDup_cons in Hnd as [Hr Hnd].
  rewrite bool_decide_eq_false_2 by (apply Hdis; left).
  f_equal. apply IH; [done|].
  intros k Hk [Hs| ->]%elem_of_setAdd; [|done].
  by apply (Hdis k); [right|].
Qed.

End Dedupe.

Lemma sublist_same_length {A : Type} (l1 l2 : list A) :
  sublist l1 l2 -> length l1 = length l2 -> l1 = l2.
Proof.
  induction 1 as [|x l1 l2 _ IH|x l1 l2 Hs IH]; cbn; intros Hl; [done|..].
  - f_equal. apply IH. lia.
  - apply sublist_length in Hs. lia.
Qed.

Lemma List_filter_sublist {A : Type} (p : A -> bool) (l : list A) :
  sublist (List.filter p l) l.
Proof.
  induction l as [|x l IH]; cbn; [done|].
  destruct (p x); [by apply sublist_skip|by apply sublist_cons].
Qed.

(** What a row operation that filters leaves on display. *)
Lemma rowOp_current (st : MasterTable.State) (newData : list (gmap jsstring value))
    (msg1 msg2 : jsstring) :
  MasterTable.wellFormed st ->
  sublist newData (MasterTable.currentData st) ->
  MasterTable.currentData
    (if negb (length newData =? length (MasterTable.currentData st))%nat
     then MasterTable.onNotify msg1 success (MasterTable.pushToHistory newData st)
     else MasterTable.onNotify msg2 info st)
  = newData.
Proof.
  intros Hwf Hsub. destruct (length newData =? _)%nat eqn:E; cbn [negb].
  - apply Nat.eqb_eq in E. symmetry. by apply sublist_same_length.
  - change (MasterTable.currentData (MasterTable.onNotify ?m ?t ?s))
      with (MasterTable.currentData s).
    by destruct (pushToHistory_frames newData st Hwf) as (_ & -> & _).
Qed.

(** Property X14.
    Removing duplicates keeps, in their order, the rows whose key, the
    check cells joined by ['|'], was not met in an earlier row: the rows
    kept have pairwise distinct keys and every row dropped has the key
    of a row kept. A second run finds nothing to remove: it stores no
    frame and only raises the toast that nothing was found. *)
Theorem remove_duplicates_keeps_first (st : MasterTable.State) :
  MasterTable.wellFormed st ->
  MasterTable.selectedRowOp st = MasterTable.removeDuplicates ->
  let keyOf := MasterTable.rowKey (MasterTable.checkFields st) in
  let st' := MasterTable.executeRowOp st in
  sublist (MasterTable.currentData st') (MasterTable.currentData st) /\
  NoDup (List.map keyOf (MasterTable.currentData st')) /\
  (forall row, row ∈ MasterTable.currentData st ->
     exists kept, kept ∈ MasterTable.currentData st' /\ keyOf kept = keyOf row) /\
  (forall i row,
     MasterTable.currentData st !! i = Some row ->
     (forall j r, (j < i)%nat -> MasterTable.currentData st !! j = Some r ->
                  keyOf r <> keyOf row) ->
     row ∈ MasterTable.currentData st') /\
  MasterTable.executeRowOp st'
    = MasterTable.onNotify
        [27794; 26377; 30332; 29694; 38656; 35201; 35722; 26356; 30340; 36039; 26009]%N
        info st'.
Proof.
  intros Hwf Hop keyOf st'.
  assert (Hc : MasterTable.currentData st'
               = MasterTable.dedupe (MasterTable.checkFields st) []
                   (MasterTable.currentData st)).
  { unfold st', MasterTable.executeRowOp. rewrite Hop.
    apply rowOp_current; [done|apply dedupe_sublist]. }
  destruct (dedupe_keys (MasterTable.checkFields st) [] (MasterTable.currentData st))
    as [Hnd _].
  rewrite Hc. split; [apply dedupe_sublist|]. split; [exact Hnd|]. split; [|split].
  - intros row Hr.
    destruct (dedupe_covers (MasterTable.checkFields st) [] _ _ Hr) as [Hs|H];
      [by apply elem_of_nil in Hs|done].
  - intros i row Hi Hfirst.
    apply (dedupe_first (MasterTable.checkFields st) [] _ i);
      [done|apply not_elem_of_nil|done].
  - assert (Hop' : MasterTable.selectedRowOp st' = MasterTable.removeDuplicates).
    { unfold st', MasterTable.executeRowOp. rewrite Hop. by destruct (negb _). }
    assert (Hcf : MasterTable.checkFields st' = MasterTable.checkFields st).
    { unfold st', MasterTable.executeRowOp. rewrite Hop. by destruct (negb _). }
    unfold MasterTable.executeRowOp at 1. rewrite Hop', Hcf, Hc.
    rewrite (dedupe_distinct (MasterTable.checkFields st) []
               (MasterTable.dedupe (MasterTable.checkFields st) []
                  (MasterTable.currentData st)) Hnd)
      by (intros; apply not_elem_of_nil).
    by rewrite Nat.eqb_refl.
Qed.

(** Property X15.
    Removing empty rows keeps, in their order, exactly the rows with a
    check cell that is neither missing, [null] nor blank once printed
    and trimmed. With no field and no target column there is no check
    cell, so every row is removed. A second run finds nothing to
    remove. *)
Theorem remove_empty_rows_keeps_filled (st : MasterTable.State) :
  MasterTable.wellFormed st ->
  MasterTable.selectedRowOp st = MasterTable.removeEmptyRows ->
  let st' := MasterTable.executeRowOp st in
  MasterTable.currentData st'
    = List.filter
        (fun row => existsb (fun k => negb (MasterTable.isBlank (get row k)))
                            (MasterTable.checkFields st))
        (MasterTable.currentData st) /\
  (MasterTable.targetCol st = [] -> MasterTable.fields st = [] ->
   MasterTable.currentData st' = []) /\
  MasterTable.executeRowOp st'
    = MasterTable.onNotify
        [27794; 26377; 30332; 29694; 38656; 35201; 35722; 26356; 30340; 36039; 26009]%N
        info st'.
Proof.
  intros Hwf Hop st'.
  assert (Hc : MasterTable.currentData st'
               = List.filter
                   (fun row => existsb (fun k => negb (MasterTable.isBlank (get row k)))
                                       (MasterTable.checkFields st))
                   (MasterTable.currentData st)).
  { unfold st', MasterTable.executeRowOp. rewrite Hop.
    apply rowOp_current; [done|apply List_filter_sublist]. }
  split; [exact Hc|]. split.
  - intros Ht Hf. rewrite Hc. unfold MasterTable.checkFields. rewrite Ht, Hf. cbn.
    clear. by induction (MasterTable.currentData st).
  - assert (Hop' : MasterTable.selectedRowOp st' = MasterTable.removeEmptyRows).
    { unfold st', MasterTable.executeRowOp. rewrite Hop. by destruct (negb _). }
    assert (Hcf : MasterTable.checkFields st' = MasterTable.checkFields st).
    { unfold st', MasterTable.executeRowOp. rewrite Hop. by destruct (negb _). }
    unfold MasterTable.executeRowOp at 1. rewrite Hop', Hcf, Hc.
    assert (Hidem : forall (p : gmap jsstring value -> bool) l,
              List.filter p (List.filter p l) = List.filter p l).
    { intros p l. induction l as [|x l IH]; [done|]. cbn.
      destruct (p x) eqn:E; [|done]. cbn. by rewrite E, IH. }
    by rewrite Hidem, Nat.eqb_refl.
Qed.

(** An instance: the same row twice. *)
Lemma remove_duplicates_keeps_first_witness :
  NoDup (List.map (MasterTable.rowKey [str "Name"])
           (MasterTable.currentData
              (MasterTable.executeRowOp
                 (tableOn [tableRow2; tableRow2] MasterTable.removeDuplicates
                          MasterTable.trim_ [] [])))).
Proof.
  apply (remove_duplicates_keeps_first
           (tableOn [tableRow2; tableRow2] MasterTable.removeDuplicates
                    MasterTable.trim_ [] [])).
  - split; [cbn; lia|repeat constructor; by eexists].
  - reflexivity.
Defined.

(** An instance: a row without the field and a row with it. *)
Lemma remove_empty_rows_keeps_filled_witness :
  MasterTable.currentData
    (MasterTable.executeRowOp
       (tableOn [∅; tableRow2] MasterTable.removeEmptyRows MasterTable.trim_ [] []))
  = List.filter
      (fun row => existsb (fun k => negb (MasterTable.isBlank (get row k)))
                          [str "Name"])
      [∅; tableRow2].
Proof.
  apply (remove_empty_rows_keeps_filled
           (tableOn [∅; tableRow2] MasterTable.removeEmptyRows MasterTable.trim_ [] [])).
  - split; [cbn; lia|repeat constructor; by eexists].
  - reflexivity.
Defined.

(** ** The preview table: filling and find-and-replace *)

Section CleanCells.

Variable transform : value -> value.

Let cleanStep (acc : gmap jsstring value * bool) (field : FieldDefinition)
    : gmap jsstring value * bool :=
  let oldVal := get acc.1 (key field) in
  let newVal := transform oldVal in
  if negb (strictEq oldVal newVal)
  then (<[key field := newVal]> acc.1, true)
  else acc.

(** The cell [f] of [acc] is the one of [row], which the transform
    leaves as it is, or it is the transform of that one. *)
Let cleaned (row : gmap jsstring value) (acc : gmap jsstring value * bool)
    (f : jsstring) : Prop :=
  (acc.1 !! f = row !! f /\ settled transform row f) \/
  acc.1 !! f = Some (transform (get row f)).

Lemma cleanStep_cell (row : gmap jsstring value) (acc : gmap jsstring value * bool)
    (x : FieldDefinition) :
  acc.1 !! key x = row !! key x -> cleaned row (cleanStep acc x) (key x).
Proof.
  intros Hk. unfold cleaned, cleanStep, settled.
  assert (Hg : get acc.1 (key x) = get row (key x)) by (unfold get; by rewrite Hk).
  rewrite Hg. destruct (strictEq (get row (key x)) (transform (get row (key x)))) eqn:E;
    cbn [negb fst].
  - by left.
  - right. by rewrite lookup_insert_eq.
Qed.

Lemma cleanStep_cleaned_idem (row : gmap jsstring value)
    (acc : gmap jsstring value * bool) (x : FieldDefinition) (f : jsstring) :
  (forall v, transform (transform v) = transform v) ->
  cleaned row acc f -> cleaned row (cleanStep acc x) f.
Proof.
  intros Hidem Hc. destruct (decide (key x = f)) as [<-|Hne].
  - destruct Hc as [[Hk Hs]|Hk].
    + by apply cleanStep_cell.
    + right. unfold cleanStep.
      assert (Hg : get acc.1 (key x) = transform (get row (key x)))
        by (unfold get; by rewrite Hk).
      rewrite Hg, Hidem. destruct (negb _); cbn [fst]; [|done].
      by rewrite lookup_insert_eq.
  - unfold cleaned, cleanStep in *. destruct (negb _); [|done]. cbn [fst].
    by rewrite lookup_insert_ne.
Qed.

Lemma cleanFold_cleaned_idem (row : gmap jsstring value) (l : list FieldDefinition)
    (acc : gmap jsstring value * bool) (f : jsstring) :
  (forall v, transform (transform v) = transform v) ->
  cleaned row acc f -> cleaned row (foldl cleanStep acc l) f.
Proof.
  intros Hidem. revert acc. induction l as [|x l IH]; intros acc Hc; [done|].
  cbn [foldl]. by apply IH, cleanStep_cleaned_idem.
Qed.

(** Cells under an idempotent transform, whatever keys repeat. *)
Lemma cleanRow_cells_idem (row : gmap jsstring value) (l : list FieldDefinition)
    (f : jsstring) :
  (forall v, transform (transform v) = transform v) ->
  f ∈ List.map key l ->
  cleaned row (MasterTable.cleanRow l transform row) f.
Proof.
  intros Hidem Hf. change (MasterTable.cleanRow l transform row)
    with (foldl cleanStep (row, false) l).
  assert (H : forall acc, (forall g, acc.1 !! g = row !! g \/ cleaned row acc g) ->
            cleaned row (foldl cleanStep acc l) f).
  { induction l as [|x l IH]; intros acc Hacc; [by apply elem_of_nil in Hf|].
    cbn [foldl List.map] in *. destruct (decide (f = key x)) as [->|Hne].
    - apply cleanFold_cleaned_idem; [done|].
      destruct (Hacc (key x)) as [Hk|Hc]; [by apply cleanStep_cell|].
      by apply cleanStep_cleaned_idem.
    - apply IH; [by apply elem_of_cons in Hf as [?|?]|].
      intros g. destruct (Hacc g) as [Hg|Hg].
      + destruct (decide (g = key x)) as [->|Hgx].
        * right. by apply cleanStep_cell.
        * left. unfold cleanStep. destruct (negb _); [|done]. cbn [fst].
          by rewrite lookup_insert_ne.
      + right. by apply cleanStep_cleaned_idem. }
  apply H. intros g. by left.
Qed.

(** Cells under any transform, when no key repeats. *)
Lemma cleanRow_cells_NoDup (row : gmap jsstring value) (l : list FieldDefinition)
    (f : jsstring) :
  NoDup (List.map key l) ->
  f ∈ List.map key l ->
  cleaned row (MasterTable.cleanRow l transform row) f.
Proof.
  intros Hnd Hf. change (MasterTable.cleanRow l transform row)
    with (foldl cleanStep (row, false) l).
  assert (H : forall acc, (forall g, g ∈ List.map key l -> acc.1 !! g = row !! g) ->
            cleaned row (foldl cleanStep acc l) f).
  { induction l as [|x l IH]; intros acc Hacc; [by apply elem_of_nil in Hf|].
    cbn [foldl List.map] in *. apply NoDup_cons in Hnd as [Hx Hnd].
    destruct (decide (f = key x)) as [->|Hne].
    - assert (Hc : cleaned row (cleanStep acc x) (key x))
        by (apply cleanStep_cell, Hacc; left).
      pose proof (cleanFold_other transform l (cleanStep acc x) (key x) Hx) as E.
      destruct Hc as [[Hl Hs]|Hl]; [left; split; [|done]|right];
        (etrans; [exact E|exact Hl]).
    - apply IH; [done|by apply elem_of_cons in Hf as [?|?]|].
      intros g Hg. unfold cleanStep. destruct (negb _); cbn [fst];
        [|apply Hacc; by right].
      rewrite lookup_insert_ne by (intros Heq; apply Hx; by rewrite Heq).
      apply Hacc. by right. }
  apply H. done.
Qed.

End CleanCells.

Lemma strictEq_string (v : value) (s : jsstring) :
  strictEq v (VStr s) = true -> v = VStr s.
Proof.
  destruct v as [| |b|n|s']; cbn; try done.
  by intros ->%bool_decide_eq_true.
Qed.

Lemma get_of_lookup (row row' : gmap jsstring value) (f : jsstring) :
  row' !! f = row !! f -> get row' f = get row f.
Proof. unfold get. by intros ->. Qed.

(** Property X16.
    Filling empty cells puts the fill value, as a string, in every
    target cell that is missing, [null] or blank once printed and
    trimmed, and leaves every other target cell as it is; a fill value
    that is itself blank is written all the same. *)
Theorem fill_empty_fills_blank_cells (st : MasterTable.State) (k : nat)
    (row : gmap jsstring value) :
  MasterTable.wellFormed st ->
  MasterTable.selectedRowOp st = MasterTable.fillEmpty ->
  MasterTable.currentData st !! k = Some row ->
  exists row',
    MasterTable.currentData (MasterTable.executeRowOp st) !! k = Some row' /\
    (forall f, f ∈ List.map key (MasterTable.targetFieldDefs st) ->
       get row' f = if MasterTable.isBlank (get row f)
                    then VStr (MasterTable.fillValue st) else get row f) /\
    (forall f, f ∉ List.map key (MasterTable.targetFieldDefs st) ->
       row' !! f = row !! f).
Proof.
  intros Hwf Hop Hk. unfold MasterTable.executeRowOp. rewrite Hop.
  rewrite applyCleaning_current by done. eexists. split; [|split].
  - rewrite lookup_map. exact (f_equal (fmap _) Hk).
  - intros f Hf.
    set (t := fun val => if MasterTable.isBlank val
                         then VStr (MasterTable.fillValue st) else val).
    assert (Hidem : forall v, t (t v) = t v).
    { intros v. unfold t. destruct (MasterTable.isBlank v) eqn:E; [|by rewrite E].
      by destruct (MasterTable.isBlank (VStr _)). }
    destruct (cleanRow_cells_idem t row (MasterTable.targetFieldDefs st) f Hidem Hf)
      as [[Hl Hs]|Hl].
    + rewrite (get_of_lookup _ _ _ Hl). unfold settled, t in Hs.
      destruct (MasterTable.isBlank (get row f)); [|done].
      by apply strictEq_string in Hs.
    + unfold get at 1. by rewrite Hl.
  - intros f Hf. by apply (cleanRow_other (MasterTable.targetFieldDefs st)).
Qed.

(** An instance: a row without the field. *)
Lemma fill_empty_fills_blank_cells_witness :
  exists row',
    MasterTable.currentData
      (MasterTable.executeRowOp
         (tableOn [∅] MasterTable.fillEmpty MasterTable.trim_ [] [])) !! 0%nat
      = Some row' /\
    get row' (str "Name") = VStr (str "-").
Proof.
  destruct (fill_empty_fills_blank_cells
              (tableOn [∅] MasterTable.fillEmpty MasterTable.trim_ [] []) 0 ∅)
    as (row' & Hr & Hf & _).
  - split; [cbn; lia|repeat constructor; by eexists].
  - reflexivity.
  - reflexivity.
  - exists row'. split; [exact Hr|]. rewrite Hf; [reflexivity|left].
Defined.

Lemma split_go_absent (sep cur s : jsstring) :
  sep <> [] -> includes sep s = false -> split_go sep cur s 0 = [rev cur ++ s].
Proof.
  intros Hne. revert cur. induction s as [|c s IH]; intros cur H.
  - cbn. by rewrite app_nil_r.
  - rewrite includes_cons in H. apply orb_false_iff in H as [Hh Ht].
    rewrite split_go_not_at by done. rewrite IH by done. cbn.
    by rewrite <- app_assoc.
Qed.

(** Property X17.
    Find-and-replace, when no target key repeats: without a search text
    it only raises an error toast. With one, every target cell becomes
    a string, the printed cell (the empty string for a missing, [null],
    zero, [NaN] or [false] cell) with each occurrence of the search text
    replaced; so a number cell turns into a string even when the search
    text does not occur in it, which counts as a change. A string cell
    without the search text, and any string cell when the replacement is
    the search text, keeps its contents. *)
Theorem find_replace_makes_strings
    (toUpperCase toLowerCase : jsstring -> jsstring)
    (regExpReplace : jsstring -> option (jsstring -> jsstring -> jsstring))
    (st : MasterTable.State) :
  MasterTable.wellFormed st ->
  MasterTable.selectedTextOp st = MasterTable.findReplace ->
  NoDup (List.map key (MasterTable.targetFieldDefs st)) ->
  let st' := MasterTable.executeTextOp toUpperCase toLowerCase regExpReplace st in
  let printed (v : value) := String_ (orValue v (VStr [])) in
  (MasterTable.findText st = [] ->
   st' = MasterTable.onNotify [35531; 36664; 20837; 23563; 25214; 20839; 23481]%N
           error st) /\
  (MasterTable.findText st <> [] ->
   forall k row,
     MasterTable.currentData st !! k = Some row ->
     exists row',
       MasterTable.currentData st' !! k = Some row' /\
       forall f, f ∈ List.map key (MasterTable.targetFieldDefs st) ->
         get row' f
           = VStr (JS.join (MasterTable.replaceText st)
                     (split (MasterTable.findText st) (printed (get row f)))) /\
         (includes (MasterTable.findText st) (printed (get row f)) = false ->
          get row' f = VStr (printed (get row f))) /\
         (MasterTable.replaceText st = MasterTable.findText st ->
          get row' f = VStr (printed (get row f)))).
Proof.
  intros Hwf Hop Hnd st' printed. unfold st', MasterTable.executeTextOp.
  rewrite Hop. split.
  - intros ->. done.
  - intros Hne k row Hk.
    assert (Htr : truthy (VStr (MasterTable.findText st)) = true)
      by (cbn; by destruct (MasterTable.findText st)).
    rewrite Htr. cbn [negb]. rewrite applyCleaning_current by done.
    eexists. split; [rewrite lookup_map; exact (f_equal (fmap _) Hk)|].
    intros f Hf.
    set (t := fun val => VStr (JS.join (MasterTable.replaceText st)
                (split (MasterTable.findText st) (String_ (orValue val (VStr [])))))).
    assert (Hcell : get (MasterTable.cleanRow (MasterTable.targetFieldDefs st) t row).1 f
                    = t (get row f)).
    { destruct (cleanRow_cells_NoDup t row (MasterTable.targetFieldDefs st) f Hnd Hf)
        as [[Hl Hs]|Hl].
      - rewrite (get_of_lookup _ _ _ Hl). by apply strictEq_string in Hs.
      - unfold get at 1. by rewrite Hl. }
    rewrite Hcell. unfold t. fold (printed (get row f)).
    split; [done|]. split.
    + intros Hinc. unfold split.
      destruct (MasterTable.findText st) as [|c sep] eqn:E; [done|].
      by rewrite split_go_absent.
    + intros ->. by rewrite join_split.
Qed.

(** An instance: the search text [o] replaced by itself on the sample
    rows. *)
Lemma find_replace_makes_strings_witness :
  exists row',
    MasterTable.currentData
      (MasterTable.executeTextOp asciiLowerCase asciiLowerCase (fun _ => None)
         (tableOn [tableRow2] MasterTable.fillEmpty MasterTable.findReplace
                  (str "o") (str "o"))) !! 0%nat = Some row' /\
    get row' (str "Name") = VStr (str "Bob").
Proof.
  destruct (find_replace_makes_strings asciiLowerCase asciiLowerCase (fun _ => None)
              (tableOn [tableRow2] MasterTable.fillEmpty MasterTable.findReplace
                       (str "o") (str "o")))
    as [_ H].
  - split; [cbn; lia|repeat constructor; by eexists].
  - reflexivity.
  - cbn. repeat constructor. apply not_elem_of_nil.
  - destruct (H ltac:(discriminate) 0%nat tableRow2 eq_refl) as (row' & Hr & Hf).
    exists row'. split; [exact Hr|].
    destruct (Hf (str "Name") ltac:(left)) as (_ & _ & ->); [reflexivity|].
    vm_compute. reflexivity.
Defined.
(** ** The merge on the mapper's mapping *)

Lemma mapM_total {A B : Type} (f : A -> option B) (g : A -> B) (l : list A) :
  (forall x, f x = Some (g x)) -> mapM f l = Some (List.map g l).
Proof.
  intros Hf. induction l as [|x l IH]; [done|].
  cbn [mapM List.map]. rewrite Hf, IH. done.
Qed.

Lemma map_imap {A B C : Type} (f : B -> C) (h : nat -> A -> B) (l : list A) :
  List.map f (imap h l) = imap (fun i x => f (h i x)) l.
Proof.
  revert h. induction l as [|x l IH]; intros h; [done|].
  cbn [imap List.map]. f_equal. rewrite IH. by apply imap_ext.
Qed.

Lemma map_imap_pair {A B : Type} (g : nat -> A -> B) (l : list A) :
  List.map (fun e : nat * A => g e.1 e.2) (imap pair l) = imap g l.
Proof. rewrite map_imap. by apply imap_ext. Qed.

(** The fold over the entries of a mapping of arrays never throws, and
    writes what the fold of the merge writes. *)
Lemma fold_fields_arrays
    (F : jsstring -> option (list jsstring) -> gmap jsstring value
         -> option (gmap jsstring value))
    (g : list jsstring -> value) (init : gmap jsstring value)
    (m : gmap jsstring (list jsstring)) :
  (forall f ids r, F f (Some ids) r = Some (<[f := g ids]> r)) ->
  map_fold (fun f cand (acc : option (gmap jsstring value)) => r ← acc; F f cand r)
           (Some init) (Some <$> m)
  = Some (map_fold (fun f ids (acc : gmap jsstring value) => <[f := g ids]> acc)
                   init m).
Proof.
  intros HF. rewrite map_fold_fmap.
  apply (map_fold_weak_ind
           (fun (r : option (gmap jsstring value)) (m' : gmap jsstring (list jsstring)) =>
              r = Some (map_fold (fun f ids (acc : gmap jsstring value) =>
                                    <[f := g ids]> acc) init m'))).
  - by rewrite map_fold_empty.
  - intros k ids m' r Hk ->. unfold compose. cbn [mbind option_bind].
    rewrite HF. f_equal. symmetry.
    apply (map_fold_insert_L (fun f ids (acc : gmap jsstring value) =>
                                <[f := g ids]> acc)); [|done].
    intros j1 j2 z1 z2 y Hne _ _. by apply insert_insert_ne.
Qed.

Lemma stackRow_arrays (sheet : SheetData) (m : gmap jsstring (list jsstring))
    (index : nat) (row : gmap jsstring value) :
  MergeExn.stackRow sheet (Some <$> m) index row = Some (stackRow sheet m index row).
Proof.
  unfold MergeExn.stackRow, stackRow.
  rewrite (fold_fields_arrays
             (fun f cand r =>
                ids ← cand;
                Some (<[f := cleanAndFormatValue (resolveValue sheet row ids)]> r))
             (fun ids => cleanAndFormatValue (resolveValue sheet row ids)))
    by done.
  done.
Qed.

(** On a mapping whose entries are all arrays the stack merge returns,
    and returns the rows of [stackData]. *)
Lemma stackData_arrays (sheets : list SheetData) (m : gmap jsstring (list jsstring)) :
  MergeExn.stackData sheets (Some <$> m) = Some (stackData sheets m).
Proof.
  unfold MergeExn.stackData, stackData. generalize (@nil (gmap jsstring value)).
  induction sheets as [|sheet sheets IH]; intros acc; [done|].
  cbn [foldl mbind option_bind].
  rewrite (mapM_total _ (fun e : nat * gmap jsstring value =>
                           stackRow sheet m e.1 e.2))
    by (intros; apply stackRow_arrays).
  cbn [mbind option_bind]. rewrite map_imap_pair. apply IH.
Qed.

Lemma joinValue_arrays (entry : gmap nat (gmap jsstring value)) (ids : list jsstring)
    (indexed : list (nat * SheetData)) :
  MergeExn.joinValue entry (Some ids) indexed = Some (joinValue entry ids indexed).
Proof.
  induction indexed as [|[i s] l IH]; [done|].
  cbn [MergeExn.joinValue joinValue].
  destruct (entry !! i) as [src|]; cbn [mbind option_bind].
  - by destruct (negb (isEmptyString (slotValue s src ids))).
  - done.
Qed.

Lemma joinRow_arrays (sheets : list SheetData) (m : gmap jsstring (list jsstring))
    (ix : JoinIndex) (idx : nat) (k : jsstring) :
  MergeExn.joinRow sheets (Some <$> m) ix idx k = Some (joinRow sheets m ix idx k).
Proof.
  unfold MergeExn.joinRow, joinRow.
  rewrite (fold_fields_arrays
             (fun f cand r =>
                val ← MergeExn.joinValue (default ∅ (keyMap ix !! k)) cand
                        (imap pair sheets);
                Some (<[f := cleanAndFormatValue val]> r))
             (fun ids => cleanAndFormatValue
                (joinValue (default ∅ (keyMap ix !! k)) ids (imap pair sheets)))).
  - done.
  - intros f ids r. by rewrite joinValue_arrays.
Qed.

(** On a mapping whose entries are all arrays the join returns, and
    returns the rows of [joinData], as long as the join key is an entry
    or no inherited name. *)
Lemma joinData_arrays (sheets : list SheetData) (m : gmap jsstring (list jsstring))
    (config : MergeConfig) :
  is_Some (m !! joinKey config) \/ joinKey config ∉ objectPrototypeNames ->
  MergeExn.joinData sheets (Some <$> m) config = Some (joinData sheets m config).
Proof.
  intros Hk. unfold MergeExn.joinData, joinData.
  assert (Hc : MergeExn.keyCandidates (Some <$> m) (joinKey config)
               = Some (default [] (m !! joinKey config))).
  { unfold MergeExn.keyCandidates. rewrite lookup_fmap.
    destruct (m !! joinKey config) as [ids|]; [done|]. cbn.
    destruct Hk as [[? [=]]|Hk]. by rewrite bool_decide_eq_false_2. }
  rewrite Hc. cbn [MergeExn.buildIndex MergeExn.finalKeys mbind option_bind].
  rewrite (mapM_total _ (fun e : nat * jsstring =>
                           joinRow sheets m
                             (buildIndex (default [] (m !! joinKey config)) sheets)
                             e.1 e.2))
    by (intros; apply joinRow_arrays).
  by rewrite map_imap_pair.
Qed.

(** A join key without candidates: the join has no output key. *)
Lemma joinData_key_without_candidates (sheets : list SheetData)
    (mappings : gmap jsstring (option (list jsstring))) (config : MergeConfig) :
  MergeExn.keyCandidates mappings (joinKey config) = Some [] ->
  MergeExn.joinData sheets mappings config = Some [].
Proof.
  intros Hc. unfold MergeExn.joinData. rewrite Hc.
  cbn [MergeExn.buildIndex MergeExn.finalKeys mbind option_bind].
  by rewrite finalKeys_no_candidates.
Qed.

(** A join key that is no entry but an inherited name: the index pass
    throws on the first row there is. *)
Lemma joinData_inherited_key (sheets : list SheetData)
    (mappings : gmap jsstring (option (list jsstring))) (config : MergeConfig) :
  MergeExn.keyCandidates mappings (joinKey config) = None ->
  MergeExn.joinData sheets mappings config
  = if forallb noRows sheets then Some [] else None.
Proof.
  intros Hc. unfold MergeExn.joinData. rewrite Hc.
  cbn [MergeExn.buildIndex]. destruct (forallb noRows sheets) eqn:Hn; [|done].
  cbn [mbind option_bind MergeExn.finalKeys].
  destruct (joinType config).
  - done.
  - done.
  - destruct sheets as [|sheet0 l]; [done|].
    cbn [forallb] in Hn. apply andb_true_iff in Hn as [-> _]. done.
Qed.

(** Property X3.
    When the join key has no candidate list in the mapping (no entry,
    or an entry that is [undefined]) or an empty one, the join yields no
    row at all, whatever the sheets hold and whichever join type is
    chosen, even if other entries are [undefined]. The one exception is
    a join key that is no entry but the name of a member every object
    inherits, such as [toString]: the join then throws as soon as some
    sheet has a row, and yields no row when no sheet has one. *)
Theorem join_without_key_candidates (sheets : list SheetData)
    (mappings : gmap jsstring (option (list jsstring))) (config : MergeConfig) :
  default [] (mappings !! joinKey config ≫= id) = [] ->
  (is_Some (mappings !! joinKey config) \/ joinKey config ∉ objectPrototypeNames ->
   MergeExn.joinData sheets mappings config = Some [] /\
   (method config = join_ ->
    MergeExn.mergeData sheets mappings (Some config) = Some [])) /\
  (mappings !! joinKey config = None -> joinKey config ∈ objectPrototypeNames ->
   MergeExn.joinData sheets mappings config
   = if forallb noRows sheets then Some [] else None).
Proof.
  intros Hids. split.
  - intros Hk.
    assert (Hc : MergeExn.keyCandidates mappings (joinKey config) = Some []).
    { unfold MergeExn.keyCandidates.
      destruct (mappings !! joinKey config) as [[ids|]|]; cbn in Hids.
      - by rewrite Hids.
      - done.
      - destruct Hk as [[? [=]]|Hk]. by rewrite bool_decide_eq_false_2. }
    split; [by apply joinData_key_without_candidates|].
    intros Hm. unfold MergeExn.mergeData. rewrite Hm.
    by apply joinData_key_without_candidates.
  - intros Hnone Hin. apply joinData_inherited_key.
    unfold MergeExn.keyCandidates. rewrite Hnone. by rewrite bool_decide_eq_true_2.
Qed.

(** An instance: the join scenario with a join key that is no field,
    and with the join key [toString]. *)
Lemma join_without_key_candidates_witness :
  MergeExn.joinData [joinSheetA; joinSheetB] (Some <$> joinMapping)
    {| method := join_; joinKey := str "nope"; joinType := outer;
       removeDuplicates := true |} = Some [] /\
  MergeExn.joinData [joinSheetA; joinSheetB] (Some <$> joinMapping)
    {| method := join_; joinKey := str "toString"; joinType := outer;
       removeDuplicates := true |} = None.
Proof.
  assert (H1 : default [] ((Some <$> joinMapping) !! str "nope" ≫= id) = [])
    by (vm_compute; reflexivity).
  assert (H2 : default [] ((Some <$> joinMapping) !! str "toString" ≫= id) = [])
    by (vm_compute; reflexivity).
  split.
  - refine (proj1 (proj1 (join_without_key_candidates [joinSheetA; joinSheetB]
             (Some <$> joinMapping)
             {| method := join_; joinKey := str "nope"; joinType := outer;
                removeDuplicates := true |} H1) _)).
    right. cbn [joinKey].
    apply (bool_decide_eq_false_1 (str "nope" ∈ objectPrototypeNames)).
    vm_compute. reflexivity.
  - apply (proj2 (join_without_key_candidates [joinSheetA; joinSheetB]
             (Some <$> joinMapping)
             {| method := join_; joinKey := str "toString"; joinType := outer;
                removeDuplicates := true |} H2)).
    + vm_compute. reflexivity.
    + cbn [joinKey].
      apply (bool_decide_eq_true_1 (str "toString" ∈ objectPrototypeNames)).
      vm_compute. reflexivity.
Defined.

(** ** Removing the field that is the join key *)

(** Property X18.
    Removing a field does not touch the join key. So after the field
    that is the join key is removed, the join key still names it and a
    confirmation with the join method is accepted. The merge then finds
    no candidate for the key: the merged table is empty, whatever the
    sheets hold and whichever join type is chosen, and the toast reports
    a successful merge. When the removed key is the name of a member
    every object inherits, the merge throws on the first row there is,
    nothing is stored and the toast reports an error. *)
Theorem removed_join_key_empties_join (st : ColumnMapper.State)
    (jt : JoinType) (rd : bool) (orderedSheets : list SheetData) :
  ColumnMapper.joinKey st <> [] ->
  let k := ColumnMapper.joinKey st in
  let st' := ColumnMapper.handleRemoveField k st in
  let config := {| method := join_; joinKey := k; joinType := jt;
                   removeDuplicates := rd |} in
  ColumnMapper.joinKey st' = k /\
  (k ∉ List.map key (ColumnMapper.fields st')) /\
  ColumnMapper.mapping st' = delete k (ColumnMapper.mapping st) /\
  handleConfirm join_ jt rd orderedSheets st'
    = Confirmed (ColumnMapper.mapping st') (ColumnMapper.fields st') config
                orderedSheets /\
  (k ∉ objectPrototypeNames ->
   handleConfirmMapping (ColumnMapper.mapping st') config orderedSheets
   = (Some [], ([36039; 26009; 21512; 20341; 25104; 21151; 65281]%N, success))) /\
  (k ∈ objectPrototypeNames ->
   handleConfirmMapping (ColumnMapper.mapping st') config orderedSheets
   = if forallb noRows orderedSheets
     then (Some [], ([36039; 26009; 21512; 20341; 25104; 21151; 65281]%N, success))
     else (None, ([21512; 20341; 36039; 26009; 26178; 30332; 29983; 37679;
                   35492]%N, error))).
Proof.
  intros Hk k st' config.
  assert (Hnone : ColumnMapper.mapping st' !! joinKey config = None)
    by apply lookup_delete_eq.
  split; [done|]. split; [|split; [done|split; [|split]]].
  - cbn. intros Hin. apply list_elem_of_In, in_map_iff in Hin as (f & Hf & Hin).
    apply filter_In in Hin as [_ Hn]. apply negb_true_iff, bool_decide_eq_false in Hn.
    done.
  - unfold handleConfirm.
    assert (Ht : truthy (VStr (ColumnMapper.joinKey st')) = true).
    { change (ColumnMapper.joinKey st') with (ColumnMapper.joinKey st).
      cbn. by destruct (ColumnMapper.joinKey st). }
    by rewrite Ht.
  - intros Hnot. unfold handleConfirmMapping, MergeExn.mergeData. cbn [method config].
    rewrite joinData_key_without_candidates; [done|].
    unfold MergeExn.keyCandidates. rewrite Hnone.
    by rewrite bool_decide_eq_false_2.
  - intros Hin. unfold handleConfirmMapping, MergeExn.mergeData. cbn [method config].
    rewrite joinData_inherited_key.
    + by destruct (forallb noRows orderedSheets).
    + unfold MergeExn.keyCandidates. rewrite Hnone.
      by rewrite bool_decide_eq_true_2.
Qed.

(** An instance: the state with the fields [A] and [B] and the join key
    [A]. *)
Lemma removed_join_key_empties_join_witness :
  handleConfirmMapping
    (ColumnMapper.mapping (ColumnMapper.handleRemoveField (str "A") twoFields))
    {| method := join_; joinKey := str "A"; joinType := outer;
       removeDuplicates := true |}
    [sampleSheetA]
  = (Some [], ([36039; 26009; 21512; 20341; 25104; 21151; 65281]%N, success)).
Proof.
  apply (proj1 (proj2 (proj2 (proj2 (proj2
           (removed_join_key_empties_join twoFields outer true [sampleSheetA]
              ltac:(discriminate))))))).
  apply (bool_decide_eq_false_1 (str "A" ∈ objectPrototypeNames)).
  vm_compute. reflexivity.
Defined.
(** ** Reading sheets *)

(** On the cells of the header row, holes left out, the names are those
    [makeHeadersUnique] gives, as long as no cell reads like a name
    inherited from [Object.prototype]. *)
Lemma makeHeadersUnique_sparse_from (counts : gmap jsstring nat)
    (rawHeaders : list (option value)) :
  Forall (fun h => cleanHeader (headerText h) ∉ objectPrototypeNames)
         (omap id rawHeaders) ->
  omap id (makeHeadersUnique_sparse (Some <$> counts) rawHeaders)
  = makeHeadersUnique_from counts (List.map headerText (omap id rawHeaders)).
Proof.
  revert counts. induction rawHeaders as [|[h|] rest IH]; intros counts Hall.
  - done.
  - cbn [omap list_omap id] in Hall. change (list_omap ?f ?l) with (omap f l) in Hall.
    apply Forall_cons in Hall as [Hh Hall].
    cbn [makeHeadersUnique_sparse omap list_omap id List.map makeHeadersUnique_from].
    assert (E : orElse (trim (orElse (headerText h) (str "Column"))) (str "Column")
                = orElse (trim (headerText h)) (str "Column")).
    { destruct (headerText h) as [|c t]; [|done]. reflexivity. }
    unfold cleanHeader in Hh. rewrite E in Hh.
    change (list_omap ?f ?l) with (omap f l).
    rewrite E, lookup_fmap.
    destruct (counts !! orElse (trim (headerText h)) (str "Column")) as [n|];
      cbn [fmap option_fmap option_map].
    + cbn [omap list_omap id]. change (list_omap ?f ?l) with (omap f l).
      rewrite <- (fmap_insert Some). by rewrite IH.
    + rewrite bool_decide_eq_false_2.
      2:{ intros Heq. apply Hh. rewrite Heq.
          apply (bool_decide_eq_true_1 (str "__proto__" ∈ objectPrototypeNames)).
          vm_compute. reflexivity. }
      rewrite bool_decide_eq_false_2 by done.
      cbn [omap list_omap id]. change (list_omap ?f ?l) with (omap f l).
      rewrite <- (fmap_insert Some). by rewrite IH.
  - cbn [makeHeadersUnique_sparse omap list_omap id].
    change (list_omap ?f ?l) with (omap f l). by apply IH.
Qed.

Lemma makeHeadersUnique_sparse_names (rawHeaders : list (option value)) :
  Forall (fun h => cleanHeader (headerText h) ∉ objectPrototypeNames)
         (omap id rawHeaders) ->
  omap id (makeHeadersUnique_sparse ∅ rawHeaders)
  = makeHeadersUnique (List.map headerText (omap id rawHeaders)).
Proof.
  intros H. rewrite <- (fmap_empty Some). by apply makeHeadersUnique_sparse_from.
Qed.

(** The holes of the header row stay where they are. *)
Lemma makeHeadersUnique_sparse_holes (counts : gmap jsstring (option nat))
    (rawHeaders : list (option value)) :
  length (makeHeadersUnique_sparse counts rawHeaders) = length rawHeaders /\
  forall i, makeHeadersUnique_sparse counts rawHeaders !! i = Some None
            <-> rawHeaders !! i = Some None.
Proof.
  revert counts. induction rawHeaders as [|[h|] rest IH]; intros counts.
  - done.
  - cbn [makeHeadersUnique_sparse].
    destruct (counts !! _) as [[n|]|]; [| |repeat case_bool_decide]; cbn [length];
      (split; [by rewrite (proj1 (IH _))|]);
      (intros [|i]; [done|]); cbn; apply IH.
  - cbn [makeHeadersUnique_sparse length]. split; [by rewrite (proj1 (IH _))|].
    intros [|i]; [done|]. cbn. apply IH.
Qed.

(** Without a hole and without an inherited name the headers are those
    of [makeHeadersUnique]. *)
Lemma makeHeadersUnique_sparse_dense (cells : list value) :
  Forall (fun h => cleanHeader (headerText h) ∉ objectPrototypeNames) cells ->
  makeHeadersUnique_sparse ∅ (Some <$> cells)
  = Some <$> makeHeadersUnique (List.map headerText cells).
Proof.
  intros Hall.
  assert (Hlen : forall counts,
            length (makeHeadersUnique_sparse counts (Some <$> cells)) = length cells).
  { intros counts. rewrite (proj1 (makeHeadersUnique_sparse_holes _ _)).
    apply length_fmap. }
  assert (Hsome : Forall is_Some (makeHeadersUnique_sparse ∅ (Some <$> cells))).
  { apply Forall_lookup. intros i [x|] Hi; [by eexists|].
    apply makeHeadersUnique_sparse_holes in Hi.
    rewrite list_lookup_fmap in Hi. by destruct (cells !! i). }
  assert (Homap : omap id (Some <$> cells) = cells).
  { clear. induction cells as [|c cells IH]; [done|].
    cbn. change (list_omap ?f ?l) with (omap f l). by rewrite IH. }
  pose proof (makeHeadersUnique_sparse_names (Some <$> cells)) as Hn.
  rewrite Homap in Hn. specialize (Hn Hall). rewrite <- Hn.
  clear -Hsome. induction Hsome as [|x l [y ->] _ IH]; [done|].
  cbn. change (list_omap ?f ?l) with (omap f l).
  change (list_fmap _ _ ?f ?l) with (f <$> l). by rewrite <- IH.
Qed.

Lemma buildRow_snoc (hs : list (option jsstring)) (x : option jsstring)
    (arr : list (option value)) :
  buildRow (hs ++ [x]) arr
  = match x with
    | Some header =>
        if isPresent (cellAt arr (length hs))
        then <[header := cellAt arr (length hs)]> (buildRow hs arr)
        else buildRow hs arr
    | None => buildRow hs arr
    end.
Proof.
  unfold buildRow. rewrite imap_app, foldl_app. cbn [imap foldl fst snd].
  by rewrite Nat.add_0_r.
Qed.

(** The cell a row object holds under a name: the last cell that is
    neither [undefined] nor [null] among the columns with that name. A
    column whose header is a hole gives nothing. *)
Lemma buildRow_lookup (hs : list (option jsstring)) (arr : list (option value))
    (h : jsstring) (v : value) :
  buildRow hs arr !! h = Some v <->
  exists i,
    hs !! i = Some (Some h) /\ cellAt arr i = v /\ isPresent v = true /\
    forall j, (i < j)%nat -> hs !! j = Some (Some h) ->
              isPresent (cellAt arr j) = false.
Proof.
  revert v. induction hs as [|x hs IH] using rev_ind; intros v.
  - unfold buildRow. cbn. rewrite lookup_empty. split; [done|].
    intros (i & Hi & _). by rewrite lookup_nil in Hi.
  - assert (Hkeep : forall w,
              (forall j, hs !! j = Some (Some h) -> (hs ++ [x]) !! j = Some (Some h)) /\
              ((exists i, hs !! i = Some (Some h) /\ cellAt arr i = w /\
                          isPresent w = true /\
                          forall j, (i < j)%nat -> hs !! j = Some (Some h) ->
                                    isPresent (cellAt arr j) = false) ->
               (x = Some h -> isPresent (cellAt arr (length hs)) = false) ->
               exists i, (hs ++ [x]) !! i = Some (Some h) /\ cellAt arr i = w /\
                         isPresent w = true /\
                         forall j, (i < j)%nat -> (hs ++ [x]) !! j = Some (Some h) ->
                                   isPresent (cellAt arr j) = false)).
    { intros w. split.
      - intros j Hj. rewrite lookup_app_l; [done|]. by apply lookup_lt_Some in Hj.
      - intros (i & Hi & Hv & Hpv & Hlast) Hx. exists i.
        assert (Hlt : (i < length hs)%nat) by by apply lookup_lt_Some in Hi.
        split; [by rewrite lookup_app_l|]. split; [done|]. split; [done|].
        intros j Hj Hl. destruct (decide (j < length hs)%nat) as [Hjl|Hjl].
        + rewrite lookup_app_l in Hl by done. by apply Hlast.
        + assert (j = length hs) as ->.
          { apply lookup_lt_Some in Hl. rewrite length_app in Hl. cbn in Hl. lia. }
          rewrite lookup_app_r, Nat.sub_diag in Hl by lia. cbn in Hl.
          apply Hx. congruence. }
    assert (Hback : forall w,
              (exists i, (hs ++ [x]) !! i = Some (Some h) /\ cellAt arr i = w /\
                         isPresent w = true /\
                         forall j, (i < j)%nat -> (hs ++ [x]) !! j = Some (Some h) ->
                                   isPresent (cellAt arr j) = false) ->
              (x = Some h -> isPresent (cellAt arr (length hs)) = false) ->
              exists i, hs !! i = Some (Some h) /\ cellAt arr i = w /\
                        isPresent w = true /\
                        forall j, (i < j)%nat -> hs !! j = Some (Some h) ->
                                  isPresent (cellAt arr j) = false).
    { intros w (i & Hi & Hv & Hpv & Hlast) Hx.
      destruct (decide (i < length hs)%nat) as [Hlt|Hge].
      - exists i. rewrite lookup_app_l in Hi by done.
        split; [done|]. split; [done|]. split; [done|].
        intros j Hj Hl. apply Hlast; [done|]. by apply (proj1 (Hkeep w)).
      - assert (i = length hs) as ->.
        { apply lookup_lt_Some in Hi. rewrite length_app in Hi. cbn in Hi. lia. }
        rewrite lookup_app_r, Nat.sub_diag in Hi by lia. cbn in Hi.
        subst w. rewrite Hx in Hpv by congruence. done. }
    rewrite buildRow_snoc. destruct x as [header|].
    + destruct (isPresent (cellAt arr (length hs))) eqn:Hp.
      * destruct (decide (header = h)) as [->|Hne].
        -- rewrite lookup_insert_eq. split.
           ++ intros [= <-]. exists (length hs). split; [|split; [|split]].
              ** by rewrite lookup_app_r, Nat.sub_diag.
              ** done.
              ** done.
              ** intros j Hj Hl. apply lookup_lt_Some in Hl.
                 rewrite length_app in Hl. cbn in Hl. lia.
           ++ intros (i & Hi & Hv & Hpv & Hlast).
              destruct (decide (i = length hs)) as [->|Hn]; [by rewrite Hv|].
              assert (Hlt : (i < length hs)%nat).
              { apply lookup_lt_Some in Hi. rewrite length_app in Hi. cbn in Hi. lia. }
              rewrite (Hlast (length hs) Hlt) in Hp; [done|].
              by rewrite lookup_app_r, Nat.sub_diag.
        -- rewrite lookup_insert_ne by done. rewrite IH. split.
           ++ intros H. apply (proj2 (Hkeep v)); [done|]. intros [= ?]. done.
           ++ intros H. apply (Hback v); [done|]. intros [= ?]. done.
      * rewrite IH. split.
        -- intros H. apply (proj2 (Hkeep v)); [done|]. done.
        -- intros H. apply (Hback v); [done|]. done.
    + rewrite IH. split.
      * intros H. apply (proj2 (Hkeep v)); [done|]. done.
      * intros H. apply (Hback v); [done|]. done.
Qed.

Lemma readExcelFiles_concat
    (files : list (jsstring * list (jsstring * list (list (option value))))) :
  readExcelFiles files
  = concat (List.map
              (fun file => omap (fun sheet => readSheet file.1 sheet.1 sheet.2) file.2)
              files).
Proof.
  unfold readExcelFiles.
  assert (Hin : forall (f : jsstring)
                  (wb : list (jsstring * list (list (option value)))) acc,
    foldl (fun results sheet =>
             match readSheet f sheet.1 sheet.2 with
             | Some s => results ++ [s]
             | None => results
             end) acc wb
    = acc ++ omap (fun sheet => readSheet f sheet.1 sheet.2) wb).
  { intros f wb. induction wb as [|sh wb IH]; intros acc; cbn [foldl omap list_omap].
    - by rewrite app_nil_r.
    - rewrite IH. destruct (readSheet f sh.1 sh.2); [|done].
      by rewrite <- app_assoc. }
  assert (Hout : forall acc,
    foldl (fun results file =>
             foldl (fun results sheet =>
                      match readSheet file.1 sheet.1 sheet.2 with
                      | Some s => results ++ [s]
                      | None => results
                      end) results file.2) acc files
    = acc ++ concat (List.map
                       (fun file => omap (fun sheet => readSheet file.1 sheet.1 sheet.2)
                                         file.2) files)).
  { induction files as [|file files IH]; intros acc; cbn [foldl List.map concat].
    - by rewrite app_nil_r.
    - by rewrite IH, Hin, <- app_assoc. }
  apply Hout.
Qed.

Lemma mapM_id_Some {A : Type} (l : list A) : mapM id (Some <$> l) = Some l.
Proof. induction l as [|x l IH]; [done|]. cbn. by rewrite IH. Qed.

(** Property X19.
    Reading returns the sheets file by file and, within a file, sheet by
    sheet. A worksheet without any row is not read; any other gives a
    sheet with one header per cell of its first row and one row object
    per further row. A hole of the first row stays a hole of the
    headers; the cells there are get, in order, the names
    [makeHeadersUnique] gives them, as long as none reads like a name
    inherited from [Object.prototype] (a header [toString] comes out as
    [toString_NaN]). A row object only holds names of headers, and a
    cell it holds is never [undefined] or [null]: it is the last such
    cell among the columns with that name, so under pairwise distinct
    header names it is the cell of its column. The cells of a column
    whose header is a hole are dropped. When the first row has no hole
    and no inherited name, the sheet read is a sheet with the headers
    [makeHeadersUnique] gives. *)
Theorem read_sheet_rows (fileName_ sheetName_ : jsstring)
    (rawHeaders : list (option value)) (body : list (list (option value))) :
  (forall files,
     readExcelFiles files
     = concat (List.map
                 (fun file => omap (fun sheet => readSheet file.1 sheet.1 sheet.2)
                                   file.2)
                 files)) /\
  readSheet fileName_ sheetName_ [] = None /\
  makeHeadersUnique_sparse ∅ [Some (VStr (str "toString")); None;
                               Some (VStr (str "toString"))]
    = [Some (str "toString_NaN"); None; Some (str "toString_NaN")] /\
  exists sheet,
    readSheet fileName_ sheetName_ (rawHeaders :: body) = Some sheet /\
    read_fileName sheet = fileName_ /\ read_sheetName sheet = sheetName_ /\
    read_headers sheet = makeHeadersUnique_sparse ∅ rawHeaders /\
    length (read_headers sheet) = length rawHeaders /\
    (forall i, read_headers sheet !! i = Some None <-> rawHeaders !! i = Some None) /\
    (Forall (fun h => cleanHeader (headerText h) ∉ objectPrototypeNames)
            (omap id rawHeaders) ->
     omap id (read_headers sheet)
       = makeHeadersUnique (List.map headerText (omap id rawHeaders))) /\
    (forall cells,
       rawHeaders = Some <$> cells ->
       Forall (fun h => cleanHeader (headerText h) ∉ objectPrototypeNames) cells ->
       toSheetData sheet
       = Some {| fileName := fileName_; sheetName := sheetName_;
                 headers := makeHeadersUnique (List.map headerText cells);
                 rows := read_rows sheet |}) /\
    length (read_rows sheet) = length body /\
    forall k rowArray,
      body !! k = Some rowArray ->
      exists row,
        read_rows sheet !! k = Some row /\
        (forall h v, row !! h = Some v ->
           Some h ∈ read_headers sheet /\ isPresent v = true) /\
        (forall h v, row !! h = Some v <->
           exists i,
             read_headers sheet !! i = Some (Some h) /\ cellAt rowArray i = v /\
             isPresent v = true /\
             forall j, (i < j)%nat -> read_headers sheet !! j = Some (Some h) ->
                       isPresent (cellAt rowArray j) = false) /\
        (NoDup (omap id (read_headers sheet)) ->
         forall i h, read_headers sheet !! i = Some (Some h) ->
           row !! h = (if isPresent (cellAt rowArray i)
                       then Some (cellAt rowArray i) else None)).
Proof.
  split; [apply readExcelFiles_concat|].
  split; [done|]. split; [vm_compute; reflexivity|].
  eexists. split; [reflexivity|].
  cbn [read_fileName read_sheetName read_headers read_rows].
  split; [done|]. split; [done|]. split; [done|].
  split; [apply makeHeadersUnique_sparse_holes|].
  split; [apply makeHeadersUnique_sparse_holes|].
  split; [apply makeHeadersUnique_sparse_names|].
  split.
  { intros cells -> Hall. unfold toSheetData.
    cbn [read_fileName read_sheetName read_headers read_rows].
    rewrite makeHeadersUnique_sparse_dense by done.
    rewrite mapM_id_Some. done. }
  split; [by rewrite length_map|].
  intros k rowArray Hk. eexists. split.
  { rewrite lookup_map. by rewrite Hk. }
  set (hs := makeHeadersUnique_sparse ∅ rawHeaders).
  split; [|split].
  - intros h v Hv. apply buildRow_lookup in Hv as (i & Hi & _ & Hp & _).
    split; [by eapply list_elem_of_lookup_2|done].
  - intros h v. apply buildRow_lookup.
  - intros Hnd i h Hi.
    assert (Hsame : forall j, hs !! j = Some (Some h) -> j = i).
    { intros j Hj. clear -Hnd Hi Hj. revert i j Hi Hj.
      induction hs as [|[x|] hs IH]; intros i j Hi Hj; [done| |].
      - cbn [omap list_omap id] in Hnd. change (list_omap ?f ?l) with (omap f l) in Hnd.
        apply NoDup_cons in Hnd as [Hx Hnd].
        assert (Hin : forall n, hs !! n = Some (Some x) -> False).
        { intros n Hn. apply Hx. apply list_elem_of_omap. exists (Some x).
          split; [by eapply list_elem_of_lookup_2|done]. }
        destruct i as [|i], j as [|j]; cbn in Hi, Hj.
        + done.
        + injection Hi as ->. by destruct (Hin j).
        + injection Hj as ->. by destruct (Hin i).
        + f_equal. by apply IH.
      - cbn [omap list_omap id] in Hnd. change (list_omap ?f ?l) with (omap f l) in Hnd.
        destruct i as [|i], j as [|j]; cbn in Hi, Hj; [done..|].
        f_equal. by apply IH. }
    destruct (isPresent (cellAt rowArray i)) eqn:Hp.
    + apply buildRow_lookup. exists i.
      split; [done|]. split; [done|]. split; [done|].
      intros j Hj Hl. apply Hsame in Hl. lia.
    + destruct (buildRow hs rowArray !! h) as [v|] eqn:Hv; [|done].
      apply buildRow_lookup in Hv as (i' & Hi' & Hv & Hpv & _).
      apply Hsame in Hi'. subst i'. rewrite Hv in Hp. congruence.
Qed.

(** An instance: a header row with a hole between two cells, and one
    row of three cells; the cell under the hole is dropped. *)
Lemma read_sheet_rows_witness :
  exists sheet,
    readSheet (str "f") (str "s")
      [[Some (VStr (str "a")); None; Some (VStr (str "b"))];
       [Some (VNum (ofZ 1)); Some (VNum (ofZ 2)); Some VNull]] = Some sheet /\
    read_headers sheet = [Some (str "a"); None; Some (str "b")] /\
    read_rows sheet = [ {[ str "a" := VNum (ofZ 1) ]} ].
Proof.
  destruct (read_sheet_rows (str "f") (str "s")
              [Some (VStr (str "a")); None; Some (VStr (str "b"))]
              [[Some (VNum (ofZ 1)); Some (VNum (ofZ 2)); Some VNull]])
    as (_ & _ & _ & sheet & Hs & _).
  exists sheet. split; [exact Hs|].
  vm_compute in Hs. injection Hs as <-. split; vm_compute; reflexivity.
Defined.

(** ** Exporting sheets *)

Lemma cleanRow_headers_lookup (row : gmap jsstring value) (hs : list jsstring)
    (acc : gmap jsstring value) (h : jsstring) :
  foldl (fun (cleanRow : gmap jsstring value) header =>
           <[header := get row header]> cleanRow) acc hs !! h
  = if bool_decide (h ∈ hs) then Some (get row h) else acc !! h.
Proof.
  revert acc. induction hs as [|x hs IH]; intros acc; cbn [foldl].
  - by rewrite bool_decide_eq_false_2 by apply not_elem_of_nil.
  - rewrite IH. destruct (decide (h ∈ hs)) as [Hin|Hin].
    + by rewrite !bool_decide_eq_true_2 by (done || by right).
    + rewrite (bool_decide_eq_false_2 (h ∈ hs)) by done.
      destruct (decide (x = h)) as [->|Hne].
      * rewrite bool_decide_eq_true_2 by left. apply lookup_insert_eq.
      * rewrite lookup_insert_ne by done.
        rewrite bool_decide_eq_false_2; [done|].
        intros [?|?]%elem_of_cons; [by subst|done].
Qed.

Lemma exported_rows_hold_the_headers_aux (sheet : SheetData) :
  length (getCleanSheetData sheet) = length (rows sheet) /\
  forall k row,
    rows sheet !! k = Some row ->
    exists cleanRow,
      getCleanSheetData sheet !! k = Some cleanRow /\
      forall h, cleanRow !! h
                = if bool_decide (h ∈ headers sheet) then Some (get row h) else None.
Proof.
  unfold getCleanSheetData. split; [by rewrite length_map|].
  intros k row Hk. eexists. split; [rewrite lookup_map; by rewrite Hk|].
  intros h. by rewrite cleanRow_headers_lookup, lookup_empty.
Qed.

(** Property X20.
    The rows written for a sheet hold its headers as their names and
    nothing else: under each header the cell of the row, [undefined]
    where the row has none, and no cell the row holds under a name that
    is not a header. *)
Theorem exported_rows_hold_the_headers (sheet : SheetData) :
  length (getCleanSheetData sheet) = length (rows sheet) /\
  forall k row,
    rows sheet !! k = Some row ->
    exists cleanRow,
      getCleanSheetData sheet !! k = Some cleanRow /\
      (forall h, h ∈ headers sheet -> cleanRow !! h = Some (get row h)) /\
      (forall h, h ∉ headers sheet -> cleanRow !! h = None) /\
      dom cleanRow = list_to_set (headers sheet).
Proof.
  unfold getCleanSheetData. split; [by rewrite length_map|].
  intros k row Hk. eexists. split; [rewrite lookup_map; by rewrite Hk|].
  split; [|split].
  - intros h Hh. by rewrite cleanRow_headers_lookup, bool_decide_eq_true_2.
  - intros h Hh. by rewrite cleanRow_headers_lookup, bool_decide_eq_false_2.
  - apply set_eq. intros h. rewrite elem_of_dom, elem_of_list_to_set.
    rewrite cleanRow_headers_lookup. destruct (decide (h ∈ headers sheet)).
    + rewrite bool_decide_eq_true_2 by done. split; [done|by eexists].
    + rewrite bool_decide_eq_false_2 by done. rewrite lookup_empty.
      split; [by intros [? ?]|done].
Qed.

(** An instance: the first row of the sample sheet. *)
Lemma exported_rows_hold_the_headers_witness :
  exists cleanRow,
    getCleanSheetData sampleSheetA !! 0%nat = Some cleanRow /\
    cleanRow !! str "Name" = Some (get {[ str "Name" := VStr (str "Ann") ]} (str "Name")).
Proof.
  destruct (proj2 (exported_rows_hold_the_headers sampleSheetA) 0%nat
              {[ str "Name" := VStr (str "Ann") ]} eq_refl)
    as (cleanRow & Hc & Hh & _).
  exists cleanRow. split; [exact Hc|]. apply Hh. left.
Defined.

Lemma small_number_text (r : nat) :
  (r < 99)%nat ->
  (length (toString (ofZ (Z.of_nat r))) <= 2)%nat /\
  Forall (fun c => isForbiddenInSheetName c = false) (toString (ofZ (Z.of_nat r))).
Proof.
  intros Hr.
  assert (Hall : forallb
            (fun r => (length (toString (ofZ (Z.of_nat r))) <=? 2)%nat
                      && forallb (fun c => negb (isForbiddenInSheetName c))
                                 (toString (ofZ (Z.of_nat r))))
            (seq 0 99) = true) by (vm_compute; reflexivity).
  rewrite forallb_forall in Hall.
  specialize (Hall r ltac:(apply in_seq; lia)).
  apply andb_true_iff in Hall as [Hl Hf]. split; [by apply Nat.leb_le|].
  rewrite forallb_forall in Hf. apply Forall_forall. intros c Hc.
  apply negb_true_iff, Hf. by apply list_elem_of_In.
Qed.

Lemma filter_not_forbidden (s : jsstring) :
  Forall (fun c => isForbiddenInSheetName c = false)
         (List.filter (fun c => negb (isForbiddenInSheetName c)) s).
Proof.
  apply Forall_forall. intros c Hc. apply list_elem_of_In, filter_In in Hc as [_ Hc].
  by apply negb_true_iff.
Qed.

Lemma filter_length_le {A : Type} (p : A -> bool) (l : list A) :
  (length (List.filter p l) <= length l)%nat.
Proof. induction l as [|x l IH]; cbn; [done|]. destruct (p x); cbn; lia. Qed.

(** Property X21.
    Every sheet of a workbook is appended under a name of at most 31
    code units without any of the characters [: \ / ? * [ ]], also when
    the name was taken and a number below 99 is put behind its first 28
    code units; and every file of a zip export is named without these
    characters. *)
Theorem export_names_are_safe (random : nat -> nat) (sheets : list SheetData) :
  (forall i, (random i < 99)%nat) ->
  length (workbookSheetNames random 0 [] sheets) = length sheets /\
  Forall safeSheetName (workbookSheetNames random 0 [] sheets) /\
  Forall (Forall (fun c => isForbiddenInSheetName c = false)) (zipFileNames sheets).
Proof.
  intros Hr.
  assert (H : forall i names,
            Forall safeSheetName names ->
            length (workbookSheetNames random i names sheets)
              = (length names + length sheets)%nat /\
            Forall safeSheetName (workbookSheetNames random i names sheets)).
  { induction sheets as [|sheet rest IH]; intros i names Hn;
      cbn [workbookSheetNames].
    - split; [cbn; lia|done].
    - set (base := List.filter (fun c => negb (isForbiddenInSheetName c))
                               (take 31 (sheetName sheet))).
      assert (Hbase : safeSheetName base).
      { split; [|apply filter_not_forbidden].
        etrans; [apply filter_length_le|]. rewrite length_take. lia. }
      destruct (IH (S i) (names ++ [if bool_decide (base ∈ names)
                                    then take 28 base ++ str "_"
                                         ++ toString (ofZ (Z.of_nat (random i)))
                                    else base])) as [Hl Hs].
      + apply Forall_app. split; [done|]. constructor; [|done].
        destruct (bool_decide (base ∈ names)); [|done].
        destruct (small_number_text (random i) (Hr i)) as [Hlen Hdig]. split.
        * rewrite !length_app, length_take.
          change (length (str "_")) with 1%nat. lia.
        * apply Forall_app. split; [apply Forall_take, Hbase|].
          apply Forall_app. split; [by repeat constructor|done].
      + split; [|done]. rewrite Hl, length_app. cbn. lia. }
  destruct (H 0%nat [] ltac:(constructor)) as [Hl Hs].
  split; [done|]. split; [done|].
  unfold zipFileNames. apply Forall_forall. intros n Hn.
  apply list_elem_of_In, in_map_iff in Hn as (sheet & <- & _).
  apply Forall_app. split; [|by repeat constructor].
  apply Forall_forall. intros c Hc.
  apply list_elem_of_In, in_map_iff in Hc as (c0 & <- & _).
  by destruct (isForbiddenInSheetName c0) eqn:E.
Qed.

(** An instance: two sheets of one name. *)
Lemma export_names_are_safe_witness :
  Forall safeSheetName (workbookSheetNames (fun _ => 7%nat) 0 [] [sampleSheetA; sampleSheetB]).
Proof.
  apply (export_names_are_safe (fun _ => 7%nat) [sampleSheetA; sampleSheetB]).
  intros _. lia.
Defined.

(** ** The data cleaner: columns *)

Lemma cleaner_frame (st : DataCleaner.State) :
  DataCleaner.sheets st <> [] ->
  0 <= DataCleaner.historyIndex st /\
  DataCleaner.history st !! Z.to_nat (DataCleaner.historyIndex st)
    = Some (Some (DataCleaner.sheets st)).
Proof.
  unfold DataCleaner.sheets, DataCleaner.frameAt. intros H.
  destruct (DataCleaner.historyIndex st <? 0) eqn:E; [done|].
  apply Z.ltb_ge in E. split; [done|].
  destruct (DataCleaner.history st !! _) as [[l|]|]; done.
Qed.

Lemma activeSheet_frame (st : DataCleaner.State) (sheet : SheetData) :
  DataCleaner.activeSheet st = Some sheet ->
  DataCleaner.sheets st <> [] /\ sheet ∈ DataCleaner.sheets st /\
  sheetName sheet = DataCleaner.activeSheetName st.
Proof.
  unfold DataCleaner.activeSheet. intros H. apply find_some in H as [Hin Hn].
  apply bool_decide_eq_true in Hn. split; [|split; [by apply list_elem_of_In|done]].
  intros E. by rewrite E in Hin.
Qed.

Lemma cleaner_push (newSheets : list SheetData) (st : DataCleaner.State) :
  DataCleaner.sheets st <> [] ->
  DataCleaner.sheets (DataCleaner.pushToHistory newSheets st) = newSheets /\
  DataCleaner.historyIndex (DataCleaner.pushToHistory newSheets st)
    = DataCleaner.historyIndex st + 1 /\
  DataCleaner.history (DataCleaner.pushToHistory newSheets st)
      !! Z.to_nat (DataCleaner.historyIndex st)
    = Some (Some (DataCleaner.sheets st)).
Proof.
  intros Hne. destruct (cleaner_frame st Hne) as [Hi Hl].
  assert (Hlt : (Z.to_nat (DataCleaner.historyIndex st)
                 < length (DataCleaner.history st))%nat)
    by by apply lookup_lt_Some in Hl.
  assert (Hs : DataCleaner.sliceTo (DataCleaner.history st)
                 (DataCleaner.historyIndex st + 1)
               = take (S (Z.to_nat (DataCleaner.historyIndex st)))
                      (DataCleaner.history st)).
  { unfold DataCleaner.sliceTo.
    destruct (DataCleaner.historyIndex st + 1 <? 0) eqn:E; [apply Z.ltb_lt in E; lia|].
    f_equal. lia. }
  assert (Hlen : length (take (S (Z.to_nat (DataCleaner.historyIndex st)))
                              (DataCleaner.history st))
                 = S (Z.to_nat (DataCleaner.historyIndex st)))
    by (rewrite length_take; lia).
  assert (Hidx : DataCleaner.historyIndex (DataCleaner.pushToHistory newSheets st)
                 = DataCleaner.historyIndex st + 1).
  { cbn. rewrite Hs, length_app, Hlen. cbn. lia. }
  split; [|split; [done|]].
  - unfold DataCleaner.sheets, DataCleaner.frameAt. rewrite Hidx.
    destruct (DataCleaner.historyIndex st + 1 <? 0) eqn:E; [apply Z.ltb_lt in E; lia|].
    cbn [DataCleaner.history DataCleaner.pushToHistory]. rewrite Hs.
    rewrite lookup_app_r by (rewrite Hlen; lia).
    rewrite Hlen.
    replace (Z.to_nat (DataCleaner.historyIndex st + 1)
             - S (Z.to_nat (DataCleaner.historyIndex st)))%nat with 0%nat by lia.
    done.
  - cbn [DataCleaner.history DataCleaner.pushToHistory]. rewrite Hs.
    rewrite lookup_app_l by (rewrite Hlen; lia).
    by rewrite lookup_take_lt by lia.
Qed.

Lemma cleaner_undo_push (newSheets : list SheetData) (st : DataCleaner.State) :
  DataCleaner.sheets st <> [] ->
  DataCleaner.sheets (DataCleaner.undo (DataCleaner.pushToHistory newSheets st))
  = DataCleaner.sheets st.
Proof.
  intros Hne. destruct (cleaner_frame st Hne) as [Hi _].
  destruct (cleaner_push newSheets st Hne) as (_ & Hidx & Hold).
  unfold DataCleaner.undo. rewrite Hidx.
  destruct (0 <? DataCleaner.historyIndex st + 1) eqn:E; [|apply Z.ltb_ge in E; lia].
  unfold DataCleaner.sheets at 1, DataCleaner.frameAt.
  cbn [DataCleaner.historyIndex DataCleaner.history DataCleaner.onNotify
       DataCleaner.setHistoryIndex].
  replace (DataCleaner.historyIndex st + 1 - 1) with (DataCleaner.historyIndex st) by lia.
  destruct (DataCleaner.historyIndex st <? 0) eqn:E'; [apply Z.ltb_lt in E'; lia|].
  by rewrite Hold.
Qed.

Lemma commitHeaders_sheets (newHeaders : list jsstring) (st : DataCleaner.State) :
  DataCleaner.sheets st <> [] ->
  DataCleaner.sheets (DataCleaner.commitHeaders newHeaders st)
    = List.map (fun sheet =>
                  if bool_decide (sheetName sheet = DataCleaner.activeSheetName st)
                  then DataCleaner.withHeaders newHeaders sheet else sheet)
               (DataCleaner.sheets st) /\
  DataCleaner.sheets (DataCleaner.undo (DataCleaner.commitHeaders newHeaders st))
    = DataCleaner.sheets st.
Proof.
  intros Hne. unfold DataCleaner.commitHeaders. cbv zeta.
  set (newSheets := List.map _ (DataCleaner.sheets st)). split.
  - change (DataCleaner.sheets (DataCleaner.onNotify ?m ?t
              (DataCleaner.setSelectedCols ?c ?s))) with (DataCleaner.sheets s).
    by destruct (cleaner_push newSheets st Hne) as (-> & _).
  - etrans; [|apply (cleaner_undo_push newSheets st Hne)].
    unfold DataCleaner.undo.
    change (DataCleaner.historyIndex (DataCleaner.onNotify ?m ?t
              (DataCleaner.setSelectedCols ?c ?s)))
      with (DataCleaner.historyIndex s).
    destruct (0 <? _); done.
Qed.

(** Property X22.
    Deleting the selected columns, or keeping only them, rewrites the
    headers of the active sheet and nothing else: every sheet keeps its
    rows with all their cells, the selection is cleared, and an undo
    displays the sheets as they were. What is written on export follows
    the headers, so a row of the active sheet is written with exactly
    the headers that remain, each with the cell it had. With no column
    selected the operation only raises an error toast. *)
Theorem column_removal_keeps_the_rows (st : DataCleaner.State) (active : SheetData)
    (keep : bool) :
  DataCleaner.activeSheet st = Some active ->
  DataCleaner.selectedRowOp st
    = (if keep then DataCleaner.keepSelectedCols else DataCleaner.deleteSelectedCols) ->
  let st' := DataCleaner.executeRowOp st in
  let remains h := if keep then bool_decide (h ∈ DataCleaner.selectedCols st)
                   else negb (bool_decide (h ∈ DataCleaner.selectedCols st)) in
  (DataCleaner.selectedCols st = [] -> DataCleaner.sheets st' = DataCleaner.sheets st /\
     DataCleaner.history st' = DataCleaner.history st /\
     List.map snd (DataCleaner.toasts st')
       = List.map snd (DataCleaner.toasts st) ++ [error]) /\
  (DataCleaner.selectedCols st <> [] ->
   DataCleaner.sheets st'
     = List.map (fun sheet =>
                   if bool_decide (sheetName sheet = DataCleaner.activeSheetName st)
                   then DataCleaner.withHeaders
                          (List.filter remains (headers active)) sheet
                   else sheet)
                (DataCleaner.sheets st) /\
   List.map rows (DataCleaner.sheets st') = List.map rows (DataCleaner.sheets st) /\
   DataCleaner.selectedCols st' = [] /\
   DataCleaner.sheets (DataCleaner.undo st') = DataCleaner.sheets st /\
   forall sheet' k row,
     sheet' ∈ DataCleaner.sheets st' ->
     sheetName sheet' = DataCleaner.activeSheetName st ->
     rows sheet' !! k = Some row ->
     exists cleanRow,
       getCleanSheetData sheet' !! k = Some cleanRow /\
       forall h, cleanRow !! h
                 = if bool_decide (h ∈ headers active) && remains h
                   then Some (get row h) else None).
Proof.
  intros Hact Hop st' remains.
  destruct (activeSheet_frame st active Hact) as (Hne & Hin & Hname).
  split.
  - intros Hsel. unfold st', DataCleaner.executeRowOp. rewrite Hact, Hop, Hsel.
    destruct keep; cbn; by rewrite List.map_app.
  - intros Hsel.
    set (newSheets := List.map (fun sheet =>
                   if bool_decide (sheetName sheet = DataCleaner.activeSheetName st)
                   then DataCleaner.withHeaders
                          (List.filter remains (headers active)) sheet
                   else sheet) (DataCleaner.sheets st)).
    assert (Hst : st' = DataCleaner.commitHeaders
                          (List.filter remains (headers active)) st).
    { unfold st', DataCleaner.executeRowOp. rewrite Hact, Hop.
      destruct (DataCleaner.selectedCols st) eqn:E; [done|]. by destruct keep. }
    destruct (commitHeaders_sheets (List.filter remains (headers active)) st Hne)
      as [Hsheets Hundo].
    rewrite <- Hst in Hsheets, Hundo. fold newSheets in Hsheets.
    split; [exact Hsheets|]. split; [|split; [by rewrite Hst|split]].
    + rewrite Hsheets. unfold newSheets. rewrite List.map_map.
      apply List.map_ext. intros s. by destruct (bool_decide _).
    + exact Hundo.
    + intros sheet' k row Hs' Hn' Hk. rewrite Hsheets in Hs'.
      apply list_elem_of_In, in_map_iff in Hs' as (s & Hs & _).
      assert (Hh : headers sheet' = List.filter remains (headers active)).
      { destruct (bool_decide (sheetName s = DataCleaner.activeSheetName st)) eqn:E;
          [by subst sheet'|].
        apply bool_decide_eq_false in E. subst sheet'. done. }
      destruct (proj2 (exported_rows_hold_the_headers_aux sheet') k row Hk)
        as (cleanRow & Hc & Hl).
      exists cleanRow. split; [done|]. intros h. rewrite Hl, Hh.
      destruct (decide (h ∈ headers active)) as [Hha|Hha].
      * rewrite (bool_decide_eq_true_2 (h ∈ headers active)) by done. cbn [andb].
        destruct (remains h) eqn:Hr.
        -- rewrite bool_decide_eq_true_2; [done|].
           apply list_elem_of_In, filter_In. split; [by apply list_elem_of_In|done].
        -- rewrite bool_decide_eq_false_2; [done|].
           intros Hf. apply list_elem_of_In, filter_In in Hf as [_ Hf]. congruence.
      * rewrite (bool_decide_eq_false_2 (h ∈ headers active)) by done. cbn [andb].
        rewrite bool_decide_eq_false_2; [done|].
        intros Hf. apply list_elem_of_In, filter_In in Hf as [Hf _].
        by apply list_elem_of_In in Hf.
Qed.

(** An instance: the column [Name] of the sample sheet deleted. *)
Lemma column_removal_keeps_the_rows_witness :
  List.map rows (DataCleaner.sheets
                   (DataCleaner.executeRowOp
                      (cleanerSample DataCleaner.deleteSelectedCols)))
  = List.map rows (DataCleaner.sheets (cleanerSample DataCleaner.deleteSelectedCols)).
Proof.
  apply (column_removal_keeps_the_rows (cleanerSample DataCleaner.deleteSelectedCols)
           sampleSheetA false); [reflexivity|reflexivity|discriminate].
Defined.

(** ** The data cleaner: swapping two columns *)

Lemma findIndex_spec {A : Type} (p : A -> bool) (l : list A) :
  (findIndex p l = -1 /\ forall x, x ∈ l -> p x = false) \/
  (exists i x, findIndex p l = Z.of_nat i /\ l !! i = Some x /\ p x = true /\
               forall j y, (j < i)%nat -> l !! j = Some y -> p y = false).
Proof.
  induction l as [|a l IH]; cbn [findIndex].
  - left. split; [done|]. by intros x ?%elem_of_nil.
  - destruct (p a) eqn:Ha.
    + right. exists 0%nat, a. repeat split; try done. intros j y Hj. lia.
    + destruct IH as [[-> Hall]|(i & x & -> & Hi & Hx & Hlt)].
      * left. split; [done|]. intros x [->|Hx]%elem_of_cons; [done|by apply Hall].
      * right. exists (S i), x. split.
        { rewrite Nat2Z.inj_succ. pose proof (Nat2Z.is_nonneg i) as Hz.
          destruct (Z.of_nat i) as [|q|q]; [done|lia|lia]. }
        split; [done|]. split; [done|].
        intros [|j] y Hj Hy; cbn in Hy; [congruence|]. apply (Hlt j); [lia|done].
Qed.

Lemma findIndex_NoDup (hs : list jsstring) (a : jsstring) (i : nat) :
  NoDup hs -> hs !! i = Some a ->
  findIndex (fun h => bool_decide (h = a)) hs = Z.of_nat i.
Proof.
  intros Hnd Hi.
  destruct (findIndex_spec (fun h => bool_decide (h = a)) hs)
    as [[_ Hall]|(j & x & -> & Hj & Hx & _)].
  - specialize (Hall a ltac:(by eapply list_elem_of_lookup_2)).
    by apply bool_decide_eq_false in Hall.
  - apply bool_decide_eq_true in Hx as ->.
    by rewrite (NoDup_lookup _ _ _ _ Hnd Hi Hj).
Qed.

Lemma findIndex_absent (hs : list jsstring) (a : jsstring) :
  a ∉ hs -> findIndex (fun h => bool_decide (h = a)) hs = -1.
Proof.
  intros Ha.
  destruct (findIndex_spec (fun h => bool_decide (h = a)) hs)
    as [[-> _]|(j & x & _ & Hj & Hx & _)]; [done|].
  apply bool_decide_eq_true in Hx as ->. destruct Ha.
  by eapply list_elem_of_lookup_2.
Qed.

(** Writing at two positions what the other held is a permutation. *)
Lemma insert_swap_Permutation (l : list jsstring) (i j : nat) (x y : jsstring) :
  l !! i = Some x -> l !! j = Some y ->
  <[j := x]> (<[i := y]> l) ≡ₚ l.
Proof.
  intros Hi Hj. destruct (decide (i = j)) as [->|Hne].
  { assert (x = y) as -> by congruence.
    by rewrite list_insert_insert_eq, list_insert_id. }
  apply Permutation_inj. split; [by rewrite !length_insert|].
  exists (fun n => if decide (n = i) then j else if decide (n = j) then i else n).
  split.
  - intros n m. repeat destruct (decide _); intros; subst; congruence.
  - intros n. pose proof (lookup_lt_Some _ _ _ Hi). pose proof (lookup_lt_Some _ _ _ Hj).
    destruct (decide (n = j)) as [->|Hnj].
    + rewrite list_lookup_insert_eq by (rewrite length_insert; lia).
      destruct (decide (j = i)); [congruence|].
      destruct (decide (j = j)); [done|congruence].
    + rewrite list_lookup_insert_ne by done.
      destruct (decide (n = i)) as [->|Hni].
      * by rewrite list_lookup_insert_eq.
      * rewrite list_lookup_insert_ne by done.
        destruct (decide (n = i)); [congruence|].
        destruct (decide (n = j)); [congruence|done].
Qed.

Lemma swapHeaders_found (a b : jsstring) (hs : list jsstring) (i j : nat) :
  findIndex (fun h => bool_decide (h = a)) hs = Z.of_nat i ->
  findIndex (fun h => bool_decide (h = b)) hs = Z.of_nat j ->
  DataCleaner.swapHeaders a b hs = <[j := a]> (<[i := b]> hs).
Proof.
  intros Ha Hb. unfold DataCleaner.swapHeaders. rewrite Ha, Hb.
  assert (Hi : (Z.of_nat i =? -1) = false) by (apply Z.eqb_neq; lia).
  assert (Hj : (Z.of_nat j =? -1) = false) by (apply Z.eqb_neq; lia).
  by rewrite Hi, Hj, !Nat2Z.id.
Qed.

Lemma swapHeaders_missing (a b : jsstring) (hs : list jsstring) :
  a ∉ hs \/ b ∉ hs -> DataCleaner.swapHeaders a b hs = hs.
Proof.
  intros H. unfold DataCleaner.swapHeaders.
  destruct H as [H|H]; rewrite (findIndex_absent _ _ H); [done|].
  by rewrite andb_false_r.
Qed.

Lemma handleSwapColumns_sheets (st : DataCleaner.State) (colA colB : jsstring) :
  DataCleaner.selectedCols st = [colA; colB] -> DataCleaner.sheets st <> [] ->
  DataCleaner.sheets (DataCleaner.handleSwapColumns st)
  = List.map (fun sheet =>
                if bool_decide (sheetName sheet = DataCleaner.activeSheetName st)
                then DataCleaner.withHeaders
                       (DataCleaner.swapHeaders colA colB (headers sheet)) sheet
                else sheet)
             (DataCleaner.sheets st).
Proof.
  intros Hsel Hne. unfold DataCleaner.handleSwapColumns. rewrite Hsel.
  set (newSheets := List.map _ (DataCleaner.sheets st)).
  change (DataCleaner.sheets (DataCleaner.onNotify ?m ?t
            (DataCleaner.setSelectedCols ?c ?s))) with (DataCleaner.sheets s).
  by destruct (cleaner_push newSheets st Hne) as (-> & _).
Qed.

(** Property X23.
    Swapping the two selected columns rewrites the headers of the active
    sheet and leaves every row as it is. The headers are permuted: they
    keep their number and their names. A selected column that is no
    header leaves them as they are. Under pairwise distinct headers the
    two columns take each other's place, every other header stays where
    it is, the order of the two in the selection is immaterial, and a
    second swap of the same two restores the order. *)
Theorem swap_columns_permutes_headers (colA colB : jsstring) (hs : list jsstring) :
  (forall st,
     DataCleaner.selectedCols st = [colA; colB] -> DataCleaner.sheets st <> [] ->
     DataCleaner.sheets (DataCleaner.handleSwapColumns st)
     = List.map (fun sheet =>
                   if bool_decide (sheetName sheet = DataCleaner.activeSheetName st)
                   then DataCleaner.withHeaders
                          (DataCleaner.swapHeaders colA colB (headers sheet)) sheet
                   else sheet)
                (DataCleaner.sheets st)) /\
  DataCleaner.swapHeaders colA colB hs ≡ₚ hs /\
  (colA ∉ hs \/ colB ∉ hs -> DataCleaner.swapHeaders colA colB hs = hs) /\
  (NoDup hs ->
   (forall i j, hs !! i = Some colA -> hs !! j = Some colB ->
      DataCleaner.swapHeaders colA colB hs !! i = Some colB /\
      DataCleaner.swapHeaders colA colB hs !! j = Some colA /\
      forall k, k <> i -> k <> j ->
                DataCleaner.swapHeaders colA colB hs !! k = hs !! k) /\
   DataCleaner.swapHeaders colB colA hs = DataCleaner.swapHeaders colA colB hs /\
   DataCleaner.swapHeaders colA colB (DataCleaner.swapHeaders colA colB hs) = hs).
Proof.
  split; [intros st; apply handleSwapColumns_sheets|].
  split; [|split; [apply swapHeaders_missing|]].
  - destruct (findIndex_spec (fun h => bool_decide (h = colA)) hs)
      as [[Ha _]|(i & x & Ha & Hi & Hx & _)].
    { unfold DataCleaner.swapHeaders. by rewrite Ha. }
    destruct (findIndex_spec (fun h => bool_decide (h = colB)) hs)
      as [[Hb _]|(j & y & Hb & Hj & Hy & _)].
    { unfold DataCleaner.swapHeaders. by rewrite Hb, andb_false_r. }
    apply bool_decide_eq_true in Hx as ->. apply bool_decide_eq_true in Hy as ->.
    rewrite (swapHeaders_found _ _ _ _ _ Ha Hb).
    by apply insert_swap_Permutation.
  - intros Hnd.
    assert (Hcases : (colA ∉ hs \/ colB ∉ hs) \/
                     exists i j, hs !! i = Some colA /\ hs !! j = Some colB).
    { destruct (decide (colA ∈ hs)) as [[i Hi]%list_elem_of_lookup|]; [|by left; left].
      destruct (decide (colB ∈ hs)) as [[j Hj]%list_elem_of_lookup|]; [|by left; right].
      right. by exists i, j. }
    assert (Hswap : forall i j, hs !! i = Some colA -> hs !! j = Some colB ->
              DataCleaner.swapHeaders colA colB hs = <[j := colA]> (<[i := colB]> hs)).
    { intros i j Hi Hj. apply swapHeaders_found; by apply findIndex_NoDup. }
    assert (Hswap' : forall i j, hs !! i = Some colA -> hs !! j = Some colB ->
              DataCleaner.swapHeaders colB colA hs = <[i := colB]> (<[j := colA]> hs)).
    { intros i j Hi Hj. apply swapHeaders_found; by apply findIndex_NoDup. }
    split; [|split].
    + intros i j Hi Hj. rewrite (Hswap i j Hi Hj).
      pose proof (lookup_lt_Some _ _ _ Hi). pose proof (lookup_lt_Some _ _ _ Hj).
      destruct (decide (i = j)) as [->|Hne].
      * assert (colA = colB) as -> by congruence.
        rewrite list_insert_insert_eq.
        split; [by rewrite list_lookup_insert_eq|].
        split; [by rewrite list_lookup_insert_eq|].
        intros k Hk _. by rewrite list_lookup_insert_ne.
      * split; [|split].
        -- rewrite list_lookup_insert_ne by done. by rewrite list_lookup_insert_eq.
        -- by rewrite list_lookup_insert_eq by (rewrite length_insert; lia).
        -- intros k Hki Hkj. by rewrite !list_lookup_insert_ne.
    + destruct Hcases as [Hm|(i & j & Hi & Hj)].
      * rewrite (swapHeaders_missing colA colB) by done.
        apply swapHeaders_missing. tauto.
      * rewrite (Hswap i j Hi Hj), (Hswap' i j Hi Hj).
        destruct (decide (i = j)) as [->|Hne].
        -- assert (colA = colB) as -> by congruence. done.
        -- by apply list_insert_insert_ne.
    + destruct Hcases as [Hm|(i & j & Hi & Hj)].
      * rewrite (swapHeaders_missing colA colB hs Hm).
        by apply swapHeaders_missing.
      * pose proof (lookup_lt_Some _ _ _ Hi). pose proof (lookup_lt_Some _ _ _ Hj).
        rewrite (Hswap i j Hi Hj).
        destruct (decide (i = j)) as [->|Hne].
        { assert (colA = colB) as -> by congruence.
          rewrite list_insert_insert_eq, (list_insert_id _ _ _ Hj).
          rewrite (Hswap j j Hj Hj).
          by rewrite list_insert_insert_eq, list_insert_id. }
        assert (Hnd' : NoDup (<[j := colA]> (<[i := colB]> hs))).
        { rewrite (insert_swap_Permutation hs i j colA colB); done. }
        assert (Ha' : <[j := colA]> (<[i := colB]> hs) !! j = Some colA)
          by (by rewrite list_lookup_insert_eq by (rewrite length_insert; lia)).
        assert (Hb' : <[j := colA]> (<[i := colB]> hs) !! i = Some colB).
        { rewrite list_lookup_insert_ne by done. by rewrite list_lookup_insert_eq. }
        rewrite (swapHeaders_found colA colB _ j i);
          [|by apply findIndex_NoDup..].
        rewrite list_insert_insert_eq.
        rewrite (list_insert_insert_ne _ i j) by done.
        rewrite list_insert_insert_eq.
        rewrite (list_insert_id _ i) by done. by apply list_insert_id.
Qed.

(** An instance: the first and the last of three headers. *)
Lemma swap_columns_permutes_headers_witness :
  DataCleaner.swapHeaders (str "a") (str "c")
    (DataCleaner.swapHeaders (str "a") (str "c") [str "a"; str "b"; str "c"])
  = [str "a"; str "b"; str "c"].
Proof.
  apply (swap_columns_permutes_headers (str "a") (str "c") [str "a"; str "b"; str "c"]).
  repeat (apply NoDup_cons; split;
          [vm_compute; intros H; repeat (apply elem_of_cons in H as [H|H]; [discriminate|]);
           by apply elem_of_nil in H|]).
  apply NoDup_nil_2.
Defined.

(** ** The preview table: exporting everything *)

Lemma exportRow_fold_lookup (row : gmap jsstring value) (fs : list FieldDefinition)
    (acc : gmap jsstring value) (L : jsstring) :
  foldl (fun (cleanRow : gmap jsstring value) f =>
           <[label f := get row (key f)]> cleanRow) acc fs !! L
  = match last (List.filter (fun f => bool_decide (label f = L)) fs) with
    | Some f => Some (get row (key f))
    | None => acc !! L
    end.
Proof.
  revert acc. induction fs as [|x fs IH]; intros acc; cbn [foldl List.filter]; [done|].
  rewrite IH. destruct (bool_decide (label x = L)) eqn:E.
  - apply bool_decide_eq_true in E.
    destruct (List.filter _ fs) as [|y l] eqn:Hf.
    + cbn. rewrite <- E. apply lookup_insert_eq.
    + change (last (x :: y :: l)) with (last (y :: l)).
      destruct (last (y :: l)) eqn:Hl; [done|]. by apply last_None in Hl.
  - apply bool_decide_eq_false in E.
    destruct (last _); [done|]. by rewrite lookup_insert_ne.
Qed.

Lemma elem_of_visibleFields (st : MasterTable.State) (f : FieldDefinition) :
  f ∈ MasterTable.visibleFields st <->
  f ∈ MasterTable.allAvailableFields st /\ key f ∉ MasterTable.hiddenKeys st.
Proof.
  unfold MasterTable.visibleFields.
  rewrite list_elem_of_In, filter_In, <- list_elem_of_In, negb_true_iff.
  by rewrite bool_decide_eq_false.
Qed.

(** Property X24.
    Exporting everything writes one row per row on display, and nothing
    when there is none. A written row is keyed by the labels of the
    visible fields: under a label it holds the cell of the last visible
    field with that label, so two visible fields of one label give one
    column, and the field of a hidden key is written under no label of
    its own. Toggling a column twice leaves the same fields visible. *)
Theorem export_all_follows_visible_labels (st : MasterTable.State) :
  (MasterTable.currentData st = [] -> snd (MasterTable.handleExportAll st) = None) /\
  (MasterTable.currentData st <> [] ->
   snd (MasterTable.handleExportAll st)
   = Some (List.map (exportRow (MasterTable.visibleFields st))
                    (MasterTable.currentData st),
           str "Merged_Master_Data")) /\
  (forall f, f ∈ MasterTable.visibleFields st <->
             f ∈ MasterTable.allAvailableFields st /\
             key f ∉ MasterTable.hiddenKeys st) /\
  (forall row L,
     exportRow (MasterTable.visibleFields st) row !! L
     = (fun f => get row (key f))
         <$> last (List.filter (fun f => bool_decide (label f = L))
                               (MasterTable.visibleFields st))) /\
  (forall k,
     MasterTable.visibleFields (MasterTable.toggleColumn k (MasterTable.toggleColumn k st))
     = MasterTable.visibleFields st).
Proof.
  split; [|split; [|split; [|split]]].
  - intros H. unfold MasterTable.handleExportAll. by rewrite H.
  - intros H. unfold MasterTable.handleExportAll.
    by destruct (MasterTable.currentData st).
  - apply elem_of_visibleFields.
  - intros row L. unfold exportRow. rewrite exportRow_fold_lookup, lookup_empty.
    by destruct (last _).
  - intros k. unfold MasterTable.visibleFields.
    change (MasterTable.allAvailableFields (MasterTable.toggleColumn k
              (MasterTable.toggleColumn k st)))
      with (MasterTable.allAvailableFields st).
    induction (MasterTable.allAvailableFields st) as [|f fs IH]; [done|].
    cbn [List.filter]. rewrite IH. clear IH.
    assert (Hk : bool_decide (key f ∈ MasterTable.hiddenKeys
                   (MasterTable.toggleColumn k (MasterTable.toggleColumn k st)))
                 = bool_decide (key f ∈ MasterTable.hiddenKeys st)); [|by rewrite Hk].
    apply bool_decide_ext. cbn [MasterTable.hiddenKeys MasterTable.toggleColumn
                                MasterTable.setHiddenKeys].
    destruct (decide (k ∈ MasterTable.hiddenKeys st)) as [Hin|Hin].
    + rewrite (bool_decide_eq_true_2 (k ∈ MasterTable.hiddenKeys st)) by done.
      rewrite bool_decide_eq_false_2.
      2:{ intros H. apply list_elem_of_In, filter_In in H as [_ H].
          apply negb_true_iff, bool_decide_eq_false in H. done. }
      rewrite elem_of_app, list_elem_of_singleton, list_elem_of_In, filter_In,
        <- list_elem_of_In, negb_true_iff, bool_decide_eq_false.
      split; [intros [[? _]| ->]; done|].
      intros H. destruct (decide (key f = k)); [by right|by left].
    + rewrite (bool_decide_eq_false_2 (k ∈ MasterTable.hiddenKeys st)) by done.
      rewrite bool_decide_eq_true_2 by (apply elem_of_app; right; left).
      rewrite list_elem_of_In, filter_In, <- list_elem_of_In, negb_true_iff,
        bool_decide_eq_false, elem_of_app, list_elem_of_singleton.
      split; [intros [[?|?] ?]; done|].
      intros H. split; [by left|]. intros Heq. apply Hin. by rewrite <- Heq.
Qed.

(** An instance: the mounted sample table. *)
Lemma export_all_follows_visible_labels_witness :
  snd (MasterTable.handleExportAll sampleTable)
  = Some (List.map (exportRow (MasterTable.visibleFields sampleTable))
                   (MasterTable.currentData sampleTable),
          str "Merged_Master_Data").
Proof.
  apply (export_all_follows_visible_labels sampleTable). discriminate.
Defined.

(** ** The column mapper: moving a sheet *)

(** Property X25.
    Dropping a dragged sheet on another position moves it there: the
    new order is a permutation of the sheets, the dragged sheet is at
    the target position, and the other sheets keep their order. *)
Theorem sheet_drop_moves_the_sheet (d t : nat) (orderedSheets : list SheetData)
    (item : SheetData) :
  orderedSheets !! d = Some item -> (t < length orderedSheets)%nat -> d <> t ->
  exists newOrdered toast_,
    handleSheetDrop (Some d) t orderedSheets = Some (newOrdered, toast_) /\
    newOrdered ≡ₚ orderedSheets /\
    newOrdered !! t = Some item /\
    delete t newOrdered = delete d orderedSheets.
Proof.
  intros Hd Ht Hne. unfold handleSheetDrop.
  rewrite bool_decide_eq_false_2 by done. rewrite Hd.
  eexists _, _. split; [reflexivity|].
  assert (Hlen : length (delete d orderedSheets) = (length orderedSheets - 1)%nat).
  { rewrite length_delete; [done|by eexists]. }
  assert (Htake : length (take t (delete d orderedSheets)) = t)
    by (rewrite length_take; lia).
  split; [|split].
  - rewrite <- Permutation_middle, take_drop. symmetry. by apply delete_Permutation.
  - rewrite lookup_app_r by lia. by rewrite Htake, Nat.sub_diag.
  - rewrite <- Htake at 1. rewrite delete_middle. apply take_drop.
Qed.

(** An instance: the second of two sheets dropped on the first. *)
Lemma sheet_drop_moves_the_sheet_witness :
  exists newOrdered toast_,
    handleSheetDrop (Some 1%nat) 0 [sampleSheetA; sampleSheetB]
      = Some (newOrdered, toast_) /\
    newOrdered !! 0%nat = Some sampleSheetB.
Proof.
  destruct (sheet_drop_moves_the_sheet 1 0 [sampleSheetA; sampleSheetB] sampleSheetB)
    as (newOrdered & toast_ & H & _ & Hl & _); [reflexivity|cbn; lia|lia|].
  by exists newOrdered, toast_.
Defined.

(** ** The column mapper: dropping a candidate on a field *)

Lemma candidates_insert
    (m : gmap jsstring (option (list jsstring))) (k f : jsstring)
    (ids : list jsstring) :
  default [] (<[k := Some ids]> m !! f ≫= id)
  = if bool_decide (f = k) then ids else default [] (m !! f ≫= id).
Proof.
  destruct (decide (f = k)) as [->|Hne].
  - by rewrite lookup_insert_eq, bool_decide_eq_true_2.
  - by rewrite lookup_insert_ne, bool_decide_eq_false_2.
Qed.

(** Property X26.
    A drop of a candidate on another field moves it: the source field
    keeps its other candidates in their order and no longer holds the
    dropped one, the target field keeps its candidates and holds the
    dropped one, last if it is new there, and every other field keeps
    its candidates; so no candidate is lost, and none is doubled in a
    target without doubles. A drop on the field the candidate came from,
    or without an id or a source, changes nothing. *)
Theorem drop_moves_the_candidate (hId fK targetKey : jsstring)
    (st : ColumnMapper.State) :
  let st' := onDropOnField hId fK targetKey st in
  (hId = [] \/ fK = [] \/ fK = targetKey -> st' = st) /\
  (hId <> [] -> fK <> [] -> fK <> targetKey ->
   candidates st' fK
     = List.filter (fun id_ => negb (bool_decide (id_ = hId))) (candidates st fK) /\
   (hId ∉ candidates st' fK) /\
   candidates st' targetKey
     = (if bool_decide (hId ∈ candidates st targetKey)
        then candidates st targetKey else candidates st targetKey ++ [hId]) /\
   hId ∈ candidates st' targetKey /\
   (NoDup (candidates st targetKey) -> NoDup (candidates st' targetKey)) /\
   (forall f, f <> fK -> f <> targetKey -> candidates st' f = candidates st f) /\
   (forall f x, x ∈ candidates st f -> exists f', x ∈ candidates st' f') /\
   ColumnMapper.fields st' = ColumnMapper.fields st /\
   ColumnMapper.joinKey st' = ColumnMapper.joinKey st).
Proof.
  intros st'. split.
  - intros H. unfold st', onDropOnField.
    destruct H as [H|[H|H]]; rewrite H; cbn [truthy negb orb]; [done| |].
    + by rewrite orb_true_r.
    + rewrite bool_decide_eq_true_2 by done. by rewrite !orb_true_r.
  - intros Hh Hf Hne.
    assert (Hguard : negb (truthy (VStr hId)) || negb (truthy (VStr fK))
                     || bool_decide (fK = targetKey) = false).
    { rewrite bool_decide_eq_false_2 by done.
      destruct hId; [done|]. by destruct fK. }
    set (src := List.filter (fun id_ => negb (bool_decide (id_ = hId)))
                            (candidates st fK)).
    assert (Hsrc_not : hId ∉ src).
    { intros Hin. apply list_elem_of_In, filter_In in Hin as [_ Hin].
      apply negb_true_iff, bool_decide_eq_false in Hin. done. }
    assert (Htgt0 : default [] (<[fK := Some src]> (ColumnMapper.mapping st)
                                  !! targetKey ≫= id)
                    = candidates st targetKey).
    { rewrite candidates_insert. by rewrite bool_decide_eq_false_2. }
    assert (Hc : forall f, candidates st' f
              = if bool_decide (f = targetKey)
                then (if bool_decide (hId ∈ candidates st targetKey)
                      then candidates st targetKey
                      else candidates st targetKey ++ [hId])
                else if bool_decide (f = fK) then src else candidates st f).
    { intros f. unfold candidates at 1, st', onDropOnField. rewrite Hguard.
      cbn [ColumnMapper.mapping]. fold (candidates st fK). fold src.
      rewrite Htgt0.
      destruct (bool_decide (hId ∈ candidates st targetKey)) eqn:E.
      - rewrite candidates_insert.
        destruct (decide (f = targetKey)) as [->|Hft].
        + rewrite (bool_decide_eq_true_2 (targetKey = targetKey)) by done.
          by rewrite bool_decide_eq_false_2 by congruence.
        + by rewrite (bool_decide_eq_false_2 (f = targetKey)).
      - rewrite candidates_insert.
        destruct (decide (f = targetKey)) as [->|Hft].
        + by rewrite bool_decide_eq_true_2.
        + rewrite (bool_decide_eq_false_2 (f = targetKey)) by done.
          apply candidates_insert. }
    assert (HfK : candidates st' fK = src).
    { rewrite Hc, bool_decide_eq_false_2 by done. by rewrite bool_decide_eq_true_2. }
    assert (Ht : candidates st' targetKey
                 = if bool_decide (hId ∈ candidates st targetKey)
                   then candidates st targetKey else candidates st targetKey ++ [hId]).
    { rewrite Hc. by rewrite bool_decide_eq_true_2. }
    split; [exact HfK|]. split; [by rewrite HfK|]. split; [exact Ht|].
    split; [|split; [|split; [|split]]].
    + rewrite Ht. destruct (bool_decide (hId ∈ candidates st targetKey)) eqn:E.
      * by apply bool_decide_eq_true in E.
      * apply elem_of_app. right. left.
    + intros Hnd. rewrite Ht. destruct (bool_decide (hId ∈ candidates st targetKey)) eqn:E; [done|].
      apply bool_decide_eq_false in E. apply NoDup_app. split; [done|].
      split; [|apply NoDup_singleton].
      intros x Hx ->%list_elem_of_singleton. done.
    + intros f Hf1 Hf2. rewrite Hc. by rewrite !bool_decide_eq_false_2.
    + intros f x Hx. destruct (decide (x = hId)) as [->|Hxh].
      * exists targetKey. rewrite Ht. destruct (bool_decide (hId ∈ candidates st targetKey)) eqn:E.
        -- by apply bool_decide_eq_true in E.
        -- apply elem_of_app. right. left.
      * exists f. rewrite Hc.
        destruct (decide (f = targetKey)) as [->|Hft].
        -- rewrite bool_decide_eq_true_2 by done.
           destruct (bool_decide (hId ∈ candidates st targetKey)); [done|]. apply elem_of_app. by left.
        -- rewrite bool_decide_eq_false_2 by done.
           destruct (decide (f = fK)) as [->|Hff].
           ++ rewrite bool_decide_eq_true_2 by done.
              apply list_elem_of_In, filter_In. split; [by apply list_elem_of_In|].
              apply negb_true_iff. by apply bool_decide_eq_false.
           ++ by rewrite bool_decide_eq_false_2.
    + unfold st', onDropOnField. by rewrite Hguard.
Qed.

(** An instance: the candidate of field [A] dropped on field [B]. *)
Lemma drop_moves_the_candidate_witness :
  candidates (onDropOnField (str "f::s::a") (str "A") (str "B") twoFields) (str "B")
  = (if bool_decide (str "f::s::a" ∈ candidates twoFields (str "B"))
     then candidates twoFields (str "B")
     else candidates twoFields (str "B") ++ [str "f::s::a"]).
Proof.
  apply (drop_moves_the_candidate (str "f::s::a") (str "A") (str "B") twoFields);
    [discriminate|discriminate|].
  vm_compute. discriminate.
Defined.

(** ** The preview table: adding text in front and behind *)

(** Property X27.
    Adding a text in front of or behind the cells does nothing at all,
    not even a toast, while the text is empty. Otherwise, when no target
    key repeats, every target cell becomes a string: the text joined to
    the printed cell, where a missing, [null], zero, [NaN] or [false]
    cell prints as the empty string, so such a cell becomes the text
    alone and a number cell becomes text. *)
Theorem added_text_makes_strings
    (toUpperCase toLowerCase : jsstring -> jsstring)
    (regExpReplace : jsstring -> option (jsstring -> jsstring -> jsstring))
    (st : MasterTable.State) (front : bool) :
  MasterTable.wellFormed st ->
  MasterTable.selectedTextOp st
    = (if front then MasterTable.prepend else MasterTable.append) ->
  NoDup (List.map key (MasterTable.targetFieldDefs st)) ->
  let st' := MasterTable.executeTextOp toUpperCase toLowerCase regExpReplace st in
  let printed (v : value) := String_ (orValue v (VStr [])) in
  (MasterTable.textInput st = [] -> st' = st) /\
  (MasterTable.textInput st <> [] ->
   forall k row,
     MasterTable.currentData st !! k = Some row ->
     exists row',
       MasterTable.currentData st' !! k = Some row' /\
       forall f, f ∈ List.map key (MasterTable.targetFieldDefs st) ->
         get row' f
         = VStr (if front then MasterTable.textInput st ++ printed (get row f)
                 else printed (get row f) ++ MasterTable.textInput st)).
Proof.
  intros Hwf Hop Hnd st' printed. unfold st', MasterTable.executeTextOp.
  rewrite Hop. split.
  - intros ->. by destruct front.
  - intros Hne k row Hk.
    assert (Htr : truthy (VStr (MasterTable.textInput st)) = true)
      by (cbn; by destruct (MasterTable.textInput st)).
    destruct front; rewrite Htr; cbn [negb]; rewrite applyCleaning_current by done;
      (eexists; split; [rewrite lookup_map; exact (f_equal (fmap _) Hk)|]);
      intros f Hf.
    + set (t := fun val => VStr (MasterTable.textInput st
                                  ++ String_ (orValue val (VStr [])))).
      destruct (cleanRow_cells_NoDup t row (MasterTable.targetFieldDefs st) f Hnd Hf)
        as [[Hl Hs]|Hl].
      * rewrite (get_of_lookup _ _ _ Hl). by apply strictEq_string in Hs.
      * unfold get at 1. by rewrite Hl.
    + set (t := fun val => VStr (String_ (orValue val (VStr []))
                                  ++ MasterTable.textInput st)).
      destruct (cleanRow_cells_NoDup t row (MasterTable.targetFieldDefs st) f Hnd Hf)
        as [[Hl Hs]|Hl].
      * rewrite (get_of_lookup _ _ _ Hl). by apply strictEq_string in Hs.
      * unfold get at 1. by rewrite Hl.
Qed.

(** An instance: nothing to add in front of the cells of the mounted
    sample table. *)
Lemma added_text_makes_strings_witness :
  MasterTable.executeTextOp asciiLowerCase asciiLowerCase (fun _ => None)
    (tableOn [tableRow2] MasterTable.fillEmpty MasterTable.prepend [] [])
  = tableOn [tableRow2] MasterTable.fillEmpty MasterTable.prepend [] [].
Proof.
  apply (added_text_makes_strings asciiLowerCase asciiLowerCase (fun _ => None)
           (tableOn [tableRow2] MasterTable.fillEmpty MasterTable.prepend [] []) true).
  - split; [cbn; lia|repeat constructor; by eexists].
  - reflexivity.
  - cbn. repeat constructor. apply not_elem_of_nil.
  - reflexivity.
Defined.

(** ** The split filter *)




(** ** The field handlers *)

Import ColumnMapper.

(** Adding under a name no field has keeps the field keys distinct. *)
Lemma handleAddField_keeps_keys_distinct (st : State) :
  NoDup (List.map key (fields st)) ->
  NoDup (List.map key (fields (handleAddField st))).
Proof.
  intros Hnd. unfold handleAddField.
  destruct (trim (newFieldName st)) as [|c s] eqn:E; [done|].
  destruct (existsb _ (fields st)) eqn:Hex; [done|].
  cbn [fields]. rewrite map_app. cbn [List.map key].
  apply NoDup_app. split; [done|]. split; [|apply NoDup_singleton].
  intros x Hx ->%list_elem_of_singleton.
  apply list_elem_of_In, in_map_iff in Hx as (f & Hf & Hin).
  assert (Hex' : existsb (fun f => bool_decide (key f = c :: s)) (fields st) = true).
  { apply existsb_exists. exists f. split; [done|]. by apply bool_decide_eq_true. }
  congruence.
Qed.

(** Adding under a name a field already has changes nothing but the
    toasts, which gain one error. *)
Lemma handleAddField_duplicate (st : State) (f : FieldDefinition) :
  f ∈ fields st -> key f = trim (newFieldName st) -> key f <> [] ->
  fields (handleAddField st) = fields st /\
  mapping (handleAddField st) = mapping st /\
  joinKey (handleAddField st) = joinKey st /\
  newFieldName (handleAddField st) = newFieldName st /\
  exists msg, toasts (handleAddField st) = toasts st ++ [(msg, error)].
Proof.
  intros Hin Hkey Hne. unfold handleAddField. rewrite <- Hkey.
  destruct (key f) as [|c s] eqn:E; [done|].
  assert (Hex : existsb (fun f => bool_decide (key f = c :: s)) (fields st) = true).
  { apply existsb_exists. exists f. split; [by apply list_elem_of_In|].
    by apply bool_decide_eq_true. }
  rewrite Hex. cbn [fields mapping joinKey newFieldName toasts]. eauto 10.
Qed.

Lemma handleRemoveField_keeps_keys_distinct (k : jsstring) (st : State) :
  NoDup (List.map key (fields st)) ->
  NoDup (List.map key (fields (handleRemoveField k st))).
Proof.
  unfold handleRemoveField. cbn [fields]. generalize (fields st).
  intros l. induction l as [|f l IH]; [done|]. cbn [List.map List.filter].
  intros [Hf Hl]%NoDup_cons. destruct (negb _); [|by apply IH].
  cbn [List.map]. apply NoDup_cons. split; [|by apply IH].
  intros Hin. apply Hf.
  apply list_elem_of_In, in_map_iff in Hin as (g & Hg & Hin).
  apply filter_In in Hin as [Hin _].
  apply list_elem_of_In, in_map_iff. eauto.
Qed.

(** Claim C9 on renaming field [A] to [B] while a field [B] exists: the
    rename goes through without any toast, leaves two fields keyed [B],
    replaces the candidates of [B] by those of [A], and moves the join
    key; adding a field named [B] on the same state is refused with an
    error toast. *)
Theorem rename_to_existing_key_goes_through :
  NoDup (List.map key (fields twoFields)) /\
  List.map key (fields (handleRenameField (str "A") (str "B") twoFields))
    = [str "B"; str "B"] /\
  ~ NoDup (List.map key (fields (handleRenameField (str "A") (str "B") twoFields))) /\
  toasts (handleRenameField (str "A") (str "B") twoFields) = [] /\
  mapping twoFields !! str "B" = Some (Some [str "f::s::b"]) /\
  mapping (handleRenameField (str "A") (str "B") twoFields) !! str "B"
    = Some (Some [str "f::s::a"]) /\
  mapping (handleRenameField (str "A") (str "B") twoFields) !! str "A" = None /\
  joinKey (handleRenameField (str "A") (str "B") twoFields) = str "B" /\
  fields (handleAddField twoFields) = fields twoFields /\
  mapping (handleAddField twoFields) = mapping twoFields /\
  List.map snd (toasts (handleAddField twoFields)) = [error].
Proof.
  split.
  { apply NoDup_cons. split; [|apply NoDup_singleton].
    intros H%list_elem_of_singleton. revert H. vm_compute. discriminate. }
  assert (E : List.map key (fields (handleRenameField (str "A") (str "B") twoFields))
              = [str "B"; str "B"]) by (vm_compute; reflexivity).
  split; [exact E|]. split.
  { rewrite E. intros [H _]%NoDup_cons. apply H. left. }
  repeat split; vm_compute; reflexivity.
Qed.
